(* ===== verification/_CoqProject ===== *)
-Q . S2P
Prelude.v
Api.v
Buffers.v
Time.v
Runtime.v
MockTime.v
Mock.v
Kernel.v
Wait.v
FreeRtosQueue.v
FreeRtosSync.v
FreeRtosRuntime.v
Fixture.v
FixtureWait.v
FreeRtosTask.v
PosixSys.v
PosixMonitor.v
PosixSync.v
TimerRegistry.v
PosixTimer.v
PosixTimerMachine.v
FreeRtosTimer.v
FreeRtosTimerMachine.v
PosixTask.v
PosixTaskMachine.v
TimerEquiv.v
PosixObjects.v
PosixLock.v
Critical.v
Allocator.v
Client.v
Contract.v
MockClient.v
PosixClient.v
FreeRtosClient.v
Pipeline.v
Demo.v
Portable.v
