(* ===== verification/Prelude.v ===== *)
(** * A verification library for the OSAL runtime

    The program ([src/crates]) is an operating-system abstraction layer: one
    set of traits (queues, semaphores, mutexes, tasks, timers, clocks) with a
    mock, a POSIX and a FreeRTOS backend.  The backends share portable data
    structures ([osal-portable]) and a lifecycle that counts live objects
    ([osal-shared]); every object holds a lease on the lifecycle, and every
    blocking call goes through a backend's wait engine or monitor.

    ** Files

    - [Prelude]: running code ([Run]: values, panics, fuel), machine integers,
      slices, [Result], the state-passing monad [M], tactics, counting lemmas.
    - [Api]: [osal-api] (errors, time-outs, [Duration], handles, states).
    - [Buffers]: [byte_queue.rs], [counting_semaphore.rs], [close_state.rs];
      [Fifo] is the abstract bounded queue, [QueueTrace] runs operations,
      [FifoFacts] has what the shared queues of the backends need.
    - [Time]: [tick_time.rs], [time_convert.rs], [timer_state.rs].
    - [Runtime]: [validation.rs] and [runtime.rs] of [osal-shared]; [Lifecycle]
      interleaves single atomic accesses of any number of tasks and simulates
      them by an atomic specification.
    - [MockTime]: [time_runtime.rs] and the dispatch loop of [clock.rs] of the
      mock backend; callbacks may call back into the registry.
    - [Mock]: every object of the mock backend over one reference-counted heap;
      [MockWorld] is the machine of all its calls, clones and drops.
    - [Kernel]: the safe wrappers of [osal-backend-freertos-sys]; the FreeRTOS
      kernel is the class [Kernel] with the laws [KernelLaws], and
      [VirtualKernel] an instance.
    - [Wait]: [clock.rs] and [wait.rs] of the FreeRTOS backend.
    - [FreeRtosQueue]: [queue.rs]: critical sections and wake-up credits;
      [QueueMachine] interleaves any number of senders, receivers and closes.
    - [FreeRtosSync]: [semaphore.rs], [mutex.rs], the constructor and drop of
      [queue.rs]; [Objects] treats all constructors alike, [MutexMachine]
      interleaves tasks on one mutex.
    - [PosixSys]: [sys/errno.rs], [sys/time.rs], [sys/mutex.rs], [clock.rs] and
      the lock of [mutex.rs] of the POSIX backend; the C library is the class
      [Posix] with [PosixLaws], and [VirtualPosix] an instance.
    - [PosixMonitor]: the interface [Monitor] with [MonitorLaws] of an object
      that is a mutex with condition variables, and the machine of any number
      of threads on it, proved against the interface.
    - [PosixSync]: [semaphore.rs] and [queue.rs] of the POSIX backend as
      monitors.
    - [FreeRtosRuntime]: [runtime.rs] of the FreeRTOS backend: start and stop as
      transitions under way, cached capabilities, leases.
    - [Fixture]: [sync_fixture.rs] and the fixture parts of [lib.rs] of
      [osal-backend-freertos-sys], the kernel the FreeRTOS backend is tested on.
    - [FixtureWait]: waits on that kernel, and [send], [recv], [close] and [len] of
      [queue.rs] as whole calls.
    - [FreeRtosTask]: [task.rs]: builder, spawn, trampoline, completion, join;
      [TaskMachine] interleaves them access by access.
    - [TimerRegistry]: the timer registry both services have, with the facts
      about selecting, arming and deleting entries.
    - [PosixTimer], [PosixTimerMachine]: [timer_service.rs], [timer_control.rs],
      [timer.rs] and [runtime.rs] of the POSIX backend; [TimerMachine]
      interleaves starts, stops, timer calls, callbacks and workers.
    - [FreeRtosTimer], [FreeRtosTimerMachine]: the same three files of the
      FreeRTOS backend, with reference counts and native objects of the service.
    - [TimerEquiv]: both timer services run on the same requests.
    - [PosixTask], [PosixTaskMachine]: [task.rs], [sys/task.rs] and [sys/tls.rs] of
      the POSIX backend; the machine interleaves spawns, trampolines, joins,
      clones and drops access by access.
    - [PosixObjects]: constructors and drops of the POSIX semaphores, queues and
      mutexes over a C library any of whose calls can fail.
    - [PosixLock]: [mutex.rs] of the POSIX backend under any interleaving.
    - [Critical]: critical sections ([system.rs]): on POSIX the machine of any number
      of threads on [pthread_once] and the recursive mutex, on FreeRTOS the calls
      of a guard.
    - [Allocator]: [allocator.rs] of the FreeRTOS integration: aligned allocations
      with a header, over a heap with laws and byte memory.
    - [Client]: single-threaded programs over queues, semaphores, mutexes, handles
      and the runtime ([osal-api/src/traits]); [Spec] is their specification,
      [Backend] and [BackendLaws] what an implementation promises.
    - [Contract]: the core contracts of [osal-testkit] as client programs.
    - [MockClient], [PosixClient], [FreeRtosClient]: the three backends are
      implementations, FreeRTOS over the kernel of [Fixture].
    - [Pipeline]: the application [examples/osal-demo/src/pipeline_demo.rs] over the
      abstract queue: producers, consumers, monitor and supervisor.
    - [Demo]: the bodies of the queue, mutex and semaphore demonstrations of
      [examples/osal-demo] and the cases of the FreeRTOS integration that need one
      task only, as client programs.
    - [Portable]: contracts, demonstrations and cases on the three backends.

    ** How code becomes definitions

    A function that can panic returns [Run]; overflow of the plain operators
    is a panic, so "it completes" also excludes wrap-around.  [?] is [←?] or
    [<-?].  State is passed explicitly.  Atomic words are interleaved access
    by access, critical sections section by section; waits, wake-ups, spurious
    wake-ups and timeouts are separate steps.  The pointer width is the class
    [Arch] (32 or 64 bits).  External code is a class of operations with a
    class of documented laws, each with an instance that has them.

    ** What the theorems show

    - Buffers: the ring buffer is a bounded FIFO for every sequence of calls;
      messages survive a close; the semaphore count is conserved.
    - Lifecycle: linearizable under every interleaving, never reaches an
      assertion, counts the leases exactly, terminates without interference.
    - Time: conversions are exact, saturating and monotone across wrap-around;
      periodic deadlines stay on their grid; timers fire once per deadline.
    - Mock: no reachable panic; shutdown exactly when idle; the timer registry
      agrees with the live handles; dispatch terminates with nothing due and
      takes timers in order.
    - FreeRTOS: delays and waits are never short and return; queues are
      linearizable, lose no wake-up, keep the credit protocol, release everyone
      on close; mutexes exclude; constructors roll back completely; tasks are
      counted, named and joined exactly and free what they hold (but for the
      event group of a spawn that runs out of handles); timers are served in
      order and never forgotten, no interleaving panics unless the registry mutex is
      taken with the scheduler suspended while another task has it, and stopping
      the service completes.
    - POSIX: deadlines are exact; sleeping and timed locking are never short and
      return; the semaphore and the queue are correct under every interleaving
      with spurious wake-ups, and lose no wake-up but those that waits ending in
      [ETIMEDOUT] have consumed; timers and tasks as for FreeRTOS; constructors
      roll back whatever fails, but a failed [pthread] initialisation is followed
      by a destruction POSIX leaves undefined; the mutex excludes; critical
      sections exclude and nest while guards stay in their threads.
    - Both timer services are equivalent, the requests FreeRTOS refuses apart.
    - The allocator hands out aligned, disjoint memory and frees what it took.
    - The mock backend predicts what a single-threaded client program gets from the
      POSIX and from the FreeRTOS backend; the contract suite, the demonstrations
      and the integration cases pass on all three.
    - The pipeline does not panic within 2^32 steps, loses no packet unless a worker
      fails, corrupts none, its checks can only fail as documented, and it ends
      after the stop.

    ** Bounds and fuel

    Loops that are not structurally recursive take fuel and the theorems say
    how much is enough: segments of a delay (duration over the longest native
    delay), rounds of a deadline wait or timed lock (one per tick or
    millisecond), dispatch rounds (expired timers and callback operations),
    interruptions of a sleep ([PosixFacts.calm]).  A client of the FreeRTOS
    backend needs two rounds per loop ([FixtureWait.FUEL]): the second finds the
    deadline passed; 2^16 calls of at most 2^20 seconds with 2^20 spurious
    wake-ups each leave the tick counter in its range.  [NoFuel] never equals [Done].

    ** What is not modelled

    Waits for the slot's spin lock ([FreeRtosTimerMachine]; the panic of a registry
    lock with a suspended scheduler is modelled, and [event_ok] excludes it); that a
    FreeRTOS critical section keeps other tasks from running; the clock polling of
    [with_runtime] outside [Pipeline]; the task fixture and test hooks; the
    facade, which only forwards; contracts and test cases that run threads,
    clocks and callbacks or compare free heap; the text of reports; the C shim. *)

From stdpp Require Export base tactics option gmap strings numbers.
From stdpp Require Export list.

#[export] Set Warnings "-clear-no-such-hyp".

Declare Scope osal_scope.
Delimit Scope osal_scope with osal.
#[global] Open Scope Z_scope.

(** ** Running code: values, panics, fuel *)

(** The outcome of running a piece of Rust code.  [Panic] is an unwinding or
    aborting panic (a failed [assert!], [expect], [unwrap], slice bound, or an
    arithmetic overflow in the checked profile); [NoFuel] is reached only when
    the bound given to a loop was too small. *)
Inductive Run (A : Type) : Type :=
| Done (a : A)
| Panic (msg : string)
| NoFuel.
Arguments Done {A} a.
Arguments Panic {A} msg.
Arguments NoFuel {A}.

#[global] Instance Run_ret : MRet Run := λ A a, Done a.
#[global] Instance Run_bind : MBind Run := λ A B f m,
  match m with
  | Done a => f a
  | Panic s => Panic s
  | NoFuel => NoFuel
  end.

(** [assert!(b, msg)] and [debug_assert!(b, msg)]. *)
Definition rassert (b : bool) (msg : string) : Run () :=
  if b then Done () else Panic msg.

(** [o.expect(msg)] and [o.unwrap()]. *)
Definition expect {A} (o : option A) (msg : string) : Run A :=
  match o with Some a => Done a | None => Panic msg end.

(** A run that produces a value, the form every "does not panic" theorem has. *)
Definition completes {A} (m : Run A) : Prop := ∃ a, m = Done a.

(** ** Machine integers *)

(** The pointer width of the target: the backends run on 64-bit hosts and on
    the 32-bit Cortex-M3. *)
Class Arch := {
  usize_bits : Z;
  usize_bits_ok : usize_bits = 32 ∨ usize_bits = 64;
}.

Definition arch64 : Arch := {| usize_bits := 64; usize_bits_ok := or_intror eq_refl |}.
Definition arch32 : Arch := {| usize_bits := 32; usize_bits_ok := or_introl eq_refl |}.

(** Range of a [w]-bit unsigned integer and its largest value. *)
Definition in_uint (w n : Z) : Prop := 0 ≤ n < 2 ^ w.
Definition uint_max (w : Z) : Z := 2 ^ w - 1.

#[global] Instance in_uint_dec w n : Decision (in_uint w n).
Proof. unfold in_uint. apply _. Defined.

(** [checked_add], [checked_sub], [checked_mul], [checked_div],
    [wrapping_add] and [saturating_sub] of the unsigned integers. *)
Definition checked_add (w a b : Z) : option Z :=
  if a + b <? 2 ^ w then Some (a + b) else None.
Definition checked_sub (a b : Z) : option Z :=
  if b <=? a then Some (a - b) else None.
Definition checked_mul (w a b : Z) : option Z :=
  if a * b <? 2 ^ w then Some (a * b) else None.
Definition checked_div (a b : Z) : option Z :=
  if b =? 0 then None else Some (a / b).
Definition wrapping_add (w a b : Z) : Z := (a + b) mod 2 ^ w.
Definition wrapping_sub (w a b : Z) : Z := (a - b) mod 2 ^ w.
Definition saturating_sub (a b : Z) : Z := Z.max 0 (a - b).
Definition saturating_add (w a b : Z) : Z := Z.min (uint_max w) (a + b).

(** The plain operators [+], [-] and [*] on unsigned integers: an overflow
    panics in the checked profile, so a theorem that the code completes also
    says that it never wraps in the release profile. *)
Definition uadd (w a b : Z) : Run Z :=
  expect (checked_add w a b) "attempt to add with overflow".
Definition usub (a b : Z) : Run Z :=
  expect (checked_sub a b) "attempt to subtract with overflow".
Definition umul (w a b : Z) : Run Z :=
  expect (checked_mul w a b) "attempt to multiply with overflow".

(** ** Slices *)

(** [&v[off .. off + n]]: out of range panics. *)
Definition slice {A} (v : list A) (off n : Z) : Run (list A) :=
  if off + n <=? Z.of_nat (length v)
  then Done (take (Z.to_nat n) (drop (Z.to_nat off) v))
  else Panic "range end index out of range for slice".

(** [v[off .. off + n].copy_from_slice(data)]: panics when the range is out
    of bounds or the lengths differ. *)
Definition slice_copy {A} (v : list A) (off n : Z) (data : list A) : Run (list A) :=
  if off + n <=? Z.of_nat (length v) then
    if Z.of_nat (length data) =? n then
      Done (take (Z.to_nat off) v ++ data ++ drop (Z.to_nat (off + n)) v)
    else Panic "source slice length does not match destination slice length"
  else Panic "range end index out of range for slice".

(** ** The [Result] type and the [?] operator

    The error type is a parameter here; [Api] fixes it to the OSAL errors. *)
Inductive Res (E A : Type) : Type :=
| Ok (a : A)
| Err (e : E).
Arguments Ok {E A} a.
Arguments Err {E A} e.

#[global] Instance Res_ret E : MRet (Res E) := λ A a, Ok a.
#[global] Instance Res_bind E : MBind (Res E) := λ A B f m,
  match m with Ok a => f a | Err e => Err e end.

#[global] Instance Res_eq_dec {E A} `{EqDecision E, EqDecision A} : EqDecision (Res E A).
Proof. solve_decision. Defined.

#[global] Instance Run_eq_dec {A} `{EqDecision A} : EqDecision (Run A).
Proof. solve_decision. Defined.

(** [o.ok_or(e)] and [r.map_err(|_| e)]. *)
Definition ok_or {E A} (o : option A) (e : E) : Res E A :=
  match o with Some a => Ok a | None => Err e end.
Definition map_err {E F A} (f : E → F) (r : Res E A) : Res F A :=
  match r with Ok a => Ok a | Err e => Err (f e) end.
Definition is_ok {E A} (r : Res E A) : bool :=
  match r with Ok _ => true | Err _ => false end.

(** [let x = m?; k] where [m] may also panic. *)
Definition try_bind {E A B} (m : Run (Res E A)) (k : A → Run (Res E B)) : Run (Res E B) :=
  r ← m; match r with Ok a => k a | Err e => Done (Err e) end.

Notation "x '←?' m ; k" := (try_bind m (λ x, k))
  (at level 20, m at level 100, k at level 200, right associativity,
   format "x  '←?'  m ;  '/' k") : osal_scope.
#[global] Open Scope osal_scope.

(** ** State-passing code

    [M S A] is code with shared state [S]: it returns a value and the state
    left behind, or panics (in which case no later code observes the state). *)
Definition M (S A : Type) : Type := S → Run (A * S).

Definition mret_ {S A} (a : A) : M S A := λ s, Done (a, s).
Definition mbind_ {S A B} (k : A → M S B) (m : M S A) : M S B := λ s,
  '(a, s') ← m s; k a s'.
Definition mget {S} : M S S := λ s, Done (s, s).
Definition mput {S} (s : S) : M S () := λ _, Done ((), s).
Definition mmodify {S} (f : S → S) : M S () := λ s, Done ((), f s).
Definition mpanic {S A} (msg : string) : M S A := λ _, Panic msg.
Definition mrun {S A} (m : Run A) : M S A := λ s, a ← m; Done (a, s).
(** The [?] operator in state-passing code: an early return keeps the state. *)
Definition mtry {S E A B} (k : A → M S (Res E B)) (m : M S (Res E A)) : M S (Res E B) :=
  mbind_ (λ r, match r with Ok a => k a | Err e => mret_ (Err e) end) m.

Notation "x '<-' m ';;' k" := (mbind_ (λ x, k) m)
  (at level 100, m at next level, right associativity) : osal_scope.
Notation "x '<-?' m ';;' k" := (mtry (λ x, k) m)
  (at level 100, m at next level, right associativity) : osal_scope.
Notation "m ';;;' k" := (mbind_ (λ _, k) m)
  (at level 100, right associativity) : osal_scope.

(** ** Automation

    [osal] collects the lemmas that close the routine side conditions
    (ranges, completed runs); [osal_rw] the equations that step code. *)
Create HintDb osal.
Create HintDb osal_rw.

(** Turn boolean comparisons in the context and the goal into propositions. *)
Ltac bool_to_prop :=
  repeat match goal with
  | H : (_ <? _) = true |- _ => apply Z.ltb_lt in H
  | H : (_ <? _) = false |- _ => apply Z.ltb_ge in H
  | H : (_ <=? _) = true |- _ => apply Z.leb_le in H
  | H : (_ <=? _) = false |- _ => apply Z.leb_gt in H
  | H : (_ =? _) = true |- _ => apply Z.eqb_eq in H
  | H : (_ =? _) = false |- _ => apply Z.eqb_neq in H
  | H : _ && _ = true |- _ => apply andb_true_iff in H as [? ?]
  | H : _ || _ = false |- _ => apply orb_false_iff in H as [? ?]
  | H : negb _ = true |- _ => apply negb_true_iff in H
  | H : negb _ = false |- _ => apply negb_false_iff in H
  end.

(** Decide the integer comparisons of the goal whose value follows by [lia]. *)
Ltac zb :=
  repeat (match goal with
  | |- context [?a <? ?b] => rewrite (proj2 (Z.ltb_lt a b)) by lia
  | |- context [?a <? ?b] => rewrite (proj2 (Z.ltb_ge a b)) by lia
  | |- context [?a <=? ?b] => rewrite (proj2 (Z.leb_le a b)) by lia
  | |- context [?a <=? ?b] => rewrite (proj2 (Z.leb_gt a b)) by lia
  | |- context [?a =? ?b] => rewrite (proj2 (Z.eqb_eq a b)) by lia
  | |- context [?a =? ?b] => rewrite (proj2 (Z.eqb_neq a b)) by lia
  end; simpl).

(** Case analysis on the scrutinees the code branches on. *)
Ltac case_if :=
  match goal with
  | |- context [if ?b then _ else _] =>
      lazymatch type of b with bool => destruct b eqn:? end
  | H : context [if ?b then _ else _] |- _ =>
      lazymatch type of b with bool => destruct b eqn:? end
  end.
Ltac case_match_goal :=
  match goal with
  | |- context [match ?x with _ => _ end] => destruct x eqn:?
  end.

(** Step through a run: unfold the monad and reduce. *)
Ltac run_simpl :=
  repeat (unfold mbind, mret, Run_bind, Run_ret, try_bind, Res_bind, Res_ret,
            mbind_, mret_, mtry, mget, mput, mmodify, mrun, rassert, expect in *;
          simpl in *).

(** Invert equalities between runs and results. *)
Ltac run_inv := simplify_eq.

(** ** Shared lemmas *)

Section Integers.

Lemma pow2_pos w : 0 ≤ w → 0 < 2 ^ w.
Proof. intros. apply Z.pow_pos_nonneg; lia. Qed.

Lemma usize_bits_pos `{Arch} : 0 < usize_bits.
Proof. destruct usize_bits_ok as [-> | ->]; lia. Qed.

Lemma usize_range `{Arch} : 2 ^ 32 ≤ 2 ^ usize_bits ≤ 2 ^ 64.
Proof. destruct usize_bits_ok as [-> | ->]; split; by apply Z.leb_le. Qed.

Lemma uint_max_lt w : 0 ≤ w → 0 ≤ uint_max w < 2 ^ w.
Proof. intros. unfold uint_max. pose proof (pow2_pos w). lia. Qed.

Lemma checked_add_Some w a b c :
  checked_add w a b = Some c ↔ c = a + b ∧ a + b < 2 ^ w.
Proof. unfold checked_add. case_if; bool_to_prop; (split; [intros [=] | intros [-> ?]]); subst; done || lia. Qed.

Lemma checked_add_None w a b : checked_add w a b = None ↔ 2 ^ w ≤ a + b.
Proof. unfold checked_add. case_if; bool_to_prop; split; done || lia. Qed.

Lemma checked_sub_Some a b c : checked_sub a b = Some c ↔ c = a - b ∧ b ≤ a.
Proof. unfold checked_sub. case_if; bool_to_prop; (split; [intros [=] | intros [-> ?]]); subst; done || lia. Qed.

Lemma checked_sub_None a b : checked_sub a b = None ↔ a < b.
Proof. unfold checked_sub. case_if; bool_to_prop; split; done || lia. Qed.

Lemma checked_mul_Some w a b c :
  checked_mul w a b = Some c ↔ c = a * b ∧ a * b < 2 ^ w.
Proof. unfold checked_mul. case_if; bool_to_prop; (split; [intros [=] | intros [-> ?]]); subst; done || lia. Qed.

Lemma checked_mul_None w a b : checked_mul w a b = None ↔ 2 ^ w ≤ a * b.
Proof. unfold checked_mul. case_if; bool_to_prop; split; done || lia. Qed.

Lemma uadd_ok w a b : a + b < 2 ^ w → uadd w a b = Done (a + b).
Proof. intros. unfold uadd, checked_add. by rewrite (proj2 (Z.ltb_lt _ _)). Qed.

Lemma usub_ok a b : b ≤ a → usub a b = Done (a - b).
Proof. intros. unfold usub, checked_sub. by rewrite (proj2 (Z.leb_le _ _)). Qed.

Lemma umul_ok w a b : a * b < 2 ^ w → umul w a b = Done (a * b).
Proof. intros. unfold umul, checked_mul. by rewrite (proj2 (Z.ltb_lt _ _)). Qed.

Lemma mod_step a n : 0 ≤ a < n → (a + 1) mod n = if decide (a + 1 = n) then 0 else a + 1.
Proof.
  intros. case_decide as E; [rewrite E; by apply Z.mod_same; lia | apply Z.mod_small; lia].
Qed.

(** A ring index is either below the size or wrapped once. *)
Lemma mod_wrap x n : 0 ≤ x < 2 * n → x mod n = if x <? n then x else x - n.
Proof.
  intros. case_if; bool_to_prop; [apply Z.mod_small; lia|].
  replace x with (x - n + 1 * n) at 1 by lia. rewrite Z.mod_add by lia. apply Z.mod_small. lia.
Qed.

Lemma seqZ_snoc n : 0 ≤ n → seqZ 0 (n + 1) = seqZ 0 n ++ [n].
Proof. intros. rewrite seqZ_app by lia. by rewrite Z.add_0_l. Qed.

Lemma seqZ_head n : 0 < n → seqZ 0 n = 0 :: (Z.add 1 <$> seqZ 0 (n - 1)).
Proof. intros. by rewrite seqZ_cons, fmap_add_seqZ, Z.sub_1_r. Qed.

End Integers.

(** Stepping over a call whose outcome is known. *)
Lemma mbind_done {S A B} (k : A → M S B) (m : M S A) s a s' :
  m s = Done (a, s') → mbind_ k m s = k a s'.
Proof. intros E. unfold mbind_. by rewrite E. Qed.

Lemma mtry_ok {S E A B} (k : A → M S (Res E B)) (m : M S (Res E A)) s a s' :
  m s = Done (Ok a, s') → mtry k m s = k a s'.
Proof. intros X. unfold mtry. by rewrite (mbind_done _ _ _ _ _ X). Qed.

Lemma mtry_err {S E A B} (k : A → M S (Res E B)) (m : M S (Res E A)) s e s' :
  m s = Done (Err e, s') → mtry k m s = Done (Err e, s').
Proof. intros X. unfold mtry. by rewrite (mbind_done _ _ _ _ _ X). Qed.

Section Slices.
Context {A : Type}.
Implicit Types v d : list A.

Lemma slice_ok v off n :
  off + n ≤ Z.of_nat (length v) →
  slice v off n = Done (take (Z.to_nat n) (drop (Z.to_nat off) v)).
Proof. intros. unfold slice. by rewrite (proj2 (Z.leb_le _ _)). Qed.

Lemma slice_copy_ok v off n d :
  off + n ≤ Z.of_nat (length v) → Z.of_nat (length d) = n →
  slice_copy v off n d =
    Done (take (Z.to_nat off) v ++ d ++ drop (Z.to_nat (off + n)) v).
Proof.
  intros ? <-. unfold slice_copy.
  by rewrite (proj2 (Z.leb_le _ _)), Z.eqb_refl.
Qed.

Lemma slice_copy_length v off n d v' :
  0 ≤ off → slice_copy v off n d = Done v' → length v' = length v.
Proof.
  unfold slice_copy. intros ? E. repeat case_if; run_inv; bool_to_prop.
  rewrite !length_app, length_take, length_drop. lia.
Qed.

(** Reading back a slot: the written one holds the data, a disjoint one is
    unchanged. *)
Lemma slice_copy_read_same v off n d v' :
  0 ≤ off → slice_copy v off n d = Done v' →
  take (Z.to_nat n) (drop (Z.to_nat off) v') = d.
Proof.
  unfold slice_copy. intros ? E. repeat case_if; run_inv; bool_to_prop.
  rewrite drop_app_length' by (rewrite length_take; lia).
  by rewrite take_app_length' by lia.
Qed.

Lemma slice_copy_read_other v off n d v' o :
  0 ≤ off → 0 ≤ o → 0 ≤ n → slice_copy v off n d = Done v' →
  o + n ≤ off ∨ off + n ≤ o →
  take (Z.to_nat n) (drop (Z.to_nat o) v') = take (Z.to_nat n) (drop (Z.to_nat o) v).
Proof.
  unfold slice_copy. intros ? ? ? E Hd. repeat case_if; run_inv; bool_to_prop.
  destruct Hd.
  - rewrite drop_app_le by (rewrite length_take; lia).
    rewrite take_app_le by (rewrite length_drop, length_take; lia).
    rewrite skipn_firstn_comm, firstn_firstn. f_equal. lia.
  - rewrite app_assoc, drop_app_ge by (rewrite length_app, length_take; lia).
    rewrite drop_drop, length_app, length_take. do 2 f_equal. lia.
Qed.

End Slices.

(** ** Counting the elements a test accepts *)

Fixpoint countb {A} (f : A → bool) (l : list A) : nat :=
  match l with [] => 0 | x :: l => Nat.b2n (f x) + countb f l end.

Section Counting.
Context {A : Type} (f : A → bool).
Implicit Types l : list A.

Lemma countb_app l l' : countb f (l ++ l') = (countb f l + countb f l')%nat.
Proof. induction l as [|x l IH]; simpl; [done|]. rewrite IH. lia. Qed.

Lemma countb_insert l i x y :
  l !! i = Some x → (countb f (<[i:=y]> l) + Nat.b2n (f x) = countb f l + Nat.b2n (f y))%nat.
Proof.
  revert i. induction l as [|z l IH]; intros [|i] E; csimpl in *; simplify_eq; [lia|].
  specialize (IH i E). lia.
Qed.

Lemma countb_delete l i x :
  l !! i = Some x → (countb f (delete i l) + Nat.b2n (f x) = countb f l)%nat.
Proof.
  revert i. induction l as [|z l IH]; intros [|i] E; csimpl in *; simplify_eq; [lia|].
  specialize (IH i E). lia.
Qed.

Lemma countb_perm l l' : l ≡ₚ l' → countb f l = countb f l'.
Proof. induction 1; simpl; lia. Qed.

Lemma countb_zero l : countb f l = 0%nat ↔ Forall (λ x, f x = false) l.
Proof.
  induction l as [|x l IH]; simpl; [by split|]. rewrite Forall_cons, <- IH.
  destruct (f x); simpl; split; intros; try lia; destruct_and?; try done; split; done || lia.
Qed.

Lemma countb_pos l i x : l !! i = Some x → f x = true → (0 < countb f l)%nat.
Proof. intros Hi Hx. pose proof (countb_delete l i x Hi). rewrite Hx in *. simpl in *. lia. Qed.

Lemma countb_le_length l : (countb f l ≤ length l)%nat.
Proof. induction l as [|x l IH]; simpl; [lia|]. destruct (f x); simpl; lia. Qed.

Lemma countb_mono (g : A → bool) l :
  (∀ x, f x = true → g x = true) → (countb f l ≤ countb g l)%nat.
Proof.
  intros Hfg. induction l as [|x l IH]; simpl; [lia|]. specialize (Hfg x).
  destruct (f x); [rewrite Hfg by done|]; simpl; lia.
Qed.

Lemma countb_filter (P : A → Prop) `{∀ x, Decision (P x)} l :
  (∀ x, f x = true ↔ P x) → countb f l = length (filter P l).
Proof.
  intros HP. induction l as [|x l IH]; simpl; [done|]. rewrite IH. specialize (HP x).
  destruct (f x), (decide (P x)); rewrite ?filter_cons_True, ?filter_cons_False by done; naive_solver.
Qed.

End Counting.

#[export] Hint Resolve pow2_pos usize_bits_pos : osal.
