(* ===== verification/Api.v ===== *)
(** * The public API types ([crates/osal-api])

    Errors, time-outs, task and timer types, the runtime states, the part of
    [core::time::Duration] the sources use. *)

From S2P Require Import Prelude.

(** ** [osal_api::error] *)

Module Error.

Inductive t : Type :=
| OutOfMemory
| Timeout
| QueueFull
| QueueEmpty
| QueueClosed
| InvalidMessageSize
| LockFailed
| Overflow
| NotFound
| InvalidParameter
| AlreadyInitialized
| NotInitialized
| Busy
| Unsupported
| Internal (msg : string).

#[global] Instance eq_dec : EqDecision t.
Proof. solve_decision. Defined.

(** The derived [PartialEq] as a boolean test. *)
Definition eqb (a b : t) : bool := bool_decide (a = b).

End Error.

Abbreviation Result := (Res Error.t).

(** ** [core::time::Duration]: seconds and sub-second nanoseconds *)

Module Duration.

Definition NANOS_PER_SEC : Z := 1000000000.

Record t : Type := mk { as_secs : Z; subsec_nanos : Z }.

#[global] Instance eq_dec : EqDecision t.
Proof. solve_decision. Defined.

(** The type invariant of the standard library. *)
Definition wf (d : t) : Prop :=
  in_uint 64 (as_secs d) ∧ 0 ≤ subsec_nanos d < NANOS_PER_SEC.

Definition ZERO : t := mk 0 0.
Definition MAX : t := mk (uint_max 64) (NANOS_PER_SEC - 1).

Definition new (secs nanos : Z) : Run t :=
  if nanos <? NANOS_PER_SEC then Done (mk secs nanos)
  else s ← expect (checked_add 64 secs (nanos / NANOS_PER_SEC)) "overflow in Duration::new";
       Done (mk s (nanos mod NANOS_PER_SEC)).

Definition from_secs (s : Z) : t := mk s 0.
Definition from_millis (ms : Z) : t := mk (ms / 1000) (ms mod 1000 * 1000000).

Definition is_zero (d : t) : bool := (as_secs d =? 0) && (subsec_nanos d =? 0).
Definition as_nanos (d : t) : Z := as_secs d * NANOS_PER_SEC + subsec_nanos d.

(** The derived lexicographic order. *)
Definition ltb (a b : t) : bool :=
  (as_secs a <? as_secs b) || ((as_secs a =? as_secs b) && (subsec_nanos a <? subsec_nanos b)).
Definition leb (a b : t) : bool := negb (ltb b a).
Definition eqb (a b : t) : bool :=
  (as_secs a =? as_secs b) && (subsec_nanos a =? subsec_nanos b).
Definition min (a b : t) : t := if leb a b then a else b.

Definition checked_add (a b : t) : option t :=
  s ← checked_add 64 (as_secs a) (as_secs b);
  let n := subsec_nanos a + subsec_nanos b in
  if NANOS_PER_SEC <=? n
  then s' ← Prelude.checked_add 64 s 1; Some (mk s' (n - NANOS_PER_SEC))
  else Some (mk s n).

Definition checked_sub (a b : t) : option t :=
  s ← checked_sub (as_secs a) (as_secs b);
  if subsec_nanos b <=? subsec_nanos a
  then Some (mk s (subsec_nanos a - subsec_nanos b))
  else s' ← Prelude.checked_sub s 1;
       Some (mk s' (subsec_nanos a + NANOS_PER_SEC - subsec_nanos b)).

Definition saturating_add (a b : t) : t := default MAX (checked_add a b).
Definition saturating_sub (a b : t) : t := default ZERO (checked_sub a b).

(** *** The nanosecond view: order and arithmetic are those of integers *)

Lemma dur_wf_nanos_range d : wf d → 0 ≤ as_nanos d < 2 ^ 64 * NANOS_PER_SEC.
Proof. unfold wf, in_uint, as_nanos, NANOS_PER_SEC. lia. Qed.

Lemma dur_as_nanos_MAX : as_nanos MAX = 2 ^ 64 * NANOS_PER_SEC - 1.
Proof. reflexivity. Qed.

Lemma dur_as_nanos_inj a b : wf a → wf b → as_nanos a = as_nanos b → a = b.
Proof.
  destruct a as [s n], b as [s' n']. unfold wf, in_uint, as_nanos, NANOS_PER_SEC. simpl.
  intros. assert (s = s') by lia. subst. f_equal. lia.
Qed.

Lemma dur_ltb_nanos a b : wf a → wf b → ltb a b = (as_nanos a <? as_nanos b).
Proof.
  unfold wf, in_uint, ltb, as_nanos, NANOS_PER_SEC. intros.
  apply eq_true_iff_eq. rewrite orb_true_iff, andb_true_iff, !Z.ltb_lt, Z.eqb_eq. lia.
Qed.

Lemma dur_leb_nanos a b : wf a → wf b → leb a b = (as_nanos a <=? as_nanos b).
Proof. intros. unfold leb. rewrite dur_ltb_nanos by done. apply eq_sym, Z.leb_antisym. Qed.

Lemma dur_eqb_eq a b : eqb a b = true ↔ a = b.
Proof.
  unfold eqb. destruct a, b; simpl. rewrite andb_true_iff, !Z.eqb_eq.
  split; [by intros [-> ->] | by intros [= -> ->]].
Qed.

Lemma dur_eqb_neq a b : eqb a b = false ↔ a ≠ b.
Proof. rewrite <- not_true_iff_false, dur_eqb_eq. done. Qed.

Lemma dur_is_zero_nanos d : wf d → is_zero d = (as_nanos d =? 0).
Proof.
  unfold wf, in_uint, is_zero, as_nanos, NANOS_PER_SEC. intros.
  apply eq_true_iff_eq. rewrite andb_true_iff, !Z.eqb_eq. lia.
Qed.

Lemma dur_wf_ZERO : wf ZERO.
Proof. by split. Qed.

Lemma dur_wf_MAX : wf MAX.
Proof. by split. Qed.

Lemma dur_checked_add_Some a b c :
  wf a → wf b → checked_add a b = Some c → wf c ∧ as_nanos c = as_nanos a + as_nanos b.
Proof.
  unfold wf, in_uint, checked_add, as_nanos, Prelude.checked_add, NANOS_PER_SEC.
  intros ? ? E. repeat (case_if; simpl in *; simplify_eq); bool_to_prop; simpl; lia.
Qed.

Lemma dur_checked_add_None a b :
  wf a → wf b → checked_add a b = None ↔ as_nanos MAX < as_nanos a + as_nanos b.
Proof.
  intros Ha Hb. rewrite dur_as_nanos_MAX. revert Ha Hb.
  unfold wf, in_uint, checked_add, as_nanos, Prelude.checked_add, NANOS_PER_SEC.
  intros. repeat (case_if; simpl in *; simplify_eq); bool_to_prop; split; try done; lia.
Qed.

Lemma dur_checked_sub_Some a b c :
  wf a → wf b → checked_sub a b = Some c → wf c ∧ as_nanos c = as_nanos a - as_nanos b.
Proof.
  unfold wf, in_uint, checked_sub, as_nanos, Prelude.checked_sub, NANOS_PER_SEC.
  intros ? ? E. repeat (case_if; simpl in *; simplify_eq); bool_to_prop; simpl; lia.
Qed.

Lemma dur_checked_sub_None a b :
  wf a → wf b → checked_sub a b = None ↔ as_nanos a < as_nanos b.
Proof.
  unfold wf, in_uint, checked_sub, as_nanos, Prelude.checked_sub, NANOS_PER_SEC.
  intros. repeat (case_if; simpl in *; simplify_eq); bool_to_prop; split; try done; lia.
Qed.

Lemma dur_saturating_add_wf a b : wf a → wf b → wf (saturating_add a b).
Proof.
  intros. unfold saturating_add. destruct (checked_add a b) eqn:E; simpl; [|apply dur_wf_MAX].
  by apply (dur_checked_add_Some a b).
Qed.

Lemma dur_saturating_add_nanos a b :
  wf a → wf b →
  as_nanos (saturating_add a b) = Z.min (as_nanos MAX) (as_nanos a + as_nanos b).
Proof.
  intros Ha Hb. unfold saturating_add. destruct (checked_add a b) eqn:E; simpl.
  - apply dur_checked_add_Some in E as [W E]; [|done..].
    apply dur_wf_nanos_range in W. rewrite dur_as_nanos_MAX. lia.
  - apply dur_checked_add_None in E; [lia | done..].
Qed.

Lemma dur_saturating_sub_wf a b : wf a → wf b → wf (saturating_sub a b).
Proof.
  intros. unfold saturating_sub. destruct (checked_sub a b) eqn:E; simpl; [|apply dur_wf_ZERO].
  by apply (dur_checked_sub_Some a b).
Qed.

Lemma dur_saturating_sub_nanos a b :
  wf a → wf b → as_nanos (saturating_sub a b) = Z.max 0 (as_nanos a - as_nanos b).
Proof.
  intros Ha Hb. unfold saturating_sub. destruct (checked_sub a b) eqn:E; simpl.
  - apply dur_checked_sub_Some in E as [W E]; [|done..]. apply dur_wf_nanos_range in W. lia.
  - apply dur_checked_sub_None in E; [|done..]. unfold as_nanos at 1. simpl. lia.
Qed.

Lemma dur_min_nanos a b : wf a → wf b → as_nanos (min a b) = Z.min (as_nanos a) (as_nanos b).
Proof. intros. unfold min. rewrite dur_leb_nanos by done. case_if; bool_to_prop; lia. Qed.

Lemma dur_new_wf secs nanos d :
  in_uint 64 secs → 0 ≤ nanos < NANOS_PER_SEC → new secs nanos = Done d →
  wf d ∧ as_nanos d = secs * NANOS_PER_SEC + nanos.
Proof.
  intros Hs Hn E. unfold new in E. rewrite (proj2 (Z.ltb_lt _ _)) in E by lia.
  by simplify_eq.
Qed.

Lemma dur_new_small secs nanos : nanos < NANOS_PER_SEC → new secs nanos = Done (mk secs nanos).
Proof. intros. unfold new. by rewrite (proj2 (Z.ltb_lt _ _)). Qed.

#[export] Hint Resolve dur_wf_ZERO dur_wf_MAX dur_saturating_add_wf dur_saturating_sub_wf : osal.

End Duration.

(** ** [osal_api::time] *)

Module Timeout.

Inductive t : Type :=
| NoWait
| After (d : Duration.t)
| Forever.

#[global] Instance eq_dec : EqDecision t.
Proof. solve_decision. Defined.

(** [impl From<Duration> for Timeout]. *)
Definition from (d : Duration.t) : t :=
  if Duration.is_zero d then NoWait else After d.

Definition is_no_wait (t : t) : bool := match t with NoWait => true | _ => false end.
Definition is_forever (t : t) : bool := match t with Forever => true | _ => false end.
Definition duration (t : t) : option Duration.t :=
  match t with After d => Some d | _ => None end.

End Timeout.

(** ** [osal_api::types] *)

(** [TaskHandle(NonZeroUsize)]: built only by [from_raw]. *)
Module TaskHandle.

Record t : Type := TaskHandle { raw : Z }.

#[global] Instance eq_dec : EqDecision t.
Proof. solve_decision. Defined.

Definition from_raw (raw : Z) : option t :=
  if raw =? 0 then None else Some (TaskHandle raw).
Definition get (h : t) : Z := raw h.

End TaskHandle.

Module ExitCode.

Record t : Type := ExitCode { val : Z }.

#[global] Instance eq_dec : EqDecision t.
Proof. solve_decision. Defined.

Definition SUCCESS : t := ExitCode 0.
Definition new (code : Z) : t := ExitCode code.
Definition code (c : t) : Z := val c.

End ExitCode.

Module TaskState.

Inductive t : Type := Ready | Running | Blocked | Suspended | Finished.

End TaskState.

Module TimerMode.

Inductive t : Type := OneShot | Periodic.

#[global] Instance eq_dec : EqDecision t.
Proof. solve_decision. Defined.

End TimerMode.

(** ** [osal_api::runtime] *)

Module RuntimeState.

Inductive t : Type := Uninitialized | Initializing | Running | ShuttingDown.

#[global] Instance eq_dec : EqDecision t.
Proof. solve_decision. Defined.

(** The [repr(u8)] discriminants. *)
Definition repr (s : t) : Z :=
  match s with Uninitialized => 0 | Initializing => 1 | Running => 2 | ShuttingDown => 3 end.

End RuntimeState.
