(* ===== verification/Buffers.v ===== *)
(** * The portable data structures behind the synchronisation objects

    [ByteQueue] ([crates/osal-portable/src/byte_queue.rs]), the counting
    semaphore state ([counting_semaphore.rs]) and the close flag
    ([crates/osal-shared/src/close_state.rs]).  [ByteQueue] is shown to
    implement a bounded FIFO of messages ([Fifo]). *)

From S2P Require Import Prelude Api.

Abbreviation u8 := Byte.byte.

(** ** [ByteQueue]: a ring buffer of fixed-size messages *)

Module ByteQueue.
Section ByteQueue.
Context `{Arch}.

Record t : Type := mk {
  storage : list u8;
  capacity : Z;
  message_size : Z;
  head : Z;
  tail : Z;
  len : Z;
  closed : bool;
}.

(** [alloc] answers whether [Vec::try_reserve_exact(bytes)] succeeds. *)
Definition new (alloc : Z → bool) (capacity message_size : Z) : Result t :=
  if (capacity =? 0) || (message_size =? 0) then Err Error.InvalidParameter
  else
    storage_size ← ok_or (checked_mul usize_bits capacity message_size) Error.Overflow;
    if alloc storage_size then
      Ok {| storage := replicate (Z.to_nat storage_size) Byte.x00;
            capacity := capacity; message_size := message_size;
            head := 0; tail := 0; len := 0; closed := false |}
    else Err Error.OutOfMemory.

Definition available_slots (q : t) : Run Z := usub (capacity q) (len q).
Definition is_empty (q : t) : bool := len q =? 0.
Definition is_full (q : t) : bool := len q =? capacity q.
Definition is_closed (q : t) : bool := closed q.

Definition close (q : t) : t :=
  {| storage := storage q; capacity := capacity q; message_size := message_size q;
     head := head q; tail := tail q; len := len q; closed := true |}.

(** The four [debug_assert!]s both operations start with. *)
Definition debug_checks (q : t) : Run () :=
  _ ← rassert (len q <=? capacity q) "len <= capacity";
  _ ← rassert ((head q <? capacity q) || (capacity q =? 0)) "head < capacity";
  _ ← rassert ((tail q <? capacity q) || (capacity q =? 0)) "tail < capacity";
  size ← umul usize_bits (capacity q) (message_size q);
  rassert (Z.of_nat (length (storage q)) =? size) "storage length".

(** [(i + 1) % self.capacity] *)
Definition next_index (q : t) (i : Z) : Run Z :=
  i' ← uadd usize_bits i 1;
  if capacity q =? 0 then Panic "attempt to calculate the remainder with a divisor of zero"
  else Done (i' mod capacity q).

(** [try_send]: the result and the queue left behind. *)
Definition try_send (q : t) (message : list u8) : Run (Result () * t) :=
  _ ← debug_checks q;
  if negb (Z.of_nat (length message) =? message_size q) then
    Done (Err Error.InvalidMessageSize, q)
  else if closed q then Done (Err Error.QueueClosed, q)
  else if is_full q then Done (Err Error.QueueFull, q)
  else
    offset ← umul usize_bits (tail q) (message_size q);
    _ ← uadd usize_bits offset (message_size q);
    storage' ← slice_copy (storage q) offset (message_size q) message;
    tail' ← next_index q (tail q);
    len' ← uadd usize_bits (len q) 1;
    _ ← rassert (len' <=? capacity q) "len <= capacity";
    Done (Ok (), {| storage := storage'; capacity := capacity q;
                    message_size := message_size q; head := head q; tail := tail';
                    len := len'; closed := closed q |}).

(** [try_recv]: the result, the queue and the caller's buffer left behind. *)
Definition try_recv (q : t) (out : list u8) : Run (Result Z * (t * list u8)) :=
  _ ← debug_checks q;
  if negb (Z.of_nat (length out) =? message_size q) then
    Done (Err Error.InvalidMessageSize, (q, out))
  else if len q =? 0 then
    Done (Err (if closed q then Error.QueueClosed else Error.QueueEmpty), (q, out))
  else
    offset ← umul usize_bits (head q) (message_size q);
    _ ← uadd usize_bits offset (message_size q);
    msg ← slice (storage q) offset (message_size q);
    out' ← slice_copy out 0 (message_size q) msg;
    head' ← next_index q (head q);
    len' ← usub (len q) 1;
    _ ← rassert (len' <=? capacity q) "len <= capacity";
    Done (Ok (message_size q),
          ({| storage := storage q; capacity := capacity q;
              message_size := message_size q; head := head'; tail := tail q;
              len := len'; closed := closed q |}, out')).

(** *** The type invariant *)

Record wf (q : t) : Prop := {
  wf_capacity : 0 < capacity q;
  wf_message_size : 0 < message_size q;
  wf_fits : capacity q * message_size q < 2 ^ usize_bits;
  wf_storage : Z.of_nat (length (storage q)) = capacity q * message_size q;
  wf_head : 0 ≤ head q < capacity q;
  wf_len : 0 ≤ len q ≤ capacity q;
  wf_tail : tail q = (head q + len q) mod capacity q;
}.

Lemma wf_tail_range q : wf q → 0 ≤ tail q < capacity q.
Proof. intros []. rewrite wf_tail0. by apply Z.mod_pos_bound. Qed.

Lemma new_wf alloc c m q : 0 ≤ c → 0 ≤ m → new alloc c m = Ok q → wf q.
Proof.
  unfold new. intros ? ? E. repeat case_if; [done|]. bool_to_prop.
  unfold ok_or, checked_mul in E. case_if; [|done]. run_simpl.
  case_if; [|done]. bool_to_prop. simplify_eq.
  split; simpl; rewrite ?length_replicate; try nia.
  by rewrite Z.mod_0_l by lia.
Qed.

Lemma close_wf q : wf q → wf (close q).
Proof. intros []. by split. Qed.

Lemma debug_checks_ok q : wf q → debug_checks q = Done ().
Proof.
  intros W. pose proof (wf_tail_range q W). destruct W. unfold debug_checks.
  rewrite umul_ok by done. run_simpl.
  by zb.
Qed.

(** Slot [i] of the ring and the messages in queue order. *)
Definition slot (q : t) (i : Z) : list u8 :=
  take (Z.to_nat (message_size q))
       (drop (Z.to_nat (i mod capacity q * message_size q)) (storage q)).
Definition messages (q : t) : list (list u8) :=
  (λ i, slot q (head q + i)) <$> seqZ 0 (len q).

(** *** Slots of the ring do not overlap *)

Lemma slot_offset_bound q i :
  wf q → 0 ≤ i mod capacity q * message_size q ∧
         i mod capacity q * message_size q + message_size q ≤ Z.of_nat (length (storage q)).
Proof.
  intros []. pose proof (Z.mod_pos_bound i (capacity q)). rewrite wf_storage0. nia.
Qed.

Lemma slot_length q i : wf q → Z.of_nat (length (slot q i)) = message_size q.
Proof.
  intros W. pose proof (slot_offset_bound q i W). destruct W.
  unfold slot. rewrite length_take, length_drop. lia.
Qed.

Lemma ring_index_ne q i :
  wf q → 0 ≤ i < len q → len q < capacity q →
  (head q + i) mod capacity q ≠ tail q.
Proof.
  intros [] ? ?. rewrite wf_tail0, !mod_wrap by lia. repeat case_if; bool_to_prop; lia.
Qed.

Lemma messages_length q : length (messages q) = Z.to_nat (len q).
Proof. unfold messages. by rewrite length_fmap, length_seqZ. Qed.

End ByteQueue.
End ByteQueue.

(** ** [Fifo]: what a message queue promises

    A bounded list of messages of one size with a close flag; the operations
    give the errors in the documented order of precedence. *)

Module Fifo.

Record t : Type := mk {
  bound : Z;
  msg_len : Z;
  items : list (list u8);
  shut : bool;
}.

Definition is_full (f : t) : bool := Z.of_nat (length (items f)) =? bound f.

Definition send (f : t) (m : list u8) : Result () * t :=
  if negb (Z.of_nat (length m) =? msg_len f) then (Err Error.InvalidMessageSize, f)
  else if shut f then (Err Error.QueueClosed, f)
  else if is_full f then (Err Error.QueueFull, f)
  else (Ok (), {| bound := bound f; msg_len := msg_len f; items := items f ++ [m];
                  shut := shut f |}).

Definition recv (f : t) (out : list u8) : Result Z * (t * list u8) :=
  if negb (Z.of_nat (length out) =? msg_len f) then (Err Error.InvalidMessageSize, (f, out))
  else match items f with
  | [] => (Err (if shut f then Error.QueueClosed else Error.QueueEmpty), (f, out))
  | m :: ms => (Ok (msg_len f), ({| bound := bound f; msg_len := msg_len f; items := ms;
                                    shut := shut f |}, m))
  end.

Definition close (f : t) : t :=
  {| bound := bound f; msg_len := msg_len f; items := items f; shut := true |}.

(** Every stored message has the queue's size and the bound is respected. *)
Definition wf (f : t) : Prop :=
  Z.of_nat (length (items f)) ≤ bound f ∧
  Forall (λ m, Z.of_nat (length m) = msg_len f) (items f).

End Fifo.

(** ** [ByteQueue] implements [Fifo] *)

Module ByteQueueFacts.
Import ByteQueue.
Section Facts.
Context `{Arch}.

Definition abs (q : t) : Fifo.t :=
  {| Fifo.bound := capacity q; Fifo.msg_len := message_size q;
     Fifo.items := messages q; Fifo.shut := closed q |}.

Lemma abs_wf q : wf q → Fifo.wf (abs q).
Proof.
  intros W. split; simpl.
  - rewrite messages_length. destruct W. lia.
  - apply Forall_fmap, Forall_forall. intros i _. by apply slot_length.
Qed.

Lemma abs_full q : wf q → Fifo.is_full (abs q) = is_full q.
Proof.
  intros []. unfold Fifo.is_full, is_full. simpl. rewrite messages_length, Z2Nat.id; [done|lia].
Qed.

Lemma abs_new alloc c m q :
  new alloc c m = Ok q →
  abs q = {| Fifo.bound := c; Fifo.msg_len := m; Fifo.items := []; Fifo.shut := false |}.
Proof.
  unfold new. intros E. case_if; [done|]. unfold ok_or in E.
  destruct (checked_mul _ _ _); run_simpl; [|done]. case_if; by simplify_eq.
Qed.

(** The messages after the code has written slot [tail] and bumped [len]. *)
Lemma messages_push q st m :
  wf q → len q < capacity q → Z.of_nat (length m) = message_size q →
  slice_copy (storage q) (tail q * message_size q) (message_size q) m = Done st →
  let q' := {| storage := st; capacity := capacity q; message_size := message_size q;
               head := head q; tail := (tail q + 1) mod capacity q; len := len q + 1;
               closed := closed q |} in
  wf q' ∧ messages q' = messages q ++ [m].
Proof.
  intros W Hl Hm Hst q'. pose proof (wf_tail_range q W) as Ht.
  pose proof (ring_index_ne q) as Hne. pose proof W as [].
  assert (Hp : 0 ≤ tail q * message_size q) by nia.
  split.
  - split; simpl; try lia; [by rewrite (slice_copy_length _ _ _ _ _ Hp Hst)|].
    rewrite wf_tail0, Zplus_mod_idemp_l. f_equal. lia.
  - unfold messages. simpl. rewrite seqZ_snoc, fmap_app by lia. f_equal.
    + apply list_fmap_ext. intros k i Hk. apply lookup_seqZ in Hk as [-> Hk].
      specialize (Hne (0 + Z.of_nat k) W ltac:(lia) Hl).
      pose proof (Z.mod_pos_bound (head q + (0 + Z.of_nat k)) (capacity q)).
      unfold slot. simpl.
      eapply slice_copy_read_other; [exact Hp | nia | lia | exact Hst | nia].
    + unfold slot. simpl. rewrite <- wf_tail0.
      by rewrite (slice_copy_read_same _ _ _ _ _ Hp Hst).
Qed.

(** The messages after the code has bumped [head] and dropped [len]. *)
Lemma messages_pop q :
  wf q → 0 < len q →
  let q' := {| storage := storage q; capacity := capacity q;
               message_size := message_size q; head := (head q + 1) mod capacity q;
               tail := tail q; len := len q - 1; closed := closed q |} in
  wf q' ∧ messages q = slot q (head q) :: messages q'.
Proof.
  intros [] Hl q'. pose proof (Z.mod_pos_bound (head q + 1) (capacity q)). split.
  - split; simpl; try lia. rewrite wf_tail0, Zplus_mod_idemp_l. f_equal. lia.
  - unfold messages. simpl. rewrite seqZ_head, fmap_cons, Z.add_0_r by done. f_equal.
    rewrite <- list_fmap_compose. apply list_fmap_ext. intros k i _. simpl.
    unfold slot. simpl. by rewrite Zplus_mod_idemp_l, Z.add_assoc.
Qed.

Lemma next_index_ok q i :
  wf q → 0 ≤ i < capacity q → next_index q i = Done ((i + 1) mod capacity q).
Proof.
  intros [] ?. unfold next_index. rewrite uadd_ok by nia. run_simpl. by zb.
Qed.

(** Sending: on every branch the code completes, keeps the invariant and does
    what the specification does. *)
Lemma try_send_refines q m :
  wf q → ∃ q', try_send q m = Done (fst (Fifo.send (abs q) m), q') ∧ wf q' ∧
               abs q' = snd (Fifo.send (abs q) m).
Proof.
  intros W. unfold try_send. rewrite debug_checks_ok by done.
  unfold Fifo.send. rewrite abs_full by done. simpl.
  case_if; [by eauto|]. case_if; [by eauto|]. case_if; [by eauto|].
  bool_to_prop. unfold is_full in *. bool_to_prop.
  pose proof (wf_tail_range q W). pose proof W as [].
  pose proof (slot_offset_bound q (tail q) W) as Ho.
  rewrite (Z.mod_small (tail q)) in Ho by lia.
  rewrite umul_ok by nia. run_simpl. rewrite uadd_ok by nia. run_simpl.
  destruct (slice_copy (storage q) (tail q * message_size q) (message_size q) m) as [st| |] eqn:E;
    [|rewrite slice_copy_ok in E by lia; done..].
  run_simpl. rewrite next_index_ok by done. run_simpl. rewrite uadd_ok by nia. run_simpl. zb.
  destruct (messages_push q st m W) as [W' Hm]; [lia|done|done|].
  rewrite Heqb0 in W', Hm.
  eexists. split; [done|]. split; [done|]. unfold abs at 1. by rewrite Hm.
Qed.

(** Receiving: likewise, and the caller's buffer gets the oldest message. *)
Lemma try_recv_refines q out :
  wf q → ∃ q' out', try_recv q out = Done (fst (Fifo.recv (abs q) out), (q', out')) ∧ wf q' ∧
                    (abs q', out') = snd (Fifo.recv (abs q) out).
Proof.
  intros W. unfold try_recv. rewrite debug_checks_ok by done.
  unfold Fifo.recv. simpl. case_if; [by eauto|]. bool_to_prop.
  pose proof W as []. case_if; bool_to_prop.
  - assert (messages q = []) as -> by (apply length_zero_iff_nil; rewrite messages_length; lia).
    by eauto.
  - destruct (messages_pop q W) as [W' Hm]; [lia|]. rewrite Hm.
    pose proof (slot_offset_bound q (head q) W) as Ho. rewrite (Z.mod_small (head q)) in Ho by lia.
    rewrite umul_ok by nia. run_simpl. rewrite uadd_ok by nia. run_simpl.
    rewrite slice_ok by lia. run_simpl.
    set (msg := take _ _).
    assert (Hmsg : msg = slot q (head q)) by (unfold msg, slot; by rewrite Z.mod_small by lia).
    assert (Z.of_nat (length msg) = message_size q) by (rewrite Hmsg; by apply slot_length).
    rewrite slice_copy_ok by lia. run_simpl. rewrite next_index_ok by done. run_simpl.
    rewrite usub_ok by lia. run_simpl. zb.
    rewrite (drop_ge out), app_nil_r, Hmsg by lia.
    eexists _, _. split; [done|]. split; [done|]. done.
Qed.

(** Nothing changes when there is no room or no message. *)
Lemma try_send_full b d : wf b → Z.of_nat (length d) = message_size b → closed b = false →
  is_full b = true → try_send b d = Done (Err Error.QueueFull, b).
Proof.
  intros W Hd Hcl Hf. unfold try_send. rewrite debug_checks_ok by done. simpl.
  by rewrite (proj2 (Z.eqb_eq _ _) Hd), Hcl, Hf.
Qed.

Lemma try_recv_empty b buf : wf b → Z.of_nat (length buf) = message_size b → closed b = false →
  len b = 0 → try_recv b buf = Done (Err Error.QueueEmpty, (b, buf)).
Proof.
  intros W Hd Hcl Hf. unfold try_recv. rewrite debug_checks_ok by done. simpl.
  by rewrite (proj2 (Z.eqb_eq _ _) Hd), Hf, Hcl.
Qed.

Lemma close_refines q : wf q → wf (close q) ∧ abs (close q) = Fifo.close (abs q).
Proof. intros W. split; [by apply close_wf|done]. Qed.

End Facts.
End ByteQueueFacts.

(** ** Sequences of queue operations *)

Module QueueTrace.
Import ByteQueue ByteQueueFacts.
Section Trace.
Context `{Arch}.

Inductive op : Type :=
| Send (m : list u8)
| Recv (out : list u8)
| Close.

(** What an operation returns to the caller: its result and, for a receive,
    the buffer. *)
Inductive ret : Type :=
| RSend (r : Result ())
| RRecv (r : Result Z) (out : list u8)
| RClose.

Definition step (q : t) (o : op) : Run (ret * t) :=
  match o with
  | Send m => '(r, q') ← try_send q m; Done (RSend r, q')
  | Recv out => '(r, (q', out')) ← try_recv q out; Done (RRecv r out', q')
  | Close => Done (RClose, close q)
  end.

Definition spec_step (f : Fifo.t) (o : op) : ret * Fifo.t :=
  match o with
  | Send m => let '(r, f') := Fifo.send f m in (RSend r, f')
  | Recv out => let '(r, (f', out')) := Fifo.recv f out in (RRecv r out', f')
  | Close => (RClose, Fifo.close f)
  end.

Fixpoint run (q : t) (os : list op) : Run (list ret * t) :=
  match os with
  | [] => Done ([], q)
  | o :: os => '(r, q1) ← step q o; '(rs, q2) ← run q1 os; Done (r :: rs, q2)
  end.

Fixpoint spec_run (f : Fifo.t) (os : list op) : list ret * Fifo.t :=
  match os with
  | [] => ([], f)
  | o :: os => let '(r, f1) := spec_step f o in
               let '(rs, f2) := spec_run f1 os in (r :: rs, f2)
  end.

Lemma step_refines q o :
  wf q → ∃ r q', step q o = Done (r, q') ∧ wf q' ∧ spec_step (abs q) o = (r, abs q').
Proof.
  intros W. destruct o as [m|out|]; simpl.
  - destruct (try_send_refines q m W) as (q' & -> & W' & E).
    destruct (Fifo.send (abs q) m) as [r f]. simpl in *. subst f. by eauto.
  - destruct (try_recv_refines q out W) as (q' & out' & -> & W' & E).
    destruct (Fifo.recv (abs q) out) as [r [f o]]. simpl in *. simplify_eq. by eauto.
  - destruct (close_refines q W) as [W' <-]. by eauto.
Qed.

Lemma run_refines os : ∀ q,
  wf q → ∃ rs q', run q os = Done (rs, q') ∧ wf q' ∧ spec_run (abs q) os = (rs, abs q').
Proof.
  induction os as [|o os IH]; intros q W; simpl; [by eauto|].
  destruct (step_refines q o W) as (r & q1 & -> & W1 & ->). simpl.
  destruct (IH q1 W1) as (rs & q2 & -> & W2 & ->). simpl. by eauto 10.
Qed.

(** The specification of a batch of sends and of a drain. *)
Lemma spec_run_app os1 os2 f :
  spec_run f (os1 ++ os2) =
    let '(r1, f1) := spec_run f os1 in
    let '(r2, f2) := spec_run f1 os2 in (r1 ++ r2, f2).
Proof.
  revert f. induction os1 as [|o os1 IH]; intros f; simpl; [by destruct (spec_run f os2)|].
  destruct (spec_step f o) as [r f']. rewrite IH.
  destruct (spec_run f' os1) as [r1 f1]. by destruct (spec_run f1 os2) as [r2 f2].
Qed.

Lemma spec_run_sends ms b n its :
  Z.of_nat (length its + length ms) ≤ b → Forall (λ m, Z.of_nat (length m) = n) ms →
  spec_run (Fifo.mk b n its false) (Send <$> ms) =
    ((λ _, RSend (Ok ())) <$> ms, Fifo.mk b n (its ++ ms) false).
Proof.
  revert its. induction ms as [|m ms IH]; intros its Hb HF; simpl; [by rewrite app_nil_r|].
  apply Forall_cons_1 in HF as [Hm HF]. simpl in Hb.
  unfold Fifo.send, Fifo.is_full. simpl. zb.
  rewrite IH; [|rewrite length_app; simpl; lia | done]. by rewrite <- app_assoc.
Qed.

Lemma spec_run_recvs ms b n rest c buf :
  Z.of_nat (length buf) = n →
  spec_run (Fifo.mk b n (ms ++ rest) c) (replicate (length ms) (Recv buf)) =
    ((λ m, RRecv (Ok n) m) <$> ms, Fifo.mk b n rest c).
Proof.
  intros Hn. induction ms as [|m ms IH]; simpl; [done|].
  unfold Fifo.recv. simpl. zb. by rewrite IH.
Qed.

(** *** Properties *)

(** C4: Every sequence of sends, receives and closes on a fresh [ByteQueue]
    runs without a panic (no index out of range, no failed assertion, no
    arithmetic overflow) and returns, result by result and buffer by buffer,
    what the bounded FIFO returns; the ring invariant holds at the end. *)
Theorem byte_queue_refines_fifo alloc c m q os :
  0 ≤ c → 0 ≤ m → new alloc c m = Ok q →
  ∃ q', run q os = Done (fst (spec_run (Fifo.mk c m [] false) os), q') ∧ wf q' ∧
        abs q' = snd (spec_run (Fifo.mk c m [] false) os).
Proof.
  intros Hc Hm E. pose proof (new_wf _ _ _ _ Hc Hm E) as W.
  destruct (run_refines os q W) as (rs & q' & R & W' & S'). exists q'.
  rewrite <- (abs_new _ _ _ _ E), S'. auto.
Qed.

(** Up to [capacity] messages sent to a fresh queue come back byte for
    byte and in order, also when the queue is closed in between; after the
    drain the closed queue answers [QueueClosed] to receives and sends. *)
Theorem byte_queue_close_drain alloc c m q ms buf msg :
  0 ≤ c → 0 ≤ m → new alloc c m = Ok q →
  Z.of_nat (length ms) ≤ c → Forall (λ x, Z.of_nat (length x) = m) ms →
  Z.of_nat (length buf) = m → Z.of_nat (length msg) = m →
  ∃ q', run q ((Send <$> ms) ++ [Close] ++ replicate (length ms) (Recv buf)
               ++ [Recv buf; Send msg]) =
    Done (((λ _, RSend (Ok ())) <$> ms) ++ [RClose] ++ ((λ x, RRecv (Ok m) x) <$> ms)
          ++ [RRecv (Err Error.QueueClosed) buf; RSend (Err Error.QueueClosed)], q').
Proof.
  intros Hc Hm E Hl HF Hb Hg. pose proof (new_wf _ _ _ _ Hc Hm E) as W.
  destruct (run_refines ((Send <$> ms) ++ [Close] ++ replicate (length ms) (Recv buf)
               ++ [Recv buf; Send msg]) q W) as (rs & q' & R & _ & S').
  exists q'. rewrite R. f_equal. f_equal. rewrite (abs_new _ _ _ _ E) in S'.
  rewrite spec_run_app, spec_run_sends in S' by done. simpl in S'.
  rewrite spec_run_app in S'.
  pose proof (spec_run_recvs ms c m [] true buf Hb) as D. rewrite app_nil_r in D.
  unfold Fifo.close in S'. simpl in S'. rewrite D in S'. simpl in S'.
  unfold Fifo.recv, Fifo.send in S'. simpl in S'.
  rewrite (proj2 (Z.eqb_eq _ _) Hb) in S'. simpl in S'.
  rewrite (proj2 (Z.eqb_eq _ _) Hg) in S'. simpl in S'.
  by injection S' as <- _.
Qed.

(** [ByteQueue::new] on every branch: zero dimensions are rejected first,
    a byte size beyond [usize] is [Overflow], a refused reservation of exactly
    [capacity * message_size] bytes is [OutOfMemory], and otherwise the queue
    is empty, open and well formed. *)
Theorem byte_queue_new_outcomes alloc c m :
  in_uint usize_bits c → in_uint usize_bits m →
  match new alloc c m with
  | Ok q => c ≠ 0 ∧ m ≠ 0 ∧ alloc (c * m) = true ∧ wf q ∧ abs q = Fifo.mk c m [] false
  | Err e =>
      (e = Error.InvalidParameter ∧ (c = 0 ∨ m = 0)) ∨
      (e = Error.Overflow ∧ c ≠ 0 ∧ m ≠ 0 ∧ 2 ^ usize_bits ≤ c * m) ∨
      (e = Error.OutOfMemory ∧ c ≠ 0 ∧ m ≠ 0 ∧ c * m < 2 ^ usize_bits ∧ alloc (c * m) = false)
  end.
Proof.
  intros [Hc _] [Hm _]. destruct (new alloc c m) as [q|e] eqn:E.
  - pose proof (new_wf _ _ _ _ Hc Hm E). pose proof (abs_new _ _ _ _ E).
    unfold new, checked_mul, ok_or in E. repeat case_if; run_simpl; try done.
    case_if; bool_to_prop; [|done]. split_and!; try lia; done.
  - unfold new, checked_mul, ok_or in E. repeat case_if; run_simpl; try done; bool_to_prop;
      simplify_eq; try (case_if; [done|]; simplify_eq); bool_to_prop; auto 10 with lia.
Qed.

End Trace.

Lemma byte_queue_refines_fifo_witness :
  ∃ q q', new (H:=arch32) (λ _, true) 2 1 = Ok q ∧
  run (H:=arch32) q [Send [Byte.x07]; Send [Byte.x08]; Send [Byte.x09]; Recv [Byte.x00];
                     Send [Byte.x0a]; Recv [Byte.x00]; Recv [Byte.x00]] =
    Done ([RSend (Ok ()); RSend (Ok ()); RSend (Err Error.QueueFull); RRecv (Ok 1) [Byte.x07];
           RSend (Ok ()); RRecv (Ok 1) [Byte.x08]; RRecv (Ok 1) [Byte.x0a]], q').
Proof.
  pose (q := mk (replicate 2 Byte.x00) 2 1 0 0 0 false). exists q.
  destruct (byte_queue_refines_fifo (H:=arch32) (λ _, true) 2 1 q
    [Send [Byte.x07]; Send [Byte.x08]; Send [Byte.x09]; Recv [Byte.x00];
     Send [Byte.x0a]; Recv [Byte.x00]; Recv [Byte.x00]]) as (q' & E & _ & _).
  - lia.
  - lia.
  - vm_compute. reflexivity.
  - exists q'. split; [vm_compute; reflexivity|]. exact E.
Defined.

Lemma byte_queue_close_drain_witness :
  ∃ q q', new (H:=arch64) (λ _, true) 3 2 = Ok q ∧
  run (H:=arch64) q [Send [Byte.x01; Byte.x02]; Close; Recv [Byte.x00; Byte.x00];
                     Recv [Byte.x00; Byte.x00]; Send [Byte.x03; Byte.x04]] =
    Done ([RSend (Ok ()); RClose; RRecv (Ok 2) [Byte.x01; Byte.x02];
           RRecv (Err Error.QueueClosed) [Byte.x00; Byte.x00];
           RSend (Err Error.QueueClosed)], q').
Proof.
  pose (q := mk (replicate 6 Byte.x00) 3 2 0 0 0 false). exists q.
  destruct (byte_queue_close_drain (H:=arch64) (λ _, true) 3 2 q [[Byte.x01; Byte.x02]]
    [Byte.x00; Byte.x00] [Byte.x03; Byte.x04]) as (q' & E).
  - lia.
  - lia.
  - vm_compute. reflexivity.
  - simpl. lia.
  - repeat constructor.
  - reflexivity.
  - reflexivity.
  - exists q'. split; [vm_compute; reflexivity|]. exact E.
Defined.

Lemma byte_queue_new_outcomes_witness :
  ∃ e, new (H:=arch32) (λ _, true) (2 ^ 16) (2 ^ 16) = Err e ∧
       (e = Error.InvalidParameter ∨ e = Error.Overflow ∨ e = Error.OutOfMemory).
Proof.
  assert (in_uint 32 (2 ^ 16)) as Hi by (vm_compute; split; congruence).
  pose proof (byte_queue_new_outcomes (H:=arch32) (λ _, true) (2 ^ 16) (2 ^ 16) Hi Hi) as T.
  destruct (new (H:=arch32) (λ _, true) (2 ^ 16) (2 ^ 16)) as [q|e] eqn:E.
  - vm_compute in E. discriminate E.
  - exists e. split; [done|]. destruct T as [[-> _]|[[-> _]|[-> _]]]; auto.
Defined.

End QueueTrace.

(** ** Histories of a shared queue

    What the backends that share one byte queue between tasks use: the cases of
    the abstract operations, and runs of the specification that grow call by
    call. *)

Module FifoFacts.
Import QueueTrace.

(** The results that say something about the queue: a timeout or a refusal to
    block has no effect on it. *)
Definition logged (r : Result ()) : bool :=
  match r with
  | Ok _ | Err Error.QueueFull | Err Error.QueueEmpty | Err Error.QueueClosed => true
  | _ => false
  end.
Definition used (f : Fifo.t) : Z := Z.of_nat (length (Fifo.items f)).

Lemma fifo_send_cases f m :
  Fifo.wf f → Z.of_nat (length m) = Fifo.msg_len f →
  (Fifo.shut f = true ∧ Fifo.send f m = (Err Error.QueueClosed, f)) ∨
  (Fifo.shut f = false ∧ used f = Fifo.bound f ∧ Fifo.send f m = (Err Error.QueueFull, f)) ∨
  (Fifo.shut f = false ∧ used f < Fifo.bound f ∧
   Fifo.send f m = (Ok (), Fifo.mk (Fifo.bound f) (Fifo.msg_len f) (Fifo.items f ++ [m]) false)).
Proof.
  intros [Hb _] Hm. unfold Fifo.send, Fifo.is_full, used. zb.
  destruct (Fifo.shut f); [by left|]. right. case_if; bool_to_prop; [by left|right].
  split; [done|]. split; [lia|done].
Qed.

Lemma fifo_recv_cases f out :
  Z.of_nat (length out) = Fifo.msg_len f →
  (Fifo.items f = [] ∧ Fifo.shut f = true ∧ Fifo.recv f out = (Err Error.QueueClosed, (f, out))) ∨
  (Fifo.items f = [] ∧ Fifo.shut f = false ∧ Fifo.recv f out = (Err Error.QueueEmpty, (f, out))) ∨
  (∃ m ms, Fifo.items f = m :: ms ∧
   Fifo.recv f out = (Ok (Fifo.msg_len f), (Fifo.mk (Fifo.bound f) (Fifo.msg_len f) ms (Fifo.shut f), m))).
Proof.
  intros Ho. unfold Fifo.recv. zb. destruct (Fifo.items f) as [|m ms].
  - destruct (Fifo.shut f); auto.
  - right. right. by exists m, ms.
Qed.

Lemma hist_snoc f0 os rs f o r f' :
  spec_run f0 os = (rs, f) → spec_step f o = (r, f') → spec_run f0 (os ++ [o]) = (rs ++ [r], f').
Proof. intros E E'. rewrite spec_run_app, E. simpl. by rewrite E'. Qed.

(** The history of a section that returns what the buffer said, or nothing. *)
Lemma hist_log f0 (h : list (op * ret)) f o r f' :
  spec_run f0 (fst <$> h) = (snd <$> h, f) → spec_step f o = (r, f') →
  spec_run f0 (fst <$> h ++ [(o, r)]) = (snd <$> h ++ [(o, r)], f').
Proof. intros E E'. rewrite !fmap_app. by eapply hist_snoc. Qed.

End FifoFacts.

(** ** [CountingSemaphoreState] *)

Module CountingSemaphoreState.

Record t : Type := mk { max_count : Z; count : Z }.

Definition new (max_count initial_count : Z) : Result t :=
  if max_count =? 0 then Err Error.InvalidParameter
  else if max_count <? initial_count then Err Error.InvalidParameter
  else Ok {| max_count := max_count; count := initial_count |}.

Definition try_acquire (s : t) : Run (bool * t) :=
  if 0 <? count s then
    c ← usub (count s) 1;
    Done (true, {| max_count := max_count s; count := c |})
  else Done (false, s).

Definition release (s : t) : Run (Result () * t) :=
  if max_count s <=? count s then Done (Err Error.Overflow, s)
  else
    c ← uadd 32 (count s) 1;
    Done (Ok (), {| max_count := max_count s; count := c |}).

(** [0 <= count <= max_count], with both in [u32] range. *)
Definition wf (s : t) : Prop := 0 < max_count s < 2 ^ 32 ∧ 0 ≤ count s ≤ max_count s.

Lemma sem_new_ok m i s : in_uint 32 m → in_uint 32 i → new m i = Ok s → wf s ∧ count s = i ∧ max_count s = m.
Proof.
  unfold new, in_uint, wf. intros. repeat case_if; try done. bool_to_prop. simplify_eq. simpl. lia.
Qed.

Lemma try_acquire_spec s :
  wf s →
  try_acquire s =
    Done (if 0 <? count s then (true, {| max_count := max_count s; count := count s - 1 |})
          else (false, s)).
Proof.
  intros []. unfold try_acquire. case_if; bool_to_prop; [|done]. by rewrite usub_ok by lia.
Qed.

Lemma release_spec s :
  wf s →
  release s =
    Done (if count s <? max_count s then (Ok (), {| max_count := max_count s; count := count s + 1 |})
          else (Err Error.Overflow, s)).
Proof.
  intros []. unfold release. rewrite Z.leb_antisym. case_if; bool_to_prop; zb; [done|].
  by rewrite uadd_ok by lia.
Qed.

Lemma try_acquire_wf s b s' : wf s → try_acquire s = Done (b, s') → wf s'.
Proof.
  intros W E. rewrite try_acquire_spec in E by done. unfold wf in *.
  case_if; bool_to_prop; simplify_eq; simpl; lia.
Qed.

Lemma release_wf s r s' : wf s → release s = Done (r, s') → wf s'.
Proof.
  intros W E. rewrite release_spec in E by done. unfold wf in *.
  case_if; bool_to_prop; simplify_eq; simpl; lia.
Qed.

(** *** Sequences of semaphore operations *)

Inductive op : Type := TryAcquire | Release.

(** The state after a list of operations and how many acquires and releases
    succeeded. *)
Fixpoint run (s : t) (os : list op) : Run (t * (Z * Z)) :=
  match os with
  | [] => Done (s, (0, 0))
  | TryAcquire :: os =>
      '(b, s1) ← try_acquire s;
      '(s2, (a, r)) ← run s1 os;
      Done (s2, (if b : bool then a + 1 else a, r))
  | Release :: os =>
      '(x, s1) ← release s;
      '(s2, (a, r)) ← run s1 os;
      Done (s2, (a, if is_ok x then r + 1 else r))
  end.

Lemma run_conserves os : ∀ s,
  wf s → ∃ s' a r, run s os = Done (s', (a, r)) ∧ wf s' ∧ max_count s' = max_count s ∧
                   0 ≤ a ∧ 0 ≤ r ∧ count s' = count s + r - a.
Proof.
  induction os as [|[] os IH]; intros s W; simpl.
  - exists s, 0, 0. repeat split; try done; try apply W; lia.
  - rewrite try_acquire_spec by done. run_simpl.
    destruct (IH (snd (if 0 <? count s then (true, {| max_count := max_count s; count := count s - 1 |})
                       else (false, s)))) as (s' & a & r & E & W' & Hm & Ha & Hr & Hc).
    { unfold wf in *. case_if; bool_to_prop; simpl; lia. }
    case_if; bool_to_prop; simpl in *; rewrite E; simpl; eexists _, _, _; (split; [done|]);
      (split; [done|]); lia.
  - rewrite release_spec by done. run_simpl.
    destruct (IH (snd (if count s <? max_count s
                       then (Ok (A:=()) (E:=Error.t) (), {| max_count := max_count s; count := count s + 1 |})
                       else (Err Error.Overflow, s)))) as (s' & a & r & E & W' & Hm & Ha & Hr & Hc).
    { unfold wf in *. case_if; bool_to_prop; simpl; lia. }
    case_if; bool_to_prop; simpl in *; rewrite E; simpl; eexists _, _, _; (split; [done|]);
      (split; [done|]); lia.
Qed.

(** A counting semaphore conserves its units: after any sequence of
    acquires and releases the count is the initial count plus the releases
    that succeeded minus the acquires that succeeded, and it stays between
    zero and [max_count], so [u32] arithmetic never overflows. *)
Theorem semaphore_conservation m i s os :
  in_uint 32 m → in_uint 32 i → new m i = Ok s →
  ∃ s' a r, run s os = Done (s', (a, r)) ∧ count s' = i + r - a ∧ 0 ≤ count s' ≤ m.
Proof.
  intros Hm Hi E. destruct (sem_new_ok m i s Hm Hi E) as (W & <- & <-).
  destruct (run_conserves os s W) as (s' & a & r & R & [_ W'] & Em & _ & _ & Ec).
  exists s', a, r. rewrite <- Em. auto.
Qed.

Lemma semaphore_conservation_witness :
  ∃ s' a r, run (mk 2 1) [Release; Release; TryAcquire; TryAcquire; TryAcquire] = Done (s', (a, r)) ∧
            count s' = 1 + r - a ∧ 0 ≤ count s' ≤ 2.
Proof.
  apply (semaphore_conservation 2 1 (mk 2 1)).
  - vm_compute; split; congruence.
  - vm_compute; split; congruence.
  - reflexivity.
Defined.

End CountingSemaphoreState.

(** ** [CloseFlag] *)

Module CloseFlag.

Record t : Type := mk { closed : bool }.
Definition new : t := {| closed := false |}.
Definition is_closed (f : t) : bool := closed f.
Definition close (f : t) : t := {| closed := true |}.

End CloseFlag.
