(* ===== verification/Time.v ===== *)
(** * Time arithmetic and the timer state machine

    [TickTime] ([crates/osal-portable/src/tick_time.rs]): tick snapshots to
    durations and back; [TimeConvert] ([time_convert.rs]): deadlines;
    [TimerState] ([timer_state.rs]): the pre-advance timer automaton. *)

From S2P Require Import Prelude Api.
Import Duration (NANOS_PER_SEC, as_nanos).

(** ** Tick counters *)

Module TickTime.

Record TickConfig : Type := mkConfig { rate_hz : Z; bits : Z }.
Record TickSnapshot : Type := mkSnapshot { overflow_count : Z; tick_count : Z }.

Definition validate_config (config : TickConfig) : Result () :=
  if rate_hz config =? 0 then Err Error.InvalidParameter
  else if negb ((bits config =? 16) || (bits config =? 32) || (bits config =? 64))
  then Err Error.InvalidParameter
  else Ok ().

(** [((overflow_count as u128) << bits) | (tick_count as u128)] *)
Definition expand_ticks (snapshot : TickSnapshot) (tick_bits : Z) : Z :=
  Z.lor (Z.shiftl (overflow_count snapshot) tick_bits mod 2 ^ 128) (tick_count snapshot).

Definition ticks_to_duration (total_ticks rate_hz : Z) : Run (Result Duration.t) :=
  if rate_hz =? 0 then Panic "attempt to divide by zero"
  else
    let seconds := total_ticks / rate_hz in
    let remainder := total_ticks mod rate_hz in
    scaled ← umul 128 remainder NANOS_PER_SEC;
    let nanos := scaled / rate_hz in
    if seconds <? 2 ^ 64 then
      let nanos_u32 := nanos mod 2 ^ 32 in
      d ← Duration.new seconds nanos_u32;
      Done (Ok d)
    else Done (Ok Duration.MAX).

Definition snapshot_to_duration (snapshot : TickSnapshot) (config : TickConfig)
    : Run (Result Duration.t) :=
  _ ←? Done (validate_config config);
  let total_ticks := expand_ticks snapshot (bits config) in
  ticks_to_duration total_ticks (rate_hz config).

Definition duration_to_ticks_ceil (duration : Duration.t) (tick_rate_hz : Z) : Result Z :=
  if tick_rate_hz =? 0 then Err Error.InvalidParameter
  else if Duration.is_zero duration then Ok 0
  else
    let nanos := as_nanos duration in
    numerator ← ok_or (v ← checked_mul 128 nanos tick_rate_hz;
                       checked_add 128 v (NANOS_PER_SEC - 1)) Error.Overflow;
    Ok (numerator / NANOS_PER_SEC).

Definition max_finite_ticks (tick_bits : Z) : Result Z :=
  if tick_bits =? 16 then Ok (Z.shiftl 1 16 - 2)
  else if tick_bits =? 32 then Ok (Z.shiftl 1 32 - 2)
  else if tick_bits =? 64 then Ok (uint_max 64 - 1)
  else Err Error.InvalidParameter.

(** *** Ranges of the inputs *)

(** A configuration the probe accepts and a snapshot a [bits]-wide counter
    can show. *)
Definition config_ok (c : TickConfig) : Prop :=
  0 < rate_hz c < 2 ^ 32 ∧ (bits c = 16 ∨ bits c = 32 ∨ bits c = 64).
Definition snapshot_ok (c : TickConfig) (s : TickSnapshot) : Prop :=
  in_uint 64 (overflow_count s) ∧ in_uint (bits c) (tick_count s).
(** Total ticks since the counter started. *)
Definition total (c : TickConfig) (s : TickSnapshot) : Z :=
  overflow_count s * 2 ^ bits c + tick_count s.

#[global] Instance config_ok_dec c : Decision (config_ok c).
Proof. unfold config_ok. apply _. Defined.
#[global] Instance snapshot_ok_dec c s : Decision (snapshot_ok c s).
Proof. unfold snapshot_ok. apply _. Defined.

Lemma validate_config_ok c : config_ok c → validate_config c = Ok ().
Proof.
  intros [? Hb]. unfold validate_config. zb. by destruct Hb as [-> | [-> | ->]].
Qed.

Lemma expand_ticks_total c s :
  config_ok c → snapshot_ok c s → expand_ticks s (bits c) = total c s.
Proof.
  intros [_ Hb] [Ho Ht]. unfold expand_ticks, total, in_uint in *.
  assert (0 ≤ bits c ≤ 64) by lia.
  rewrite Z.shiftl_mul_pow2 by lia.
  assert (2 ^ bits c ≤ 2 ^ 64) by (apply Z.pow_le_mono_r; lia).
  rewrite Z.mod_small by (split; [apply Z.mul_nonneg_nonneg; lia | nia]).
  rewrite <- Z.add_lor_land.
  replace (Z.land (overflow_count s * 2 ^ bits c) (tick_count s)) with 0; [lia|].
  symmetry. apply Z.bits_inj'. intros n Hn. rewrite Z.land_spec, Z.bits_0.
  destruct (decide (n < bits c)).
  - rewrite Z.mul_pow2_bits_low; [done | lia].
  - rewrite (Z.bits_above_log2 (tick_count s)), andb_false_r; [done | lia |].
    destruct (decide (tick_count s = 0)) as [->|]; [simpl; lia|].
    apply Z.lt_le_trans with (bits c); [|lia]. apply Z.log2_lt_pow2; lia.
Qed.

(** *** What the conversions compute *)

(** Nanoseconds of [n] ticks, rounded down. *)
Definition ticks_nanos (n rate : Z) : Z := n * NANOS_PER_SEC / rate.

Lemma ticks_nanos_split n rate :
  0 < rate →
  ticks_nanos n rate = n / rate * NANOS_PER_SEC + n mod rate * NANOS_PER_SEC / rate.
Proof.
  intros Hr. unfold ticks_nanos. rewrite (Z.div_mod n rate) at 1 by lia.
  replace ((rate * (n / rate) + n mod rate) * NANOS_PER_SEC)
    with (n mod rate * NANOS_PER_SEC + n / rate * NANOS_PER_SEC * rate) by ring.
  rewrite Z.div_add by lia. lia.
Qed.

Lemma ticks_to_duration_spec n rate :
  0 < rate < 2 ^ 32 → 0 ≤ n →
  ∃ d, ticks_to_duration n rate = Done (Ok d) ∧ Duration.wf d ∧
       as_nanos d = Z.min (as_nanos Duration.MAX) (ticks_nanos n rate).
Proof.
  intros Hr Hn. unfold ticks_to_duration. zb.
  pose proof (Z.mod_pos_bound n rate ltac:(lia)) as Hm.
  rewrite umul_ok by (unfold NANOS_PER_SEC; lia). run_simpl.
  rewrite ticks_nanos_split by lia. rewrite Duration.dur_as_nanos_MAX.
  assert (0 ≤ n mod rate * NANOS_PER_SEC / rate < NANOS_PER_SEC) as Hq.
  { unfold NANOS_PER_SEC. split; [apply Z.div_pos; lia | apply Z.div_lt_upper_bound; lia]. }
  case_if; bool_to_prop.
  - rewrite (Z.mod_small _ (2 ^ 32)) by (unfold NANOS_PER_SEC in *; lia).
    rewrite Duration.dur_new_small by lia. run_simpl.
    assert (0 ≤ n / rate) by (apply Z.div_pos; lia).
    eexists. split; [done|]. unfold Duration.wf, in_uint, as_nanos. simpl.
    unfold NANOS_PER_SEC in *. lia.
  - eexists. split; [done|]. split; [apply Duration.dur_wf_MAX|].
    rewrite Duration.dur_as_nanos_MAX. unfold NANOS_PER_SEC in *. lia.
Qed.

Lemma snapshot_to_duration_spec c s :
  config_ok c → snapshot_ok c s →
  ∃ d, snapshot_to_duration s c = Done (Ok d) ∧ Duration.wf d ∧
       as_nanos d = Z.min (as_nanos Duration.MAX) (ticks_nanos (total c s) (rate_hz c)).
Proof.
  intros Hc Hs. unfold snapshot_to_duration. rewrite validate_config_ok by done.
  rewrite expand_ticks_total by done. simpl. apply ticks_to_duration_spec; [apply Hc|].
  destruct Hs as [Ho Ht]. unfold total, in_uint in *. lia.
Qed.

Lemma ticks_nanos_mono n m rate : 0 < rate → n ≤ m → ticks_nanos n rate ≤ ticks_nanos m rate.
Proof. intros. apply Z.div_le_mono; unfold NANOS_PER_SEC; lia. Qed.

(** The ceiling: the least tick count that covers the duration. *)
Lemma duration_to_ticks_ceil_spec d rate :
  Duration.wf d → 0 < rate < 2 ^ 32 →
  ∃ n, duration_to_ticks_ceil d rate = Ok n ∧ 0 ≤ n ≤ 2 ^ 96 ∧
       (n - 1) * NANOS_PER_SEC < as_nanos d * rate ≤ n * NANOS_PER_SEC.
Proof.
  intros Hd Hr. pose proof (Duration.dur_wf_nanos_range d Hd) as Hn.
  unfold duration_to_ticks_ceil. zb. rewrite Duration.dur_is_zero_nanos by done.
  case_if; bool_to_prop; [exists 0; unfold NANOS_PER_SEC in *; rewrite Heqb; by split|].
  assert (0 ≤ as_nanos d * rate < 2 ^ 64 * NANOS_PER_SEC * 2 ^ 32) as HN by nia.
  unfold checked_mul, checked_add, NANOS_PER_SEC in *. run_simpl. zb.
  generalize dependent (as_nanos d * rate). intros N HN.
  eexists. split; [done|].
  pose proof (Z.div_mod (N + (1000000000 - 1)) 1000000000 ltac:(lia)).
  pose proof (Z.mod_pos_bound (N + (1000000000 - 1)) 1000000000 ltac:(lia)). lia.
Qed.

Lemma max_finite_ticks_spec b :
  max_finite_ticks b =
    if decide (b = 16 ∨ b = 32 ∨ b = 64) then Ok (2 ^ b - 2) else Err Error.InvalidParameter.
Proof.
  unfold max_finite_ticks. case_decide as D.
  - by destruct D as [-> | [-> | ->]].
  - by zb.
Qed.

(** *** Properties *)

(** C39: A tick snapshot converts to the elapsed time of its expanded tick
    count, rounded down to nanoseconds and saturated at [Duration::MAX],
    without overflow or panic; a later snapshot, also across a counter
    wrap-around, never converts to an earlier time. *)
Theorem snapshot_time_exact_monotone c s1 s2 :
  config_ok c → snapshot_ok c s1 → snapshot_ok c s2 → total c s1 ≤ total c s2 →
  ∃ d1 d2, snapshot_to_duration s1 c = Done (Ok d1) ∧ snapshot_to_duration s2 c = Done (Ok d2) ∧
    as_nanos d1 = Z.min (as_nanos Duration.MAX) (total c s1 * NANOS_PER_SEC / rate_hz c) ∧
    as_nanos d2 = Z.min (as_nanos Duration.MAX) (total c s2 * NANOS_PER_SEC / rate_hz c) ∧
    as_nanos d1 ≤ as_nanos d2.
Proof.
  intros Hc H1 H2 Hle.
  destruct (snapshot_to_duration_spec c s1 Hc H1) as (d1 & E1 & _ & N1).
  destruct (snapshot_to_duration_spec c s2 Hc H2) as (d2 & E2 & _ & N2).
  exists d1, d2. split_and!; [done..|]. rewrite N1, N2.
  apply Z.min_le_compat_l, ticks_nanos_mono; [apply Hc|done].
Qed.

Lemma snapshot_time_exact_monotone_witness :
  ∃ d1 d2,
    snapshot_to_duration (mkSnapshot 0 65535) (mkConfig 1000 16) = Done (Ok d1) ∧
    snapshot_to_duration (mkSnapshot 1 0) (mkConfig 1000 16) = Done (Ok d2) ∧
    as_nanos d1 ≤ as_nanos d2.
Proof.
  destruct (snapshot_time_exact_monotone (mkConfig 1000 16) (mkSnapshot 0 65535) (mkSnapshot 1 0))
    as (d1 & d2 & E1 & E2 & _ & _ & L).
  - split; simpl; lia.
  - split; vm_compute; split; congruence.
  - split; vm_compute; split; congruence.
  - unfold total. simpl. lia.
  - exists d1, d2. auto.
Defined.

(** [duration_to_ticks_ceil] never fails for a well-formed duration and a
    non-zero rate (its [Overflow] exits are unreachable), returns the least
    number of ticks whose time covers the duration, and so the ticks converted
    back are never shorter than what was asked. *)
Theorem ticks_cover_duration d rate :
  Duration.wf d → 0 < rate < 2 ^ 32 →
  ∃ n, duration_to_ticks_ceil d rate = Ok n ∧ 0 ≤ n ∧
       (∀ k, 0 ≤ k → as_nanos d * rate ≤ k * NANOS_PER_SEC ↔ n ≤ k) ∧
       ∃ d', ticks_to_duration n rate = Done (Ok d') ∧ as_nanos d ≤ as_nanos d'.
Proof.
  intros Hd Hr. destruct (duration_to_ticks_ceil_spec d rate Hd Hr) as (n & E & Hn & Hlo & Hhi).
  exists n. split; [done|]. split; [lia|]. unfold NANOS_PER_SEC in *. split; [intros; nia|].
  destruct (ticks_to_duration_spec n rate Hr ltac:(lia)) as (d' & E' & _ & N). exists d'.
  split; [done|]. rewrite N. pose proof (Duration.dur_wf_nanos_range d Hd) as R.
  rewrite Duration.dur_as_nanos_MAX. unfold ticks_nanos, NANOS_PER_SEC in *.
  apply Z.min_glb; [lia|]. apply Z.div_le_lower_bound; lia.
Qed.

Lemma ticks_cover_duration_witness :
  ∃ n, duration_to_ticks_ceil (Duration.mk 1 1) 1000 = Ok n ∧
       (∀ k, 0 ≤ k → 1000000001 * 1000 ≤ k * NANOS_PER_SEC ↔ n ≤ k).
Proof.
  destruct (ticks_cover_duration (Duration.mk 1 1) 1000) as (n & E & _ & L & _).
  - split; vm_compute; split; congruence.
  - lia.
  - exists n. split; [exact E|exact L].
Defined.

End TickTime.

(** ** Deadlines *)

Module TimeConvert.

Definition checked_deadline (now after : Duration.t) : Result Duration.t :=
  ok_or (Duration.checked_add now after) Error.Overflow.

Definition remaining_until (now deadline : Duration.t) : Duration.t :=
  Duration.saturating_sub deadline now.

Definition next_periodic_deadline (previous_deadline period now : Duration.t)
    : Run (Result Duration.t) :=
  if Duration.is_zero period then Done (Err Error.InvalidParameter)
  else if Duration.ltb now previous_deadline then Done (Ok previous_deadline)
  else
    let elapsed_ns :=
      as_nanos (default Duration.ZERO (Duration.checked_sub now previous_deadline)) in
    let period_ns := as_nanos period in
    missed ←? Done (ok_or (n ← checked_div elapsed_ns period_ns; checked_add 128 n 1)
                          Error.Overflow);
    advance_ns ←? Done (ok_or (checked_mul 128 period_ns missed) Error.Overflow);
    let advance_secs := advance_ns / NANOS_PER_SEC in
    let advance_subsec := (advance_ns mod NANOS_PER_SEC) mod 2 ^ 32 in
    advance_secs_u64 ←? Done (if advance_secs <? 2 ^ 64 then Ok advance_secs
                              else Err Error.Overflow);
    advance ← Duration.new advance_secs_u64 advance_subsec;
    Done (ok_or (Duration.checked_add previous_deadline advance) Error.Overflow).

(** The first deadline on the grid [prev + k * period] after [now]. *)
Definition next_grid (prev period now : Z) : Z := prev + ((now - prev) / period + 1) * period.

Lemma next_grid_spec prev period now :
  0 < period → prev ≤ now →
  now < next_grid prev period now ≤ now + period.
Proof.
  intros Hp Hn. unfold next_grid.
  pose proof (Z.div_mod (now - prev) period ltac:(lia)).
  pose proof (Z.mod_pos_bound (now - prev) period Hp). nia.
Qed.

Lemma checked_deadline_spec now after :
  Duration.wf now → Duration.wf after →
  match checked_deadline now after with
  | Ok d => Duration.wf d ∧ as_nanos d = as_nanos now + as_nanos after
  | Err e => e = Error.Overflow ∧ as_nanos Duration.MAX < as_nanos now + as_nanos after
  end.
Proof.
  intros Hn Ha. unfold checked_deadline, ok_or. destruct (Duration.checked_add now after) eqn:E.
  - by apply Duration.dur_checked_add_Some.
  - split; [done|]. by apply Duration.dur_checked_add_None.
Qed.

(** The nanosecond count of a duration that fits is split and rebuilt exactly. *)
Lemma rebuild_duration ns :
  0 ≤ ns → ns / NANOS_PER_SEC < 2 ^ 64 →
  ∃ d, Duration.new (ns / NANOS_PER_SEC) ((ns mod NANOS_PER_SEC) mod 2 ^ 32) = Done d ∧
       Duration.wf d ∧ as_nanos d = ns.
Proof.
  intros Hn Hs. pose proof (Z.mod_pos_bound ns NANOS_PER_SEC ltac:(done)) as Hm.
  rewrite (Z.mod_small _ (2 ^ 32)) by (unfold NANOS_PER_SEC in *; lia).
  rewrite Duration.dur_new_small by lia. eexists. split; [done|].
  assert (0 ≤ ns / NANOS_PER_SEC) by (by apply Z.div_pos).
  split; [split; simpl; unfold in_uint; lia|].
  unfold as_nanos; simpl. rewrite (Z.div_mod ns NANOS_PER_SEC) at 3 by done. lia.
Qed.

Lemma next_periodic_deadline_spec prev period now :
  Duration.wf prev → Duration.wf period → Duration.wf now →
  Duration.is_zero period = false → Duration.ltb now prev = false →
  ∃ r, next_periodic_deadline prev period now = Done r ∧
  match r with
  | Ok d => Duration.wf d ∧
            as_nanos d = next_grid (as_nanos prev) (as_nanos period) (as_nanos now)
  | Err e => e = Error.Overflow ∧
             as_nanos Duration.MAX < next_grid (as_nanos prev) (as_nanos period) (as_nanos now)
  end.
Proof.
  intros Hprev Hper Hnow Hz Hl. unfold next_periodic_deadline. rewrite Hz, Hl.
  rewrite Duration.dur_is_zero_nanos in Hz by done.
  rewrite Duration.dur_ltb_nanos in Hl by done. bool_to_prop.
  pose proof (Duration.dur_wf_nanos_range _ Hprev) as Rp.
  pose proof (Duration.dur_wf_nanos_range _ Hper) as Rq.
  pose proof (Duration.dur_wf_nanos_range _ Hnow) as Rn.
  assert (as_nanos (default Duration.ZERO (Duration.checked_sub now prev))
          = as_nanos now - as_nanos prev) as ->.
  { destruct (Duration.checked_sub now prev) eqn:E; simpl.
    - by apply (Duration.dur_checked_sub_Some now prev).
    - apply Duration.dur_checked_sub_None in E; [lia|done..]. }
  pose proof (next_grid_spec (as_nanos prev) (as_nanos period) (as_nanos now)) as Hg.
  unfold next_grid in *.
  set (k := (as_nanos now - as_nanos prev) / as_nanos period) in *.
  assert (0 ≤ k) by (apply Z.div_pos; lia).
  assert (k * as_nanos period ≤ as_nanos now - as_nanos prev)
    by (rewrite Z.mul_comm; apply Z.mul_div_le; lia).
  assert (k ≤ as_nanos now) by nia.
  unfold checked_div, checked_add, checked_mul. unfold NANOS_PER_SEC in Rp, Rq, Rn.
  zb. fold k. run_simpl. zb.
  case_if; bool_to_prop; run_simpl.
  - destruct (rebuild_duration (as_nanos period * (k + 1))) as (adv & -> & Wa & Ea); [nia|done|].
    run_simpl. eexists. split; [done|]. unfold ok_or.
    destruct (Duration.checked_add prev adv) eqn:E.
    + apply Duration.dur_checked_add_Some in E as [W ->]; [|done..]. split; [done|]. lia.
    + split; [done|]. apply Duration.dur_checked_add_None in E; [|done..]. lia.
  - eexists. split; [done|]. split; [done|]. rewrite Duration.dur_as_nanos_MAX.
    pose proof (Z.mul_div_le (as_nanos period * (k + 1)) NANOS_PER_SEC ltac:(done)).
    unfold NANOS_PER_SEC in *. lia.
Qed.

(** *** Properties *)

(** C23: [next_periodic_deadline] on every branch: a zero period is rejected, a
    deadline still in the future is kept, and a passed one moves to the first
    point of its own grid strictly after [now] (at most one period ahead),
    or [Overflow] exactly when that point is beyond [Duration::MAX]. *)
Theorem next_periodic_deadline_correct prev period now :
  Duration.wf prev → Duration.wf period → Duration.wf now →
  ∃ r, next_periodic_deadline prev period now = Done r ∧
  let p := as_nanos prev in let q := as_nanos period in let n := as_nanos now in
  match r with
  | Ok d => 0 < q ∧ Duration.wf d ∧
            (n < p → d = prev) ∧
            (p ≤ n → n < as_nanos d ≤ n + q ∧ ∃ k, 0 < k ∧ as_nanos d = p + k * q)
  | Err Error.InvalidParameter => q = 0
  | Err e => e = Error.Overflow ∧ 0 < q ∧ p ≤ n ∧
             as_nanos Duration.MAX < p + ((n - p) / q + 1) * q
  end.
Proof.
  intros Hprev Hper Hnow.
  pose proof (Duration.dur_wf_nanos_range _ Hper) as Rq.
  destruct (Duration.is_zero period) eqn:Hz.
  { eexists. unfold next_periodic_deadline. rewrite Hz. split; [done|]. simpl.
    rewrite Duration.dur_is_zero_nanos in Hz by done. by bool_to_prop. }
  pose proof Hz as Hz'. rewrite Duration.dur_is_zero_nanos in Hz' by done. bool_to_prop.
  destruct (Duration.ltb now prev) eqn:Hl.
  { eexists. unfold next_periodic_deadline. rewrite Hz, Hl. split; [done|]. simpl.
    rewrite Duration.dur_ltb_nanos in Hl by done. bool_to_prop. split_and!; [lia|done|done|lia]. }
  destruct (next_periodic_deadline_spec prev period now) as (r & E & Hr); [done..|].
  rewrite Duration.dur_ltb_nanos in Hl by done. bool_to_prop.
  exists r. split; [done|]. cbv zeta.
  pose proof (next_grid_spec (as_nanos prev) (as_nanos period) (as_nanos now)) as G.
  destruct r as [d|e]; [|destruct Hr as [-> Hr]; unfold next_grid in Hr; split_and!; [done|lia..]].
  destruct Hr as [Wd Ed]. split_and!; [lia|done|lia|]. intros _. split; [lia|].
  exists ((as_nanos now - as_nanos prev) / as_nanos period + 1). rewrite Ed. split; [|done].
  assert (0 ≤ (as_nanos now - as_nanos prev) / as_nanos period) by (apply Z.div_pos; lia). lia.
Qed.

Lemma next_periodic_deadline_correct_witness :
  ∃ r, next_periodic_deadline (Duration.mk 1 0) (Duration.mk 0 300000000) (Duration.mk 2 0) = Done r
       ∧ r = Ok (Duration.mk 2 200000000).
Proof.
  destruct (next_periodic_deadline_correct (Duration.mk 1 0) (Duration.mk 0 300000000)
              (Duration.mk 2 0)) as (r & E & _).
  - split; vm_compute; split; congruence.
  - split; vm_compute; split; congruence.
  - split; vm_compute; split; congruence.
  - exists r. split; [exact E|]. vm_compute in E. by injection E as <-.
Defined.

End TimeConvert.

(** ** The timer automaton *)

Module TimerState.

Record t : Type := mk {
  mode : TimerMode.t;
  period : Duration.t;
  deadline : option Duration.t;
}.

Definition set_deadline (s : t) (d : option Duration.t) : t :=
  {| mode := mode s; period := period s; deadline := d |}.

Definition new (period : Duration.t) (mode : TimerMode.t) : Result t :=
  if Duration.eqb period Duration.ZERO then Err Error.InvalidParameter
  else Ok {| mode := mode; period := period; deadline := None |}.

(** [start]: on error the state is unchanged ([?] before the assignment). *)
Definition start (s : t) (now : Duration.t) : Result () * t :=
  match TimeConvert.checked_deadline now (period s) with
  | Ok d => (Ok (), set_deadline s (Some d))
  | Err e => (Err e, s)
  end.

Definition stop (s : t) : t := set_deadline s None.

Definition reset (s : t) (now : Duration.t) : Result () * t :=
  match TimeConvert.checked_deadline now (period s) with
  | Ok d => (Ok (), set_deadline s (Some d))
  | Err e => (Err e, s)
  end.

Definition change_period (s : t) (new_period : Duration.t) : Result () * t :=
  if Duration.eqb new_period Duration.ZERO then (Err Error.InvalidParameter, s)
  else (Ok (), {| mode := mode s; period := new_period; deadline := deadline s |}).

Definition advance_on_expiry (s : t) (now : Duration.t) : Run (bool * t) :=
  match deadline s with
  | Some d =>
      if Duration.leb d now then
        match mode s with
        | TimerMode.OneShot => Done (true, set_deadline s None)
        | TimerMode.Periodic =>
            r ← TimeConvert.next_periodic_deadline d (period s) now;
            match r with
            | Ok next => Done (true, set_deadline s (Some next))
            | Err _ => Done (true, set_deadline s None)
            end
        end
      else Done (false, s)
  | None => Done (false, s)
  end.

(** The invariant: a non-zero period, well-formed durations. *)
Definition wf (s : t) : Prop :=
  Duration.wf (period s) ∧ Duration.is_zero (period s) = false ∧
  (∀ d, deadline s = Some d → Duration.wf d).

(** The timer is armed and due. *)
Definition expired (s : t) (now : Duration.t) : Prop :=
  ∃ d, deadline s = Some d ∧ as_nanos d ≤ as_nanos now.

Lemma timer_new_wf p m s : Duration.wf p → new p m = Ok s → wf s ∧ deadline s = None.
Proof.
  unfold new. intros W E. case_if; [done|]. simplify_eq. apply Duration.dur_eqb_neq in Heqb.
  split; [|done]. split; [done|]. split; [|done]. simpl.
  rewrite Duration.dur_is_zero_nanos by done. apply Z.eqb_neq. intros E. apply Heqb.
  by apply Duration.dur_as_nanos_inj; [|apply Duration.dur_wf_ZERO|].
Qed.

Lemma set_deadline_wf s d : wf s → (∀ x, d = Some x → Duration.wf x) → wf (set_deadline s d).
Proof. intros (? & ? & ?) ?. by split. Qed.

Lemma timer_stop_wf s : wf s → wf (stop s).
Proof. intros. by apply set_deadline_wf. Qed.

(** Arming: the deadline is exactly one period after [now], or nothing changes
    and [Overflow] is reported. *)
Lemma timer_start_spec s now :
  wf s → Duration.wf now →
  match start s now with
  | (Ok (), s') => wf s' ∧ mode s' = mode s ∧ period s' = period s ∧
      ∃ d, deadline s' = Some d ∧ as_nanos d = as_nanos now + as_nanos (period s)
  | (Err e, s') => e = Error.Overflow ∧ s' = s ∧
      as_nanos Duration.MAX < as_nanos now + as_nanos (period s)
  end.
Proof.
  intros W Hn. pose proof W as (Hp & _ & _). unfold start.
  pose proof (TimeConvert.checked_deadline_spec now (period s) Hn Hp) as E.
  destruct (TimeConvert.checked_deadline now (period s)).
  - destruct E as [Wd E]. split; [|by eauto 6]. apply set_deadline_wf; [done|].
    by intros ? [= <-].
  - by destruct E.
Qed.

Lemma timer_reset_start s now : reset s now = start s now.
Proof. done. Qed.

Lemma timer_start_wf s now : wf s → Duration.wf now → wf (snd (start s now)).
Proof.
  intros W Hn. pose proof (timer_start_spec s now W Hn) as E.
  destruct (start s now) as [[[]|e] s']; destruct_and?; by subst.
Qed.

Lemma timer_change_period_wf s p : wf s → Duration.wf p → wf (snd (change_period s p)).
Proof.
  intros (? & ? & ?) Hp. unfold change_period. case_if; [done|].
  destruct (timer_new_wf p (mode s) {| mode := mode s; period := p; deadline := None |})
    as [(? & ? & ?) _]; [done|by unfold new; rewrite Heqb|].
  by split.
Qed.

(** Expiry: the callback is due exactly when the deadline has passed, and the
    state is advanced so that it is not due again at the same instant. *)
Lemma advance_on_expiry_spec s now :
  wf s → Duration.wf now →
  ∃ b s', advance_on_expiry s now = Done (b, s') ∧ wf s' ∧
    mode s' = mode s ∧ period s' = period s ∧
    (b = true ↔ expired s now) ∧ (b = false → s' = s) ∧ ¬ expired s' now.
Proof.
  intros W Hn. pose proof W as (Hp & Hz & Hd). unfold advance_on_expiry, expired.
  destruct (deadline s) as [d|] eqn:Ed; [|by eexists false, s; naive_solver].
  specialize (Hd d eq_refl). rewrite Duration.dur_leb_nanos by done.
  case_if; bool_to_prop; [|eexists false, s; naive_solver lia].
  destruct (mode s) eqn:Em.
  - eexists true, _. split; [done|]. split; [by apply set_deadline_wf|]. naive_solver.
  - destruct (TimeConvert.next_periodic_deadline_spec d (period s) now) as (r & -> & Hr);
      [done..| |]; [rewrite Duration.dur_ltb_nanos by done; by zb|].
    pose proof (TimeConvert.next_grid_spec (as_nanos d) (as_nanos (period s)) (as_nanos now)) as Hg.
    rewrite Duration.dur_is_zero_nanos in Hz by done. bool_to_prop.
    pose proof (Duration.dur_wf_nanos_range _ Hp). run_simpl.
    destruct r as [nxt|e].
    + destruct Hr as [Wn En]. eexists true, _. split; [done|].
      split; [apply set_deadline_wf; [done|by intros ? [= <-]]|]. naive_solver lia.
    + eexists true, _. split; [done|]. split; [by apply set_deadline_wf|]. naive_solver.
Qed.

(** A periodic timer lands on its grid: the new deadline is the previous one
    plus a positive multiple of the period, less than one period ahead. *)
Lemma advance_periodic_grid s now d b s' d' :
  wf s → Duration.wf now → mode s = TimerMode.Periodic → deadline s = Some d →
  as_nanos d ≤ as_nanos now → advance_on_expiry s now = Done (b, s') → deadline s' = Some d' →
  as_nanos d' = TimeConvert.next_grid (as_nanos d) (as_nanos (period s)) (as_nanos now).
Proof.
  intros (Hp & Hz & Hd) Hn Em Ed Hle E Ed'. specialize (Hd d Ed).
  unfold advance_on_expiry in E. rewrite Ed, Em, Duration.dur_leb_nanos in E by done.
  rewrite (proj2 (Z.leb_le _ _)) in E by done.
  destruct (TimeConvert.next_periodic_deadline_spec d (period s) now) as (r & Er & Hr);
    [done..| |]; [rewrite Duration.dur_ltb_nanos by done; by zb|].
  rewrite Er in E. run_simpl. destruct r; simplify_eq/=. by destruct Hr.
Qed.

(** *** Polling a timer *)

(** The timer is polled at each instant of [nows]; the answers in order. *)
Fixpoint poll (s : t) (nows : list Duration.t) : Run (list bool * t) :=
  match nows with
  | [] => Done ([], s)
  | now :: nows =>
      '(b, s1) ← advance_on_expiry s now;
      '(bs, s2) ← poll s1 nows;
      Done (b :: bs, s2)
  end.

(** The deadline is disarmed or on the grid of [d0]. *)
Definition on_grid (s : t) (d0 : Z) : Prop :=
  ∀ d, deadline s = Some d → ∃ k, 0 ≤ k ∧ as_nanos d = d0 + k * as_nanos (period s).

Lemma advance_on_grid s now b s' d0 :
  wf s → Duration.wf now → mode s = TimerMode.Periodic → on_grid s d0 →
  advance_on_expiry s now = Done (b, s') → on_grid s' d0.
Proof.
  intros W Hn Em G E.
  destruct (advance_on_expiry_spec s now W Hn) as (b1 & s1 & E1 & W1 & Em1 & Ep1 & Hb & Hs & _).
  rewrite E1 in E. simplify_eq.
  destruct b; [|by rewrite Hs]. destruct (proj1 Hb eq_refl) as (d & Ed & Hle).
  destruct (G d Ed) as (k & Hk & Ek). intros d' Ed'.
  pose proof (advance_periodic_grid s now d true s' d' W Hn Em Ed Hle E1 Ed') as Eg.
  destruct W as (Hp & Hz & _). rewrite Duration.dur_is_zero_nanos in Hz by done. bool_to_prop.
  pose proof (Duration.dur_wf_nanos_range _ Hp). unfold TimeConvert.next_grid in Eg.
  assert (0 ≤ (as_nanos now - as_nanos d) / as_nanos (period s)) by (apply Z.div_pos; lia).
  exists (k + ((as_nanos now - as_nanos d) / as_nanos (period s) + 1)). rewrite Ep1. lia.
Qed.

Lemma poll_on_grid nows : ∀ s d0,
  wf s → Forall Duration.wf nows → mode s = TimerMode.Periodic → on_grid s d0 →
  ∃ bs s', poll s nows = Done (bs, s') ∧ wf s' ∧ length bs = length nows ∧
           period s' = period s ∧ on_grid s' d0.
Proof.
  induction nows as [|now nows IH]; intros s d0 W F Em G; simpl; [by eauto 10|].
  apply Forall_cons_1 in F as [Hn F].
  destruct (advance_on_expiry_spec s now W Hn) as (b & s1 & E1 & W1 & Em1 & Ep1 & _).
  rewrite E1. simpl.
  destruct (IH s1 d0) as (bs & s2 & E2 & W2 & L & Ep2 & G2);
    [done|done|by rewrite Em1|exact (advance_on_grid s now b s1 d0 W Hn Em G E1)|].
  rewrite E2. simpl. eexists _, _. split; [done|]. split; [done|].
  split; [simpl; lia|]. split; [congruence|done].
Qed.

(** *** Properties *)

(** [advance_on_expiry] reports an expiry exactly when an armed deadline
    has been reached, changes nothing otherwise, keeps the invariant, mode and
    period, and leaves the timer not due at the same instant: one call of the
    callback per expiry, however late the poll. *)
Theorem timer_expiry_correct s now :
  wf s → Duration.wf now →
  ∃ b s', advance_on_expiry s now = Done (b, s') ∧ wf s' ∧
    mode s' = mode s ∧ period s' = period s ∧
    (b = true ↔ expired s now) ∧ (b = false → s' = s) ∧ ¬ expired s' now ∧
    advance_on_expiry s' now = Done (false, s').
Proof.
  intros W Hn. destruct (advance_on_expiry_spec s now W Hn)
    as (b & s' & E & W' & Em & Ep & Hb & Hs & Hne).
  exists b, s'. do 7 (split; [done|]).
  destruct (advance_on_expiry_spec s' now W' Hn) as (b2 & s2 & E2 & _ & _ & _ & Hb2 & Hs2 & _).
  destruct b2; [exfalso; apply Hne, Hb2; done|]. by rewrite E2, Hs2.
Qed.

Definition sample_timer : t :=
  mk TimerMode.Periodic (Duration.mk 0 100000000) (Some (Duration.mk 1 0)).

Lemma sample_timer_wf : wf sample_timer.
Proof.
  split; [split; vm_compute; split; congruence|]. split; [done|].
  intros d [= <-]. split; vm_compute; split; congruence.
Qed.

Lemma timer_expiry_correct_witness :
  ∃ b s', advance_on_expiry sample_timer (Duration.mk 1 250000000) = Done (b, s') ∧ b = true ∧
          advance_on_expiry s' (Duration.mk 1 250000000) = Done (false, s').
Proof.
  destruct (timer_expiry_correct sample_timer (Duration.mk 1 250000000))
    as (b & s' & E & _ & _ & _ & _ & _ & _ & E').
  - exact sample_timer_wf.
  - split; vm_compute; split; congruence.
  - exists b, s'. split; [exact E|]. split; [|exact E']. vm_compute in E. by injection E as <- _.
Defined.

(** A periodic timer does not drift: armed at [now0] and then polled at
    any instants, early or late, its deadline is always a whole number of
    periods after the first one (or it has stopped because the next point is
    beyond [Duration::MAX]). *)
Theorem periodic_timer_no_drift s now0 nows s0 :
  wf s → mode s = TimerMode.Periodic → Duration.wf now0 → Forall Duration.wf nows →
  start s now0 = (Ok (), s0) →
  ∃ bs s', poll s0 nows = Done (bs, s') ∧ wf s' ∧
  match deadline s' with
  | None => True
  | Some d => ∃ k, 0 ≤ k ∧
      as_nanos d = as_nanos now0 + as_nanos (period s) + k * as_nanos (period s)
  end.
Proof.
  intros W Em Hn F E. pose proof (timer_start_spec s now0 W Hn) as S'. rewrite E in S'.
  destruct S' as (W0 & Em0 & Ep0 & d0 & Ed0 & Nd0).
  destruct (poll_on_grid nows s0 (as_nanos d0)) as (bs & s' & P & W' & _ & Ep & G);
    [done|done|by rewrite Em0|intros d Ed; exists 0; simplify_eq; lia|].
  exists bs, s'. split; [done|]. split; [done|]. destruct (deadline s') as [d|] eqn:Ed; [|done].
  destruct (G d Ed) as (k & Hk & Ek). exists k. rewrite Ek, Nd0, Ep, Ep0. done.
Qed.

Lemma periodic_timer_no_drift_witness :
  ∃ bs s', poll (set_deadline sample_timer (Some (Duration.mk 0 100000000)))
             [Duration.mk 0 50; Duration.mk 0 350000000] = Done (bs, s') ∧ wf s'.
Proof.
  destruct (periodic_timer_no_drift sample_timer (Duration.mk 0 0)
              [Duration.mk 0 50; Duration.mk 0 350000000]
              (set_deadline sample_timer (Some (Duration.mk 0 100000000))))
    as (bs & s' & E & W & _).
  - exact sample_timer_wf.
  - reflexivity.
  - split; vm_compute; split; congruence.
  - repeat constructor; vm_compute; congruence.
  - vm_compute. reflexivity.
  - exists bs, s'. auto.
Defined.

End TimerState.
