(* ===== verification/Runtime.v ===== *)
(** * The shared runtime lifecycle ([crates/osal-shared])

    [Validation] ([validation.rs]) and [RuntimeLifecycle] ([runtime.rs]): one
    atomic word packs the lifecycle state and the number of live objects.
    The operations are given at the granularity of single atomic accesses, so
    that [Lifecycle] can interleave any number of tasks. *)

From S2P Require Import Prelude Api Buffers.

(** ** [validation.rs] *)

Module Validation.

Definition validate_queue_capacity (capacity : Z) : Result () :=
  if capacity =? 0 then Err Error.InvalidParameter else Ok ().

Definition validate_queue_message_size (message_size : Z) : Result () :=
  if message_size =? 0 then Err Error.InvalidParameter else Ok ().

Definition validate_send_message_size (expected actual : Z) : Result () :=
  if negb (actual =? expected) then Err Error.InvalidMessageSize else Ok ().

Definition validate_recv_buffer_size (expected actual : Z) : Result () :=
  if negb (actual =? expected) then Err Error.InvalidMessageSize else Ok ().

Definition TASK_NAME_MAX_BYTES : Z := 31.

(** The name is given by its UTF-8 bytes. *)
Definition validate_task_config (name : list u8) (stack_size : Z) : Result () :=
  if TASK_NAME_MAX_BYTES <? Z.of_nat (length name) then Err Error.InvalidParameter
  else if existsb (λ b, Byte.eqb b Byte.x00) name then Err Error.InvalidParameter
  else if stack_size =? 0 then Err Error.InvalidParameter
  else Ok ().

Lemma nul_in_name name :
  existsb (λ b, Byte.eqb b Byte.x00) name = true ↔ Byte.x00 ∈ name.
Proof.
  rewrite existsb_exists. setoid_rewrite list_elem_of_In. split.
  - intros (b & Hb & E). apply Byte.byte_dec_bl in E. by subst.
  - intros Hb. eexists. split; [exact Hb|]. by apply Byte.byte_dec_lb.
Qed.

Lemma validate_task_config_ok name stack :
  validate_task_config name stack = Ok () ↔
  Z.of_nat (length name) ≤ 31 ∧ (Byte.x00 ∉ name) ∧ stack ≠ 0.
Proof.
  unfold validate_task_config, TASK_NAME_MAX_BYTES. rewrite <- nul_in_name.
  repeat case_if; bool_to_prop; (split; [intros E; simplify_eq; naive_solver | intros (? & ? & ?)]);
    done || lia.
Qed.

End Validation.

(** ** [runtime.rs] *)

Module RuntimeLifecycle.
Section RuntimeLifecycle.
Context `{Arch}.

Definition STATE_BITS : Z := 2.
Definition STATE_MASK : Z := Z.shiftl 1 STATE_BITS - 1.
Definition MAX_COUNT : Z := Z.shiftr (uint_max usize_bits) STATE_BITS.

(** [(state as usize) | (count << STATE_BITS)] *)
Definition encode (state : RuntimeState.t) (count : Z) : Run Z :=
  _ ← rassert (count <=? MAX_COUNT) "count <= MAX_COUNT";
  Done (Z.lor (RuntimeState.repr state) (Z.shiftl count STATE_BITS mod 2 ^ usize_bits)).

Definition decode_state (word : Z) : Run RuntimeState.t :=
  match Z.land word STATE_MASK with
  | 0 => Done RuntimeState.Uninitialized
  | 1 => Done RuntimeState.Initializing
  | 2 => Done RuntimeState.Running
  | 3 => Done RuntimeState.ShuttingDown
  | _ => Panic "internal error: entered unreachable code"
  end.

Definition decode_count (word : Z) : Z := Z.shiftr word STATE_BITS.

(** [AtomicUsize::compare_exchange]: the value read and the word left. *)
Definition compare_exchange (word expected desired : Z) : Res Z Z * Z :=
  if word =? expected then (Ok word, desired) else (Err word, word).

(** [RuntimeLifecycle::new], [state] and [active_objects]. *)
Definition new : Z := 0.
Definition state (word : Z) : Run RuntimeState.t := decode_state word.
Definition active_objects (word : Z) : Z := decode_count word.

(** [begin_initialize]: one strong compare-exchange. *)
Definition begin_initialize (word : Z) : Run (Result () * Z) :=
  expected ← encode RuntimeState.Uninitialized 0;
  desired ← encode RuntimeState.Initializing 0;
  match compare_exchange word expected desired with
  | (Ok _, word') => Done (Ok (), word')
  | (Err current, word') =>
      st ← decode_state current;
      match st with
      | RuntimeState.Uninitialized => Done (Err Error.AlreadyInitialized, word')
      | RuntimeState.Running => Done (Err Error.AlreadyInitialized, word')
      | _ => Done (Err Error.Busy, word')
      end
  end.

(** One iteration of a compare-exchange loop, as decided by the loaded word:
    return at once, or try to replace the word and then return. *)
Inductive attempt : Type :=
| Return (r : Result ())
| TryCas (next : Z) (r : Result ()).

(** The loop body of [begin_shutdown]. *)
Definition begin_shutdown_body (current : Z) : Run attempt :=
  st ← decode_state current;
  match st with
  | RuntimeState.Uninitialized => Done (Return (Err Error.NotInitialized))
  | RuntimeState.Initializing | RuntimeState.ShuttingDown => Done (Return (Err Error.Busy))
  | RuntimeState.Running =>
      if negb (decode_count current =? 0) then Done (Return (Err Error.Busy))
      else next ← encode RuntimeState.ShuttingDown 0; Done (TryCas next (Ok ()))
  end.

(** The loop body of [acquire]. *)
Definition acquire_body (current : Z) : Run attempt :=
  st ← decode_state current;
  if negb (bool_decide (st = RuntimeState.Running))
  then Done (Return (Err Error.NotInitialized))
  else
    let count := decode_count current in
    if MAX_COUNT <=? count then Done (Return (Err Error.Overflow))
    else count' ← uadd usize_bits count 1;
         next ← encode RuntimeState.Running count'; Done (TryCas next (Ok ())).

(** The loop body of [RuntimeLease::drop]. *)
Definition lease_drop_body (current : Z) : Run attempt :=
  st ← decode_state current;
  _ ← rassert (bool_decide (st = RuntimeState.Running))
        "runtime lease dropped outside Running state";
  next_count ← expect (checked_sub (decode_count current) 1) "runtime object count underflow";
  next ← encode RuntimeState.Running next_count;
  Done (TryCas next (Ok ())).

(** A loop run with no interference; [spurious] lists the outcomes of
    [compare_exchange_weak] before it succeeds ([true]: failed spuriously). *)
Fixpoint run_loop (body : Z → Run attempt) (spurious : nat) (word : Z) : Run (Result () * Z) :=
  a ← body word;
  match a with
  | Return r => Done (r, word)
  | TryCas next r =>
      match spurious with
      | O => Done (r, next)
      | S n => run_loop body n word
      end
  end.

(** The four state changes of the transition guards: [commit] asserts the
    exchange in every profile, [drop] only in debug builds. *)
Definition guarded_exchange (word : Z) (from to : RuntimeState.t) (msg : string) : Run Z :=
  e ← encode from 0;
  d ← encode to 0;
  match compare_exchange word e d with
  | (Ok _, word') => Done word'
  | (Err _, _) => Panic msg
  end.

Definition commit_initialize (word : Z) : Run Z :=
  guarded_exchange word RuntimeState.Initializing RuntimeState.Running
    "runtime initialize commit invariant violated".
Definition drop_initialize (word : Z) : Run Z :=
  guarded_exchange word RuntimeState.Initializing RuntimeState.Uninitialized
    "runtime initialize rollback invariant violated".
Definition commit_shutdown (word : Z) : Run Z :=
  guarded_exchange word RuntimeState.ShuttingDown RuntimeState.Uninitialized
    "runtime shutdown commit invariant violated".
Definition drop_shutdown (word : Z) : Run Z :=
  guarded_exchange word RuntimeState.ShuttingDown RuntimeState.Running
    "runtime shutdown rollback invariant violated".

(** *** The word as a pair *)

Definition pack (st : RuntimeState.t) (n : Z) : Z := RuntimeState.repr st + 4 * n.

Lemma repr_range st : 0 ≤ RuntimeState.repr st < 4.
Proof. destruct st; simpl; lia. Qed.

Lemma MAX_COUNT_eq : 4 * MAX_COUNT + 3 = uint_max usize_bits.
Proof.
  unfold MAX_COUNT, STATE_BITS, uint_max. by destruct usize_bits_ok as [-> | ->].
Qed.

Lemma encode_pack st n : 0 ≤ n ≤ MAX_COUNT → encode st n = Done (pack st n).
Proof.
  intros Hn. unfold encode, STATE_BITS. zb. run_simpl. f_equal. unfold pack.
  pose proof MAX_COUNT_eq as Hm. pose proof (repr_range st). unfold uint_max in Hm.
  rewrite Z.shiftl_mul_pow2, Z.mod_small by lia.
  replace (4 * n) with (n * 2 ^ 2) by lia.
  rewrite <- Z.add_lor_land. replace (Z.land _ _) with 0; [lia|].
  symmetry. apply Z.bits_inj'. intros i Hi. rewrite Z.land_spec, Z.bits_0.
  destruct (decide (i < 2)).
  - rewrite Z.mul_pow2_bits_low, andb_false_r by lia. done.
  - rewrite (Z.bits_above_log2 (RuntimeState.repr st)); [done|lia|].
    apply Z.lt_le_trans with 2; [|lia]. destruct st; simpl; lia.
Qed.

Lemma decode_state_pack st n : 0 ≤ n → decode_state (pack st n) = Done st.
Proof.
  intros. unfold decode_state, STATE_MASK, STATE_BITS, pack.
  change (Z.shiftl 1 2 - 1) with (Z.ones 2). rewrite Z.land_ones by lia.
  replace (RuntimeState.repr st + 4 * n) with (RuntimeState.repr st + n * 2 ^ 2) by lia.
  rewrite Z.mod_add, Z.mod_small by (pose proof (repr_range st); lia). by destruct st.
Qed.

Lemma decode_count_pack st n : decode_count (pack st n) = n.
Proof.
  unfold decode_count, STATE_BITS, pack. rewrite Z.shiftr_div_pow2 by lia.
  pose proof (repr_range st). symmetry. apply (Z.div_unique _ _ _ (RuntimeState.repr st)); lia.
Qed.

Lemma pack_inj st n st' n' : pack st n = pack st' n' → st = st' ∧ n = n'.
Proof.
  unfold pack. pose proof (repr_range st). pose proof (repr_range st'). intros E.
  assert (n = n') as -> by lia. split; [|done].
  assert (RuntimeState.repr st = RuntimeState.repr st') as E' by lia. by destruct st, st'.
Qed.

Lemma pack_eqb st n st' n' :
  (pack st n =? pack st' n') = bool_decide (st = st') && (n =? n').
Proof.
  apply eq_true_iff_eq. rewrite Z.eqb_eq, andb_true_iff, bool_decide_eq_true, Z.eqb_eq.
  split; [apply pack_inj | by intros [-> ->]].
Qed.

Lemma zero_le_MAX_COUNT : 1 ≤ MAX_COUNT.
Proof. pose proof MAX_COUNT_eq as E. pose proof usize_range. unfold uint_max in E. lia. Qed.

(** *** What each operation does to a packed word *)

Lemma begin_initialize_spec st n :
  0 ≤ n ≤ MAX_COUNT →
  begin_initialize (pack st n) = Done
    match st with
    | RuntimeState.Uninitialized =>
        if n =? 0 then (Ok (), pack RuntimeState.Initializing 0)
        else (Err Error.AlreadyInitialized, pack st n)
    | RuntimeState.Running => (Err Error.AlreadyInitialized, pack st n)
    | _ => (Err Error.Busy, pack st n)
    end.
Proof.
  intros Hn. unfold begin_initialize. pose proof zero_le_MAX_COUNT.
  rewrite !encode_pack by lia. run_simpl. unfold compare_exchange.
  rewrite pack_eqb. destruct st; simpl; rewrite ?decode_state_pack by lia; try done.
  case_if; [done|]. by rewrite decode_state_pack by lia.
Qed.

Lemma begin_shutdown_body_spec st n :
  0 ≤ n →
  begin_shutdown_body (pack st n) = Done
    match st with
    | RuntimeState.Uninitialized => Return (Err Error.NotInitialized)
    | RuntimeState.Running =>
        if n =? 0 then TryCas (pack RuntimeState.ShuttingDown 0) (Ok ())
        else Return (Err Error.Busy)
    | _ => Return (Err Error.Busy)
    end.
Proof.
  intros Hn. pose proof zero_le_MAX_COUNT. unfold begin_shutdown_body.
  rewrite decode_state_pack, decode_count_pack by done. run_simpl.
  destruct st; try done. destruct (n =? 0); [|done]. simpl. by rewrite encode_pack by lia.
Qed.

Lemma acquire_body_spec st n :
  0 ≤ n ≤ MAX_COUNT →
  acquire_body (pack st n) = Done
    match st with
    | RuntimeState.Running =>
        if n <? MAX_COUNT then TryCas (pack RuntimeState.Running (n + 1)) (Ok ())
        else Return (Err Error.Overflow)
    | _ => Return (Err Error.NotInitialized)
    end.
Proof.
  intros Hn. unfold acquire_body. rewrite decode_state_pack, decode_count_pack by lia. run_simpl.
  destruct st; try done. simpl. rewrite Z.leb_antisym. destruct (n <? MAX_COUNT) eqn:E; [|done].
  bool_to_prop. simpl. pose proof MAX_COUNT_eq as Hm. unfold uint_max in Hm.
  rewrite uadd_ok by lia. simpl. by rewrite encode_pack by lia.
Qed.

Lemma lease_drop_body_spec n :
  0 < n ≤ MAX_COUNT →
  lease_drop_body (pack RuntimeState.Running n) =
    Done (TryCas (pack RuntimeState.Running (n - 1)) (Ok ())).
Proof.
  intros Hn. unfold lease_drop_body. rewrite decode_state_pack, decode_count_pack by lia.
  run_simpl. unfold checked_sub. zb. by rewrite encode_pack by lia.
Qed.

Lemma guarded_exchange_spec from to msg :
  guarded_exchange (pack from 0) from to msg = Done (pack to 0).
Proof.
  pose proof zero_le_MAX_COUNT. unfold guarded_exchange. rewrite !encode_pack by lia. run_simpl.
  unfold compare_exchange. by rewrite Z.eqb_refl.
Qed.

(** Without interference a loop behaves as its last iteration, however many
    times the weak exchange fails. *)
Lemma run_loop_spec body k w a :
  body w = Done a →
  run_loop body k w = Done match a with Return r => (r, w) | TryCas next r => (r, next) end.
Proof.
  intros E. induction k as [|k IH]; simpl; rewrite E; run_simpl; by destruct a.
Qed.

End RuntimeLifecycle.
End RuntimeLifecycle.

(** ** Any number of tasks over one lifecycle word *)

Module Lifecycle.
Import RuntimeLifecycle.
Section Lifecycle.
Context `{Arch}.

(** The operations that loop on [compare_exchange_weak]. *)
Inductive loop_op : Type := Acquire | BeginShutdown | DropLease.

#[global] Instance loop_op_eq_dec : EqDecision loop_op.
Proof. solve_decision. Defined.

Definition body (o : loop_op) : Z → Run attempt :=
  match o with
  | Acquire => acquire_body
  | BeginShutdown => begin_shutdown_body
  | DropLease => lease_drop_body
  end.

(** Where a task is inside such a loop: before the load, or between the load
    of [current] and the exchange for [next]. *)
Inductive pc : Type :=
| AtLoad (o : loop_op)
| AtCas (o : loop_op) (current next : Z).

Definition pc_op (p : pc) : loop_op := match p with AtLoad o | AtCas o _ _ => o end.

(** The word, the tasks inside loops, and the guards that exist: initialize
    transitions, shutdown transitions and leases not yet being dropped. *)
Record config : Type := mkConfig {
  word : Z;
  tasks : list pc;
  inits : nat;
  shuts : nat;
  leases : nat;
}.

Definition init : config := mkConfig new [] 0 0 0.

Inductive event : Type :=
| Call (o : loop_op)
| Step (i : nat) (spurious : bool)
| BeginInitialize
| CommitInitialize
| DropInitialize
| CommitShutdown
| DropShutdown.

Definition with_task (c : config) (i : nat) (p : pc) : config :=
  mkConfig (word c) (<[i:=p]> (tasks c)) (inits c) (shuts c) (leases c).

(** The task returns [r]: a success hands out the guard. *)
Definition finish (c : config) (w : Z) (i : nat) (o : loop_op) (r : Result ()) : config :=
  let ts := delete i (tasks c) in
  match o, r with
  | Acquire, Ok _ => mkConfig w ts (inits c) (shuts c) (S (leases c))
  | BeginShutdown, Ok _ => mkConfig w ts (inits c) (S (shuts c)) (leases c)
  | _, _ => mkConfig w ts (inits c) (shuts c) (leases c)
  end.

Definition task_step (c : config) (i : nat) (p : pc) (spurious : bool) : Run config :=
  match p with
  | AtLoad o =>
      a ← body o (word c);
      match a with
      | Return r => Done (finish c (word c) i o r)
      | TryCas next _ => Done (with_task c i (AtCas o (word c) next))
      end
  | AtCas o current next =>
      if spurious then Done (with_task c i (AtLoad o))
      else if word c =? current then Done (finish c next i o (Ok ()))
      else Done (with_task c i (AtLoad o))
  end.

(** One event; [None] when it is not enabled (no such guard or task). *)
Definition exec (c : config) (e : event) : option (Run config) :=
  match e with
  | Call DropLease =>
      match leases c with
      | O => None
      | S n => Some (Done (mkConfig (word c) (tasks c ++ [AtLoad DropLease]) (inits c) (shuts c) n))
      end
  | Call o => Some (Done (mkConfig (word c) (tasks c ++ [AtLoad o]) (inits c) (shuts c) (leases c)))
  | Step i spurious => p ← tasks c !! i; Some (task_step c i p spurious)
  | BeginInitialize =>
      Some ('(r, w) ← begin_initialize (word c);
            Done (mkConfig w (tasks c) (if is_ok r then S (inits c) else inits c)
                           (shuts c) (leases c)))
  | CommitInitialize =>
      match inits c with
      | O => None
      | S n => Some (w ← commit_initialize (word c);
                     Done (mkConfig w (tasks c) n (shuts c) (leases c)))
      end
  | DropInitialize =>
      match inits c with
      | O => None
      | S n => Some (w ← drop_initialize (word c);
                     Done (mkConfig w (tasks c) n (shuts c) (leases c)))
      end
  | CommitShutdown =>
      match shuts c with
      | O => None
      | S n => Some (w ← commit_shutdown (word c);
                     Done (mkConfig w (tasks c) (inits c) n (leases c)))
      end
  | DropShutdown =>
      match shuts c with
      | O => None
      | S n => Some (w ← drop_shutdown (word c);
                     Done (mkConfig w (tasks c) (inits c) n (leases c)))
      end
  end.

Inductive reachable : config → Prop :=
| reach_init : reachable init
| reach_step c e c' : reachable c → exec c e = Some (Done c') → reachable c'.

(** *** The invariant *)

(** A lease inside [drop] is still counted by the word. *)
Definition weight (p : pc) : bool := bool_decide (pc_op p = DropLease).
Definition dropping (ts : list pc) : nat := countb weight ts.
Definition live (c : config) : nat := (leases c + dropping (tasks c))%nat.

(** The guards that can exist in each state. *)
Definition guards_match (st : RuntimeState.t) (n : Z) (c : config) : Prop :=
  match st with
  | RuntimeState.Uninitialized => n = 0 ∧ inits c = 0%nat ∧ shuts c = 0%nat ∧ live c = 0%nat
  | RuntimeState.Initializing => n = 0 ∧ inits c = 1%nat ∧ shuts c = 0%nat ∧ live c = 0%nat
  | RuntimeState.Running => n = Z.of_nat (live c) ∧ inits c = 0%nat ∧ shuts c = 0%nat
  | RuntimeState.ShuttingDown => n = 0 ∧ inits c = 0%nat ∧ shuts c = 1%nat ∧ live c = 0%nat
  end.

(** A task between load and exchange computed [next] from a word some earlier
    configuration showed. *)
Definition pc_ok (p : pc) : Prop :=
  match p with
  | AtLoad _ => True
  | AtCas o current next =>
      body o current = Done (TryCas next (Ok ())) ∧
      ∃ st n, current = pack st n ∧ 0 ≤ n ≤ MAX_COUNT
  end.

Definition inv (c : config) : Prop :=
  (∃ st n, word c = pack st n ∧ 0 ≤ n ≤ MAX_COUNT ∧ guards_match st n c) ∧
  Forall pc_ok (tasks c).

(** *** The atomic specification *)

(** The lifecycle as one object: state and number of live objects. *)
Inductive astep : RuntimeState.t * Z → RuntimeState.t * Z → Prop :=
| a_begin_initialize : astep (RuntimeState.Uninitialized, 0) (RuntimeState.Initializing, 0)
| a_commit_initialize : astep (RuntimeState.Initializing, 0) (RuntimeState.Running, 0)
| a_rollback_initialize : astep (RuntimeState.Initializing, 0) (RuntimeState.Uninitialized, 0)
| a_acquire n : 0 ≤ n < MAX_COUNT → astep (RuntimeState.Running, n) (RuntimeState.Running, n + 1)
| a_release n : 0 < n → astep (RuntimeState.Running, n) (RuntimeState.Running, n - 1)
| a_begin_shutdown : astep (RuntimeState.Running, 0) (RuntimeState.ShuttingDown, 0)
| a_commit_shutdown : astep (RuntimeState.ShuttingDown, 0) (RuntimeState.Uninitialized, 0)
| a_rollback_shutdown : astep (RuntimeState.ShuttingDown, 0) (RuntimeState.Running, 0).

Definition unpacked (w : Z) (s : RuntimeState.t * Z) : Prop := w = pack (fst s) (snd s).

(** A step of the code is a stutter or one step of the specification. *)
Definition simulates (w w' : Z) : Prop :=
  ∃ s s', unpacked w s ∧ unpacked w' s' ∧ (s = s' ∨ astep s s').

Lemma simulates_refl c : inv c → simulates (word c) (word c).
Proof. intros [(st & n & E & _) _]. by exists (st, n), (st, n); auto. Qed.

Lemma inv_init : inv init.
Proof.
  split; [|by constructor]. pose proof zero_le_MAX_COUNT.
  exists RuntimeState.Uninitialized, 0. repeat split; lia.
Qed.

(** Changing only the program counters of one task, or adding a task. *)
Lemma inv_with_task c i p p' :
  inv c → tasks c !! i = Some p → pc_op p' = pc_op p → pc_ok p' → inv (with_task c i p').
Proof.
  intros [(st & n & E & Hn & G) F] Hi Ho Hp. split; simpl; [|by apply Forall_insert].
  exists st, n. split; [done|]. split; [done|].
  pose proof (countb_insert weight (tasks c) i p p' Hi) as Hd. assert (weight p' = weight p) as Hwt by (unfold weight; by rewrite Ho). rewrite Hwt in Hd.
  assert (live (with_task c i p') = live c) as El by (unfold live, dropping; simpl; lia).
  unfold guards_match in *. rewrite El. by destruct st.
Qed.

Lemma call_inv c o c' : inv c → exec c (Call o) = Some (Done c') → inv c' ∧ word c' = word c.
Proof.
  intros [(st & n & E & Hn & G) F] X.
  assert (∃ l, c' = mkConfig (word c) (tasks c ++ [AtLoad o]) (inits c) (shuts c) l ∧
               live c' = live c) as (l & -> & El).
  { unfold live, dropping. destruct o; simpl in X; [simplify_eq..|destruct (leases c) eqn:El; simplify_eq];
      eexists; (split; [done|]); simpl; rewrite countb_app, ?El; simpl; lia. }
  split; [|done]. split; simpl; [|apply Forall_app; split; [done|by repeat constructor]].
  exists st, n. split; [done|]. split; [done|]. unfold guards_match in *. rewrite El. by destruct st.
Qed.

(** A return that changes nothing (an error, or a failed load test). *)
Lemma finish_error_inv c i o p e :
  inv c → tasks c !! i = Some p → pc_op p = o → o ≠ DropLease →
  inv (finish c (word c) i o (Err e)).
Proof.
  intros [(st & n & E & Hn & G) F] Hi Ho Hd.
  pose proof (countb_delete weight (tasks c) i p Hi) as Hw.
  assert (weight p = false) as Hwt by (unfold weight; rewrite Ho; by apply bool_decide_eq_false_2).
  rewrite Hwt in Hw. simpl in Hw.
  assert (finish c (word c) i o (Err e) =
          mkConfig (word c) (delete i (tasks c)) (inits c) (shuts c) (leases c)) as -> by (by destruct o).
  split; simpl; [|by apply Forall_delete].
  exists st, n. split; [done|]. split; [done|]. unfold guards_match, live, dropping in *. simpl.
  replace (countb weight (delete i (tasks c))) with (countb weight (tasks c)) by lia. by destruct st.
Qed.

(** A successful exchange. *)
Lemma finish_ok_inv c i o current next :
  inv c → tasks c !! i = Some (AtCas o current next) → word c = current →
  inv (finish c next i o (Ok ())) ∧ simulates (word c) next.
Proof.
  intros [(st & n & E & Hn & G) F] Hi Hw.
  pose proof (Forall_lookup_1 _ _ _ _ F Hi) as [Hb _].
  pose proof (countb_delete weight (tasks c) i _ Hi) as Hd. 
  rewrite <- Hw, E in Hb. rewrite E. pose proof zero_le_MAX_COUNT as Hz.
  assert (F' : Forall pc_ok (delete i (tasks c))) by (by apply Forall_delete).
  unfold weight in Hd at 2. destruct o; simpl in Hb, Hd |- *.
  - rewrite acquire_body_spec in Hb by done. destruct st; try done. case_if; [|done].
    bool_to_prop. simplify_eq. unfold guards_match, live, dropping in *. split.
    + split; simpl; [|done]. exists RuntimeState.Running, (n + 1). unfold guards_match, live, dropping. simpl. lia.
    + exists (RuntimeState.Running, n), (RuntimeState.Running, n + 1).
      split_and!; [done..|right; constructor; lia].
  - rewrite begin_shutdown_body_spec in Hb by lia. destruct st; try done. case_if; [|done].
    bool_to_prop. simplify_eq. unfold guards_match, live, dropping in *. split.
    + split; simpl; [|done]. exists RuntimeState.ShuttingDown, 0. unfold guards_match, live, dropping. simpl. lia.
    + exists (RuntimeState.Running, 0), (RuntimeState.ShuttingDown, 0).
      split_and!; [done..|right; constructor].
  - unfold guards_match, live, dropping in *.
    destruct st; try (exfalso; lia).
    rewrite lease_drop_body_spec in Hb by lia. simplify_eq. split.
    + split; simpl; [|done]. exists RuntimeState.Running, (n - 1). unfold guards_match, live, dropping. simpl. lia.
    + exists (RuntimeState.Running, n), (RuntimeState.Running, n - 1).
      split_and!; [done..|right; constructor; lia].
Qed.

Lemma body_ok c i p :
  inv c → tasks c !! i = Some p →
  ∃ a, body (pc_op p) (word c) = Done a ∧
       match a with
       | Return r => pc_op p ≠ DropLease ∧ ∃ e, r = Err e
       | TryCas _ r => r = Ok ()
       end.
Proof.
  intros [(st & n & E & Hn & G) F] Hi. rewrite E.
  pose proof (countb_delete weight (tasks c) i _ Hi) as Hd. unfold weight in Hd at 2.
  destruct (pc_op p); simpl.
  - rewrite acquire_body_spec by done. destruct st; try case_if; naive_solver.
  - rewrite begin_shutdown_body_spec by lia. destruct st; try case_if; naive_solver.
  - unfold guards_match, live, dropping in G. simpl in Hd.
    destruct st; try (exfalso; lia). rewrite lease_drop_body_spec by lia. naive_solver.
Qed.

Lemma task_step_inv c i p sp :
  inv c → tasks c !! i = Some p →
  ∃ c', task_step c i p sp = Done c' ∧ inv c' ∧ simulates (word c) (word c').
Proof.
  intros I Hi. destruct p as [o|o current next]; simpl.
  - destruct (body_ok c i _ I Hi) as (a & E & Ha). simpl in *. rewrite E. run_simpl.
    destruct a as [r|next r].
    + destruct Ha as [Ho [e ->]]. eexists. split; [done|].
      split; [by eapply finish_error_inv|]. replace (word (finish _ _ _ _ _)) with (word c).
      * by apply simulates_refl.
      * by destruct o.
    + subst r. eexists. split; [done|]. split; [|exact (simulates_refl c I)].
      eapply inv_with_task; [done..|]. split; [done|].
      destruct I as [(st & n & -> & Hn & _) _]. by eauto.
  - destruct sp; [|case_if; bool_to_prop].
    + eexists. split; [done|]. split; [|exact (simulates_refl c I)]. by eapply inv_with_task.
    + destruct (finish_ok_inv c i o current next) as [I' S]; [done..|].
      eexists. split; [done|]. split; [done|].
      replace (word (finish _ _ _ _ _)) with next by (by destruct o). done.
    + eexists. split; [done|]. split; [|exact (simulates_refl c I)]. by eapply inv_with_task.
Qed.

(** The guards that change the state have the word to themselves. *)
Lemma transition_inv c (from to : RuntimeState.t) c' :
  inv c → word c = pack from 0 → live c = 0%nat →
  word c' = pack to 0 → tasks c' = tasks c → leases c' = leases c →
  (live c' = 0%nat → guards_match to 0 c') → astep (from, 0) (to, 0) →
  inv c' ∧ simulates (word c) (word c').
Proof.
  intros [_ F] E L E' Ets Els G' St. pose proof zero_le_MAX_COUNT. split.
  - split; [|by rewrite Ets]. exists to, 0. split; [done|]. split; [lia|].
    apply G'. unfold live in *. by rewrite Ets, Els.
  - exists (from, 0), (to, 0). auto.
Qed.

(** The guards are exactly what makes their exchange succeed. *)
Lemma guarded_step c (from to : RuntimeState.t) msg (mk : Z → config) :
  inv c → word c = pack from 0 → live c = 0%nat → astep (from, 0) (to, 0) →
  (∀ w, word (mk w) = w ∧ tasks (mk w) = tasks c ∧ leases (mk w) = leases c) →
  (live (mk (pack to 0)) = 0%nat → guards_match to 0 (mk (pack to 0))) →
  ∃ c', (w ← guarded_exchange (word c) from to msg; Done (mk w)) = Done c' ∧
        inv c' ∧ simulates (word c) (word c').
Proof.
  intros I E L St Hmk G. destruct (Hmk (pack to 0)) as (E1 & E2 & E3).
  exists (mk (pack to 0)). split; [by rewrite E, guarded_exchange_spec|].
  by eapply transition_inv.
Qed.

Lemma begin_initialize_inv c :
  inv c →
  ∃ c', ('(r, w) ← begin_initialize (word c);
         Done (mkConfig w (tasks c) (if is_ok r then S (inits c) else inits c)
                        (shuts c) (leases c))) = Done c' ∧
        inv c' ∧ simulates (word c) (word c').
Proof.
  intros I. pose proof I as [(st & n & E & Hn & G) F]. rewrite E, begin_initialize_spec by done.
  destruct (decide (st = RuntimeState.Uninitialized)) as [->|Hst].
  - destruct G as (-> & Gi & Gs & Gl). simpl. eexists. split; [done|]. rewrite <- E.
    eapply transition_inv; [done..| |constructor]. simpl. lia.
  - exists c. split; [destruct c, st; simpl in *; by subst|]. rewrite <- E.
    auto using simulates_refl.
Qed.

Lemma inits_state c k : inv c → inits c = S k →
  word c = pack RuntimeState.Initializing 0 ∧ live c = 0%nat ∧ k = 0%nat ∧ shuts c = 0%nat.
Proof.
  intros [(st & n & E & Hn & G) F] Hk. destruct st; simpl in G; try (exfalso; lia).
  destruct G as (-> & G). split; [done|lia].
Qed.

Lemma shuts_state c k : inv c → shuts c = S k →
  word c = pack RuntimeState.ShuttingDown 0 ∧ live c = 0%nat ∧ k = 0%nat ∧ inits c = 0%nat.
Proof.
  intros [(st & n & E & Hn & G) F] Hk. destruct st; simpl in G; try (exfalso; lia).
  destruct G as (-> & G). split; [done|lia].
Qed.

Lemma exec_ok c e r :
  inv c → exec c e = Some r →
  ∃ c', r = Done c' ∧ inv c' ∧ simulates (word c) (word c').
Proof.
  intros I X. destruct e as [o|i sp| | | | | ].
  - assert (∃ c', r = Done c') as [c' ->] by (destruct o; simpl in X; try case_match; simplify_eq; eauto).
    destruct (call_inv c o c' I X) as [I' Ew]. exists c'. rewrite Ew. auto using simulates_refl.
  - simpl in X. destruct (tasks c !! i) as [p|] eqn:Hi; simplify_eq.
    simpl in X. simplify_eq. by apply task_step_inv.
  - simpl in X. injection X as <-. by apply begin_initialize_inv.
  - simpl in X. destruct (inits c) as [|k] eqn:Ek; simplify_eq.
    destruct (inits_state c k I Ek) as (E & L & -> & Es).
    apply guarded_step; [done..|constructor|done|simpl; lia].
  - simpl in X. destruct (inits c) as [|k] eqn:Ek; simplify_eq.
    destruct (inits_state c k I Ek) as (E & L & -> & Es).
    apply guarded_step; [done..|constructor|done|simpl; lia].
  - simpl in X. destruct (shuts c) as [|k] eqn:Ek; simplify_eq.
    destruct (shuts_state c k I Ek) as (E & L & -> & Es).
    apply guarded_step; [done..|constructor|done|simpl; lia].
  - simpl in X. destruct (shuts c) as [|k] eqn:Ek; simplify_eq.
    destruct (shuts_state c k I Ek) as (E & L & -> & Es).
    apply guarded_step; [done..|constructor|done|simpl; lia].
Qed.

Lemma reachable_inv c : reachable c → inv c.
Proof.
  induction 1 as [|c e c' R I X]; [apply inv_init|].
  destruct (exec_ok c e _ I X) as (c'' & E & I' & _). by simplify_eq.
Qed.

(** A schedule: the configuration after a list of events, if all are enabled
    and none panics. *)
Fixpoint schedule (c : config) (es : list event) : option config :=
  match es with
  | [] => Some c
  | e :: es => match exec c e with Some (Done c') => schedule c' es | _ => None end
  end.

Lemma schedule_reachable es c c' : reachable c → schedule c es = Some c' → reachable c'.
Proof.
  revert c. induction es as [|e es IH]; intros c R X; simpl in X; [by simplify_eq|].
  destruct (exec c e) as [[c1| |]|] eqn:E; try done. eapply IH; [|done]. by eapply reach_step.
Qed.

(** Left alone, a task inside a loop returns after its load and one exchange. *)
Lemma solo_finishes c i p :
  inv c → tasks c !! i = Some p →
  ∃ k c', (k ≤ 3)%nat ∧ schedule c (replicate k (Step i false)) = Some c' ∧
          length (tasks c) = S (length (tasks c')).
Proof.
  assert (Hload : ∀ c o, inv c → tasks c !! i = Some (AtLoad o) →
    ∃ k c', (k ≤ 2)%nat ∧ schedule c (replicate k (Step i false)) = Some c' ∧
            length (tasks c) = S (length (tasks c'))).
  { clear c p. intros c o I Hi. pose proof (lookup_lt_Some _ _ _ Hi) as Hlt.
    destruct (body_ok c i _ I Hi) as (a & E & Ha). simpl in E. destruct a as [r|next r].
    - exists 1%nat. simpl. rewrite Hi. simpl. rewrite E. simpl. eexists.
      split; [lia|]. split; [done|].
      destruct o, r; simpl; rewrite length_delete by done; lia.
    - exists 2%nat. simpl. rewrite Hi. simpl. rewrite E. simpl.
      rewrite list_lookup_insert_eq by done. simpl. rewrite Z.eqb_refl. eexists.
      split; [lia|]. split; [done|].
      destruct o; simpl; rewrite length_delete by (by rewrite list_lookup_insert_eq);
        rewrite length_insert; lia. }
  intros I Hi. destruct p as [o|o current next].
  - destruct (Hload c o I Hi) as (k & c' & ? & ? & ?). exists k, c'. auto with lia.
  - destruct (task_step_inv c i _ false I Hi) as (c1 & E1 & I1 & _). simpl in E1.
    pose proof (lookup_lt_Some _ _ _ Hi) as Hlt. case_if; simplify_eq.
    + exists 1%nat. simpl. rewrite Hi. simpl. case_if; [|done]. eexists. split; [lia|]. split; [done|].
      destruct o; simpl; rewrite length_delete by done; lia.
    + destruct (Hload _ o I1) as (k & c' & ? & Es & El); [by apply list_lookup_insert_eq|].
      exists (S k), c'. split; [lia|]. simpl. rewrite Hi. simpl. case_if; [done|].
      split; [done|]. simpl in El. by rewrite length_insert in El.
Qed.

(** *** Properties *)

(** C1: Whatever the interleaving of the tasks that call the lifecycle and
    however often the weak exchanges fail, no assertion, [expect] or
    [unreachable!] of [runtime.rs] is reached, and every atomic access either
    leaves the word as it is or performs exactly one step of the atomic
    lifecycle: the lock-free code is linearizable to it. *)
Theorem lifecycle_linearizable c e r :
  reachable c → exec c e = Some r → ∃ c', r = Done c' ∧ simulates (word c) (word c').
Proof.
  intros R X. destruct (exec_ok c e r (reachable_inv c R) X) as (c' & ? & _ & ?). eauto.
Qed.

(** In every reachable configuration the packed word decodes; its count is
    the number of leases handed out and not yet given back, a lease exists
    only while the state is [Running], at most one transition guard exists,
    and it exists exactly while the state is the transitional one it owns. *)
Theorem lifecycle_counts_leases c :
  reachable c →
  ∃ st, state (word c) = Done st ∧
        active_objects (word c) = Z.of_nat (leases c + dropping (tasks c)) ∧
        (0 < leases c + dropping (tasks c) → st = RuntimeState.Running)%nat ∧
        (inits c + shuts c ≤ 1)%nat ∧
        (st = RuntimeState.Initializing ↔ inits c = 1%nat) ∧
        (st = RuntimeState.ShuttingDown ↔ shuts c = 1%nat).
Proof.
  intros R. destruct (reachable_inv c R) as [(st & n & E & Hn & G) _]. exists st.
  unfold state, active_objects. rewrite E, decode_state_pack, decode_count_pack by lia.
  fold (live c). split; [done|].
  destruct st; simpl in G; repeat split; intros; try done; try (exfalso; lia); lia.
Qed.

(** C38: The compare-exchange loops do not spin on their own: from any
    reachable configuration, a task left to run alone (its weak exchange not
    failing spuriously) returns after at most three of its atomic accesses. *)
Theorem lifecycle_solo_termination c i p :
  reachable c → tasks c !! i = Some p →
  ∃ k c', (k ≤ 3)%nat ∧ schedule c (replicate k (Step i false)) = Some c' ∧
          length (tasks c) = S (length (tasks c')).
Proof. intros R Hi. by eapply solo_finishes; [apply reachable_inv|]. Qed.

(** What the three counted operations answer on a word with state [st] and
    [n] live objects, on every branch: [acquire] succeeds exactly in [Running]
    below the capacity of the count; [begin_shutdown] succeeds exactly in
    [Running] with no live object; the lease given back restores the word. *)
Theorem lifecycle_results st n spurious :
  0 ≤ n ≤ MAX_COUNT →
  run_loop acquire_body spurious (pack st n) = Done
    match st with
    | RuntimeState.Running =>
        if n <? MAX_COUNT then (Ok (), pack RuntimeState.Running (n + 1))
        else (Err Error.Overflow, pack st n)
    | _ => (Err Error.NotInitialized, pack st n)
    end ∧
  run_loop begin_shutdown_body spurious (pack st n) = Done
    match st with
    | RuntimeState.Uninitialized => (Err Error.NotInitialized, pack st n)
    | RuntimeState.Running =>
        if n =? 0 then (Ok (), pack RuntimeState.ShuttingDown 0) else (Err Error.Busy, pack st n)
    | _ => (Err Error.Busy, pack st n)
    end ∧
  (n < MAX_COUNT →
   run_loop lease_drop_body spurious (pack RuntimeState.Running (n + 1)) =
     Done (Ok (), pack RuntimeState.Running n)).
Proof.
  intros Hn. split_and!.
  - rewrite (run_loop_spec _ _ _ _ (acquire_body_spec st n Hn)).
    destruct st; try case_if; done.
  - rewrite (run_loop_spec _ _ _ _ (begin_shutdown_body_spec st n ltac:(lia))).
    destruct st; try case_if; done.
  - intros Hlt. assert (0 < n + 1 ≤ MAX_COUNT) as Hn' by lia.
    rewrite (run_loop_spec _ _ _ _ (lease_drop_body_spec (n + 1) Hn')).
    by replace (n + 1 - 1) with n by lia.
Qed.

End Lifecycle.

(** *** Witnesses: 64-bit words, a runtime with two leases of which one is
    inside [drop] while a shutdown is attempted. *)

Definition busy_schedule : list event :=
  [BeginInitialize; CommitInitialize; Call Acquire; Step 0 false; Call Acquire; Step 1 false;
   Step 0 false; Step 0 false; Step 0 false; Step 0 true; Step 0 false; Step 0 false;
   Call DropLease; Call BeginShutdown].

Definition busy : config := Eval vm_compute in
  default init (schedule (H:=arch64) init busy_schedule).

Lemma lifecycle_linearizable_witness :
  ∃ c', exec (H:=arch64) busy (Step 0 false) = Some (Done c') ∧
        simulates (H:=arch64) (word busy) (word c').
Proof.
  destruct (lifecycle_linearizable (H:=arch64) busy (Step 0 false)
              (Done (with_task busy 0 (AtCas DropLease (word busy) 6)))) as (c' & E & S').
  - apply (schedule_reachable busy_schedule init); [apply reach_init|vm_compute; reflexivity].
  - vm_compute. reflexivity.
  - exists c'. split; [by rewrite <- E; vm_compute|exact S'].
Defined.

Lemma lifecycle_counts_leases_witness :
  active_objects (word busy) = 2 ∧
  ∃ st, state (word busy) = Done st ∧ (0 < 2 → st = RuntimeState.Running)%nat.
Proof.
  destruct (lifecycle_counts_leases (H:=arch64) busy) as (st & E & En & Hst & _).
  - apply (schedule_reachable busy_schedule init); [apply reach_init|vm_compute; reflexivity].
  - split; [exact En|]. exists st. split; [exact E|]. intros _. apply Hst. vm_compute. lia.
Defined.

Lemma lifecycle_solo_termination_witness :
  ∃ k c', (k ≤ 3)%nat ∧ schedule (H:=arch64) busy (replicate k (Step 1 false)) = Some c' ∧
          length (tasks busy) = S (length (tasks c')).
Proof.
  apply (lifecycle_solo_termination (H:=arch64) busy 1 (AtLoad BeginShutdown)).
  - apply (schedule_reachable busy_schedule init); [apply reach_init|vm_compute; reflexivity].
  - reflexivity.
Defined.

Lemma lifecycle_results_witness :
  run_loop (acquire_body (H:=arch32)) 2 (pack RuntimeState.Running 5) =
    Done (Ok (), pack RuntimeState.Running 6).
Proof.
  destruct (lifecycle_results (H:=arch32) RuntimeState.Running 5 2) as [E _].
  - vm_compute. split; congruence.
  - exact E.
Defined.

End Lifecycle.
