(* ===== verification/MockTime.v ===== *)
(** * The mock backend's virtual clock and timer registry

    [MockTimeRuntime] ([crates/osal-backend-mock/src/time_runtime.rs]) and the
    dispatch loop of [clock.rs].  A boxed callback is represented by its
    identity; what it does when called is a parameter of the dispatch loop. *)

From S2P Require Import Prelude Api Time.
Import Duration (as_nanos).

Module MockTime.

Record MockTimerKey : Type := mkKey { epoch_of : Z; id : Z }.

#[global] Instance MockTimerKey_eq_dec : EqDecision MockTimerKey.
Proof. solve_decision. Defined.

(** The identity of a [Box<dyn FnMut()>]. *)
Definition TimerCallback : Type := Z.

Record MockTimerEntry : Type := mkEntry {
  key : MockTimerKey;
  state : TimerState.t;
  callback : option TimerCallback;
  creation_order : Z;
  deleted : bool;
}.

Record MockTimeRuntime : Type := mkRuntime {
  now : Duration.t;
  epoch : Z;
  next_id : Z;
  next_creation_order : Z;
  timers : list MockTimerEntry;
}.

Definition new : MockTimeRuntime := mkRuntime Duration.ZERO 1 1 0 [].

Definition set_timers (rt : MockTimeRuntime) (l : list MockTimerEntry) : MockTimeRuntime :=
  mkRuntime (now rt) (epoch rt) (next_id rt) (next_creation_order rt) l.
Definition set_state (e : MockTimerEntry) (s : TimerState.t) : MockTimerEntry :=
  mkEntry (key e) s (callback e) (creation_order e) (deleted e).
Definition set_callback (e : MockTimerEntry) (c : option TimerCallback) : MockTimerEntry :=
  mkEntry (key e) (state e) c (creation_order e) (deleted e).

(** The entries detached are returned to be dropped outside the lock. *)
Definition reset_and_detach (rt : MockTimeRuntime) : list MockTimerEntry * MockTimeRuntime :=
  (timers rt, mkRuntime Duration.ZERO (wrapping_add 64 (epoch rt) 1) 1 0 []).

Definition advance_time (rt : MockTimeRuntime) (d : Duration.t) : MockTimeRuntime :=
  mkRuntime (Duration.saturating_add (now rt) d) (epoch rt) (next_id rt)
            (next_creation_order rt) (timers rt).

Definition register_timer (rt : MockTimeRuntime) (period : Duration.t) (mode : TimerMode.t)
    (cb : TimerCallback) : Run (MockTimerKey * MockTimeRuntime) :=
  let k := mkKey (epoch rt) (next_id rt) in
  next_id' ← uadd 64 (next_id rt) 1;
  let order := next_creation_order rt in
  order' ← uadd 64 order 1;
  st ← (match TimerState.new period mode with
        | Ok st => Done st
        | Err _ => Panic "TimerState::new should be validated by caller"
        end);
  Done (k, mkRuntime (now rt) (epoch rt) next_id' order'
             (timers rt ++ [mkEntry k st (Some cb) order false])).

(** [e.key == key && !e.deleted] *)
Definition matches (k : MockTimerKey) (e : MockTimerEntry) : Prop :=
  key e = k ∧ deleted e = false.
#[global] Instance matches_dec k e : Decision (matches k e).
Proof. unfold matches. apply _. Defined.

(** [find_mut] followed by an update of the entry it returns. *)
Definition find_mut (rt : MockTimeRuntime) (k : MockTimerKey) : option (nat * MockTimerEntry) :=
  list_find (matches k) (timers rt).
Definition update (rt : MockTimeRuntime) (k : MockTimerKey)
    (f : MockTimerEntry → MockTimerEntry) : MockTimeRuntime :=
  match find_mut rt k with
  | Some (i, e) => set_timers rt (<[i:=f e]> (timers rt))
  | None => rt
  end.

Definition start_timer (rt : MockTimeRuntime) (k : MockTimerKey) : MockTimeRuntime :=
  update rt k (λ e, set_state e (snd (TimerState.start (state e) (now rt)))).
Definition stop_timer (rt : MockTimeRuntime) (k : MockTimerKey) : MockTimeRuntime :=
  update rt k (λ e, set_state e (TimerState.stop (state e))).
Definition reset_timer (rt : MockTimeRuntime) (k : MockTimerKey) : MockTimeRuntime :=
  update rt k (λ e, set_state e (snd (TimerState.reset (state e) (now rt)))).
Definition change_period (rt : MockTimeRuntime) (k : MockTimerKey) (p : Duration.t)
    : MockTimeRuntime :=
  update rt k (λ e, set_state e (snd (TimerState.change_period (state e) p))).

(** [Vec::swap_remove]: the last element takes the place of the removed one. *)
Definition swap_remove {A} (i : nat) (l : list A) : list A :=
  match last l with
  | Some x => take (length l - 1) (<[i:=x]> l)
  | None => l
  end.

Definition remove_timer (rt : MockTimeRuntime) (k : MockTimerKey)
    : option MockTimerEntry * MockTimeRuntime :=
  match list_find (matches k) (timers rt) with
  | Some (i, e) => (Some e, set_timers rt (swap_remove i (timers rt)))
  | None => (None, rt)
  end.

(** The scan of [take_next_expired]: index, deadline and creation order of the
    best candidate so far. *)
Definition consider (now : Duration.t) (i : nat) (e : MockTimerEntry)
    (best : option (nat * Duration.t * Z)) : option (nat * Duration.t * Z) :=
  if deleted e || negb (bool_decide (is_Some (callback e))) then best
  else match TimerState.deadline (state e) with
  | Some d =>
      if Duration.leb d now then
        match best with
        | None => Some (i, d, creation_order e)
        | Some (_, bd, bo) =>
            if Duration.ltb d bd || (Duration.eqb d bd && (creation_order e <? bo))
            then Some (i, d, creation_order e)
            else best
        end
      else best
  | None => best
  end.

Fixpoint scan (now : Duration.t) (i : nat) (l : list MockTimerEntry)
    (best : option (nat * Duration.t * Z)) : option (nat * Duration.t * Z) :=
  match l with
  | [] => best
  | e :: l => scan now (S i) l (consider now i e best)
  end.

Definition take_next_expired (rt : MockTimeRuntime)
    : Run (option (MockTimerKey * TimerCallback) * MockTimeRuntime) :=
  match scan (now rt) 0 (timers rt) None with
  | None => Done (None, rt)
  | Some (idx, _, _) =>
      e ← expect (timers rt !! idx) "index out of bounds";
      '(due, st) ← TimerState.advance_on_expiry (state e) (now rt);
      if negb due then Done (None, set_timers rt (<[idx:=set_state e st]> (timers rt)))
      else
        cb ← expect (callback e) "called Option::unwrap() on a None value";
        Done (Some (key e, cb),
              set_timers rt (<[idx:=set_callback (set_state e st) None]> (timers rt)))
  end.

Definition restore_callback (rt : MockTimeRuntime) (k : MockTimerKey) (cb : TimerCallback)
    : MockTimeRuntime :=
  update rt k (λ e, if decide (callback e = None) then set_callback e (Some cb) else e).

(** *** The process-wide runtime: [static RUNTIME: Mutex<Option<MockTimeRuntime>>] *)

Definition get_or_insert (g : option MockTimeRuntime) : MockTimeRuntime := default new g.

Definition with_runtime {R} (f : MockTimeRuntime → Run (R * MockTimeRuntime))
    (g : option MockTimeRuntime) : Run (R * option MockTimeRuntime) :=
  '(r, rt) ← f (get_or_insert g); Done (r, Some rt).

Definition global_take_next_expired (g : option MockTimeRuntime)
    : Run (option (MockTimerKey * TimerCallback) * option MockTimeRuntime) :=
  match g with
  | Some rt => '(r, rt') ← take_next_expired rt; Done (r, Some rt')
  | None => Done (None, None)
  end.

Definition global_restore_callback (g : option MockTimeRuntime) (k : MockTimerKey)
    (cb : TimerCallback) : option MockTimeRuntime :=
  (λ rt, restore_callback rt k cb) <$> g.

Definition reset_runtime (g : option MockTimeRuntime) : option MockTimeRuntime :=
  let '(_, rt) := reset_and_detach (get_or_insert g) in Some rt.

Definition deregister_timer (g : option MockTimeRuntime) (k : MockTimerKey)
    : option MockTimeRuntime :=
  (λ rt, snd (remove_timer rt k)) <$> g.

(** *** Callbacks and the dispatch loop of [clock.rs] *)

(** The timer operations of [MockTimer] a running callback may perform
    ([timer.rs]: the zero-period guards come before the registry is touched);
    dropping the last handle deregisters. *)
Inductive timer_op : Type :=
| OpNew (p : Duration.t) (m : TimerMode.t) (cb : TimerCallback)
| OpStart (k : MockTimerKey)
| OpStop (k : MockTimerKey)
| OpReset (k : MockTimerKey)
| OpChangePeriod (k : MockTimerKey) (p : Duration.t)
| OpDrop (k : MockTimerKey).

Definition pure_op (f : MockTimeRuntime → MockTimeRuntime) (rt : MockTimeRuntime)
    : Run (() * MockTimeRuntime) := Done ((), f rt).

Definition apply_op (g : option MockTimeRuntime) (o : timer_op) : Run (option MockTimeRuntime) :=
  match o with
  | OpNew p m cb =>
      if Duration.eqb p Duration.ZERO then Done g
      else '(_, g') ← with_runtime (λ rt, register_timer rt p m cb) g; Done g'
  | OpStart k => '(_, g') ← with_runtime (pure_op (λ rt, start_timer rt k)) g; Done g'
  | OpStop k => '(_, g') ← with_runtime (pure_op (λ rt, stop_timer rt k)) g; Done g'
  | OpReset k => '(_, g') ← with_runtime (pure_op (λ rt, reset_timer rt k)) g; Done g'
  | OpChangePeriod k p =>
      if Duration.eqb p Duration.ZERO then Done g
      else '(_, g') ← with_runtime (pure_op (λ rt, change_period rt k p)) g; Done g'
  | OpDrop k => Done (deregister_timer g k)
  end.

Fixpoint apply_ops (g : option MockTimeRuntime) (os : list timer_op)
    : Run (option MockTimeRuntime) :=
  match os with
  | [] => Done g
  | o :: os => g' ← apply_op g o; apply_ops g' os
  end.

(** What was called so far; a callback may keep state, so what it does may
    depend on the whole history. *)
Definition history : Type := list (MockTimerKey * TimerCallback).

(** [loop { take one; call it outside the lock; put it back }] *)
Fixpoint dispatch (call : history → TimerCallback → list timer_op) (fuel : nat)
    (h : history) (g : option MockTimeRuntime) : Run (history * option MockTimeRuntime) :=
  match fuel with
  | O => NoFuel
  | S fuel =>
      '(r, g1) ← global_take_next_expired g;
      match r with
      | None => Done (h, g1)
      | Some (k, cb) =>
          g2 ← apply_ops g1 (call h cb);
          dispatch call fuel (h ++ [(k, cb)]) (global_restore_callback g2 k cb)
      end
  end.

Definition advance_and_dispatch (call : history → TimerCallback → list timer_op) (fuel : nat)
    (d : Duration.t) (g : option MockTimeRuntime) : Run (history * option MockTimeRuntime) :=
  '(_, g1) ← with_runtime (pure_op (λ rt, advance_time rt d)) g;
  dispatch call fuel [] g1.

(** *** The invariant *)

Record wf (rt : MockTimeRuntime) : Prop := {
  wf_now : Duration.wf (now rt);
  wf_order : next_creation_order rt = next_id rt - 1;
  wf_next : 1 ≤ next_id rt;
  wf_states : Forall (λ e, TimerState.wf (state e)) (timers rt);
  wf_live : Forall (λ e, deleted e = false) (timers rt);
  wf_ids : Forall (λ e, epoch_of (key e) = epoch rt ∧ 1 ≤ id (key e) < next_id rt) (timers rt);
  wf_orders : Forall (λ e, creation_order e = id (key e) - 1) (timers rt);
  wf_nodup : NoDup (key <$> timers rt);
}.

Lemma mock_time_new_wf : wf new.
Proof. split; simpl; try by constructor. lia. Qed.

Lemma reset_and_detach_wf rt : wf rt → wf (snd (reset_and_detach rt)).
Proof. intros _. split; simpl; try by constructor. lia. Qed.

Lemma advance_time_wf rt d : wf rt → Duration.wf d → wf (advance_time rt d).
Proof. intros [] Hd. split; simpl; try done. by apply Duration.dur_saturating_add_wf. Qed.

(** An update that keeps the identity of the entries. *)
Definition keeps (e e' : MockTimerEntry) : Prop :=
  key e' = key e ∧ creation_order e' = creation_order e ∧ deleted e' = deleted e.

Lemma insert_wf rt i e e' :
  wf rt → timers rt !! i = Some e → keeps e e' → TimerState.wf (state e') →
  wf (set_timers rt (<[i:=e']> (timers rt))).
Proof.
  intros W Hi (Ek & Eo & Ed) Hs. destruct W.
  assert (key <$> <[i:=e']> (timers rt) = key <$> timers rt) as Ekeys.
  { rewrite list_fmap_insert. apply list_insert_id. rewrite list_lookup_fmap, Hi. simpl. congruence. }
  split; simpl; try done; try (apply Forall_insert; [done|]);
    rewrite ?Ek, ?Eo, ?Ed, ?Ekeys; try done.
  - by apply (Forall_lookup_1 _ _ _ _ wf_live0 Hi).
  - by apply (Forall_lookup_1 _ _ _ _ wf_ids0 Hi).
  - by apply (Forall_lookup_1 _ _ _ _ wf_orders0 Hi).
Qed.

Lemma update_wf rt k f :
  wf rt → (∀ e, TimerState.wf (state e) → keeps e (f e) ∧ TimerState.wf (state (f e))) →
  wf (update rt k f).
Proof.
  intros W Hf. unfold update, find_mut.
  destruct (list_find (matches k) (timers rt)) as [[i e]|] eqn:E; [|done].
  apply list_find_Some in E as (Hi & _ & _).
  destruct (Hf e) as [? ?]; [by apply (Forall_lookup_1 _ _ _ _ (wf_states _ W) Hi)|].
  by eapply insert_wf.
Qed.

Lemma start_timer_wf rt k : wf rt → wf (start_timer rt k).
Proof.
  intros W. apply update_wf; [done|]. intros e He. split; [done|].
  apply TimerState.timer_start_wf; [done|apply W].
Qed.
Lemma stop_timer_wf rt k : wf rt → wf (stop_timer rt k).
Proof. intros W. apply update_wf; [done|]. intros e He. split; [done|]. by apply TimerState.timer_stop_wf. Qed.
Lemma reset_timer_wf rt k : wf rt → wf (reset_timer rt k).
Proof. apply start_timer_wf. Qed.
Lemma change_period_wf rt k p : wf rt → Duration.wf p → wf (change_period rt k p).
Proof.
  intros W Hp. apply update_wf; [done|]. intros e He. split; [done|].
  by apply TimerState.timer_change_period_wf.
Qed.
Lemma restore_callback_wf rt k cb : wf rt → wf (restore_callback rt k cb).
Proof. intros W. apply update_wf; [done|]. intros e He. by case_decide. Qed.

#[export] Hint Resolve mock_time_new_wf start_timer_wf stop_timer_wf reset_timer_wf
  change_period_wf restore_callback_wf advance_time_wf reset_and_detach_wf : osal.

Lemma register_timer_spec rt p m cb :
  wf rt → next_id rt < 2 ^ 64 - 1 → Duration.wf p → Duration.eqb p Duration.ZERO = false →
  ∃ st, TimerState.wf st ∧ TimerState.deadline st = None ∧
        TimerState.period st = p ∧ TimerState.mode st = m ∧
  let k := mkKey (epoch rt) (next_id rt) in
  let rt' := mkRuntime (now rt) (epoch rt) (next_id rt + 1) (next_creation_order rt + 1)
               (timers rt ++ [mkEntry k st (Some cb) (next_creation_order rt) false]) in
  register_timer rt p m cb = Done (k, rt') ∧ wf rt'.
Proof.
  intros W Hn Hp Hz. pose proof W as []. set (st := TimerState.mk m p None).
  destruct (TimerState.timer_new_wf p m st) as [Wst Dst];
    [done|by unfold TimerState.new; rewrite Hz|].
  exists st. do 4 (split; [done|]). cbv zeta. split.
  - unfold register_timer. rewrite !uadd_ok by lia. run_simpl.
    unfold TimerState.new. by rewrite Hz.
  - split; simpl; try done; try lia; rewrite ?fmap_app, ?Forall_app, ?Forall_singleton; simpl.
    + done.
    + done.
    + split; [|lia]. eapply Forall_impl; [exact wf_ids0|]. simpl. lia.
    + split; [done|lia].
    + apply NoDup_app. split; [done|]. split; [|apply NoDup_singleton].
      intros k Hk Hk'. apply list_elem_of_singleton in Hk'. subst k.
      apply list_elem_of_fmap in Hk as (e & Ee & He).
      rewrite Forall_forall in wf_ids0. destruct (wf_ids0 e He) as [_ Hid].
      rewrite <- Ee in Hid. simpl in Hid. lia.
Qed.

(** [swap_remove] removes one element. *)
Lemma swap_remove_perm {A} (i : nat) (x : A) l :
  l !! i = Some x → x :: swap_remove i l ≡ₚ l.
Proof.
  intros Hi. unfold swap_remove. destruct (last l) as [y|] eqn:El.
  2:{ apply last_None in El. by subst. }
  apply last_Some in El as [l' ->]. rewrite length_app. simpl.
  replace (length l' + 1 - 1)%nat with (length l') by lia.
  destruct (decide (i < length l')%nat) as [Hlt|Hge].
  - rewrite lookup_app_l in Hi by done. rewrite insert_app_l by done.
    rewrite take_app_length' by (by rewrite length_insert).
    rewrite Permutation_app_comm. simpl.
    rewrite <- (take_drop_middle l' i x Hi) at 2.
    rewrite (insert_take_drop l' i y Hlt).
    rewrite <- !Permutation_middle. by do 2 constructor.
  - assert (i = length l') as ->.
    { apply lookup_lt_Some in Hi. rewrite length_app in Hi. simpl in Hi. lia. }
    rewrite list_lookup_middle in Hi by done. simplify_eq.
    replace (<[length l':=x]> (l' ++ [x])) with (l' ++ [x]).
    + rewrite take_app_length. by rewrite Permutation_app_comm.
    + symmetry. apply list_insert_id. by rewrite list_lookup_middle.
Qed.

Lemma remove_timer_spec rt k :
  match remove_timer rt k with
  | (Some e, rt') => matches k e ∧ rt' = set_timers rt (timers rt') ∧ e :: timers rt' ≡ₚ timers rt
  | (None, rt') => rt' = rt ∧ Forall (λ e, ¬ matches k e) (timers rt)
  end.
Proof.
  unfold remove_timer. destruct (list_find (matches k) (timers rt)) as [[i e]|] eqn:E.
  - apply list_find_Some in E as (Hi & Hm & _). split; [done|]. split; [done|].
    by apply swap_remove_perm.
  - split; [done|]. by apply list_find_None in E.
Qed.

Lemma remove_timer_wf rt k : wf rt → wf (snd (remove_timer rt k)).
Proof.
  intros W. pose proof (remove_timer_spec rt k) as R. destruct (remove_timer rt k) as [[e|] rt'].
  - destruct R as (_ & E & P). simpl. destruct W. rewrite E.
    rewrite <- P in wf_states0, wf_live0, wf_ids0, wf_orders0, wf_nodup0.
    apply Forall_cons_1 in wf_states0 as [_ ?], wf_live0 as [_ ?], wf_ids0 as [_ ?], wf_orders0 as [_ ?].
    apply NoDup_cons_1_2 in wf_nodup0. by split.
  - by destruct R as [-> _].
Qed.
#[export] Hint Resolve remove_timer_wf : osal.

(** *** Selection of the next callback *)

(** The rank of an entry that may be dispatched: deadline, then age. *)
Definition eligible (now : Duration.t) (e : MockTimerEntry) : Prop :=
  deleted e = false ∧ is_Some (callback e) ∧ TimerState.expired (state e) now.
Definition rank_le (r r' : Duration.t * Z) : Prop :=
  as_nanos (fst r) < as_nanos (fst r') ∨
  as_nanos (fst r) = as_nanos (fst r') ∧ snd r ≤ snd r'.
Definition ranked (e : MockTimerEntry) (r : Duration.t * Z) : Prop :=
  TimerState.deadline (state e) = Some (fst r) ∧ creation_order e = snd r.

Lemma rank_le_trans a b c : rank_le a b → rank_le b c → rank_le a c.
Proof. unfold rank_le. lia. Qed.

Lemma consider_spec now i e best :
  TimerState.wf (state e) → Duration.wf now →
  (∀ j d o, best = Some (j, d, o) → Duration.wf d) →
  let best' := consider now i e best in
  (best' = best ∧
     (¬ eligible now e ∨ ∃ j d o d', best = Some (j, d, o) ∧
        TimerState.deadline (state e) = Some d' ∧ rank_le (d, o) (d', creation_order e))) ∨
  (∃ d, best' = Some (i, d, creation_order e) ∧ eligible now e ∧ Duration.wf d ∧
     TimerState.deadline (state e) = Some d ∧
     (∀ j d' o, best = Some (j, d', o) → rank_le (d, creation_order e) (d', o))).
Proof.
  intros (_ & _ & We) Wn Wb. cbv zeta. unfold consider, eligible, TimerState.expired.
  destruct (deleted e); simpl; [left; naive_solver|].
  case_bool_decide as Hc; simpl; [|left; naive_solver].
  destruct (TimerState.deadline (state e)) as [d|]; [|left; naive_solver].
  specialize (We d eq_refl). rewrite Duration.dur_leb_nanos by done.
  case_if; bool_to_prop; [|left; split; [done|]; left; intros (_ & _ & d' & [= <-] & ?); lia].
  assert (∃ d0, Some d = Some d0 ∧ as_nanos d0 ≤ as_nanos now) as Hx by eauto.
  destruct best as [[[j bd] bo]|].
  - specialize (Wb j bd bo eq_refl). rewrite Duration.dur_ltb_nanos by done.
    case_if.
    + right. exists d. split; [done|]. split; [done|]. split; [done|]. split; [done|].
      intros ? ? ? [= -> -> ->]. unfold rank_le. simpl.
      apply orb_true_iff in Heqb0 as [?|?]; bool_to_prop; [lia|].
      apply Duration.dur_eqb_eq in H. subst. lia.
    + left. split; [done|]. right. exists j, bd, bo, d. split; [done|]. split; [done|].
      unfold rank_le. simpl. bool_to_prop.
      apply andb_false_iff in H0 as [He|?]; bool_to_prop; [|lia].
      apply Duration.dur_eqb_neq in He.
      assert (as_nanos d ≠ as_nanos bd) by (intros ?; apply He; by apply Duration.dur_as_nanos_inj). lia.
  - right. exists d. do 4 (split; [done|]). done.
Qed.

(** The scan returns a candidate of least rank. *)
Lemma scan_spec now l : ∀ i best,
  Forall (λ e, TimerState.wf (state e)) l → Duration.wf now →
  (∀ j d o, best = Some (j, d, o) → Duration.wf d) →
  match scan now i l best with
  | None => best = None ∧ Forall (λ e, ¬ eligible now e) l
  | Some (j, d, o) =>
      (best = Some (j, d, o) ∨
       ∃ k e, j = (i + k)%nat ∧ l !! k = Some e ∧ eligible now e ∧ ranked e (d, o)) ∧
      (∀ j' d' o', best = Some (j', d', o') → rank_le (d, o) (d', o')) ∧
      Forall (λ e, ∀ r, eligible now e → ranked e r → rank_le (d, o) r) l
  end.
Proof.
  induction l as [|e l IH]; intros i best F Wn Wb; simpl.
  { destruct best as [[[j d] o]|]; [|by split].
    split; [by left|]. split; [|done]. intros ? ? ? [= -> -> ->]. right. simpl. lia. }
  apply Forall_cons_1 in F as [We F].
  pose proof (consider_spec now i e best We Wn Wb) as C. cbv zeta in C.
  assert (∀ j d o, consider now i e best = Some (j, d, o) → Duration.wf d) as Wb'.
  { destruct C as [[-> _]|(d & -> & _ & Wd & _)]; [done|]. by intros ? ? ? [= _ <- _]. }
  specialize (IH (S i) (consider now i e best) F Wn Wb').
  destruct (scan now (S i) l (consider now i e best)) as [[[j d] o]|].
  - destruct IH as (Hin & Hbest & Hall). destruct C as [[Ec Hno]|(de & Ec & El & _ & Hd & Hle)].
    + rewrite Ec in *. split; [|split; [done|]].
      * destruct Hin as [?|(k & e' & -> & Hk & ?)]; [by left|]. right.
        exists (S k), e'. split; [lia|]. done.
      * constructor; [|done]. intros r Hel [Hr Ho].
        destruct Hno as [?|(j0 & d0 & o0 & d' & Eb & Hd' & Hle)]; [done|].
        eapply rank_le_trans; [by eapply Hbest|]. destruct r. simpl in *. by simplify_eq.
    + rewrite Ec in *. specialize (Hbest _ _ _ eq_refl) as Hb. split; [|split].
      * right. destruct Hin as [E|(k & e' & -> & Hk & ?)].
        -- simplify_eq. exists 0%nat, e. split; [lia|]. done.
        -- exists (S k), e'. split; [lia|]. done.
      * intros j' d' o' Eb. eapply rank_le_trans; [done|]. by eapply Hle.
      * constructor; [|done]. intros [d' o'] _ [Hr Ho]. simpl in *. by simplify_eq.
  - destruct IH as [Ec Hall]. destruct C as [[Ec' Hno]|(de & Ec' & _)]; [|congruence].
    rewrite Ec' in Ec. subst best. split; [done|]. constructor; [|done].
    destruct Hno as [?|(? & ? & ? & ? & ? & _)]; done.
Qed.

(** Taking one callback: the eligible entry of least rank, now neither armed
    for this instant nor callable; or nothing, when no entry is eligible. *)
Lemma take_next_expired_spec rt :
  wf rt →
  ∃ r rt', take_next_expired rt = Done (r, rt') ∧ wf rt' ∧ rt' = set_timers rt (timers rt') ∧
  match r with
  | None => timers rt' = timers rt ∧ Forall (λ e, ¬ eligible (now rt) e) (timers rt)
  | Some (k, cb) =>
      ∃ i e e', timers rt !! i = Some e ∧ timers rt' = <[i:=e']> (timers rt) ∧
        key e = k ∧ callback e = Some cb ∧ eligible (now rt) e ∧
        keeps e e' ∧ callback e' = None ∧ ¬ TimerState.expired (state e') (now rt) ∧
        Forall (λ e2, ∀ r1 r2, eligible (now rt) e2 → ranked e r1 → ranked e2 r2 → rank_le r1 r2)
               (timers rt)
  end.
Proof.
  intros W. unfold take_next_expired.
  pose proof (scan_spec (now rt) (timers rt) 0 None (wf_states _ W) (wf_now _ W)) as Sc.
  destruct (scan (now rt) 0 (timers rt) None) as [[[j d] o]|].
  2:{ eexists _, _. split; [done|]. split; [done|]. split; [by destruct rt|].
      destruct Sc as [_ F]; [done|]. done. }
  destruct Sc as ([?|(k & e & -> & Hk & El & Hr)] & _ & F); [done|done|]. simpl. rewrite Hk. simpl.
  pose proof (Forall_lookup_1 _ _ _ _ (wf_states _ W) Hk) as We.
  destruct (TimerState.advance_on_expiry_spec (state e) (now rt) We (wf_now _ W))
    as (b & st & -> & Wst & _ & _ & Hb & _ & Hne). simpl.
  destruct El as (Hd & [cb Hcb] & Hx). rewrite (proj2 Hb Hx). simpl. rewrite Hcb. simpl.
  eexists _, _. split; [done|]. split; [by eapply insert_wf|]. split; [done|].
  eexists k, e, _. split; [done|]. split; [done|]. do 2 (split; [done|]).
  split; [by repeat split|]. split; [done|]. do 2 (split; [done|]).
  eapply Forall_impl; [exact F|]. simpl. intros e2 He2 [d1 o1] r2 Hel [E1 E2] R2.
  destruct Hr as [E3 E4]. simpl in *. simplify_eq. by apply He2.
Qed.

(** The identity of the registry's entries and its counters: what an operation
    other than registration, removal and reset leaves alone. *)
Definition same_registry (rt rt' : MockTimeRuntime) : Prop :=
  key <$> timers rt' = key <$> timers rt ∧ epoch rt' = epoch rt ∧ next_id rt' = next_id rt.

Lemma insert_registry rt i e e' :
  timers rt !! i = Some e → key e' = key e →
  same_registry rt (set_timers rt (<[i:=e']> (timers rt))).
Proof.
  intros Hi Hk. split; [|done]. simpl. rewrite list_fmap_insert. apply list_insert_id.
  rewrite list_lookup_fmap, Hi. simpl. congruence.
Qed.

Lemma update_registry rt k f : (∀ e, key (f e) = key e) → same_registry rt (update rt k f).
Proof.
  intros Hf. unfold update, find_mut.
  destruct (list_find (matches k) (timers rt)) as [[i e]|] eqn:E; [|done].
  apply list_find_Some in E as (Hi & _ & _). by apply (insert_registry rt i e).
Qed.

Lemma take_registry rt r rt' :
  wf rt → take_next_expired rt = Done (r, rt') → wf rt' ∧ same_registry rt rt'.
Proof.
  intros W E. destruct (take_next_expired_spec rt W) as (r1 & rt1 & E1 & W1 & Ert & Hr).
  rewrite E in E1. simplify_eq. split; [done|]. destruct r1 as [[k cb]|].
  - destruct Hr as (i & e & e' & Hi & Ht & _ & _ & _ & (Hk & _) & _). rewrite Ert, Ht.
    by apply (insert_registry rt i e).
  - destruct Hr as [Ht _]. rewrite Ert, Ht. by destruct rt.
Qed.

(** *** Termination of the dispatch loop *)

Definition expiredb (now : Duration.t) (e : MockTimerEntry) : bool :=
  match TimerState.deadline (state e) with
  | Some d => Duration.leb d now
  | None => false
  end.
Definition expired_count (rt : MockTimeRuntime) : nat := countb (expiredb (now rt)) (timers rt).

Lemma expiredb_iff now e :
  TimerState.wf (state e) → Duration.wf now → expiredb now e = true ↔ TimerState.expired (state e) now.
Proof.
  intros (_ & _ & Wd) Wn. unfold expiredb, TimerState.expired.
  destruct (TimerState.deadline (state e)) as [d|]; [|naive_solver].
  rewrite Duration.dur_leb_nanos, Z.leb_le by eauto. naive_solver.
Qed.

(** No operation of the API makes a timer due at the current instant: a fresh
    deadline lies strictly in the future. *)
Definition calms (now : Duration.t) (f : MockTimerEntry → MockTimerEntry) : Prop :=
  ∀ e, TimerState.wf (state e) →
    (expiredb now e = false → expiredb now (f e) = false) ∧
    (is_Some (callback e) → is_Some (callback (f e))).

(** The timers served so far ([hs]) are not due again, and every timer but
    those whose callback is running ([ks]) has its callback in place. *)
Definition quiet (rt : MockTimeRuntime) (hs ks : list MockTimerKey) : Prop :=
  Forall (λ e, (key e ∈ hs → expiredb (now rt) e = false) ∧
               (is_Some (callback e) ∨ key e ∈ ks)) (timers rt).

Lemma start_calms now : Duration.wf now →
  calms now (λ e, set_state e (snd (TimerState.start (state e) now))).
Proof.
  intros Wn e We. split; [|done]. intros He. pose proof (TimerState.timer_start_spec (state e) now We Wn) as T.
  destruct (TimerState.start (state e) now) as [[[]|err] s'].
  - destruct T as (Ws & _ & _ & d & Ed & Nd). unfold expiredb. simpl. rewrite Ed.
    destruct Ws as (_ & _ & Wd). rewrite Duration.dur_leb_nanos by eauto. apply Z.leb_gt.
    destruct We as (Hp & Hz & _). rewrite Duration.dur_is_zero_nanos in Hz by done. bool_to_prop.
    pose proof (Duration.dur_wf_nanos_range _ Hp). lia.
  - destruct T as (_ & -> & _). done.
Qed.

Lemma update_calm rt k f hs ks :
  wf rt → calms (now rt) f → (∀ e, key (f e) = key e) →
  (expired_count (update rt k f) ≤ expired_count rt)%nat ∧
  (quiet rt hs ks → quiet (update rt k f) hs ks) ∧ now (update rt k f) = now rt ∧
  next_id (update rt k f) = next_id rt.
Proof.
  intros W Hc Hk. unfold update, find_mut.
  destruct (list_find (matches k) (timers rt)) as [[i e]|] eqn:E; [|done].
  apply list_find_Some in E as (Hi & _ & _).
  pose proof (Forall_lookup_1 _ _ _ _ (wf_states _ W) Hi) as We. destruct (Hc e We) as [Hx Hcb].
  split; [|split; [|done]].
  - unfold expired_count. simpl. pose proof (countb_insert (expiredb (now rt)) _ _ _ (f e) Hi) as C.
    destruct (expiredb (now rt) e); simpl in *; [destruct (expiredb (now rt) (f e)); simpl in *; lia|].
    rewrite (Hx eq_refl) in C. simpl in C. lia.
  - intros Q. unfold quiet in *. simpl. apply Forall_insert; [done|]. rewrite Hk.
    destruct (Forall_lookup_1 _ _ _ _ Q Hi) as [Q1 Q2]. split; [by auto|].
    destruct Q2; auto.
Qed.

Definition op_wf (o : timer_op) : Prop :=
  match o with OpNew p _ _ | OpChangePeriod _ p => Duration.wf p | _ => True end.

Lemma apply_op_calm rt o hs ks :
  wf rt → op_wf o → next_id rt < 2 ^ 64 - 1 →
  ∃ rt', apply_op (Some rt) o = Done (Some rt') ∧ wf rt' ∧ now rt' = now rt ∧
    next_id rt' ≤ next_id rt + 1 ∧ (expired_count rt' ≤ expired_count rt)%nat ∧
    (quiet rt hs ks → quiet rt' hs ks).
Proof.
  intros W Ho Hn.
  assert (Hsame : ∃ rt', Done (Some rt) = Done (Some rt') ∧ wf rt' ∧ now rt' = now rt ∧
    next_id rt' ≤ next_id rt + 1 ∧ (expired_count rt' ≤ expired_count rt)%nat ∧
    (quiet rt hs ks → quiet rt' hs ks)) by (exists rt; split_and!; try done; lia).
  assert (Hupd : ∀ k f, calms (now rt) f → (∀ e, key (f e) = key e) → wf (update rt k f) →
    ∃ rt', Done (Some (update rt k f)) = Done (Some rt') ∧ wf rt' ∧ now rt' = now rt ∧
      next_id rt' ≤ next_id rt + 1 ∧ (expired_count rt' ≤ expired_count rt)%nat ∧
      (quiet rt hs ks → quiet rt' hs ks)).
  { intros k f Hc Hk Wf. destruct (update_calm rt k f hs ks W Hc Hk) as (? & ? & ? & E).
    eexists. split; [done|]. rewrite E. split_and!; try done; lia. }
  pose proof (wf_now _ W) as Wn. destruct o as [p m cb|k|k|k|k p|k]; cbn [apply_op].
  - destruct (Duration.eqb p Duration.ZERO) eqn:Hz; [done|].
    destruct (register_timer_spec rt p m cb W Hn Ho Hz) as (st & Wst & Dst & _ & _ & E & W').
    change (with_runtime (λ rt, register_timer rt p m cb) (Some rt))
      with ('(r, rt1) ← register_timer rt p m cb; Done (r, Some rt1)). rewrite E. simpl.
    eexists. split; [done|]. split; [done|]. split; [done|]. split; [simpl; lia|].
    unfold expired_count, quiet. simpl. rewrite countb_app. simpl. unfold expiredb at 2. simpl.
    rewrite Dst. simpl. split; [lia|]. intros Q. apply Forall_app. split; [done|].
    constructor; [|done]. unfold expiredb. simpl. rewrite Dst. split; [done|]. by left.
  - apply Hupd; [by apply start_calms|done|by apply start_timer_wf].
  - apply Hupd; [by intros e _|done|by apply stop_timer_wf].
  - apply Hupd; [by apply start_calms|done|by apply reset_timer_wf].
  - destruct (Duration.eqb p Duration.ZERO) eqn:Hz; [done|].
    apply Hupd; [|done|by apply change_period_wf].
    intros e _. split; [|done]. unfold expiredb, TimerState.change_period in *. simpl. by rewrite Hz.
  - pose proof (remove_timer_spec rt k) as R. pose proof (remove_timer_wf rt k W) as W'.
    unfold deregister_timer. simpl. destruct (remove_timer rt k) as [[e|] rt']; simpl in *.
    + destruct R as (_ & E & P). exists rt'. split; [done|]. split; [done|].
      rewrite E. simpl. split; [done|]. split; [lia|]. unfold expired_count, quiet. simpl.
      rewrite <- (countb_perm _ _ _ P). simpl. split; [lia|].
      intros Q. rewrite <- P in Q. by apply Forall_cons_1 in Q as [_ ?].
    + by destruct R as [-> _].
Qed.

Lemma apply_ops_calm os hs ks : ∀ rt,
  wf rt → Forall op_wf os → next_id rt + Z.of_nat (length os) < 2 ^ 64 →
  ∃ rt', apply_ops (Some rt) os = Done (Some rt') ∧ wf rt' ∧ now rt' = now rt ∧
    next_id rt' ≤ next_id rt + Z.of_nat (length os) ∧
    (expired_count rt' ≤ expired_count rt)%nat ∧ (quiet rt hs ks → quiet rt' hs ks).
Proof.
  induction os as [|o os IH]; intros rt W F Hn; cbn [apply_ops length] in *.
  { exists rt. split_and!; try done; lia. }
  apply Forall_cons_1 in F as [Ho F].
  destruct (apply_op_calm rt o hs ks W Ho) as (rt1 & -> & W1 & N1 & I1 & C1 & Q1); [lia|]. simpl.
  destruct (IH rt1 W1 F) as (rt2 & -> & W2 & N2 & I2 & C2 & Q2); [lia|].
  exists rt2. split; [done|]. split; [done|]. split; [congruence|]. split; [lia|].
  split; [lia|]. auto.
Qed.

(** Keys identify entries. *)
Lemma key_index rt i j e e' :
  wf rt → timers rt !! i = Some e → timers rt !! j = Some e' → key e = key e' → i = j.
Proof.
  intros W Hi Hj Hk. apply (NoDup_lookup (key <$> timers rt) i j (key e)); [apply W|..];
    rewrite list_lookup_fmap; [rewrite Hi|rewrite Hj]; simpl; congruence.
Qed.

(** Putting the callback back. *)
Definition reload (cb : TimerCallback) (e : MockTimerEntry) : MockTimerEntry :=
  if decide (callback e = None) then set_callback e (Some cb) else e.

Lemma reload_calms now cb : calms now (reload cb).
Proof. intros e _. unfold reload. by case_decide. Qed.

Lemma reload_key cb e : key (reload cb e) = key e.
Proof. unfold reload. by case_decide. Qed.

Lemma restore_loads rt k cb hs :
  wf rt → quiet rt hs [k] → quiet (restore_callback rt k cb) hs [].
Proof.
  intros W Q. destruct (update_calm rt k (reload cb) hs [k] W) as (_ & Q' & N & _);
    [apply reload_calms|apply reload_key|]. specialize (Q' Q).
  change (restore_callback rt k cb) with (update rt k (reload cb)).
  unfold quiet in *. apply Forall_lookup_2. intros j x Hj.
  destruct (Forall_lookup_1 _ _ _ _ Q' Hj) as [Hq Hx]. split; [done|]. left.
  destruct Hx as [?|Hx]; [done|]. apply list_elem_of_singleton in Hx.
  revert Hj. unfold update, find_mut.
  destruct (list_find (matches k) (timers rt)) as [[i e]|] eqn:E.
  - apply list_find_Some in E as (Hi & [He _] & _). simpl.
    intros [(<- & <- & _)|[Hne Hj]]%list_lookup_insert_Some.
    + unfold reload. case_decide as Hd; [done|]. by destruct (callback e).
    + exfalso. apply Hne. eapply key_index; [done..|congruence].
  - apply list_find_None in E. intros Hj. pose proof (Forall_lookup_1 _ _ _ _ E Hj) as Hm.
    exfalso. apply Hm. split; [done|]. by apply (Forall_lookup_1 _ _ _ _ (wf_live _ W) Hj).
Qed.

(** Taking a callback serves one due timer for good. *)
Lemma take_serves rt rt1 k cb hs :
  wf rt → take_next_expired rt = Done (Some (k, cb), rt1) → quiet rt hs [] →
  wf rt1 ∧ now rt1 = now rt ∧ next_id rt1 = next_id rt ∧
  (expired_count rt1 + 1 = expired_count rt)%nat ∧ (k ∉ hs) ∧ quiet rt1 (hs ++ [k]) [k].
Proof.
  intros W E Q. destruct (take_next_expired_spec rt W) as (r & rt' & E' & W1 & Ert & Hr).
  rewrite E in E'. symmetry in E'. simplify_eq.
  destruct Hr as (i & e & e' & Hi & Ht & Hk & Hcb & El & (Kk & _ & _) & Hc' & Hne & _).
  pose proof (Forall_lookup_1 _ _ _ _ (wf_states _ W) Hi) as We.
  assert (We' : TimerState.wf (state e')).
  { assert (timers rt1 !! i = Some e') as Hi'
      by (rewrite Ht; apply list_lookup_insert_eq; by eapply lookup_lt_Some).
    by apply (Forall_lookup_1 _ _ _ _ (wf_states _ W1) Hi'). }
  assert (X : expiredb (now rt) e = true) by (apply expiredb_iff; [done|apply W|apply El]).
  assert (X' : expiredb (now rt) e' = false).
  { apply not_true_iff_false. rewrite expiredb_iff; [done|done|apply W]. }
  split; [done|]. rewrite Ert. simpl. split; [done|]. split; [done|]. split_and!.
  - unfold expired_count. simpl. rewrite Ht.
    pose proof (countb_insert (expiredb (now rt)) _ _ _ e' Hi) as C.
    rewrite X, X' in C. simpl in C. lia.
  - intros Hin. destruct (Forall_lookup_1 _ _ _ _ Q Hi) as [Hq _].
    rewrite <- Hk in Hin. by rewrite (Hq Hin) in X.
  - unfold quiet. simpl. rewrite Ht. apply Forall_lookup_2.
    intros j x [(<- & <- & _)|[Hnej Hj]]%list_lookup_insert_Some.
    + split; [done|]. right. rewrite Kk, Hk. by apply list_elem_of_singleton.
    + destruct (Forall_lookup_1 _ _ _ _ Q Hj) as [Hq Hx].
      split; [|left; by destruct Hx as [?|?%elem_of_nil]].
      intros [?|Hjk%list_elem_of_singleton]%elem_of_app; [by apply Hq|].
      exfalso. apply Hnej. apply (key_index rt i j e x); [done..|congruence].
Qed.

Section Dispatch.
Context (call : history → TimerCallback → list timer_op) (B : nat).
Hypothesis call_wf : ∀ h cb, Forall op_wf (call h cb).
Hypothesis call_bound : ∀ h cb, (length (call h cb) ≤ B)%nat.

Lemma dispatch_ok fuel : ∀ h rt,
  wf rt → quiet rt (fst <$> h) [] → NoDup (fst <$> h) → (expired_count rt < fuel)%nat →
  next_id rt + Z.of_nat (B * expired_count rt) < 2 ^ 64 →
  ∃ h' rt', dispatch call fuel h (Some rt) = Done (h ++ h', Some rt') ∧ wf rt' ∧
    now rt' = now rt ∧ expired_count rt' = 0%nat ∧ NoDup (fst <$> h ++ h') ∧
    (length h' ≤ expired_count rt)%nat.
Proof.
  induction fuel as [|fuel IH]; intros h rt W Q ND Hf Hb; [lia|]. cbn [dispatch global_take_next_expired].
  destruct (take_next_expired_spec rt W) as (r & rt1 & E & W1 & Ert & Hr). rewrite E. simpl.
  destruct r as [[k cb]|].
  - destruct (take_serves rt rt1 k cb _ W E Q) as (_ & N1 & I1 & C1 & Hk & Q1).
    destruct (apply_ops_calm (call h cb) ((fst <$> h) ++ [k]) [k] rt1 W1)
      as (rt2 & -> & W2 & N2 & I2 & C2 & Q2); [done|specialize (call_bound h cb); nia|]. simpl.
    destruct (update_calm rt2 k (reload cb) [] [] W2) as (C3 & _ & N3 & I3);
      [apply reload_calms|apply reload_key|].
    change (update rt2 k (reload cb)) with (restore_callback rt2 k cb) in *.
    specialize (call_bound h cb).
    destruct (IH (h ++ [(k, cb)]) (restore_callback rt2 k cb)) as (h' & rt' & -> & W' & N' & C' & ND' & L').
    + by apply restore_callback_wf.
    + rewrite fmap_app. simpl. apply restore_loads; auto.
    + rewrite fmap_app. simpl. apply NoDup_app. split; [done|]. split; [|apply NoDup_singleton].
      intros x Hx ->%list_elem_of_singleton. done.
    + lia.
    + nia.
    + exists ((k, cb) :: h'), rt'. rewrite <- app_assoc in *. split; [done|]. split; [done|].
      split; [congruence|]. split; [done|]. split; [done|]. simpl. lia.
  - destruct Hr as [Ht F]. exists [], rt1. rewrite app_nil_r.
    assert (rt1 = rt) as -> by (rewrite Ert, Ht; by destruct rt).
    split; [done|]. split; [done|]. split; [done|]. split; [|split; [done|simpl; lia]].
    unfold expired_count. apply countb_zero. apply Forall_lookup_2. intros j x Hj.
    apply not_true_iff_false. rewrite expiredb_iff; [|by apply (Forall_lookup_1 _ _ _ _ (wf_states _ W) Hj)|apply W].
    intros Hx. apply (Forall_lookup_1 _ _ _ _ F Hj).
    destruct (Forall_lookup_1 _ _ _ _ Q Hj) as [_ [Hc|Hc%elem_of_nil]]; [|done].
    split; [by apply (Forall_lookup_1 _ _ _ _ (wf_live _ W) Hj)|done].
Qed.

End Dispatch.

(** *** Properties *)

(** Advancing the mock clock terminates and serves every due timer exactly
    once, in whatever way the callbacks use the timer API (creating, starting,
    stopping, resetting, re-timing or dropping timers, their own included):
    with fuel one more than the number of timers due at the new instant, the
    loop ends with no timer due, no timer called twice and the clock at
    [now + d] (saturated).  [B] bounds the operations of one callback, so that
    the 64-bit timer ids cannot run out. *)
Theorem mock_dispatch_serves_all call B rt d :
  (∀ h cb, Forall op_wf (call h cb)) → (∀ h cb, (length (call h cb) ≤ B)%nat) →
  wf rt → Forall (λ e, is_Some (callback e)) (timers rt) → Duration.wf d →
  let due := expired_count (advance_time rt d) in
  next_id rt + Z.of_nat (B * due) < 2 ^ 64 →
  ∃ h rt', advance_and_dispatch call (S due) d (Some rt) = Done (h, Some rt') ∧
    wf rt' ∧ now rt' = Duration.saturating_add (now rt) d ∧
    expired_count rt' = 0%nat ∧ NoDup (fst <$> h) ∧ (length h ≤ due)%nat.
Proof.
  intros Hw Hl W Fc Hd due Hb. unfold advance_and_dispatch. simpl.
  destruct (dispatch_ok call B Hw Hl (S due) [] (advance_time rt d))
    as (h & rt' & E & W' & N & C & ND & L); try done.
  - by apply advance_time_wf.
  - eapply Forall_impl; [exact Fc|]. simpl. intros e He. split; [by intros ?%elem_of_nil|by left].
  - apply NoDup_nil_2.
  - unfold due. lia.
  - exists h, rt'. done.
Qed.

Definition sample_entry (i secs : Z) (cb : TimerCallback) : MockTimerEntry :=
  mkEntry (mkKey 1 i)
    (TimerState.mk TimerMode.Periodic (Duration.mk 1 0) (Some (Duration.mk secs 0)))
    (Some cb) (i - 1) false.

Definition sample_runtime : MockTimeRuntime :=
  mkRuntime (Duration.mk 0 0) 1 3 2 [sample_entry 1 5 10; sample_entry 2 4 20].

Lemma sample_runtime_wf : wf sample_runtime.
Proof.
  assert (∀ i s cb, 0 ≤ s < 10 → TimerState.wf (state (sample_entry i s cb))) as Hs.
  { intros i s' cb ?. split; [split; vm_compute; split; congruence|]. split; [done|].
    intros d [= <-]. split; simpl; [unfold in_uint|unfold Duration.NANOS_PER_SEC]; lia. }
  split.
  - split; vm_compute; split; congruence.
  - done.
  - simpl. lia.
  - apply Forall_cons. split; [by apply Hs|]. apply Forall_singleton. by apply Hs.
  - by repeat constructor.
  - repeat constructor; simpl; lia.
  - by repeat constructor.
  - apply (bool_decide_unpack _). vm_compute. reflexivity.
Qed.

(** Timer 2's callback stops timer 1 before it is served. *)
Definition sample_call (_ : history) (cb : TimerCallback) : list timer_op :=
  if cb =? 20 then [OpStop (mkKey 1 1)] else [].

Lemma mock_dispatch_serves_all_witness :
  ∃ h rt', advance_and_dispatch sample_call 3 (Duration.mk 6 0) (Some sample_runtime)
             = Done (h, Some rt') ∧ h = [(mkKey 1 2, 20)] ∧ expired_count rt' = 0%nat.
Proof.
  destruct (mock_dispatch_serves_all sample_call 1 sample_runtime (Duration.mk 6 0))
    as (h & rt' & E & _ & _ & C & _ & _).
  - intros h cb. unfold sample_call. case_if; by repeat constructor.
  - intros h cb. unfold sample_call. case_if; simpl; lia.
  - exact sample_runtime_wf.
  - repeat constructor; eauto.
  - split; vm_compute; split; congruence.
  - vm_compute. reflexivity.
  - exists h, rt'. split; [exact E|]. split; [|exact C]. vm_compute in E. by injection E as <- _.
Defined.

(** The callback taken next belongs to a due timer whose callback is in
    place and that comes first by deadline and then by creation order; when
    nothing is taken, no timer is due. *)
Theorem mock_takes_earliest rt :
  wf rt →
  ∃ r rt', take_next_expired rt = Done (r, rt') ∧ wf rt' ∧
  match r with
  | None => rt' = rt ∧ ∀ e, e ∈ timers rt → ¬ eligible (now rt) e
  | Some (k, cb) =>
      ∃ e d, e ∈ timers rt ∧ key e = k ∧ callback e = Some cb ∧ eligible (now rt) e ∧
        TimerState.deadline (state e) = Some d ∧
        ∀ e' d', e' ∈ timers rt → eligible (now rt) e' → TimerState.deadline (state e') = Some d' →
          as_nanos d < as_nanos d' ∨
          as_nanos d = as_nanos d' ∧ creation_order e ≤ creation_order e'
  end.
Proof.
  intros W. destruct (take_next_expired_spec rt W) as (r & rt' & E & W' & Ert & Hr).
  exists r, rt'. split; [done|]. split; [done|]. destruct r as [[k cb]|].
  - destruct Hr as (i & e & e' & Hi & _ & Hk & Hcb & El & _ & _ & _ & F).
    destruct El as (? & ? & d & Ed & ?). exists e, d.
    split; [by eapply list_elem_of_lookup_2|]. do 2 (split; [done|]).
    split; [split; [done|]; split; [done|]; by exists d|]. split; [done|].
    intros e2 d2 H2 El2 Ed2. rewrite Forall_forall in F.
    by apply (F e2 H2 (d, creation_order e) (d2, creation_order e2)).
  - destruct Hr as [Ht F]. rewrite Forall_forall in F. split; [|done].
    rewrite Ert, Ht. by destruct rt.
Qed.

Lemma mock_takes_earliest_witness :
  ∃ rt', take_next_expired (advance_time sample_runtime (Duration.mk 6 0))
           = Done (Some (mkKey 1 2, 20), rt').
Proof.
  destruct (mock_takes_earliest (advance_time sample_runtime (Duration.mk 6 0)))
    as (r & rt' & E & _ & _).
  - apply advance_time_wf; [exact sample_runtime_wf|]. split; vm_compute; split; congruence.
  - exists rt'. rewrite E. vm_compute in E. by injection E as <- _.
Defined.

End MockTime.
