(* ===== verification/Mock.v ===== *)
(** * The mock backend

    All of [crates/osal-backend-mock]: its process-wide state, the objects it
    hands out as reference-counted handles, and every operation on them.
    Objects live in one heap keyed by reference; [strong] is the [Rc]/[Arc]
    count.  The backend runs in a single context, so the loops on the
    lifecycle word run without interference ([run_loop] with no failed
    exchange; by [run_loop_spec] failed ones only repeat). *)

From S2P Require Import Prelude Api Buffers Time Runtime MockTime.
Import RuntimeLifecycle (run_loop, acquire_body, lease_drop_body, begin_shutdown_body,
  begin_initialize, commit_initialize, commit_shutdown).

(** ** [wait.rs] and [fault.rs] *)

Module MockWait.

Definition apply_timeout {T} (timeout : Timeout.t) (raw : Result T) (would_block_err : Error.t)
    : Result T :=
  match timeout with
  | Timeout.NoWait => raw
  | Timeout.After _ =>
      match raw with
      | Err e => if Error.eqb e would_block_err then Err Error.Timeout else Err e
      | other => other
      end
  | Timeout.Forever =>
      match raw with
      | Err e => if Error.eqb e would_block_err then Err Error.Unsupported else Err e
      | other => other
      end
  end.

End MockWait.

Module FaultState.

Record t : Type := mk {
  next_queue_create : option Error.t;
  next_queue_send : option Error.t;
}.

Definition default : t := mk None None.
Definition clear (_ : t) : t := mk None None.
Definition fail_next_queue_create (f : t) (e : Error.t) : t := mk (Some e) (next_queue_send f).
Definition fail_next_queue_send (f : t) (e : Error.t) : t := mk (next_queue_create f) (Some e).
(** [next_queue_create.take()] and [next_queue_send.take()]. *)
Definition take_create (f : t) : option Error.t * t := (next_queue_create f, mk None (next_queue_send f)).
Definition take_send (f : t) : option Error.t * t := (next_queue_send f, mk (next_queue_create f) None).

End FaultState.

(** ** The state of the process *)

Module MockState.

(** The contents of a handle's shared inner object. *)
Inductive obj : Type :=
| OQueue (buffer : ByteQueue.t) (faults : option Z)
| OSemaphore (state : CountingSemaphoreState.t)
| OMutex (data : Z) (locked : bool)
| OTask (handle : TaskHandle.t) (priority : Z) (exit_code : ExitCode.t)
| OTimer (key : MockTime.MockTimerKey).

Record cell : Type := mkCell { strong : Z; body : obj }.

Record sys : Type := mkSys {
  life : Z;                                  (* runtime.rs: RUNTIME *)
  clock : option MockTime.MockTimeRuntime;   (* time_runtime.rs: RUNTIME *)
  objs : gmap Z cell;
  next_ref : Z;
  faults : gmap Z FaultState.t;
  next_handle : Z;                           (* task.rs: NEXT_HANDLE *)
  live_count : Z;                            (* task.rs: LIVE_COUNT *)
  current : option TaskHandle.t;             (* task.rs: CURRENT *)
  critical_depth : Z;                        (* system.rs: CRITICAL_DEPTH *)
}.

Definition init : sys :=
  mkSys RuntimeLifecycle.new None ∅ 1 ∅ 1 0 None 0.

Definition set_life (w : Z) (s : sys) : sys :=
  mkSys w (clock s) (objs s) (next_ref s) (faults s) (next_handle s) (live_count s) (current s)
        (critical_depth s).
Definition set_clock (c : option MockTime.MockTimeRuntime) (s : sys) : sys :=
  mkSys (life s) c (objs s) (next_ref s) (faults s) (next_handle s) (live_count s) (current s)
        (critical_depth s).
Definition set_objs (o : gmap Z cell) (s : sys) : sys :=
  mkSys (life s) (clock s) o (next_ref s) (faults s) (next_handle s) (live_count s) (current s)
        (critical_depth s).
Definition set_faults (f : gmap Z FaultState.t) (s : sys) : sys :=
  mkSys (life s) (clock s) (objs s) (next_ref s) f (next_handle s) (live_count s) (current s)
        (critical_depth s).
Definition set_task (h l : Z) (c : option TaskHandle.t) (s : sys) : sys :=
  mkSys (life s) (clock s) (objs s) (next_ref s) (faults s) h l c (critical_depth s).
Definition set_critical (d : Z) (s : sys) : sys :=
  mkSys (life s) (clock s) (objs s) (next_ref s) (faults s) (next_handle s) (live_count s)
        (current s) d.

(** Code on the lifecycle word, and on the clock, inside the process. *)
Definition on_life {A} (f : Z → Run (A * Z)) : M sys A := λ s,
  '(a, w) ← f (life s); Done (a, set_life w s).
Definition on_clock {A} (f : option MockTime.MockTimeRuntime →
    Run (A * option MockTime.MockTimeRuntime)) : M sys A := λ s,
  '(a, c) ← f (clock s); Done (a, set_clock c s).

(** [Rc::new] / [Arc::new]: a fresh cell with one strong reference. *)
Definition rc_new (b : obj) : M sys Z := λ s,
  let r := next_ref s in
  Done (r, mkSys (life s) (clock s) (<[r:=mkCell 1 b]> (objs s)) (r + 1) (faults s)
             (next_handle s) (live_count s) (current s) (critical_depth s)).

(** A dangling reference would be undefined behaviour; it is a panic here. *)
Definition deref (r : Z) : M sys obj := λ s,
  c ← expect (objs s !! r) "dangling reference"; Done (body c, s).
Definition store (r : Z) (b : obj) : M sys () := λ s,
  c ← expect (objs s !! r) "dangling reference";
  Done ((), set_objs (<[r:=mkCell (strong c) b]> (objs s)) s).

End MockState.
Import MockState.

(** ** [runtime.rs] *)

Module MockRuntime.
Section MockRuntime.
Context `{Arch}.

Definition initialize : M sys (Result ()) :=
  _ <-? on_life begin_initialize ;;
  on_clock (λ g, Done ((), MockTime.reset_runtime g)) ;;;
  on_life (λ w, w' ← commit_initialize w; Done ((), w')) ;;;
  mret_ (Ok ()).

Definition shutdown : M sys (Result ()) :=
  _ <-? on_life (run_loop begin_shutdown_body 0) ;;
  on_clock (λ g, Done ((), MockTime.reset_runtime g)) ;;;
  on_life (λ w, w' ← commit_shutdown w; Done ((), w')) ;;;
  mret_ (Ok ()).

Definition state : M sys RuntimeState.t := λ s,
  st ← RuntimeLifecycle.state (life s); Done (st, s).

Definition acquire_object : M sys (Result ()) := on_life (run_loop acquire_body 0).

Definition active_objects : M sys Z := λ s, Done (RuntimeLifecycle.active_objects (life s), s).

(** [RuntimeLease::drop] *)
Definition lease_drop : M sys () :=
  _ <- on_life (run_loop lease_drop_body 0) ;; mret_ ().

End MockRuntime.
End MockRuntime.
Import MockRuntime (acquire_object, lease_drop).

(** ** [queue.rs] *)

Module MockQueue.
Section MockQueue.
Context `{Arch} (alloc : Z → bool).

(** [MockQueueInner::new]: a failed buffer drops the lease. *)
Definition inner_new (capacity msg_size : Z) (f : option Z) : M sys (Result obj) :=
  _ <-? mret_ (Validation.validate_queue_capacity capacity) ;;
  _ <-? mret_ (Validation.validate_queue_message_size msg_size) ;;
  _ <-? acquire_object ;;
  match ByteQueue.new alloc capacity msg_size with
  | Ok b => mret_ (Ok (OQueue b f))
  | Err e => lease_drop ;;; mret_ (Err e)
  end.

Definition new (capacity msg_size : Z) : M sys (Result Z) :=
  o <-? inner_new capacity msg_size None ;;
  r <- rc_new o ;; mret_ (Ok r).

Definition new_with_faults (capacity msg_size : Z) (f : Z) : M sys (Result Z) :=
  s <- mget ;;
  fs <- mrun (expect (faults s !! f) "dangling reference") ;;
  let '(fault, fs') := FaultState.take_create fs in
  mput (set_faults (<[f:=fs']> (faults s)) s) ;;;
  match fault with
  | Some e => mret_ (Err e)
  | None => o <-? inner_new capacity msg_size (Some f) ;; r <- rc_new o ;; mret_ (Ok r)
  end.

(** [self.inner.borrow()]: the reference is to a queue. *)
Definition inner (r : Z) : M sys (ByteQueue.t * option Z) :=
  o <- deref r ;;
  match o with OQueue b f => mret_ (b, f) | _ => mpanic "not a queue" end.

Definition take_send_fault (r : Z) : M sys (option Error.t) :=
  i <- inner r ;;
  match snd i with
  | None => mret_ None
  | Some f =>
      s <- mget ;;
      fs <- mrun (expect (faults s !! f) "dangling reference") ;;
      let '(fault, fs') := FaultState.take_send fs in
      mput (set_faults (<[f:=fs']> (faults s)) s) ;;;
      mret_ fault
  end.

Definition send (r : Z) (data : list u8) (timeout : Timeout.t) : M sys (Result ()) :=
  fault <- take_send_fault r ;;
  match fault with
  | Some e => mret_ (Err e)
  | None =>
      i <- inner r ;;
      x <- mrun (ByteQueue.try_send (fst i) data) ;;
      store r (OQueue (snd x) (snd i)) ;;;
      mret_ (MockWait.apply_timeout timeout (fst x) Error.QueueFull)
  end.

(** The result and the caller's buffer. *)
Definition recv (r : Z) (buffer : list u8) (timeout : Timeout.t) : M sys (Result () * list u8) :=
  i <- inner r ;;
  x <- mrun (ByteQueue.try_recv (fst i) buffer) ;;
  store r (OQueue (fst (snd x)) (snd i)) ;;;
  let raw := match fst x with Ok _ => Ok () | Err e => Err e end in
  mret_ (MockWait.apply_timeout timeout raw Error.QueueEmpty, snd (snd x)).

Definition close (r : Z) : M sys (Result ()) :=
  i <- inner r ;;
  store r (OQueue (ByteQueue.close (fst i)) (snd i)) ;;; mret_ (Ok ()).

Definition capacity (r : Z) : M sys Z := i <- inner r ;; mret_ (ByteQueue.capacity (fst i)).
Definition msg_size (r : Z) : M sys Z := i <- inner r ;; mret_ (ByteQueue.message_size (fst i)).
Definition len (r : Z) : M sys (Result Z) := i <- inner r ;; mret_ (Ok (ByteQueue.len (fst i))).

End MockQueue.
End MockQueue.

(** ** [semaphore.rs] *)

Module MockSemaphore.
Section MockSemaphore.
Context `{Arch}.

Definition new (max_count initial_count : Z) : M sys (Result Z) :=
  st <-? mret_ (CountingSemaphoreState.new max_count initial_count) ;;
  _ <-? acquire_object ;;
  r <- rc_new (OSemaphore st) ;; mret_ (Ok r).

Definition inner (r : Z) : M sys CountingSemaphoreState.t :=
  o <- deref r ;;
  match o with OSemaphore st => mret_ st | _ => mpanic "not a semaphore" end.

Definition acquire (r : Z) (timeout : Timeout.t) : M sys (Result ()) :=
  st <- inner r ;;
  x <- mrun (CountingSemaphoreState.try_acquire st) ;;
  store r (OSemaphore (snd x)) ;;;
  mret_ (if fst x : bool then Ok ()
         else match timeout with
              | Timeout.NoWait => Err Error.Timeout
              | Timeout.After _ => Err Error.Timeout
              | Timeout.Forever => Err Error.Unsupported
              end).

Definition release (r : Z) : M sys (Result ()) :=
  st <- inner r ;;
  x <- mrun (CountingSemaphoreState.release st) ;;
  store r (OSemaphore (snd x)) ;;; mret_ (fst x).

Definition max_count (r : Z) : M sys Z :=
  st <- inner r ;; mret_ (CountingSemaphoreState.max_count st).
Definition count (r : Z) : M sys (Result Z) :=
  st <- inner r ;; mret_ (Ok (CountingSemaphoreState.count st)).

(** [MockBinarySemaphore] *)
Definition binary_new : M sys (Result Z) := new 1 0.
Definition is_signaled (r : Z) : M sys (Result bool) :=
  c <-? count r ;; mret_ (Ok (c =? 1)).

End MockSemaphore.
End MockSemaphore.

(** ** [mutex.rs] *)

Module MockMutex.
Section MockMutex.
Context `{Arch}.

Definition new (value : Z) : M sys (Result Z) :=
  _ <-? acquire_object ;;
  r <- rc_new (OMutex value false) ;; mret_ (Ok r).

Definition inner (r : Z) : M sys (Z * bool) :=
  o <- deref r ;;
  match o with OMutex v l => mret_ (v, l) | _ => mpanic "not a mutex" end.

(** On success the caller holds a guard on [r]. *)
Definition lock (r : Z) (timeout : Timeout.t) : M sys (Result ()) :=
  i <- inner r ;;
  if snd i : bool then
    mret_ (match timeout with
           | Timeout.NoWait => Err Error.LockFailed
           | Timeout.After _ => Err Error.Timeout
           | Timeout.Forever => Err Error.LockFailed
           end)
  else store r (OMutex (fst i) true) ;;; mret_ (Ok ()).

(** [MockMutexGuard]: [deref], [deref_mut] and [drop]. *)
Definition guard_read (r : Z) : M sys Z := i <- inner r ;; mret_ (fst i).
Definition guard_write (r : Z) (v : Z) : M sys () :=
  i <- inner r ;; store r (OMutex v (snd i)).
Definition guard_drop (r : Z) : M sys () :=
  i <- inner r ;;
  mrun (rassert (snd i) "guard dropped on unlocked mutex") ;;;
  store r (OMutex (fst i) false).

End MockMutex.
End MockMutex.

(** ** [task.rs] *)

Module MockTask.

Record builder : Type := mkBuilder { name : list u8; stack_size : Z; priority : Z }.

Definition builder_new : builder := mkBuilder [] 4096 1.
Definition with_name (b : builder) (n : list u8) : builder := mkBuilder n (stack_size b) (priority b).
Definition with_stack_size (b : builder) (n : Z) : builder := mkBuilder (name b) n (priority b).
Definition with_priority (b : builder) (p : Z) : builder := mkBuilder (name b) (stack_size b) p.

Section MockTask.
Context `{Arch}.

(** [fetch_update(checked_add(1))] *)
Definition allocate_task_handle : M sys (Result TaskHandle.t) := λ s,
  match checked_add usize_bits (next_handle s) 1 with
  | None => Done (Err Error.Overflow, s)
  | Some n =>
      Done (ok_or (TaskHandle.from_raw (next_handle s)) Error.Overflow,
            set_task n (live_count s) (current s) s)
  end.

(** [LiveTaskToken]: [register] and [drop] (wrapping atomics). *)
Definition live_register : M sys () :=
  mmodify (λ s, set_task (next_handle s) (wrapping_add usize_bits (live_count s) 1) (current s) s).
Definition live_drop : M sys () :=
  mmodify (λ s, set_task (next_handle s) (wrapping_sub usize_bits (live_count s) 1) (current s) s).

(** [CurrentGuard]: [enter] returns the previous handle, [drop] restores it. *)
Definition current_enter (h : TaskHandle.t) : M sys (option TaskHandle.t) := λ s,
  Done (current s, set_task (next_handle s) (live_count s) (Some h) s).
Definition current_drop (prev : option TaskHandle.t) : M sys () :=
  mmodify (λ s, set_task (next_handle s) (live_count s) prev s).

(** [spawn] up to the call of the entry: the task and what [CurrentGuard]
    saved.  A failed handle allocation drops the lease. *)
Definition spawn_enter (b : builder) : M sys (Result (Z * option TaskHandle.t)) :=
  _ <-? mret_ (Validation.validate_task_config (name b) (stack_size b)) ;;
  _ <-? acquire_object ;;
  h <- allocate_task_handle ;;
  match h with
  | Err e => lease_drop ;;; mret_ (Err e)
  | Ok h =>
      r <- rc_new (OTask h (priority b) ExitCode.SUCCESS) ;;
      live_register ;;;
      prev <- current_enter h ;;
      mret_ (Ok (r, prev))
  end.

(** The guards drop in reverse order of declaration. *)
Definition spawn_exit (prev : option TaskHandle.t) : M sys () := current_drop prev ;;; live_drop.

Definition spawn (b : builder) (entry : M sys ()) : M sys (Result Z) :=
  x <-? spawn_enter b ;;
  entry ;;;
  spawn_exit (snd x) ;;;
  mret_ (Ok (fst x)).

Definition inner (r : Z) : M sys (TaskHandle.t * Z * ExitCode.t) :=
  o <- deref r ;;
  match o with OTask h p c => mret_ (h, p, c) | _ => mpanic "not a task" end.

Definition join (r : Z) (_timeout : Timeout.t) : M sys (Result ExitCode.t) :=
  i <- inner r ;; mret_ (Ok (snd i)).
Definition handle (r : Z) : M sys TaskHandle.t := i <- inner r ;; mret_ (fst (fst i)).
Definition task_priority (r : Z) : M sys Z := i <- inner r ;; mret_ (snd (fst i)).
Definition current_task : M sys (option TaskHandle.t) := λ s, Done (current s, s).
Definition count : M sys Z := λ s, Done (live_count s, s).

End MockTask.
End MockTask.

(** ** [timer.rs] and [clock.rs] *)

Module MockTimer.
Import MockTime.
Section MockTimer.
Context `{Arch}.

Definition new (period : Duration.t) (mode : TimerMode.t) (cb : TimerCallback) : M sys (Result Z) :=
  if Duration.eqb period Duration.ZERO then mret_ (Err Error.InvalidParameter)
  else
    _ <-? acquire_object ;;
    key <- on_clock (with_runtime (λ rt, register_timer rt period mode cb)) ;;
    r <- rc_new (OTimer key) ;; mret_ (Ok r).

Definition inner (r : Z) : M sys MockTimerKey :=
  o <- deref r ;;
  match o with OTimer k => mret_ k | _ => mpanic "not a timer" end.

Definition start (r : Z) : M sys (Result ()) :=
  k <- inner r ;; on_clock (with_runtime (pure_op (λ rt, start_timer rt k))) ;;; mret_ (Ok ()).
Definition stop (r : Z) : M sys (Result ()) :=
  k <- inner r ;; on_clock (with_runtime (pure_op (λ rt, stop_timer rt k))) ;;; mret_ (Ok ()).
Definition reset (r : Z) : M sys (Result ()) :=
  k <- inner r ;; on_clock (with_runtime (pure_op (λ rt, reset_timer rt k))) ;;; mret_ (Ok ()).
Definition change_period (r : Z) (p : Duration.t) : M sys (Result ()) :=
  if Duration.eqb p Duration.ZERO then mret_ (Err Error.InvalidParameter)
  else
    k <- inner r ;;
    on_clock (with_runtime (pure_op (λ rt, MockTime.change_period rt k p))) ;;; mret_ (Ok ()).

(** [MockTimerHandleInner::drop], before its fields drop. *)
Definition handle_inner_drop (k : MockTimerKey) : M sys () :=
  on_clock (λ g, Done ((), deregister_timer g k)).

End MockTimer.

Definition now : M sys Duration.t :=
  on_clock (with_runtime (λ rt, Done (MockTime.now rt, rt))).
Definition clock_reset : M sys () := on_clock (λ g, Done ((), reset_runtime g)).
(** The parts of [advance_and_dispatch] around the call of the callback. *)
Definition advance (d : Duration.t) : M sys () :=
  on_clock (with_runtime (pure_op (λ rt, advance_time rt d))).
Definition take : M sys (option (MockTimerKey * TimerCallback)) :=
  on_clock global_take_next_expired.
Definition restore (k : MockTimerKey) (cb : TimerCallback) : M sys () :=
  on_clock (λ g, Done ((), global_restore_callback g k cb)).

End MockTimer.

(** ** [system.rs] *)

Module MockSystem.
Section MockSystem.
Context `{Arch}.

Definition heap_free : Z := uint_max usize_bits.
Definition enter_critical : M sys () :=
  mmodify (λ s, set_critical (wrapping_add usize_bits (critical_depth s) 1) s).
Definition guard_drop : M sys () :=
  mmodify (λ s, set_critical (wrapping_sub usize_bits (critical_depth s) 1) s).

End MockSystem.
End MockSystem.

(** ** Handles: [Clone] and [Drop] *)

Module MockHandle.
Section MockHandle.
Context `{Arch}.

Definition clone (r : Z) : M sys () := λ s,
  c ← expect (objs s !! r) "dangling reference";
  n ← uadd usize_bits (strong c) 1;
  Done ((), set_objs (<[r:=mkCell n (body c)]> (objs s)) s).

(** The last handle drops the inner object: a timer deregisters first, then
    the lease every object holds is given back. *)
Definition drop (r : Z) : M sys () := λ s,
  c ← expect (objs s !! r) "dangling reference";
  n ← usub (strong c) 1;
  if n =? 0 then
    (match body c with
     | OTimer k => MockTimer.handle_inner_drop k
     | _ => mret_ ()
     end ;;; lease_drop) (set_objs (delete r (objs s)) s)
  else Done ((), set_objs (<[r:=mkCell n (body c)]> (objs s)) s).

End MockHandle.
End MockHandle.

(** ** Clients of the backend

    A client program is any sequence of events; each event is one call of the
    API, made from the main program, from inside a task entry or from inside a
    timer callback.  [frames] is the call stack of those, innermost first;
    [guards] and [criticals] are the guards the client holds.  What Rust's
    types guarantee (a handle is used only while it is held, a guard keeps its
    handle alive, machine integers are in range) is what enables an event. *)

Module MockWorld.
Import MockTime.
Section MockWorld.
Context `{Arch}.

Inductive frame : Type :=
| FSpawn (r : Z) (h prev : option TaskHandle.t)
| FLoop
| FCallback (k : MockTimerKey) (cb : TimerCallback).

Record world : Type := mkWorld {
  st : sys;
  frames : list frame;
  guards : list Z;
  criticals : nat;
}.

Definition start_world : world := mkWorld init [] [] 0.

Inductive event : Type :=
| Initialize | Shutdown
| NewFaults
| ClearFaults (f : Z) | FailCreate (f : Z) (e : Error.t) | FailSend (f : Z) (e : Error.t)
| QueueNew (alloc : bool) (capacity msg_size : Z) (f : option Z)
| QueueSend (r : Z) (data : list u8) (timeout : Timeout.t)
| QueueRecv (r : Z) (buffer : list u8) (timeout : Timeout.t)
| QueueClose (r : Z)
| SemNew (max_count initial_count : Z)
| SemAcquire (r : Z) (timeout : Timeout.t) | SemRelease (r : Z)
| MutexNew (v : Z)
| MutexLock (r : Z) (timeout : Timeout.t) | GuardWrite (r v : Z) | GuardDrop (r : Z)
| SpawnEnter (b : MockTask.builder) | SpawnExit
| TimerNew (p : Duration.t) (m : TimerMode.t) (cb : TimerCallback)
| TimerStart (r : Z) | TimerStop (r : Z) | TimerReset (r : Z) | TimerChange (r : Z) (p : Duration.t)
| Delay (d : Duration.t) | LoopTake | CallbackReturn | ClockReset
| CloneHandle (r : Z) | DropHandle (r : Z)
| EnterCritical | ExitCritical.

(** The kind of object a reference denotes. *)
Inductive kind : Type := KQueue | KSem | KMutex | KTask | KTimer.
#[global] Instance kind_eq_dec : EqDecision kind.
Proof. solve_decision. Defined.
Definition kind_of (o : obj) : kind :=
  match o with
  | OQueue _ _ => KQueue | OSemaphore _ => KSem | OMutex _ _ => KMutex
  | OTask _ _ _ => KTask | OTimer _ => KTimer
  end.
Definition has_kind (w : world) (r : Z) (k : kind) : bool :=
  match objs (st w) !! r with
  | Some c => bool_decide (kind_of (body c) = k)
  | None => false
  end.

Definition frame_ref (f : frame) : list Z := match f with FSpawn r _ _ => [r] | _ => [] end.

(** A handle can be dropped unless a guard borrows the last one or the task
    it denotes is still inside [spawn]. *)
Definition droppable (w : world) (r : Z) : bool :=
  match objs (st w) !! r with
  | Some c => bool_decide (r ∉ concat (frame_ref <$> frames w)) &&
              ((1 <? strong c) || bool_decide (r ∉ guards w))
  | None => false
  end.

Definition with_st (w : world) (s : sys) : world := mkWorld s (frames w) (guards w) (criticals w).

(** Run an operation; the client ignores the result. *)
Definition act {A} (w : world) (m : M sys A) : option (Run world) :=
  Some ('(_, s) ← m (st w); Done (with_st w s)).
Definition when (b : bool) (x : option (Run world)) : option (Run world) := if b then x else None.

Definition exec (w : world) (e : event) : option (Run world) :=
  match e with
  | Initialize => act w MockRuntime.initialize
  | Shutdown => act w MockRuntime.shutdown
  | NewFaults =>
      act w (mmodify (λ s, set_faults (<[fresh (dom (faults s)):=FaultState.default]> (faults s)) s))
  | ClearFaults f => act w (mmodify (λ s, set_faults (alter FaultState.clear f (faults s)) s))
  | FailCreate f e =>
      act w (mmodify (λ s,
        set_faults (alter (λ x, FaultState.fail_next_queue_create x e) f (faults s)) s))
  | FailSend f e =>
      act w (mmodify (λ s,
        set_faults (alter (λ x, FaultState.fail_next_queue_send x e) f (faults s)) s))
  | QueueNew a c m None =>
      when (bool_decide (in_uint usize_bits c) && bool_decide (in_uint usize_bits m))
        (act w (MockQueue.new (λ _, a) c m))
  | QueueNew a c m (Some f) =>
      when (bool_decide (in_uint usize_bits c) && bool_decide (in_uint usize_bits m) &&
            bool_decide (is_Some (faults (st w) !! f)))
        (act w (MockQueue.new_with_faults (λ _, a) c m f))
  | QueueSend r d t => when (has_kind w r KQueue) (act w (MockQueue.send r d t))
  | QueueRecv r b t => when (has_kind w r KQueue) (act w (MockQueue.recv r b t))
  | QueueClose r => when (has_kind w r KQueue) (act w (MockQueue.close r))
  | SemNew m i =>
      when (bool_decide (in_uint 32 m) && bool_decide (in_uint 32 i)) (act w (MockSemaphore.new m i))
  | SemAcquire r t => when (has_kind w r KSem) (act w (MockSemaphore.acquire r t))
  | SemRelease r => when (has_kind w r KSem) (act w (MockSemaphore.release r))
  | MutexNew v => act w (MockMutex.new v)
  | MutexLock r t =>
      when (has_kind w r KMutex)
        (Some ('(x, s) ← MockMutex.lock r t (st w);
               Done (mkWorld s (frames w) (if is_ok x then r :: guards w else guards w) (criticals w))))
  | GuardWrite r v => when (bool_decide (r ∈ guards w)) (act w (MockMutex.guard_write r v))
  | GuardDrop r =>
      when (bool_decide (r ∈ guards w))
        (Some ('(_, s) ← MockMutex.guard_drop r (st w);
               Done (mkWorld s (frames w) (list_difference (guards w) [r]) (criticals w))))
  | SpawnEnter b =>
      Some ('(x, s) ← MockTask.spawn_enter b (st w);
            Done (mkWorld s (match x with
                             | Ok (r, prev) => FSpawn r (current s) prev :: frames w
                             | Err _ => frames w
                             end) (guards w) (criticals w)))
  | SpawnExit =>
      match frames w with
      | FSpawn _ _ prev :: fs =>
          Some ('(_, s) ← MockTask.spawn_exit prev (st w); Done (mkWorld s fs (guards w) (criticals w)))
      | _ => None
      end
  | TimerNew p m cb => when (bool_decide (Duration.wf p)) (act w (MockTimer.new p m cb))
  | TimerStart r => when (has_kind w r KTimer) (act w (MockTimer.start r))
  | TimerStop r => when (has_kind w r KTimer) (act w (MockTimer.stop r))
  | TimerReset r => when (has_kind w r KTimer) (act w (MockTimer.reset r))
  | TimerChange r p =>
      when (has_kind w r KTimer && bool_decide (Duration.wf p)) (act w (MockTimer.change_period r p))
  | Delay d =>
      when (bool_decide (Duration.wf d))
        (Some ('(_, s) ← MockTimer.advance d (st w);
               Done (mkWorld s (FLoop :: frames w) (guards w) (criticals w))))
  | LoopTake =>
      match frames w with
      | FLoop :: fs =>
          Some ('(x, s) ← MockTimer.take (st w);
                Done (mkWorld s (match x with Some (k, cb) => FCallback k cb :: frames w | None => fs end)
                              (guards w) (criticals w)))
      | _ => None
      end
  | CallbackReturn =>
      match frames w with
      | FCallback k cb :: fs =>
          Some ('(_, s) ← MockTimer.restore k cb (st w); Done (mkWorld s fs (guards w) (criticals w)))
      | _ => None
      end
  | ClockReset => act w MockTimer.clock_reset
  | CloneHandle r => when (bool_decide (is_Some (objs (st w) !! r))) (act w (MockHandle.clone r))
  | DropHandle r => when (droppable w r) (act w (MockHandle.drop r))
  | EnterCritical =>
      Some ('(_, s) ← MockSystem.enter_critical (st w);
            Done (mkWorld s (frames w) (guards w) (S (criticals w))))
  | ExitCritical =>
      match criticals w with
      | S n => Some ('(_, s) ← MockSystem.guard_drop (st w);
                     Done (mkWorld s (frames w) (guards w) n))
      | O => None
      end
  end.

Inductive reachable : nat → world → Prop :=
| mock_init : reachable 0 start_world
| mock_step n w e w' : reachable n w → exec w e = Some (Done w') → reachable (S n) w'.

(** *** The invariant *)

Definition count (s : sys) : Z := Z.of_nat (size (objs s)).

(** The lifecycle word counts the objects of the heap. *)
Definition life_ok (s : sys) : Prop :=
  ∃ b : bool,
    life s = RuntimeLifecycle.pack (if b then RuntimeState.Running else RuntimeState.Uninitialized)
               (count s) ∧
    count s ≤ RuntimeLifecycle.MAX_COUNT ∧ (b = false → objs s = ∅).

Definition body_ok (s : sys) (o : obj) : Prop :=
  match o with
  | OQueue b f => ByteQueue.wf b ∧ (∀ x, f = Some x → is_Some (faults s !! x))
  | OSemaphore x => CountingSemaphoreState.wf x
  | _ => True
  end.

Definition heap_ok (n : Z) (s : sys) : Prop :=
  ∀ r c, objs s !! r = Some c → r < next_ref s ∧ 1 ≤ strong c ≤ n + 1 ∧ body_ok s (body c).

Definition clock_ok (n : Z) (s : sys) : Prop :=
  ∀ rt, clock s = Some rt → MockTime.wf rt ∧ next_id rt ≤ n + 1 ∧ 1 ≤ epoch rt ≤ n + 1.

(** The registry and the live timer handles of the current epoch agree. *)
Definition timers_ok (s : sys) : Prop :=
  (∀ rt e, clock s = Some rt → e ∈ timers rt →
     ∃ r c, objs s !! r = Some c ∧ body c = OTimer (key e)) ∧
  (∀ r c k, objs s !! r = Some c → body c = OTimer k →
     ∃ rt, clock s = Some rt ∧ epoch_of k ≤ epoch rt ∧
           (epoch_of k = epoch rt → id k < next_id rt ∧ k ∈ key <$> timers rt)) ∧
  (∀ r1 r2 c1 c2 k, objs s !! r1 = Some c1 → objs s !! r2 = Some c2 →
     body c1 = OTimer k → body c2 = OTimer k → r1 = r2).

Record sys_ok (n : Z) (s : sys) : Prop := {
  sys_life : life_ok s;
  sys_heap : heap_ok n s;
  sys_clock : clock_ok n s;
  sys_timers : timers_ok s;
}.

(** A guard exists exactly for the locked mutexes. *)
Definition guards_ok (w : world) : Prop :=
  NoDup (guards w) ∧
  ∀ r, r ∈ guards w ↔ ∃ c v, objs (st w) !! r = Some c ∧ body c = OMutex v true.

(** The task context follows the stack of entries. *)
Definition is_spawn (f : frame) : bool := match f with FSpawn _ _ _ => true | _ => false end.
Fixpoint context (fs : list frame) : option TaskHandle.t :=
  match fs with
  | [] => None
  | FSpawn _ h _ :: _ => h
  | _ :: fs => context fs
  end.
Fixpoint saved_ok (fs : list frame) : Prop :=
  match fs with
  | [] => True
  | FSpawn _ _ prev :: fs => prev = context fs ∧ saved_ok fs
  | _ :: fs => saved_ok fs
  end.
Definition ctx_ok (w : world) : Prop :=
  live_count (st w) = Z.of_nat (countb is_spawn (frames w)) mod 2 ^ usize_bits ∧
  current (st w) = context (frames w) ∧ saved_ok (frames w) ∧
  critical_depth (st w) = Z.of_nat (criticals w) mod 2 ^ usize_bits ∧
  1 ≤ next_handle (st w).

Record world_ok (n : Z) (w : world) : Prop := {
  ok_sys : sys_ok n (st w);
  ok_guards : guards_ok w;
  ok_ctx : ctx_ok w;
}.

Lemma start_world_ok : world_ok 0 start_world.
Proof.
  pose proof RuntimeLifecycle.zero_le_MAX_COUNT. split.
  - split.
    + exists false. split; [done|]. split; [|done]. unfold count. simpl. rewrite map_size_empty. lia.
    + intros r c. simpl. by rewrite lookup_empty.
    + intros rt. done.
    + split; [done|]. split; intros *; simpl; by rewrite lookup_empty.
  - split; [apply NoDup_nil_2|]. intros r. simpl. split; [by intros ?%elem_of_nil|].
    intros (c & v & E & _). by rewrite lookup_empty in E.
  - done.
Qed.

(** *** Pieces of the operations *)

Lemma set_life_id s : set_life (life s) s = s.
Proof. by destruct s. Qed.

Lemma acquire_cases s :
  life_ok s →
  (∃ e, acquire_object s = Done (Err e, s)) ∨
  (acquire_object s = Done (Ok (), set_life (RuntimeLifecycle.pack RuntimeState.Running (count s + 1)) s) ∧
   life s = RuntimeLifecycle.pack RuntimeState.Running (count s) ∧
   count s + 1 ≤ RuntimeLifecycle.MAX_COUNT).
Proof.
  intros (b & El & Hm & _). unfold acquire_object, MockRuntime.acquire_object, on_life. rewrite El.
  assert (0 ≤ count s ≤ RuntimeLifecycle.MAX_COUNT) as Hc by (unfold count in *; lia).
  rewrite (RuntimeLifecycle.run_loop_spec _ _ _ _
             (RuntimeLifecycle.acquire_body_spec _ (count s) Hc)).
  destruct b; simpl; [case_if; bool_to_prop|].
  - right. split; [done|]. split; [done|lia].
  - left. eexists. by rewrite <- El, set_life_id.
  - left. eexists. by rewrite <- El, set_life_id.
Qed.

Lemma lease_drop_ok s m :
  life s = RuntimeLifecycle.pack RuntimeState.Running (m + 1) → 0 ≤ m < RuntimeLifecycle.MAX_COUNT →
  lease_drop s = Done ((), set_life (RuntimeLifecycle.pack RuntimeState.Running m) s).
Proof.
  intros El Hm. unfold lease_drop, MockRuntime.lease_drop, on_life, mbind_. rewrite El.
  assert (0 < m + 1 ≤ RuntimeLifecycle.MAX_COUNT) as Hm' by lia.
  rewrite (RuntimeLifecycle.run_loop_spec _ _ _ _ (RuntimeLifecycle.lease_drop_body_spec _ Hm')).
  simpl. by replace (m + 1 - 1) with m by lia.
Qed.

Lemma world_ok_mono n w : world_ok n w → world_ok (n + 1) w.
Proof.
  intros [[L Hp Ck T] G C]. split; [split|..]; try done.
  - intros r c E. destruct (Hp r c E) as (? & ? & ?). split_and!; done || lia.
  - intros rt E. destruct (Ck rt E) as (? & ? & ?). split_and!; done || lia.
Qed.

(** Replacing the contents of a cell by contents of the same shape. *)
Definition same_shape (o o' : obj) : Prop :=
  match o, o' with
  | OMutex _ l, OMutex _ l' => l = l'
  | OTimer k, OTimer k' => k = k'
  | _, _ => kind_of o = kind_of o'
  end.

Definition put (r : Z) (c : cell) (w : world) : world :=
  with_st w (set_objs (<[r:=c]> (objs (st w))) (st w)).

Lemma count_put r c c' s : objs s !! r = Some c → size (<[r:=c']> (objs s)) = size (objs s).
Proof. intros E. by rewrite map_size_insert, E. Qed.

(** The two parts of a shape the rest of the state refers to. *)
Definition timer_eq (o o' : obj) : Prop := ∀ k, o = OTimer k ↔ o' = OTimer k.
Lemma timer_shape o o' : same_shape o o' → timer_eq o o'.
Proof. destruct o, o'; simpl; intros ? k; split; intros; by simplify_eq. Qed.
Lemma locked_shape o o' : same_shape o o' → (∃ v, o = OMutex v true) ↔ (∃ v, o' = OMutex v true).
Proof. destruct o, o'; simpl; intros; split; intros [? ?]; simplify_eq; eauto. Qed.

Lemma lookup_put r c c' (m : gmap Z cell) x d' :
  m !! r = Some c → <[r:=c']> m !! x = Some d' →
  ∃ d, m !! x = Some d ∧ (d = d' ∨ x = r ∧ d = c ∧ d' = c').
Proof. intros E [[<- <-]|[Hne E']]%lookup_insert_Some; eauto 10. Qed.

Lemma put_timers_ok s r c c' :
  objs s !! r = Some c → timer_eq (body c) (body c') → timers_ok s →
  timers_ok (set_objs (<[r:=c']> (objs s)) s).
Proof.
  intros E Sh (T1 & T2 & T3).
  assert (Hback : ∀ x d' k, <[r:=c']> (objs s) !! x = Some d' → body d' = OTimer k →
            ∃ d, objs s !! x = Some d ∧ body d = OTimer k).
  { intros x d' k Ex Bd. destruct (lookup_put r c c' _ x d' E Ex) as (d & Ed & [->|(-> & -> & ->)]);
      [eauto|]. exists c. split; [done|]. by apply Sh. }
  split; [|split]; simpl.
  - intros rt e Ec He. destruct (T1 rt e Ec He) as (x & d & Ex & Ed).
    destruct (decide (x = r)) as [->|Hne].
    + exists r, c'. rewrite lookup_insert_eq. simplify_eq. split; [done|]. by apply Sh.
    + exists x, d. by rewrite lookup_insert_ne.
  - intros x d' k Ex Ed. destruct (Hback x d' k Ex Ed) as (d & Ex' & Ed'). by eapply T2.
  - intros r1 r2 d1 d2 k E1 E2 B1 B2.
    destruct (Hback r1 d1 k E1 B1) as (? & ? & ?), (Hback r2 d2 k E2 B2) as (? & ? & ?).
    by eapply (T3 r1 r2).
Qed.

Lemma put_sys_ok n s r c c' :
  sys_ok n s → objs s !! r = Some c → timer_eq (body c) (body c') →
  1 ≤ strong c' ≤ n + 2 → body_ok s (body c') → sys_ok (n + 1) (set_objs (<[r:=c']> (objs s)) s).
Proof.
  intros [(b & El & Hm & Hb) Hp Ck T] E Sh Hs Hbo.
  assert (count (set_objs (<[r:=c']> (objs s)) s) = count s) as Ec
    by (unfold count; simpl; by erewrite count_put).
  split.
  - exists b. rewrite Ec. split; [done|]. split; [done|]. intros Hf. specialize (Hb Hf).
    rewrite Hb in E. by rewrite lookup_empty in E.
  - intros x d' Ex. simpl in Ex. destruct (lookup_put r c c' _ x d' E Ex) as (d & Ex' & Hd).
    destruct (Hp x d Ex') as (H1 & H2 & H3). destruct Hd as [->|(-> & -> & ->)]; split_and!; done || lia.
  - intros rt Er. destruct (Ck rt Er) as (? & ? & ?). split_and!; done || lia.
  - by eapply put_timers_ok.
Qed.

Lemma put_ok n w r c c' :
  world_ok n w → objs (st w) !! r = Some c → same_shape (body c) (body c') →
  1 ≤ strong c' ≤ n + 2 → body_ok (st w) (body c') → world_ok (n + 1) (put r c' w).
Proof.
  intros [S' [ND G] C] E Sh Hs Hbo. split; [eapply put_sys_ok; eauto using timer_shape|..|done].
  split; [done|]. intros x. rewrite (G x). simpl. split.
  - intros (d & v & Ex & Ed). destruct (decide (x = r)) as [->|Hne].
    + rewrite lookup_insert_eq. simplify_eq. exists c'.
      destruct (proj1 (locked_shape _ _ Sh)) as [v' ?]; eauto.
    + rewrite lookup_insert_ne by done. eauto.
  - intros (d' & v & Ex & Ed). destruct (lookup_put r c c' _ x d' E Ex) as (d & Ex' & [->|(-> & -> & ->)]);
      [eauto|]. destruct (proj2 (locked_shape _ _ Sh)) as [v' ?]; eauto.
Qed.

(** Taking and giving back a mutex changes the flag and the guards together. *)
Definition relock (r : Z) (m v : Z) (l : bool) (gs : list Z) (w : world) : world :=
  mkWorld (set_objs (<[r:=mkCell m (OMutex v l)]> (objs (st w))) (st w)) (frames w) gs (criticals w).

Lemma relock_ok n w r m v l l' gs :
  world_ok n w → objs (st w) !! r = Some (mkCell m (OMutex v l)) → 1 ≤ m ≤ n + 2 →
  NoDup gs → (∀ x, x ∈ gs ↔ x = r ∧ l' = true ∨ x ≠ r ∧ x ∈ guards w) →
  world_ok (n + 1) (relock r m v l' gs w).
Proof.
  intros [S' [ND G] C] E Hm NDg Hg. split; [|split|done]; [by eapply put_sys_ok|done|].
  intros x. rewrite Hg. simpl. split.
  - intros [[-> ->]|[Hne Hx]].
    + rewrite lookup_insert_eq. eauto.
    + rewrite lookup_insert_ne by done. by apply G.
  - intros (c & v' & [[<- <-]|[Hne Ex]]%lookup_insert_Some & B).
    + simpl in B. simplify_eq. by left.
    + right. split; [done|]. apply G. eauto.
Qed.

(** A new object: the lease first, then a fresh cell. *)
Definition rc_state (o : obj) (s : sys) : sys :=
  mkSys (RuntimeLifecycle.pack RuntimeState.Running (count s + 1)) (clock s)
        (<[next_ref s:=mkCell 1 o]> (objs s)) (next_ref s + 1) (faults s)
        (next_handle s) (live_count s) (current s) (critical_depth s).

Lemma fresh_ref n s : heap_ok n s → objs s !! next_ref s = None.
Proof.
  intros Hp. destruct (objs s !! next_ref s) eqn:E; [|done]. destruct (Hp _ _ E) as [? _]. lia.
Qed.

Lemma count_rc_state n o s : heap_ok n s → count (rc_state o s) = count s + 1.
Proof.
  intros Hp. unfold count. simpl. rewrite map_size_insert, (fresh_ref n s Hp). lia.
Qed.

Lemma rc_heap_life n o s :
  0 ≤ n → heap_ok n s → count s + 1 ≤ RuntimeLifecycle.MAX_COUNT → body_ok s o →
  life_ok (rc_state o s) ∧ heap_ok (n + 1) (rc_state o s).
Proof.
  intros Hn Hp Hm Hb. split.
  - exists true. rewrite (count_rc_state n o s Hp). split; [done|]. split; [done|done].
  - intros r c. simpl. intros [[<- <-]|[Hne E]]%lookup_insert_Some; simpl.
    + split_and!; done || lia.
    + destruct (Hp r c E) as (? & ? & ?). split_and!; done || lia.
Qed.

Lemma rc_guards_ok n o s w :
  heap_ok n s → (∀ v, o ≠ OMutex v true) → objs (st w) = objs s → guards_ok w →
  guards_ok (with_st w (rc_state o s)).
Proof.
  intros Hp Ho Es [ND G]. split; [done|]. intros x. simpl. rewrite (G x), Es. split.
  - intros (c & v & E & B). exists c, v. rewrite lookup_insert_ne; [done|].
    intros <-. by rewrite (fresh_ref n s Hp) in E.
  - intros (c & v & [[<- <-]|[Hne E]]%lookup_insert_Some & B); [by destruct (Ho v)|eauto].
Qed.

Lemma rc_ok n o w :
  0 ≤ n → world_ok n w → count (st w) + 1 ≤ RuntimeLifecycle.MAX_COUNT → body_ok (st w) o →
  (∀ k, o ≠ OTimer k) → (∀ v, o ≠ OMutex v true) → world_ok (n + 1) (with_st w (rc_state o (st w))).
Proof.
  intros Hn [[L Hp Ck (T1 & T2 & T3)] G C] Hm Hb Ht Hx.
  destruct (rc_heap_life n o (st w) Hn Hp Hm Hb) as [L' Hp'].
  assert (Hold : ∀ r c k, <[next_ref (st w):=mkCell 1 o]> (objs (st w)) !! r = Some c →
            body c = OTimer k → objs (st w) !! r = Some c).
  { intros r c k [[<- <-]|[_ E]]%lookup_insert_Some B; [|done]. by destruct (Ht k). }
  split; [split|..]; try done.
  - intros rt E. destruct (Ck rt E) as (? & ? & ?). split_and!; done || lia.
  - split; [|split]; simpl.
    + intros rt e Ec He. destruct (T1 rt e Ec He) as (r & c & E & B). exists r, c.
      rewrite lookup_insert_ne; [done|]. intros <-. by rewrite (fresh_ref n _ Hp) in E.
    + intros r c k E B. eapply T2; [by eapply Hold|done].
    + intros r1 r2 c1 c2 k E1 E2 B1 B2. eapply (T3 r1 r2); [by eapply Hold..|done|done].
  - by eapply rc_guards_ok.
Qed.

(** Operations on the clock that keep the registry. *)
Definition tick (c : option MockTimeRuntime) (w : world) : world := with_st w (set_clock c (st w)).

Lemma clock_or_new n s : 0 ≤ n → clock_ok n s →
  MockTime.wf (get_or_insert (clock s)) ∧
  next_id (get_or_insert (clock s)) ≤ n + 1 ∧ 1 ≤ epoch (get_or_insert (clock s)) ≤ n + 1.
Proof.
  intros Hn Ck. destruct (clock s) as [rt|] eqn:E; simpl; [by apply Ck|].
  split; [apply mock_time_new_wf|]. simpl. lia.
Qed.

Lemma tick_ok n w rt' :
  0 ≤ n → world_ok n w → MockTime.wf rt' → same_registry (get_or_insert (clock (st w))) rt' →
  world_ok (n + 1) (tick (Some rt') w).
Proof.
  intros Hn [[L Hp Ck (T1 & T2 & T3)] G C] W (Ek & Ee & Ei).
  destruct (clock_or_new n (st w) Hn Ck) as (_ & Hi & He). split; [split|..]; try done.
  - intros r c E. destruct (Hp r c E) as (? & ? & ?). split_and!; done || lia.
  - intros rt [= <-]. split_and!; done || lia.
  - split; [|split]; simpl; [| |done].
    + intros rt e [= <-] Hin. apply (list_elem_of_fmap_2 key) in Hin. rewrite Ek in Hin.
      apply list_elem_of_fmap in Hin as (e0 & Ek0 & Hin).
      destruct (clock (st w)) as [rt|]; [|by apply elem_of_nil in Hin].
      rewrite Ek0. by eapply T1.
    + intros r c k E B. destruct (T2 r c k E B) as (rt & Ec & Hle & Hcur). rewrite Ec in *. simpl in *.
      exists rt'. rewrite Ee, Ei, Ek. done.
Qed.

(** A reset detaches every timer and opens a new epoch. *)
Lemma reset_ok n w :
  0 ≤ n < 2 ^ 64 - 2 → world_ok n w → world_ok (n + 1) (tick (reset_runtime (clock (st w))) w).
Proof.
  intros Hn [[L Hp Ck (T1 & T2 & T3)] G C].
  destruct (clock_or_new n (st w) ltac:(lia) Ck) as (Wr & _ & He).
  split; [split|..]; try done.
  - intros r c E. destruct (Hp r c E) as (? & ? & ?). split_and!; done || lia.
  - intros rt [= <-]. split; [by apply (reset_and_detach_wf _ Wr)|]. simpl. split; [lia|].
    unfold wrapping_add. rewrite Z.mod_small; lia.
  - split; [|split]; simpl; [| |done].
    + intros rt e [= <-] Hin. by apply elem_of_nil in Hin.
    + intros r c k E B. destruct (T2 r c k E B) as (rt & Ec & Hle & Hcur). rewrite Ec in *. simpl in *.
      eexists. split; [done|]. simpl. unfold wrapping_add. rewrite Z.mod_small by lia. lia.
Qed.

Lemma initialize_cases s :
  life_ok s →
  (∃ e, MockRuntime.initialize s = Done (Err e, s)) ∨
  (MockRuntime.initialize s =
     Done (Ok (), set_life (RuntimeLifecycle.pack RuntimeState.Running 0)
                    (set_clock (reset_runtime (clock s)) s)) ∧ objs s = ∅).
Proof.
  intros (b & El & Hm & Hb). unfold MockRuntime.initialize, on_life, on_clock, mtry, mbind_, mret_.
  rewrite El. assert (0 ≤ count s ≤ RuntimeLifecycle.MAX_COUNT) as Hc by (unfold count in *; lia).
  rewrite RuntimeLifecycle.begin_initialize_spec by done. destruct b; simpl.
  - left. eexists. by rewrite <- El, set_life_id.
  - right. specialize (Hb eq_refl). assert (count s = 0) as -> by (unfold count; by rewrite Hb).
    simpl. unfold commit_initialize. by rewrite RuntimeLifecycle.guarded_exchange_spec.
Qed.

Lemma shutdown_cases s :
  life_ok s →
  (∃ e, MockRuntime.shutdown s = Done (Err e, s) ∧ (e = Error.Busy → objs s ≠ ∅)) ∨
  (MockRuntime.shutdown s =
     Done (Ok (), set_life (RuntimeLifecycle.pack RuntimeState.Uninitialized 0)
                    (set_clock (reset_runtime (clock s)) s)) ∧ objs s = ∅).
Proof.
  intros (b & El & Hm & Hb). unfold MockRuntime.shutdown, on_life, on_clock, mtry, mbind_, mret_.
  rewrite El. assert (0 ≤ count s) as Hc by (unfold count in *; lia).
  rewrite (RuntimeLifecycle.run_loop_spec _ _ _ _ (RuntimeLifecycle.begin_shutdown_body_spec _ _ Hc)).
  destruct b; simpl.
  - destruct (count s =? 0) eqn:E; bool_to_prop; simpl.
    + right. unfold commit_shutdown. rewrite RuntimeLifecycle.guarded_exchange_spec. simpl.
      split; [done|]. apply map_size_empty_iff. unfold count in E. lia.
    + left. eexists. rewrite <- El, set_life_id. split; [done|]. intros _ Ho. apply E.
      unfold count. by rewrite Ho.
  - left. eexists. rewrite <- El, set_life_id. by split.
Qed.

Lemma restart_ok n w (b : bool) :
  0 ≤ n < 2 ^ 64 - 2 → world_ok n w → objs (st w) = ∅ →
  world_ok (n + 1) (with_st w (set_life (RuntimeLifecycle.pack
      (if b then RuntimeState.Running else RuntimeState.Uninitialized) 0)
      (set_clock (reset_runtime (clock (st w))) (st w)))).
Proof.
  intros Hn W Ho. destruct (reset_ok n w Hn W) as [[L Hp Ck T] G C]. split; [split|..]; try done.
  exists b. unfold count. simpl. rewrite Ho. split; [done|]. split; [|done].
  pose proof RuntimeLifecycle.zero_le_MAX_COUNT. rewrite map_size_empty. lia.
Qed.

(** Registering a timer: its entry and its handle appear together. *)
Lemma timer_new_ok n w p m cb :
  0 ≤ n < 2 ^ 64 - 2 → world_ok n w → count (st w) + 1 ≤ RuntimeLifecycle.MAX_COUNT →
  Duration.wf p → Duration.eqb p Duration.ZERO = false →
  let rt := get_or_insert (clock (st w)) in
  ∃ rt', register_timer rt p m cb = Done (mkKey (epoch rt) (next_id rt), rt') ∧
    world_ok (n + 1) (with_st w (rc_state (OTimer (mkKey (epoch rt) (next_id rt)))
                                   (set_clock (Some rt') (st w)))).
Proof.
  intros Hn [[L Hp Ck (T1 & T2 & T3)] G C] Hm Hd Hz rt.
  destruct (clock_or_new n (st w) ltac:(lia) Ck) as (Wr & Hi & He). fold rt in Wr, Hi, He.
  destruct (register_timer_spec rt p m cb Wr) as (ts & _ & _ & _ & _ & E & W'); [lia|done..|].
  cbv zeta in E, W'. set (rt' := mkRuntime _ _ _ _ _) in E, W'. set (k := mkKey _ _) in *.
  exists rt'. split; [done|].
  destruct (rc_heap_life n (OTimer k) (set_clock (Some rt') (st w)) ltac:(lia) Hp Hm I) as [L' Hp'].
  assert (Hfresh : ∀ r c, objs (st w) !! r = Some c → body c ≠ OTimer k).
  { intros r c Er B. destruct (T2 r c k Er B) as (rt0 & Ec & _ & Hcur).
    assert (rt = rt0) as Ert by (unfold rt; by rewrite Ec).
    destruct Hcur as [Hlt _]; [by rewrite <- Ert|]. rewrite <- Ert in Hlt. simpl in Hlt. lia. }
  split; [split|..]; try done.
  - intros x [= <-]. split; [done|]. simpl. lia.
  - split; [|split]; simpl.
    + intros x e [= <-] [Hin|Hin%list_elem_of_singleton]%elem_of_app.
      * unfold rt in Hin. destruct (clock (st w)) as [rt0|] eqn:Ec; [|by apply elem_of_nil in Hin].
        destruct (T1 rt0 e eq_refl Hin) as (r & c & Er & B). exists r, c.
        rewrite lookup_insert_ne; [done|]. intros <-. by rewrite (fresh_ref n _ Hp) in Er.
      * subst e. exists (next_ref (st w)), (mkCell 1 (OTimer k)). by rewrite lookup_insert_eq.
    + intros r c k' [[<- <-]|[Hne Er]]%lookup_insert_Some B.
      * simpl in B. simplify_eq. exists rt'. split; [done|]. simpl. split; [lia|]. intros _.
        split; [lia|]. rewrite fmap_app. apply elem_of_app. right. by apply list_elem_of_singleton.
      * destruct (T2 r c k' Er B) as (rt0 & Ec & Hle & Hcur). exists rt'. split; [done|].
        unfold rt', rt. rewrite Ec. simpl. split; [done|]. intros Hep.
        destruct (Hcur Hep) as [? Hin]. split; [lia|]. rewrite fmap_app. apply elem_of_app. by left.
    + intros r1 r2 c1 c2 k' [[<- <-]|[_ E1]]%lookup_insert_Some
        [[<- <-]|[_ E2]]%lookup_insert_Some B1 B2; simpl in *; simplify_eq; try done.
      * by destruct (Hfresh r2 c2 E2).
      * by destruct (Hfresh r1 c1 E1).
      * by eapply (T3 r1 r2).
  - by apply (rc_guards_ok n _ (set_clock (Some rt') (st w))).
Qed.

(** Dropping the last handle of an object. *)
Definition drop_clock (o : obj) (g : option MockTimeRuntime) : option MockTimeRuntime :=
  match o with OTimer k => deregister_timer g k | _ => g end.
Definition dropped (r : Z) (o : obj) (s : sys) : sys :=
  set_life (RuntimeLifecycle.pack RuntimeState.Running (count s - 1))
    (set_clock (drop_clock o (clock s)) (set_objs (delete r (objs s)) s)).

Lemma remove_keys rt k x :
  MockTime.wf rt →
  x ∈ key <$> timers (snd (remove_timer rt k)) ↔ x ∈ key <$> timers rt ∧ x ≠ k.
Proof.
  intros W. pose proof (remove_timer_spec rt k) as R. destruct (remove_timer rt k) as [[e|] rt'].
  - destruct R as ((Hk & _) & _ & P). simpl. pose proof (wf_nodup _ W) as ND.
    rewrite <- P in ND |- *. simpl in *. apply NoDup_cons in ND as [Hni ND].
    rewrite elem_of_cons, Hk. rewrite Hk in Hni. split.
    + intros Hx. split; [by right|]. by intros ->.
    + intros [[->|?] ?]; done.
  - destruct R as [-> F]. simpl. split; [|tauto]. intros Hx. split; [done|]. intros ->.
    apply list_elem_of_fmap in Hx as (e & -> & He). rewrite Forall_forall in F.
    apply (F e He). split; [done|]. pose proof (wf_live _ W) as Wl. rewrite Forall_forall in Wl. by apply Wl.
Qed.

Lemma drop_timers_ok n r c s :
  clock_ok n s → timers_ok s → objs s !! r = Some c → timers_ok (dropped r (body c) s).
Proof.
  intros Ck (T1 & T2 & T3) E. split; [|split]; simpl.
  - intros rt e Ec He.
    assert (∃ rt0, clock s = Some rt0 ∧ (∃ e0, e0 ∈ timers rt0 ∧ key e0 = key e) ∧
                   body c ≠ OTimer (key e)) as (rt0 & Ec0 & (e0 & He0 & Ek0) & Hne).
    { destruct (body c) as [| | | |k] eqn:B; simpl in Ec; try by eauto 10.
      destruct (clock s) as [rt0|] eqn:E0; simpl in Ec; [|done]. injection Ec as <-.
      destruct (Ck rt0 E0) as (W0 & _). apply (list_elem_of_fmap_2 key) in He.
      apply (remove_keys rt0 k _ W0) in He as [He Hnk].
      apply list_elem_of_fmap in He as (e0 & Ek & He0). exists rt0. split; [done|].
      split; [eauto|]. congruence. }
    destruct (T1 rt0 e0 Ec0 He0) as (x & d & Ex & Bx). rewrite Ek0 in Bx. exists x, d.
    rewrite lookup_delete_ne; [done|]. intros <-. simplify_eq.
  - intros x d k Ex Bx. apply lookup_delete_Some in Ex as [Hne Ex].
    destruct (T2 x d k Ex Bx) as (rt & Ec & Hle & Hcur).
    destruct (body c) as [| | | |k'] eqn:B; simpl; try by eauto.
    rewrite Ec. simpl. destruct (Ck rt Ec) as (W0 & _). eexists. split; [done|].
    assert (epoch (snd (remove_timer rt k')) = epoch rt ∧
            next_id (snd (remove_timer rt k')) = next_id rt) as [-> ->].
    { unfold remove_timer. destruct (list_find _ _) as [[]|]; done. }
    split; [done|]. intros Hep. destruct (Hcur Hep) as [? Hin]. split; [done|].
    apply remove_keys; [done|]. split; [done|]. intros ->. apply Hne. by eapply T3.
  - intros r1 r2 c1 c2 k [_ E1]%lookup_delete_Some [_ E2]%lookup_delete_Some. by apply T3.
Qed.

Lemma dropped_ok n w r c :
  0 ≤ n → world_ok n w → objs (st w) !! r = Some c → (r ∉ guards w) →
  world_ok (n + 1) (with_st w (dropped r (body c) (st w))).
Proof.
  intros Hn [[(b & El & Hm & Hb) Hp Ck T] [ND G] C] E Hg.
  assert (size (objs (st w)) = S (size (delete r (objs (st w))))) as Esz.
  { rewrite map_size_delete, E. assert (size (objs (st w)) ≠ 0%nat); [|lia].
    intros Hz%map_size_empty_inv. rewrite Hz in E. by rewrite lookup_empty in E. }
  split; [split|..]; try done.
  - exists true. simpl. unfold count in *. simpl. rewrite Esz in *.
    split; [f_equal; lia|]. split; [lia|done].
  - intros x d Ex. simpl in Ex. apply lookup_delete_Some in Ex as [_ Ex].
    destruct (Hp x d Ex) as (? & ? & ?). split_and!; done || lia.
  - intros rt Ec. simpl in Ec. destruct (body c) as [| | | |k]; simpl in Ec;
      try (destruct (Ck rt Ec) as (? & ? & ?); split_and!; done || lia).
    destruct (clock (st w)) as [rt0|] eqn:E0; [|done]. injection Ec as <-.
    destruct (Ck rt0 E0) as (W0 & ? & ?). split; [by apply remove_timer_wf|].
    unfold remove_timer. destruct (list_find _ _) as [[]|]; simpl; lia.
  - by eapply drop_timers_ok.
  - split; [done|]. intros x. rewrite (G x). simpl. split.
    + intros (d & v & Ex & B). exists d, v. rewrite lookup_delete_ne; [done|].
      intros ->. apply Hg, G. eauto.
    + intros (d & v & [_ Ex]%lookup_delete_Some & B). eauto.
Qed.

Lemma drop_step n w r :
  0 ≤ n < 2 ^ 32 - 2 → world_ok n w → droppable w r = true →
  ∃ s, MockHandle.drop r (st w) = Done ((), s) ∧ world_ok (n + 1) (with_st w s).
Proof.
  intros Hn W D. pose proof W as [[(b & El & Hm & Hb) Hp Ck T] G C]. unfold droppable in D.
  destruct (objs (st w) !! r) as [c|] eqn:E; [|done]. bool_to_prop.
  destruct (Hp r c E) as (_ & Hs & Hbo).
  unfold MockHandle.drop. rewrite E. simpl. rewrite usub_ok by lia. simpl.
  destruct (strong c - 1 =? 0) eqn:Ez; bool_to_prop.
  - assert (r ∉ guards w) as Hg.
    { apply orb_true_iff in H1 as [H1|H1]; [bool_to_prop; lia|]. by apply bool_decide_eq_true in H1. }
    exists (dropped r (body c) (st w)). split; [|by eapply dropped_ok; [lia|..]].
    assert (b = true) as -> by (destruct b; [done|]; rewrite Hb in E by done; by rewrite lookup_empty in E).
    assert (0 < count (st w)) as Hpos.
    { unfold count. destruct (decide (size (objs (st w)) = 0%nat)) as [Hz|]; [|lia].
      apply map_size_empty_inv in Hz. rewrite Hz in E. by rewrite lookup_empty in E. }
    unfold mbind_ at 1. unfold dropped.
    destruct (body c); simpl; rewrite (lease_drop_ok _ (count (st w) - 1));
      (done || (rewrite Z.sub_add; exact El) || lia).
  - eexists. split; [done|]. apply (put_ok n w r c (mkCell (strong c - 1) (body c))); try done.
    + destruct (body c); done.
    + simpl. lia.
Qed.

(** *** Every event preserves the invariant and completes *)

Definition steps {A} (n : Z) (w : world) (m : M sys A) : Prop :=
  ∃ a s, m (st w) = Done (a, s) ∧ world_ok (n + 1) (with_st w s).

Lemma with_st_id w : with_st w (st w) = w.
Proof. by destruct w. Qed.

(** An operation that fails before it changes anything. *)
Lemma steps_same {A} n w (m : M sys A) a : world_ok n w → m (st w) = Done (a, st w) → steps n w m.
Proof.
  intros W E. exists a, (st w). split; [done|]. rewrite with_st_id. by apply world_ok_mono.
Qed.

(** The lease taken and given back. *)
Lemma lease_roundtrip s :
  life s = RuntimeLifecycle.pack RuntimeState.Running (count s) →
  count s + 1 ≤ RuntimeLifecycle.MAX_COUNT →
  lease_drop (set_life (RuntimeLifecycle.pack RuntimeState.Running (count s + 1)) s) = Done ((), s).
Proof.
  intros El Hm. rewrite (lease_drop_ok _ (count s)); [|done|unfold count in *; lia].
  unfold set_life. simpl. rewrite <- El. by destruct s.
Qed.

Lemma has_kind_lookup w r k :
  has_kind w r k = true → ∃ c, objs (st w) !! r = Some c ∧ kind_of (body c) = k.
Proof.
  unfold has_kind. destruct (objs (st w) !! r) as [c|]; [|done].
  intros Hk%bool_decide_eq_true. eauto.
Qed.

Section Step.
Context (n : Z) (w : world) (Hn : 0 ≤ n < 2 ^ 32 - 2) (W : world_ok n w).

Lemma heap_at r c : objs (st w) !! r = Some c → 1 ≤ strong c ≤ n + 1 ∧ body_ok (st w) (body c).
Proof. intros E. by destruct (sys_heap _ _ (ok_sys _ _ W) r c E) as (_ & ? & ?). Qed.

Lemma store_steps r c b' :
  objs (st w) !! r = Some c → same_shape (body c) b' → body_ok (st w) b' →
  store r b' (st w) = Done ((), st (put r (mkCell (strong c) b') w)) ∧
  world_ok (n + 1) (put r (mkCell (strong c) b') w).
Proof.
  intros E Sh Hb. split; [unfold store; by rewrite E|].
  destruct (heap_at r c E) as [? _]. apply (put_ok n w r c); try done. simpl. lia.
Qed.

Lemma queue_new_step alloc cap m f :
  in_uint usize_bits cap → in_uint usize_bits m → (∀ x, f = Some x → is_Some (faults (st w) !! x)) →
  steps n w (o <-? MockQueue.inner_new alloc cap m f ;; r <- rc_new o ;; mret_ (Ok r)).
Proof.
  intros [Hc _] [Hm _] Hf. pose proof W as [[L Hp Ck T] G C].
  unfold MockQueue.inner_new, Validation.validate_queue_capacity, Validation.validate_queue_message_size.
  destruct (cap =? 0) eqn:Ec; [by eapply steps_same|]. destruct (m =? 0) eqn:Em; [by eapply steps_same|].
  destruct (acquire_cases (st w) L) as [[e Ea]|(Ea & El & Hmax)].
  - eapply steps_same; [done|]. unfold mtry, mbind_. simpl. by rewrite Ea.
  - destruct (ByteQueue.new alloc cap m) as [b|e] eqn:Eb.
    + unfold steps, mtry, mbind_, mret_. simpl. rewrite Ea. simpl. eexists _, _. split; [done|].
      apply (rc_ok n (OQueue b f) w); try done; try lia. split; [|done]. by apply (ByteQueue.new_wf alloc cap m).
    + eapply steps_same; [done|]. unfold mtry, mbind_, mret_. simpl. rewrite Ea. simpl.
      by rewrite (lease_roundtrip _ El Hmax).
Qed.

Lemma sem_new_step m i : in_uint 32 m → in_uint 32 i → steps n w (MockSemaphore.new m i).
Proof.
  intros Hm Hi. pose proof W as [[L Hp Ck T] G C]. unfold MockSemaphore.new.
  destruct (CountingSemaphoreState.new m i) as [x|e] eqn:Ex; [|by eapply steps_same].
  destruct (acquire_cases (st w) L) as [[e Ea]|(Ea & El & Hmax)].
  - eapply steps_same; [done|]. unfold mtry, mbind_. simpl. by rewrite Ea.
  - unfold steps, mtry, mbind_, mret_. simpl. rewrite Ea. simpl. eexists _, _. split; [done|].
    apply (rc_ok n (OSemaphore x) w); try done; try lia. simpl.
    by destruct (CountingSemaphoreState.sem_new_ok m i x Hm Hi Ex).
Qed.

Lemma mutex_new_step v : steps n w (MockMutex.new v).
Proof.
  pose proof W as [[L Hp Ck T] G C]. unfold MockMutex.new.
  destruct (acquire_cases (st w) L) as [[e Ea]|(Ea & El & Hmax)].
  - eapply steps_same; [done|]. unfold mtry, mbind_. simpl. by rewrite Ea.
  - unfold steps, mtry, mbind_, mret_. simpl. rewrite Ea. simpl. eexists _, _. split; [done|].
    apply (rc_ok n (OMutex v false) w); try done; lia.
Qed.

Lemma timer_new_step p m cb : Duration.wf p → steps n w (MockTimer.new p m cb).
Proof.
  intros Hp'. pose proof W as [[L Hp Ck T] G C]. unfold MockTimer.new.
  destruct (Duration.eqb p Duration.ZERO) eqn:Hz; [by eapply steps_same|].
  destruct (acquire_cases (st w) L) as [[e Ea]|(Ea & El & Hmax)].
  - eapply steps_same; [done|]. unfold mtry, mbind_. simpl. by rewrite Ea.
  - destruct (timer_new_ok n w p m cb ltac:(lia) W Hmax Hp' Hz) as (rt' & E & W').
    unfold steps, mtry, mbind_, mret_. rewrite Ea. unfold on_clock, with_runtime. simpl. rewrite E.
    simpl. eexists _, _. split; [done|]. exact W'.
Qed.

(** Faults are replaced but never removed. *)
Lemma faults_step fs :
  (∀ x, is_Some (faults (st w) !! x) → is_Some (fs !! x)) → world_ok n (with_st w (set_faults fs (st w))).
Proof.
  intros Hf. pose proof W as [[L Hp Ck T] G C]. split; [split|..]; try done.
  intros r c E. destruct (Hp r c E) as (? & ? & B). split_and!; try done; try lia.
  destruct (body c); simpl in *; try done. destruct B as [? ?]. split; [done|]. eauto.
Qed.

End Step.

Section ObjectSteps.
Context (n : Z) (Hn : 0 ≤ n < 2 ^ 32 - 2).
Implicit Types w : world.

Lemma at_kind w r k :
  world_ok n w → has_kind w r k = true →
  ∃ m o, objs (st w) !! r = Some (mkCell m o) ∧ kind_of o = k ∧ body_ok (st w) o.
Proof.
  intros W ([m o] & E & Hk)%has_kind_lookup. exists m, o. split; [done|]. split; [done|].
  by destruct (heap_at n w W r _ E).
Qed.

Lemma queue_put w r m b f b' :
  world_ok n w → objs (st w) !! r = Some (mkCell m (OQueue b f)) → ByteQueue.wf b' →
  ∃ s, store r (OQueue b' f) (st w) = Done ((), s) ∧ world_ok (n + 1) (with_st w s).
Proof.
  intros W E Wb. destruct (heap_at n w W r _ E) as [_ [_ Hf]].
  destruct (store_steps n w W r _ (OQueue b' f) E) as [Es W']; [done|done|].
  eexists. split; [exact Es|exact W'].
Qed.

Lemma inner_queue w r m b f :
  objs (st w) !! r = Some (mkCell m (OQueue b f)) → MockQueue.inner r (st w) = Done ((b, f), st w).
Proof. intros E. unfold MockQueue.inner, deref, mbind_. by rewrite E. Qed.

Lemma inner_sem w r m x :
  objs (st w) !! r = Some (mkCell m (OSemaphore x)) → MockSemaphore.inner r (st w) = Done (x, st w).
Proof. intros E. unfold MockSemaphore.inner, deref, mbind_. by rewrite E. Qed.

Lemma mrun_done {S A} (m : Run A) (s : S) a : m = Done a → mrun m s = Done (a, s).
Proof. by intros ->. Qed.

Lemma queue_close_step w r : world_ok n w → has_kind w r KQueue = true → steps n w (MockQueue.close r).
Proof.
  intros W (m & o & E & Hk & Hb)%at_kind; [|done]. destruct o as [b f| | | |]; try done.
  destruct Hb as [Wb _].
  destruct (queue_put w r m b f (ByteQueue.close b) W E (ByteQueue.close_wf b Wb))
    as (s & Es & W'). exists (Ok ()), s. split; [|done].
  unfold MockQueue.close. rewrite (mbind_done _ _ _ _ _ (inner_queue _ _ _ _ _ E)).
  by rewrite (mbind_done _ _ _ _ _ Es).
Qed.

Lemma queue_recv_step w r buf t :
  world_ok n w → has_kind w r KQueue = true → steps n w (MockQueue.recv r buf t).
Proof.
  intros W (m & o & E & Hk & Hb)%at_kind; [|done]. destruct o as [b f| | | |]; try done.
  destruct Hb as [Wb _].
  destruct (ByteQueueFacts.try_recv_refines b buf Wb) as (b' & out & Er & Wb' & _).
  unfold steps, MockQueue.recv. rewrite (mbind_done _ _ _ _ _ (inner_queue _ _ _ _ _ E)).
  rewrite (mbind_done _ _ _ _ _ (mrun_done _ _ _ Er)).
  destruct (queue_put w r m b f b' W E Wb') as (s & Es & W').
  rewrite (mbind_done _ _ _ _ _ Es). by eexists _, s.
Qed.

Lemma queue_send_raw w r m b f d t :
  world_ok n w → objs (st w) !! r = Some (mkCell m (OQueue b f)) → ByteQueue.wf b →
  steps n w (i <- MockQueue.inner r ;; x <- mrun (ByteQueue.try_send (fst i) d) ;;
             store r (OQueue (snd x) (snd i)) ;;;
             mret_ (MockWait.apply_timeout t (fst x) Error.QueueFull)).
Proof.
  intros W E Wb. destruct (ByteQueueFacts.try_send_refines b d Wb) as (b' & Er & Wb' & _).
  unfold steps. rewrite (mbind_done _ _ _ _ _ (inner_queue _ _ _ _ _ E)).
  rewrite (mbind_done _ _ _ _ _ (mrun_done _ _ _ Er)).
  destruct (queue_put w r m b f b' W E Wb') as (s & Es & W').
  rewrite (mbind_done _ _ _ _ _ Es). by eexists _, s.
Qed.

Lemma queue_send_step w r d t :
  world_ok n w → has_kind w r KQueue = true → steps n w (MockQueue.send r d t).
Proof.
  intros W (m & o & E & Hk & Hb)%at_kind; [|done]. destruct o as [b f| | | |]; try done.
  destruct Hb as [Wb Hf].
  assert (∃ a w1, MockQueue.take_send_fault r (st w) = Done (a, st w1) ∧ world_ok n w1 ∧
            w1 = with_st w (st w1) ∧ objs (st w1) = objs (st w)) as (a & w1 & Et & W1 & Ew & Eo).
  { unfold MockQueue.take_send_fault. rewrite (mbind_done _ _ _ _ _ (inner_queue _ _ _ _ _ E)).
    destruct f as [x|]; simpl; [|exists None, w; by rewrite with_st_id].
    destruct (Hf x eq_refl) as [fs Ex].
    exists (FaultState.next_queue_send fs),
      (with_st w (set_faults (<[x:=snd (FaultState.take_send fs)]> (faults (st w))) (st w))).
    split; [unfold mbind_, mget, mrun; simpl; by rewrite Ex|]. split; [|done].
    apply faults_step; [done|]. intros y Hy. destruct (decide (x = y)) as [->|];
      [rewrite lookup_insert_eq|rewrite lookup_insert_ne]; eauto. }
  unfold steps, MockQueue.send. rewrite (mbind_done _ _ _ _ _ Et). destruct a as [e|].
  - eexists _, _. split; [done|]. rewrite <- Ew. by apply world_ok_mono.
  - rewrite <- Eo in E. destruct (queue_send_raw w1 r m b f d t W1 E Wb) as (a & s & Es & W').
    exists a, s. split; [exact Es|]. rewrite Ew in W'. exact W'.
Qed.

Lemma sem_put w r m x x' :
  world_ok n w → objs (st w) !! r = Some (mkCell m (OSemaphore x)) → CountingSemaphoreState.wf x' →
  ∃ s, store r (OSemaphore x') (st w) = Done ((), s) ∧ world_ok (n + 1) (with_st w s).
Proof.
  intros W E Wb. destruct (store_steps n w W r _ (OSemaphore x') E) as [Es W']; [done|done|].
  eexists. split; [exact Es|exact W'].
Qed.

Lemma sem_acquire_step w r t :
  world_ok n w → has_kind w r KSem = true → steps n w (MockSemaphore.acquire r t).
Proof.
  intros W (m & o & E & Hk & Hb)%at_kind; [|done]. destruct o as [|x| | |]; try done.
  destruct (CountingSemaphoreState.try_acquire x) as [[ok x']| |] eqn:Ex;
    [|rewrite CountingSemaphoreState.try_acquire_spec in Ex by done; done..].
  pose proof (CountingSemaphoreState.try_acquire_wf x ok x' Hb Ex) as Wx.
  unfold steps, MockSemaphore.acquire. rewrite (mbind_done _ _ _ _ _ (inner_sem _ _ _ _ E)).
  rewrite (mbind_done _ _ _ _ _ (mrun_done _ _ _ Ex)).
  destruct (sem_put w r m x x' W E Wx) as (s & Es & W').
  rewrite (mbind_done _ _ _ _ _ Es). by eexists _, s.
Qed.

Lemma sem_release_step w r :
  world_ok n w → has_kind w r KSem = true → steps n w (MockSemaphore.release r).
Proof.
  intros W (m & o & E & Hk & Hb)%at_kind; [|done]. destruct o as [|x| | |]; try done.
  destruct (CountingSemaphoreState.release x) as [[ok x']| |] eqn:Ex;
    [|rewrite CountingSemaphoreState.release_spec in Ex by done; done..].
  pose proof (CountingSemaphoreState.release_wf x ok x' Hb Ex) as Wx.
  unfold steps, MockSemaphore.release. rewrite (mbind_done _ _ _ _ _ (inner_sem _ _ _ _ E)).
  rewrite (mbind_done _ _ _ _ _ (mrun_done _ _ _ Ex)).
  destruct (sem_put w r m x x' W E Wx) as (s & Es & W').
  rewrite (mbind_done _ _ _ _ _ Es). by eexists _, s.
Qed.

Lemma inner_mutex w r m v l :
  objs (st w) !! r = Some (mkCell m (OMutex v l)) → MockMutex.inner r (st w) = Done ((v, l), st w).
Proof. intros E. unfold MockMutex.inner, deref, mbind_. by rewrite E. Qed.

Lemma guarded_mutex w r :
  world_ok n w → r ∈ guards w → ∃ m v, objs (st w) !! r = Some (mkCell m (OMutex v true)) ∧ 1 ≤ m ≤ n + 1.
Proof.
  intros W Hr. destruct (proj1 (proj2 (ok_guards _ _ W) r) Hr) as ([m o] & v & E & B).
  simpl in B. subst o. exists m, v. split; [done|]. by destruct (heap_at n w W r _ E).
Qed.

Lemma lock_step w r t :
  world_ok n w → has_kind w r KMutex = true →
  ∃ x s, MockMutex.lock r t (st w) = Done (x, s) ∧
    world_ok (n + 1) (mkWorld s (frames w) (if is_ok x then r :: guards w else guards w) (criticals w)).
Proof.
  intros W (m & o & E & Hk & Hb)%at_kind; [|done]. destruct o as [| |v l| |]; try done.
  pose proof (heap_at n w W r _ E) as [Hm _]. simpl in Hm. pose proof (ok_guards _ _ W) as [ND G].
  unfold MockMutex.lock. rewrite (mbind_done _ _ _ _ _ (inner_mutex _ _ _ _ _ E)). simpl.
  destruct l.
  - eexists _, (st w). split; [done|]. apply world_ok_mono in W. by destruct t, w.
  - unfold mbind_, store. rewrite E. simpl. eexists _, _. split; [done|]. simpl.
    apply (relock_ok n w r m v false true (r :: guards w)); [done|done|lia|..].
    + apply NoDup_cons. split; [|done]. rewrite G. intros (c & v' & E' & B). simplify_eq.
    + intros x. rewrite elem_of_cons. destruct (decide (x = r)); naive_solver.
Qed.

Lemma guard_write_step w r v : world_ok n w → r ∈ guards w → steps n w (MockMutex.guard_write r v).
Proof.
  intros W (m & v0 & E & Hm)%guarded_mutex; [|done].
  destruct (store_steps n w W r _ (OMutex v true) E) as [Es W']; [done|done|].
  unfold steps, MockMutex.guard_write. rewrite (mbind_done _ _ _ _ _ (inner_mutex _ _ _ _ _ E)).
  eexists _, _. split; [exact Es|exact W'].
Qed.

Lemma guard_drop_step w r :
  world_ok n w → r ∈ guards w →
  ∃ s, MockMutex.guard_drop r (st w) = Done ((), s) ∧
    world_ok (n + 1) (mkWorld s (frames w) (list_difference (guards w) [r]) (criticals w)).
Proof.
  intros W Hr. destruct (guarded_mutex w r W Hr) as (m & v & E & Hm).
  pose proof (ok_guards _ _ W) as [ND G].
  unfold MockMutex.guard_drop. rewrite (mbind_done _ _ _ _ _ (inner_mutex _ _ _ _ _ E)).
  unfold mbind_, mrun, store. simpl. rewrite E. simpl. eexists. split; [done|].
  apply (relock_ok n w r m v true false); [done|done|lia|by apply NoDup_list_difference|].
  intros x. rewrite list_elem_of_difference, list_elem_of_singleton. naive_solver.
Qed.

(** Tasks: the counters of the context. *)
Lemma wrapping_incr k : wrapping_add usize_bits (Z.of_nat k mod 2 ^ usize_bits) 1
  = Z.of_nat (S k) mod 2 ^ usize_bits.
Proof.
  unfold wrapping_add. rewrite Zplus_mod_idemp_l. f_equal. lia.
Qed.
Lemma wrapping_decr k : wrapping_sub usize_bits (Z.of_nat (S k) mod 2 ^ usize_bits) 1
  = Z.of_nat k mod 2 ^ usize_bits.
Proof.
  unfold wrapping_sub. rewrite Zminus_mod_idemp_l. f_equal. lia.
Qed.

Lemma set_task_sys h l c s : sys_ok n s → sys_ok n (set_task h l c s).
Proof. intros []. by split. Qed.

Lemma spawn_enter_step w b :
  world_ok n w →
  ∃ x s, MockTask.spawn_enter b (st w) = Done (x, s) ∧
    world_ok (n + 1)
      (mkWorld s (match x with
                  | Ok (r, prev) => FSpawn r (current s) prev :: frames w
                  | Err _ => frames w
                  end) (guards w) (criticals w)).
Proof.
  intros W. pose proof W as [[L Hp Ck T] G (Cl & Cc & Cs & Cd & Ch)].
  assert (∀ x (e : Error.t), x = Done (Err e, st w) → ∃ x' s, x = Done (x', s) ∧ world_ok (n + 1)
      (mkWorld s (match x' with
                  | Ok (r, prev) => FSpawn r (current s) prev :: frames w
                  | Err _ => frames w
                  end) (guards w) (criticals w))) as Herr.
  { intros x e ->. exists (Err e), (st w). split; [done|]. apply world_ok_mono in W. by destruct w. }
  unfold MockTask.spawn_enter.
  destruct (Validation.validate_task_config (MockTask.name b) (MockTask.stack_size b)) as [[]|e];
    [|by eapply Herr]. rewrite (mtry_ok _ _ (st w) () (st w)) by done.
  destruct (acquire_cases (st w) L) as [[e Ea]|(Ea & El & Hmax)].
  { eapply Herr. by rewrite (mtry_err _ _ _ _ _ Ea). }
  rewrite (mtry_ok _ _ _ _ _ Ea). unfold mbind_ at 1, MockTask.allocate_task_handle. simpl.
  destruct (checked_add usize_bits (next_handle (st w)) 1) as [nh|] eqn:Enh; simpl.
  2:{ eapply Herr. unfold mbind_. by rewrite (lease_roundtrip _ El Hmax). }
  unfold TaskHandle.from_raw. rewrite (proj2 (Z.eqb_neq _ 0)) by lia. simpl.
  eexists _, _. split; [done|]. simpl.
  set (o := OTask _ _ _). pose proof (rc_ok n o w ltac:(lia) W Hmax I ltac:(done) ltac:(done)) as
    [[L1 Hp1 Ck1 T1] G1 _].
  assert (nh = next_handle (st w) + 1) as ->.
  { unfold checked_add in Enh. case_if; by simplify_eq. }
  split; [by split|done|]. repeat split; simpl; try done; [|lia].
  rewrite Cl. apply wrapping_incr.
Qed.

Lemma spawn_exit_step w r h prev fs :
  world_ok n w → frames w = FSpawn r h prev :: fs →
  ∃ s, MockTask.spawn_exit prev (st w) = Done ((), s) ∧
    world_ok (n + 1) (mkWorld s fs (guards w) (criticals w)).
Proof.
  intros W Ef. pose proof (world_ok_mono _ _ W) as [S' G _].
  pose proof (ok_ctx _ _ W) as (Cl & Cc & Cs & Cd & Ch).
  rewrite Ef in Cl, Cc, Cs. simpl in Cl, Cc, Cs. destruct Cs as [-> Cs].
  eexists. split; [done|]. split; [by destruct S'; split|done|].
  repeat split; simpl; try done. rewrite Cl. apply wrapping_decr.
Qed.

Lemma critical_step w (k : nat) (d : Z) :
  world_ok n w → d = Z.of_nat k mod 2 ^ usize_bits →
  world_ok (n + 1) (mkWorld (set_critical d (st w)) (frames w) (guards w) k).
Proof.
  intros W ->. pose proof (world_ok_mono _ _ W) as [S' G (Cl & Cc & Cs & Cd & Ch)].
  split; [by destruct S'; split|done|done].
Qed.

(** The clock. *)
Lemma clock_pure_step w f :
  world_ok n w →
  (∀ rt, MockTime.wf rt → MockTime.wf (f rt) ∧ same_registry rt (f rt)) →
  ∃ s, on_clock (with_runtime (pure_op f)) (st w) = Done ((), s) ∧ world_ok (n + 1) (with_st w s).
Proof.
  intros W Hf. eexists. split; [done|].
  destruct (clock_or_new n (st w) ltac:(lia) (sys_clock _ _ (ok_sys _ _ W))) as (Wr & _).
  destruct (Hf _ Wr) as [Wf Rf]. apply (tick_ok n w); [lia|done..].
Qed.

Lemma timer_op_step w r f {A} (a : A) :
  world_ok n w → has_kind w r KTimer = true →
  (∀ k rt, MockTime.wf rt → MockTime.wf (f k rt) ∧ same_registry rt (f k rt)) →
  steps n w (k <- MockTimer.inner r ;; on_clock (with_runtime (pure_op (f k))) ;;; mret_ a).
Proof.
  intros W (m & o & E & Hk & Hb)%at_kind Hf; [|done]. destruct o as [| | | |k]; try done.
  destruct (clock_pure_step w (f k) W (Hf k)) as (s & Es & W'). unfold steps.
  rewrite (mbind_done _ _ _ k (st w)); [|unfold MockTimer.inner, deref, mbind_; by rewrite E].
  rewrite (mbind_done _ _ _ _ _ Es). by eexists _, s.
Qed.

Lemma push_loop w s :
  world_ok (n + 1) (with_st w s) → world_ok (n + 1) (mkWorld s (FLoop :: frames w) (guards w) (criticals w)).
Proof. intros [S' G C]. by split. Qed.

Lemma loop_take_step w fs :
  world_ok n w → frames w = FLoop :: fs →
  ∃ x s, MockTimer.take (st w) = Done (x, s) ∧
    world_ok (n + 1) (mkWorld s (match x with Some (k, cb) => FCallback k cb :: frames w | None => fs end)
                              (guards w) (criticals w)).
Proof.
  intros W Ef. unfold MockTimer.take, on_clock, global_take_next_expired.
  assert (Hpop : ∀ w', world_ok (n + 1) w' → frames w' = frames w → ∀ x,
    world_ok (n + 1) (mkWorld (st w') (match x with Some (k, cb) => FCallback k cb :: frames w
       | None => fs end) (guards w') (criticals w'))).
  { intros w' [S' G (Cl & Cc & Cs & Cd & Ch)] Ef' x. rewrite Ef', Ef in Cl, Cc, Cs. simpl in *.
    split; [done|done|]. destruct x as [[k cb]|]; rewrite ?Ef; by repeat split. }
  destruct (clock (st w)) as [rt|] eqn:Ec.
  - destruct (sys_clock _ _ (ok_sys _ _ W) rt Ec) as (Wr & _).
    destruct (take_next_expired_spec rt Wr) as (x & rt' & E & _).
    destruct (take_registry rt x rt' Wr E) as [W' Rg]. rewrite E. simpl. eexists x, _. split; [done|].
    refine (Hpop (tick (Some rt') w) _ eq_refl x).
    apply tick_ok; [lia|done|done|by rewrite Ec].
  - simpl. eexists None, _. split; [done|]. refine (Hpop (tick None w) _ eq_refl None).
    apply world_ok_mono in W. destruct w as [[] ? ? ?]. simpl in *. by subst.
Qed.

Lemma callback_return_step w k cb fs :
  world_ok n w → frames w = FCallback k cb :: fs →
  ∃ s, MockTimer.restore k cb (st w) = Done ((), s) ∧
    world_ok (n + 1) (mkWorld s fs (guards w) (criticals w)).
Proof.
  intros W Ef. eexists. split; [done|].
  assert (world_ok (n + 1) (tick (global_restore_callback (clock (st w)) k cb) w))
    as [S' G (Cl & Cc & Cs & Cd & Ch)].
  { destruct (clock (st w)) as [rt|] eqn:Ec; simpl.
    - destruct (sys_clock _ _ (ok_sys _ _ W) rt Ec) as (Wr & _).
      apply tick_ok; [lia|done|by apply restore_callback_wf|]. rewrite Ec. simpl.
      apply update_registry. intros e. by case_decide.
    - apply world_ok_mono in W. destruct w as [[] ? ? ?]. simpl in *. by subst. }
  simpl in *. rewrite Ef in Cl, Cc, Cs. by split.
Qed.

Lemma queue_new_faults_step w alloc cap m f :
  world_ok n w → in_uint usize_bits cap → in_uint usize_bits m → is_Some (faults (st w) !! f) →
  steps n w (MockQueue.new_with_faults alloc cap m f).
Proof.
  intros W Hc Hm [fs Ef].
  assert (mrun (expect (faults (st w) !! f) "dangling reference") (st w) = Done (fs, st w)) as Er
    by (unfold mrun; by rewrite Ef).
  unfold steps, MockQueue.new_with_faults.
  rewrite (mbind_done _ _ _ _ _ eq_refl), (mbind_done _ _ _ _ _ Er).
  unfold FaultState.take_create. cbv beta iota.
  set (fs' := FaultState.mk _ _). rewrite (mbind_done _ _ _ _ _ eq_refl).
  assert (world_ok n (with_st w (set_faults (<[f:=fs']> (faults (st w))) (st w)))) as W1.
  { apply faults_step; [done|]. intros x Hx. destruct (decide (f = x)) as [->|];
      [rewrite lookup_insert_eq|rewrite lookup_insert_ne]; eauto. }
  destruct (FaultState.next_queue_create fs) as [e|].
  - eexists _, _. split; [done|]. by apply world_ok_mono.
  - destruct (queue_new_step n _ Hn W1 alloc cap m (Some f) Hc Hm) as (a & s & E & W').
    { intros x [= <-]. simpl. rewrite lookup_insert_eq. eauto. }
    exists a, s. split; [exact E|exact W'].
Qed.

Lemma act_ok {A} w (m : M sys A) r :
  steps n w m → act w m = Some r → ∃ w', r = Done w' ∧ world_ok (n + 1) w'.
Proof.
  intros (a & s & E & W') X. unfold act in X. rewrite E in X. simpl in X. simplify_eq. eauto.
Qed.

Lemma guard_act_ok {A} w (b : bool) (m : M sys A) r :
  (b = true → steps n w m) → when b (act w m) = Some r → ∃ w', r = Done w' ∧ world_ok (n + 1) w'.
Proof. intros Hs X. destruct b; [|done]. by eapply act_ok; [apply Hs|]. Qed.

Lemma faults_act_ok w f r :
  world_ok n w → (∀ x, is_Some (faults (st w) !! x) → is_Some (f (faults (st w)) !! x)) →
  act w (mmodify (λ s, set_faults (f (faults s)) s)) = Some r →
  ∃ w', r = Done w' ∧ world_ok (n + 1) w'.
Proof.
  intros W Hf. apply act_ok. eexists _, _. split; [done|]. apply world_ok_mono. by apply faults_step.
Qed.

Lemma exec_world_ok w e r :
  world_ok n w → exec w e = Some r → ∃ w', r = Done w' ∧ world_ok (n + 1) w'.
Proof.
  intros W X. pose proof (sys_life _ _ (ok_sys _ _ W)) as L.
  destruct e; simpl in X; try (eapply guard_act_ok; [|exact X]; intros Hb; bool_to_prop).
  - eapply act_ok; [|exact X]. destruct (initialize_cases (st w) L) as [[e E]|[E Ho]].
    + by eapply steps_same.
    + eexists _, _. split; [exact E|]. apply (restart_ok n w true); [lia|done|done].
  - eapply act_ok; [|exact X]. destruct (shutdown_cases (st w) L) as [(e & E & _)|[E Ho]].
    + by eapply steps_same.
    + eexists _, _. split; [exact E|]. apply (restart_ok n w false); [lia|done|done].
  - eapply (faults_act_ok w (λ fs, <[fresh (dom fs):=FaultState.default]> fs)); [done| |exact X].
    intros x Hx. destruct (decide (fresh (dom (faults (st w))) = x)) as [->|];
      [rewrite lookup_insert_eq|rewrite lookup_insert_ne]; eauto.
  - eapply (faults_act_ok w (alter FaultState.clear f)); [done| |exact X].
    intros x. by rewrite lookup_alter_is_Some.
  - eapply (faults_act_ok w (alter (λ x, FaultState.fail_next_queue_create x e) f)); [done| |exact X].
    intros x. by rewrite lookup_alter_is_Some.
  - eapply (faults_act_ok w (alter (λ x, FaultState.fail_next_queue_send x e) f)); [done| |exact X].
    intros x. by rewrite lookup_alter_is_Some.
  - destruct f as [f|].
    + eapply guard_act_ok; [|exact X]. intros Hb. bool_to_prop.
      apply bool_decide_eq_true in H0, H1, H2. by apply queue_new_faults_step.
    + eapply guard_act_ok; [|exact X]. intros Hb. bool_to_prop. apply bool_decide_eq_true in H0, H1.
      by apply (queue_new_step n w Hn W (λ _, alloc) capacity msg_size None).
  - by apply queue_send_step.
  - by apply queue_recv_step.
  - by apply queue_close_step.
  - apply bool_decide_eq_true in H0, H1. by apply sem_new_step.
  - by apply sem_acquire_step.
  - by apply sem_release_step.
  - eapply act_ok; [|exact X]. by apply mutex_new_step.
  - destruct (has_kind w r0 KMutex) eqn:Hk; [|done]. simpl in X.
    destruct (lock_step w r0 timeout W Hk) as (x & s & E & W'). rewrite E in X. simpl in X.
    simplify_eq. eauto.
  - apply bool_decide_eq_true in Hb. by apply guard_write_step.
  - case_bool_decide as Hb; [|done]. simpl in X.
    destruct (guard_drop_step w r0 W Hb) as (s & E & W'). rewrite E in X. simpl in X. simplify_eq. eauto.
  - destruct (spawn_enter_step w b W) as (x & s & E & W'). rewrite E in X. simpl in X. simplify_eq. eauto.
  - destruct (frames w) as [|[r0 h prev| |] fs] eqn:Ef; try done.
    destruct (spawn_exit_step w r0 h prev fs W Ef) as (s & E & W').
    injection E as <-. injection X as <-. eauto.
  - apply bool_decide_eq_true in Hb. by apply timer_new_step.
  - apply (timer_op_step w r0 (λ k rt, start_timer rt k)); [done..|]. intros k rt Wr.
    split; [by apply start_timer_wf|by apply update_registry].
  - apply (timer_op_step w r0 (λ k rt, stop_timer rt k)); [done..|]. intros k rt Wr.
    split; [by apply stop_timer_wf|by apply update_registry].
  - apply (timer_op_step w r0 (λ k rt, reset_timer rt k)); [done..|]. intros k rt Wr.
    split; [by apply reset_timer_wf|by apply update_registry].
  - apply bool_decide_eq_true in H1. unfold MockTimer.change_period.
    destruct (Duration.eqb p Duration.ZERO); [by eapply steps_same|].
    apply (timer_op_step w r0 (λ k rt, MockTime.change_period rt k p)); [done..|]. intros k rt Wr.
    split; [by apply change_period_wf|by apply update_registry].
  - case_bool_decide as Hb; [|done]. simpl in X. simplify_eq.
    destruct (clock_pure_step w (λ rt, advance_time rt d) W) as (s & E & W').
    { intros rt Wr. split; [by apply advance_time_wf|done]. }
    injection E as <-. eexists. split; [done|]. by apply push_loop.
  - destruct (frames w) as [|[| |] fs] eqn:Ef; try done.
    destruct (loop_take_step w fs W Ef) as (x & s & E & W'). rewrite E in X. simpl in X.
    rewrite Ef in W'. simplify_eq. eauto.
  - destruct (frames w) as [|[| |k cb] fs] eqn:Ef; try done.
    destruct (callback_return_step w k cb fs W Ef) as (s & E & W').
    injection E as <-. injection X as <-. eauto.
  - eapply act_ok; [|exact X]. eexists _, _. split; [done|]. apply (reset_ok n w); [lia|done].
  - apply bool_decide_eq_true in Hb as [c Ec]. unfold steps, MockHandle.clone. rewrite Ec. simpl.
    destruct (heap_at n w W r0 c Ec) as [Hs Hbo]. pose proof usize_range.
    rewrite uadd_ok by lia. simpl. eexists _, _. split; [done|].
    apply (put_ok n w r0 c (mkCell (strong c + 1) (body c))); try done; [by destruct (body c)|simpl; lia].
  - destruct (drop_step n w r0 Hn W Hb) as (s & E & W'). by exists (), s.
  - simplify_eq. eexists. split; [done|]. apply critical_step; [done|].
    destruct (ok_ctx _ _ W) as (_ & _ & _ & -> & _). apply wrapping_incr.
  - destruct (criticals w) as [|k] eqn:Ek; [done|]. simplify_eq. eexists. split; [done|].
    apply critical_step; [done|].
    destruct (ok_ctx _ _ W) as (_ & _ & _ & -> & _). rewrite Ek. apply wrapping_decr.
Qed.

End ObjectSteps.

Lemma mock_reachable_ok n w : reachable n w → Z.of_nat n < 2 ^ 32 - 1 → world_ok (Z.of_nat n) w.
Proof.
  induction 1 as [|n w e w' R IH X]; intros Hn; [apply start_world_ok|].
  destruct (exec_world_ok (Z.of_nat n) ltac:(lia) w e _ (IH ltac:(lia)) X) as (w2 & E & W).
  simplify_eq. by rewrite Nat2Z.inj_succ.
Qed.

(** A schedule of events. *)
Fixpoint schedule (w : world) (es : list event) : option world :=
  match es with
  | [] => Some w
  | e :: es => match exec w e with Some (Done w') => schedule w' es | _ => None end
  end.

Lemma mock_schedule_reachable es : ∀ n w w',
  reachable n w → schedule w es = Some w' → reachable (n + length es) w'.
Proof.
  induction es as [|e es IH]; intros n w w' R X; simpl in X |- *.
  - simplify_eq. by rewrite Nat.add_0_r.
  - destruct (exec w e) as [[w1| |]|] eqn:E; try done.
    replace (n + S (length es))%nat with (S n + length es)%nat by lia.
    eapply IH; [|done]. by eapply mock_step.
Qed.

(** *** Properties *)

(** C37: Whatever a client does with the mock backend (below [2^32 - 2] calls:
    from the main program, inside task entries or inside timer callbacks, on
    any clones of any handles), no call panics, and the active-object count of
    the lifecycle is exactly the number of live objects, which can exist only
    while the runtime is [Running]. *)
Theorem mock_backend_safe n w :
  reachable n w → Z.of_nat n < 2 ^ 32 - 2 →
  (∀ e r, exec w e = Some r → ∃ w', r = Done w') ∧
  MockRuntime.active_objects (st w) = Done (Z.of_nat (size (objs (st w))), st w) ∧
  (objs (st w) ≠ ∅ → MockRuntime.state (st w) = Done (RuntimeState.Running, st w)).
Proof.
  intros R Hn. pose proof (mock_reachable_ok n w R ltac:(lia)) as W. split; [|split].
  - intros e r X. destruct (exec_world_ok (Z.of_nat n) ltac:(lia) w e r W X) as (w' & ? & _). eauto.
  - destruct (sys_life _ _ (ok_sys _ _ W)) as (b & El & _ & _).
    unfold MockRuntime.active_objects, RuntimeLifecycle.active_objects. rewrite El at 1.
    by rewrite RuntimeLifecycle.decode_count_pack.
  - intros Ho. destruct (sys_life _ _ (ok_sys _ _ W)) as (b & El & _ & Hb).
    unfold MockRuntime.state, RuntimeLifecycle.state. rewrite El at 1.
    rewrite RuntimeLifecycle.decode_state_pack by (unfold count; lia). destruct b; [done|].
    by destruct Ho, Hb.
Qed.

(** [shutdown] of the mock backend succeeds exactly when the runtime is
    running and every handle is gone; while objects are alive it answers
    [Busy], and whenever it fails it changes nothing. *)
Theorem mock_shutdown_iff_idle n w :
  reachable n w → Z.of_nat n < 2 ^ 32 - 2 →
  ∃ x s', MockRuntime.shutdown (st w) = Done (x, s') ∧
    (x = Ok () ↔ objs (st w) = ∅ ∧ MockRuntime.state (st w) = Done (RuntimeState.Running, st w)) ∧
    (x = Err Error.Busy ↔ objs (st w) ≠ ∅) ∧ (∀ e, x = Err e → s' = st w).
Proof.
  intros R Hn. pose proof (mock_reachable_ok n w R ltac:(lia)) as W.
  destruct (sys_life _ _ (ok_sys _ _ W)) as (b & El & Hm & Hb).
  assert (0 ≤ count (st w)) as Hc by (unfold count; lia).
  assert (count (st w) = 0 ↔ objs (st w) = ∅) as Hz
    by (rewrite <- map_size_empty_iff; unfold count; lia).
  unfold MockRuntime.state, RuntimeLifecycle.state. rewrite El, RuntimeLifecycle.decode_state_pack by done.
  destruct (shutdown_cases (st w)) as [(e & E & He)|[E Ho]]; [by exists b| |].
  - exists (Err e), (st w). split; [done|].
    unfold MockRuntime.shutdown, on_life, mtry, mbind_ in E. rewrite El in E.
    rewrite (RuntimeLifecycle.run_loop_spec _ _ _ _
      (RuntimeLifecycle.begin_shutdown_body_spec _ _ Hc)) in E. destruct b; simpl in *.
    + destruct (count (st w) =? 0) eqn:Ez; bool_to_prop.
      * simpl in E. unfold commit_shutdown in E. by rewrite RuntimeLifecycle.guarded_exchange_spec in E.
      * simpl in E. injection E as <- _. rewrite <- Hz. split; [split; [done|by intros [? _]]|]. split; [by split|done].
    + injection E as <- _. specialize (Hb eq_refl). split; [split; [done|by intros [_ ?]]|].
      split; [split; [done|by intros []]|done].
  - eexists (Ok ()), _. split; [done|]. split; [|split; [split; [done|by intros []]|done]]. split; [|done]. intros _.
    split; [done|]. destruct b; [done|].
    unfold MockRuntime.shutdown, on_life, mtry, mbind_ in E. rewrite El in E.
    by rewrite (RuntimeLifecycle.run_loop_spec _ _ _ _
      (RuntimeLifecycle.begin_shutdown_body_spec _ _ Hc)) in E.
Qed.

(** The timer registry of the mock clock holds exactly the timers of the
    current epoch that still have a handle, once each: dropping the last
    handle deregisters, and a clock reset detaches the older ones. *)
Theorem mock_registry_agrees n w rt :
  reachable n w → Z.of_nat n < 2 ^ 32 - 2 → clock (st w) = Some rt →
  NoDup (key <$> timers rt) ∧
  ∀ k, k ∈ key <$> timers rt ↔
       epoch_of k = epoch rt ∧ ∃ r c, objs (st w) !! r = Some c ∧ body c = OTimer k.
Proof.
  intros R Hn Ec. pose proof (mock_reachable_ok n w R ltac:(lia)) as W.
  destruct (sys_clock _ _ (ok_sys _ _ W) rt Ec) as (Wr & _).
  destruct (sys_timers _ _ (ok_sys _ _ W)) as (T1 & T2 & _). split; [apply Wr|]. intros k. split.
  - intros (e & -> & He)%list_elem_of_fmap. split; [|by eapply T1].
    pose proof (wf_ids _ Wr) as F. rewrite Forall_forall in F. by destruct (F e He).
  - intros [Hep (r & c & E & B)]. destruct (T2 r c k E B) as (rt' & Ec' & _ & Hcur).
    simplify_eq. by destruct (Hcur Hep).
Qed.

(** Guards and contexts are scoped: a mutex is locked exactly while one
    guard on it exists (so at most one does), and the current task, the live
    task count and the critical-section depth are those of the entries and
    guards that are open. *)
Theorem mock_scopes n w :
  reachable n w → Z.of_nat n < 2 ^ 32 - 2 →
  NoDup (guards w) ∧
  (∀ r c v l, objs (st w) !! r = Some c → body c = OMutex v l → l = true ↔ r ∈ guards w) ∧
  current (st w) = context (frames w) ∧
  live_count (st w) = Z.of_nat (countb is_spawn (frames w)) mod 2 ^ usize_bits ∧
  critical_depth (st w) = Z.of_nat (criticals w) mod 2 ^ usize_bits.
Proof.
  intros R Hn. destruct (mock_reachable_ok n w R ltac:(lia)) as [_ [ND G] (Cl & Cc & _ & Cd & _)].
  split_and!; try done. intros r c v l E B. rewrite G. split.
  - intros ->. eauto.
  - intros (c' & v' & E' & B'). simplify_eq. by rewrite B in B'; simplify_eq.
Qed.

End MockWorld.

(** *** Witnesses: two handles on a queue, a started timer, a clock advanced
    inside a task entry, a held mutex. *)

Definition sample_events : list event :=
  [Initialize; QueueNew true 2 1 None; CloneHandle 1; QueueSend 1 [Byte.x07] Timeout.NoWait;
   TimerNew (Duration.mk 1 0) TimerMode.Periodic 9; TimerStart 2; MutexNew 5;
   MutexLock 3 Timeout.NoWait; SpawnEnter MockTask.builder_new; Delay (Duration.mk 3 0); LoopTake;
   TimerNew (Duration.mk 2 0) TimerMode.OneShot 8; DropHandle 1].

Definition sample_world : world := Eval vm_compute in
  default start_world (schedule (H:=arch64) start_world sample_events).

Lemma sample_reachable : reachable (H:=arch64) 13 sample_world.
Proof.
  apply (mock_schedule_reachable (H:=arch64) sample_events 0 start_world); [apply mock_init|].
  vm_compute. reflexivity.
Qed.

Lemma mock_backend_safe_witness :
  MockRuntime.active_objects (st sample_world) = Done (5, st sample_world).
Proof.
  destruct (mock_backend_safe (H:=arch64) 13 sample_world) as (_ & E & _).
  - exact sample_reachable.
  - lia.
  - exact E.
Defined.

Lemma mock_shutdown_iff_idle_witness :
  ∃ s', MockRuntime.shutdown (H:=arch64) (st sample_world) = Done (Err Error.Busy, s').
Proof.
  destruct (mock_shutdown_iff_idle (H:=arch64) 13 sample_world) as (x & s' & E & _ & Hb & _).
  - exact sample_reachable.
  - lia.
  - exists s'. rewrite E. do 2 f_equal. apply Hb. vm_compute. congruence.
Defined.

Lemma mock_registry_agrees_witness :
  ∃ rt, clock (st sample_world) = Some rt ∧ NoDup (key <$> timers rt).
Proof.
  eexists. destruct (mock_registry_agrees (H:=arch64) 13 sample_world
    (default MockTime.new (clock (st sample_world)))) as [ND _].
  - exact sample_reachable.
  - lia.
  - reflexivity.
  - split; [reflexivity|exact ND].
Defined.

Lemma mock_scopes_witness : NoDup (guards sample_world) ∧ guards sample_world = [3].
Proof.
  destruct (mock_scopes (H:=arch64) 13 sample_world) as (ND & _).
  - exact sample_reachable.
  - lia.
  - split; [exact ND|reflexivity].
Defined.

End MockWorld.
