(* ===== verification/Kernel.v ===== *)
(** * The FreeRTOS kernel as the backend sees it

    [Sys] models the safe wrappers of [crates/osal-backend-freertos-sys]
    (status codes, capabilities).  The kernel itself is C code outside the
    repository: it is the class [Kernel] over an abstract state, with the
    documented behaviour the backend relies on as the class [KernelLaws].
    A call may find that other tasks ran in the meantime, so every call
    returns a new kernel state. *)

From S2P Require Import Prelude Api Time.

(** ** [osal-backend-freertos-sys]: status codes and capabilities *)

Module Sys.

Inductive TakeStatus : Type := Acquired | TakeTimeout | TakeInvalid.
#[global] Instance TakeStatus_eq_dec : EqDecision TakeStatus.
Proof. solve_decision. Defined.
Definition TAKE_ACQUIRED : Z := 0.
Definition TAKE_TIMEOUT : Z := 1.
Definition take_from_raw (raw : Z) : TakeStatus :=
  if raw =? TAKE_ACQUIRED then Acquired
  else if raw =? TAKE_TIMEOUT then TakeTimeout else TakeInvalid.

Inductive GiveStatus : Type := GiveOk | GiveFull | GiveInvalid.
#[global] Instance GiveStatus_eq_dec : EqDecision GiveStatus.
Proof. solve_decision. Defined.
Definition GIVE_OK : Z := 0.
Definition GIVE_FULL : Z := 1.
Definition give_from_raw (raw : Z) : GiveStatus :=
  if raw =? GIVE_OK then GiveOk else if raw =? GIVE_FULL then GiveFull else GiveInvalid.

Inductive DelayStatus : Type := DelayOk | InvalidTicks | SchedulerNotRunning | DelayUnknown (raw : Z).
#[global] Instance DelayStatus_eq_dec : EqDecision DelayStatus.
Proof. solve_decision. Defined.
Definition DELAY_OK : Z := 0.
Definition DELAY_INVALID_TICKS : Z := 1.
Definition DELAY_SCHEDULER_STOPPED : Z := 2.
Definition delay_from_raw (raw : Z) : DelayStatus :=
  if raw =? DELAY_OK then DelayOk
  else if raw =? DELAY_INVALID_TICKS then InvalidTicks
  else if raw =? DELAY_SCHEDULER_STOPPED then SchedulerNotRunning
  else DelayUnknown raw.

Inductive SchedulerState : Type := NotStarted | Running | Suspended | UnknownState (raw : Z).
#[global] Instance SchedulerState_eq_dec : EqDecision SchedulerState.
Proof. solve_decision. Defined.
Definition SCHEDULER_NOT_STARTED : Z := 0.
Definition SCHEDULER_RUNNING : Z := 1.
Definition SCHEDULER_SUSPENDED : Z := 2.
Definition scheduler_from_raw (raw : Z) : SchedulerState :=
  if raw =? SCHEDULER_NOT_STARTED then NotStarted
  else if raw =? SCHEDULER_RUNNING then Running
  else if raw =? SCHEDULER_SUSPENDED then Suspended
  else UnknownState raw.

(** The C struct ([u8] flags) and the Rust view of it. *)
Record KernelCapabilities : Type := mkKernelCapabilities {
  raw_tick_rate_hz : Z;
  raw_max_priorities : Z;
  raw_max_task_name_len : Z;
  raw_tick_bits : Z;
  raw_stack_word_size : Z;
  raw_dynamic_allocation : Z;
  raw_software_timers : Z;
  raw_minimal_stack_depth_words : Z;
  raw_max_stack_depth_words : Z;
  raw_tls_pointer_slots : Z;
  raw_task_tls_index : Z;
}.

Record Capabilities : Type := mkCapabilities {
  tick_rate_hz : Z;
  max_priorities : Z;
  max_task_name_len : Z;
  tick_bits : Z;
  stack_word_size : Z;
  dynamic_allocation : bool;
  software_timers : bool;
  minimal_stack_depth_words : Z;
  max_stack_depth_words : Z;
  tls_pointer_slots : Z;
  task_tls_index : Z;
}.

Definition capabilities (raw : KernelCapabilities) : Capabilities :=
  mkCapabilities (raw_tick_rate_hz raw) (raw_max_priorities raw) (raw_max_task_name_len raw)
    (raw_tick_bits raw) (raw_stack_word_size raw) (negb (raw_dynamic_allocation raw =? 0))
    (negb (raw_software_timers raw =? 0)) (raw_minimal_stack_depth_words raw)
    (raw_max_stack_depth_words raw) (raw_tls_pointer_slots raw) (raw_task_tls_index raw).

Definition tick_config (c : Capabilities) : TickTime.TickConfig :=
  TickTime.mkConfig (tick_rate_hz c) (tick_bits c).

End Sys.

(** ** The kernel calls *)

Class Kernel (K : Type) := {
  osal_freertos_probe_capabilities : Sys.KernelCapabilities;
  osal_freertos_max_finite_delay_ticks : Z;
  osal_freertos_scheduler_state : K → Z * K;
  osal_freertos_tick_snapshot : K → TickTime.TickSnapshot * K;
  osal_freertos_delay_ticks : Z → K → Z * K;
}.

Section Wrappers.
Context {K : Type} `{Kernel K}.

(** The safe wrappers. *)
Definition scheduler_state : M K Sys.SchedulerState := λ k,
  let '(raw, k') := osal_freertos_scheduler_state k in Done (Sys.scheduler_from_raw raw, k').
Definition tick_snapshot : M K TickTime.TickSnapshot := λ k,
  let '(s, k') := osal_freertos_tick_snapshot k in Done (s, k').
Definition delay_ticks (ticks : Z) : M K Sys.DelayStatus := λ k,
  let '(raw, k') := osal_freertos_delay_ticks ticks k in Done (Sys.delay_from_raw raw, k').
Definition max_finite_delay_ticks : Z := osal_freertos_max_finite_delay_ticks.
Definition kernel_capabilities : Sys.Capabilities :=
  Sys.capabilities osal_freertos_probe_capabilities.

End Wrappers.

(** What the backend relies on.  [time] is physical time in units of which one
    tick period has [period]; the tick count is the number of whole periods.
    [running] says that the scheduler runs, which a task sees whenever it
    executes with the scheduler not suspended.  [in_life] says that the tick
    counter with its 64-bit overflow count has not run out. *)
Class KernelLaws (K : Type) `{Kernel K} := {
  time : K → Z;
  period : Z;
  running : K → Prop;
  in_life : K → Prop;
  law_period : 0 < period;
  law_config : TickTime.config_ok (Sys.tick_config kernel_capabilities);
  (** [portMAX_DELAY - 1] for the tick type *)
  law_max_finite : max_finite_delay_ticks = 2 ^ Sys.tick_bits kernel_capabilities - 2;
  law_scheduler : ∀ k, running k →
    let '(raw, k') := osal_freertos_scheduler_state k in
    raw = Sys.SCHEDULER_RUNNING ∧ running k' ∧ time k ≤ time k' ∧ (in_life k → in_life k');
  (** the snapshot is coherent: the whole periods at the time it was taken *)
  law_snapshot : ∀ k, in_life k →
    let '(s, k') := osal_freertos_tick_snapshot k in
    TickTime.snapshot_ok (Sys.tick_config kernel_capabilities) s ∧
    TickTime.total (Sys.tick_config kernel_capabilities) s = time k' / period ∧
    time k ≤ time k' ∧ (running k → running k') ∧ in_life k';
  (** a delay of [n] ticks ends when the tick count has advanced by [n] *)
  law_delay : ∀ k n, running k → 1 ≤ n ≤ max_finite_delay_ticks →
    let '(raw, k') := osal_freertos_delay_ticks n k in
    raw = Sys.DELAY_OK ∧ running k' ∧ time k / period + n ≤ time k' / period;
}.

(** A blocking take of some kernel object by a task, as the wait engine uses
    it: the object is live, and a take that times out did so after its tick
    budget, less the one tick that phase misalignment may cost. *)
Record take_ok {K} `{KernelLaws K} (take : Z → K → Sys.TakeStatus * K) : Prop := {
  take_valid : ∀ n k, fst (take n k) ≠ Sys.TakeInvalid;
  take_time : ∀ n k, time k ≤ time (snd (take n k));
  take_running : ∀ n k, running k → running (snd (take n k));
  take_timeout : ∀ n k, 0 < n ≤ max_finite_delay_ticks → fst (take n k) = Sys.TakeTimeout →
    time k / period + (n - 1) ≤ time (snd (take n k)) / period;
  take_prompt : ∀ k, in_life k → in_life (snd (take 0 k));
}.

(** ** A concrete kernel

    A 32-bit tick counter at 1 kHz; calls take no time, delays take exactly
    their ticks.  It shows that the laws can hold together. *)

Module VirtualKernel.

Definition raw_caps : Sys.KernelCapabilities :=
  Sys.mkKernelCapabilities 1000 8 16 32 4 1 1 64 (2 ^ 32 - 1) 5 0.

#[global] Instance kernel : Kernel Z := {|
  osal_freertos_probe_capabilities := raw_caps;
  osal_freertos_max_finite_delay_ticks := 2 ^ 32 - 2;
  osal_freertos_scheduler_state := λ t, (Sys.SCHEDULER_RUNNING, t);
  osal_freertos_tick_snapshot := λ t, (TickTime.mkSnapshot (t / 2 ^ 32) (t mod 2 ^ 32), t);
  osal_freertos_delay_ticks := λ n t, (Sys.DELAY_OK, t + n);
|}.

#[global] Program Instance laws : KernelLaws Z := {|
  time := λ t, t;
  period := 1;
  running := λ _, True;
  in_life := λ t, 0 ≤ t < 2 ^ 96;
|}.
Next Obligation. done. Qed.
Next Obligation. split; [done|]. right. left. done. Qed.
Next Obligation. done. Qed.
Next Obligation. intros k Hk. simpl. repeat split; auto; lia. Qed.
Next Obligation.
  intros k Hk. simpl in *. unfold TickTime.snapshot_ok, TickTime.total, in_uint. simpl.
  pose proof (Z.mod_pos_bound k 4294967296 ltac:(lia)).
  pose proof (Z.div_mod k 4294967296 ltac:(lia)). rewrite Z.div_1_r.
  assert (0 ≤ k / 4294967296) by (apply Z.div_pos; lia).
  assert (k / 4294967296 < 2 ^ 64) by (apply Z.div_lt_upper_bound; lia).
  change (2 ^ 32) with 4294967296. split_and!; done || lia.
Qed.
Next Obligation. intros k n _ Hn. simpl. rewrite !Z.div_1_r. split_and!; done || lia. Qed.

(** An object that becomes free at time [free]. *)
Definition take_at (free : Z) (n t : Z) : Sys.TakeStatus * Z :=
  if t + n <? free then (Sys.TakeTimeout, t + n) else (Sys.Acquired, Z.max t free).

(** A take waits at least zero ticks. *)
Definition take_at_u (free : Z) (n t : Z) : Sys.TakeStatus * Z := take_at free (Z.max 0 n) t.

Lemma take_at_ok free : free < 2 ^ 96 → take_ok (take_at_u free).
Proof.
  intros Hf. unfold take_at_u, take_at. split; intros.
  - by case_if.
  - case_if; simpl; lia.
  - done.
  - case_if; simpl in *; [|done]. rewrite !Z.div_1_r. lia.
  - case_if; simpl in *; lia.
Qed.

End VirtualKernel.
