(* ===== verification/Wait.v ===== *)
(** * Clock and blocking waits of the FreeRTOS backend

    [FreeRtosClock] ([crates/osal-backend-freertos/src/clock.rs]) and the wait
    engine ([wait.rs]).  [caps] is the value [runtime::capabilities()] returns;
    loops take fuel, and the theorems give fuel that is enough. *)

From S2P Require Import Prelude Api Time Kernel.
Import Duration (as_nanos, NANOS_PER_SEC).

Module FreeRtosClock.
Section FreeRtosClock.
Context {K : Type} `{Kernel K} (caps : option Sys.Capabilities).

Definition now : M K Duration.t :=
  c <- mrun (expect caps "FreeRtosClock::now requires osal::initialize() to be called first") ;;
  snap <- tick_snapshot ;;
  r <- mrun (TickTime.snapshot_to_duration snap (Sys.tick_config c)) ;;
  match r with
  | Ok d => mret_ d
  | Err _ => mpanic "tick snapshot conversion failed (bad capability data)"
  end.

(** [while remaining_payload > 0] *)
Fixpoint delay_loop (fuel : nat) (max_payload remaining : Z) : M K () :=
  if 0 <? remaining then
    match fuel with
    | O => λ _, NoFuel
    | S fuel =>
        let payload := Z.min remaining max_payload in
        native <- mrun (expect (checked_add 128 payload 1) "guard tick overflowed u128") ;;
        status <- delay_ticks (native mod 2 ^ 64) ;;
        if negb (bool_decide (status = Sys.DelayOk)) then mpanic "FreeRtosClock::delay failed"
        else
          remaining' <- mrun (usub remaining payload) ;;
          delay_loop fuel max_payload remaining'
    end
  else mret_ ().

Definition delay (fuel : nat) (duration : Duration.t) : M K () :=
  if Duration.is_zero duration then mret_ ()
  else
    state <- scheduler_state ;;
    if negb (bool_decide (state = Sys.Running)) then
      mpanic "FreeRtosClock::delay requires a running scheduler and task context"
    else
      c <- mrun (expect caps "FreeRtosClock::delay requires osal::initialize() to be called first") ;;
      match TickTime.duration_to_ticks_ceil duration (Sys.tick_rate_hz c) with
      | Err _ => mpanic "duration to ticks conversion overflowed"
      | Ok ceil_ticks =>
          max_payload <- mrun (expect (checked_sub max_finite_delay_ticks 1)
                                "FreeRTOS max_finite_delay_ticks too small for guard tick") ;;
          delay_loop fuel max_payload ceil_ticks
      end.

End FreeRtosClock.
End FreeRtosClock.

(** ** [wait.rs] *)

Module Wait.

Inductive WaitOutcome : Type := Acquired | Unavailable.

Inductive WaitBudget : Type :=
| NoWait
| Zero
| Finite (duration : Duration.t) (deadline : option Duration.t) (prepared : bool)
| Forever (prepared : bool).

Definition budget_new (timeout : Timeout.t) : WaitBudget :=
  match timeout with
  | Timeout.NoWait => NoWait
  | Timeout.After d => if Duration.eqb d Duration.ZERO then Zero else Finite d None false
  | Timeout.Forever => Forever false
  end.

Section Wait.
Context {K : Type} `{Kernel K} (caps : option Sys.Capabilities).

Definition ensure_blocking_allowed : M K (Result ()) :=
  st <- scheduler_state ;;
  mret_ (match st with
         | Sys.Running => Ok ()
         | Sys.NotStarted => Err Error.NotInitialized
         | Sys.Suspended => Err Error.Busy
         | Sys.UnknownState _ => Err (Error.Internal "unknown FreeRTOS scheduler state")
         end).

(** The deadline of a finite budget: kept when it is there, computed from the
    clock otherwise. *)
Definition resolve_deadline (duration : Duration.t) (deadline : option Duration.t)
    : M K (Result Duration.t) :=
  match deadline with
  | Some value => mret_ (Ok value)
  | None => n <- FreeRtosClock.now caps ;; mret_ (ok_or (Duration.checked_add n duration) Error.Overflow)
  end.

Definition prepare_blocking (b : WaitBudget) : M K (Result WaitBudget) :=
  match b with
  | NoWait | Zero => mret_ (Ok b)
  | Finite duration deadline _ =>
      _ <-? ensure_blocking_allowed ;;
      value <-? resolve_deadline duration deadline ;;
      mret_ (Ok (Finite duration (Some value) true))
  | Forever _ =>
      _ <-? ensure_blocking_allowed ;;
      mret_ (Ok (Forever true))
  end.

Section Take.
Context (take : Z → K → Sys.TakeStatus * K).

Definition call_take (n : Z) : M K Sys.TakeStatus := λ k, Done (take n k).

Definition invalid_take {A} : M K A := mpanic "FreeRTOS take returned Invalid on a live handle".

Fixpoint deadline_iterations (fuel : nat) (deadline : Duration.t) (tick_rate max_payload : Z)
    : M K (Result WaitOutcome) :=
  match fuel with
  | O => λ _, NoFuel
  | S fuel =>
      s0 <- call_take 0 ;;
      if bool_decide (s0 = Sys.Acquired) then mret_ (Ok Acquired)
      else
        now <- FreeRtosClock.now caps ;;
        if Duration.leb deadline now then mret_ (Ok Unavailable)
        else
          let remaining := Duration.saturating_sub deadline now in
          payload_ticks <-? mret_ (map_err (λ _, Error.Overflow)
                                     (TickTime.duration_to_ticks_ceil remaining tick_rate)) ;;
          let payload := Z.min payload_ticks max_payload in
          native <- mrun (expect (checked_add 128 payload 1) "guard tick overflowed u128") ;;
          s <- call_take (native mod 2 ^ 64) ;;
          match s with
          | Sys.Acquired => mret_ (Ok Acquired)
          | Sys.TakeTimeout => deadline_iterations fuel deadline tick_rate max_payload
          | Sys.TakeInvalid => invalid_take
          end
  end.

Definition wait_deadline_loop (fuel : nat) (deadline : Duration.t) : M K (Result WaitOutcome) :=
  c <- mrun (expect caps "wait requires osal::initialize()") ;;
  max_payload <- mrun (expect (checked_sub max_finite_delay_ticks 1)
                        "max_finite_delay_ticks too small for guard tick") ;;
  deadline_iterations fuel deadline (Sys.tick_rate_hz c) max_payload.

Fixpoint wait_forever (fuel : nat) : M K (Result WaitOutcome) :=
  match fuel with
  | O => λ _, NoFuel
  | S fuel =>
      s <- call_take max_finite_delay_ticks ;;
      match s with
      | Sys.Acquired => mret_ (Ok Acquired)
      | Sys.TakeTimeout => wait_forever fuel
      | Sys.TakeInvalid => invalid_take
      end
  end.

(** One attempt that never blocks. *)
Definition try_now : M K (Result WaitOutcome) :=
  s <- call_take 0 ;;
  match s with
  | Sys.Acquired => mret_ (Ok Acquired)
  | Sys.TakeTimeout => mret_ (Ok Unavailable)
  | Sys.TakeInvalid => invalid_take
  end.

(** [wait_once]: the outcome and the budget left (its deadline, once computed,
    is kept). *)
Definition wait_once (fuel : nat) (b : WaitBudget) : M K (Result WaitOutcome * WaitBudget) :=
  match b with
  | NoWait | Zero => r <- try_now ;; mret_ (r, b)
  | Finite duration deadline prepared =>
      ok <- (if prepared then mret_ (Ok ()) else ensure_blocking_allowed) ;;
      match ok with
      | Err e => mret_ (Err e, b)
      | Ok _ =>
          dl <- resolve_deadline duration deadline ;;
          match dl with
          | Err e => mret_ (Err e, b)
          | Ok dl =>
              r <- wait_deadline_loop fuel dl ;;
              mret_ (r, Finite duration (Some dl) prepared)
          end
      end
  | Forever prepared =>
      ok <- (if prepared then mret_ (Ok ()) else ensure_blocking_allowed) ;;
      match ok with
      | Err e => mret_ (Err e, b)
      | Ok _ => r <- wait_forever fuel ;; mret_ (r, b)
      end
  end.

Definition wait_native (fuel : nat) (timeout : Timeout.t) : M K (Result WaitOutcome) :=
  x <- wait_once fuel (budget_new timeout) ;; mret_ (fst x).

End Take.
End Wait.
End Wait.

(** ** What the clock and the waits guarantee *)

Module WaitFacts.
Import Wait.
Section WaitFacts.
Context {K : Type} `{KernelLaws K}.

Abbreviation caps := (Some kernel_capabilities).
Definition rate : Z := Sys.tick_rate_hz kernel_capabilities.
(** The clock reading in nanoseconds when the kernel is in state [k]. *)
Definition clock_at (k : K) : Z :=
  Z.min (as_nanos Duration.MAX) (TickTime.ticks_nanos (time k / period) rate).

Lemma rate_range : 0 < rate < 2 ^ 32.
Proof. apply law_config. Qed.

Lemma max_finite_range : 2 ^ 16 - 2 ≤ max_finite_delay_ticks < 2 ^ 64.
Proof.
  rewrite law_max_finite. destruct law_config as [_ Hb].
  change (TickTime.bits _) with (Sys.tick_bits kernel_capabilities) in Hb.
  destruct Hb as [-> | [-> | ->]]; lia.
Qed.

Lemma ticks_mono t t' : t ≤ t' → t / period ≤ t' / period.
Proof. intros. apply Z.div_le_mono; [apply law_period|done]. Qed.

Lemma clock_mono k k' : time k ≤ time k' → clock_at k ≤ clock_at k'.
Proof.
  intros Ht. apply Z.min_le_compat_l, TickTime.ticks_nanos_mono; [apply rate_range|].
  by apply ticks_mono.
Qed.

Lemma now_spec k :
  in_life k →
  ∃ d k', FreeRtosClock.now caps k = Done (d, k') ∧ Duration.wf d ∧ as_nanos d = clock_at k' ∧
          time k ≤ time k' ∧ (running k → running k') ∧ in_life k'.
Proof.
  intros Hl. unfold FreeRtosClock.now. rewrite (mbind_done _ _ k kernel_capabilities k) by done.
  pose proof (law_snapshot k Hl) as L. unfold mbind_ at 1, tick_snapshot.
  destruct (osal_freertos_tick_snapshot k) as [s k']. destruct L as (Hs & Ht & Hle & Hr & Hl').
  destruct (TickTime.snapshot_to_duration_spec _ s law_config Hs) as (d & E & Wd & Nd).
  simpl. unfold mbind_, mrun. rewrite E. simpl. exists d, k'. split; [done|]. split; [done|].
  split; [|done]. rewrite Nd, Ht. done.
Qed.

(** Whole periods passed bound the time passed from below. *)
Lemma elapsed_time t t' n : t / period + n ≤ t' / period → (n - 1) * period < t' - t.
Proof.
  intros Hn. pose proof law_period as Hp.
  pose proof (Z.mul_div_le t' period Hp). pose proof (Z.mul_succ_div_gt t period Hp). nia.
Qed.

Lemma delay_loop_spec fuel : ∀ remaining k,
  running k → 0 ≤ remaining → (Z.to_nat remaining ≤ fuel)%nat →
  remaining < 2 ^ 127 →
  ∃ k', FreeRtosClock.delay_loop fuel (max_finite_delay_ticks - 1) remaining k = Done ((), k') ∧
        running k' ∧ remaining * period ≤ time k' - time k.
Proof.
  pose proof max_finite_range as Hm. pose proof law_period as Hp.
  induction fuel as [|fuel IH]; intros remaining k Hr Hn Hf Hb; simpl.
  { zb. exists k. split; [done|]. split; [done|]. lia. }
  destruct (0 <? remaining) eqn:Ez; bool_to_prop.
  2:{ exists k. split; [done|]. split; [done|]. assert (remaining = 0) as -> by lia. lia. }
  set (payload := Z.min remaining (max_finite_delay_ticks - 1)).
  unfold mbind_ at 1, mrun at 1, checked_add. zb.
  rewrite Z.mod_small by lia. unfold mbind_ at 1, delay_ticks.
  pose proof (law_delay k (payload + 1) Hr ltac:(lia)) as L.
  destruct (osal_freertos_delay_ticks (payload + 1) k) as [raw k1]. destruct L as (-> & Hr1 & Hd).
  simpl. unfold mbind_ at 1, mrun. rewrite usub_ok by lia. simpl.
  destruct (IH (remaining - payload) k1) as (k' & E & Hr' & Ht); [done|lia..|].
  rewrite E. exists k'. split; [done|]. split; [done|].
  apply elapsed_time in Hd. nia.
Qed.

(** *** Waits *)

Section Take.
Context (take : Z → K → Sys.TakeStatus * K) (T : take_ok take).

(** The outcome of the last take, and when the wait may give up. *)
Definition took (k' : K) : Prop := ∃ n k, take n k = (Sys.Acquired, k').

(** Ticks that put the clock at or past the deadline. *)
Definition goal_ticks (deadline : Duration.t) : Z :=
  (as_nanos deadline * rate + NANOS_PER_SEC - 1) / NANOS_PER_SEC.

Lemma goal_reached deadline k :
  Duration.wf deadline → goal_ticks deadline ≤ time k / period → as_nanos deadline ≤ clock_at k.
Proof.
  intros Wd Hg. pose proof rate_range. pose proof (Duration.dur_wf_nanos_range _ Wd).
  unfold clock_at. rewrite Duration.dur_as_nanos_MAX. apply Z.min_glb; [lia|].
  unfold TickTime.ticks_nanos, goal_ticks, NANOS_PER_SEC in *.
  apply Z.div_le_lower_bound; [lia|].
  pose proof (Z.mul_succ_div_gt (as_nanos deadline * rate + 1000000000 - 1) 1000000000 ltac:(lia)).
  nia.
Qed.

(** What is left before the deadline, in ticks. *)
Lemma ticks_left deadline d k :
  Duration.wf deadline → Duration.wf d → as_nanos d = clock_at k → as_nanos d < as_nanos deadline →
  ∃ p, TickTime.duration_to_ticks_ceil (Duration.saturating_sub deadline d) rate = Ok p ∧
       1 ≤ p ∧ p < 2 ^ 127 ∧ time k / period < goal_ticks deadline.
Proof.
  intros Wd Wn Nd Hlt. pose proof rate_range as Hrate.
  pose proof (Duration.dur_saturating_sub_wf deadline d Wd Wn) as Wr.
  pose proof (Duration.dur_saturating_sub_nanos deadline d Wd Wn) as Nr.
  destruct (TickTime.duration_to_ticks_ceil_spec _ rate Wr Hrate) as (p & -> & Hp & Hlo & Hhi).
  exists p. split; [done|]. split; [rewrite Nr in *; unfold NANOS_PER_SEC in *; nia|]. split; [lia|].
  destruct (decide (goal_ticks deadline ≤ time k / period)) as [Hg|]; [|lia].
  pose proof (goal_reached deadline k Wd Hg). lia.
Qed.

(** A blocking call that starts before the deadline ends before the tick
    counter runs out. *)
Definition patient (deadline : Duration.t) : Prop :=
  ∀ n k, n ≤ max_finite_delay_ticks → in_life k → time k / period < goal_ticks deadline →
    in_life (snd (take n k)).

Section Deadline.
Context (deadline : Duration.t) (Wd : Duration.wf deadline) (Hpat : patient deadline).

(** What a wait until the deadline may answer. *)
Definition waited (o : WaitOutcome) (k k' : K) : Prop :=
  running k' ∧ in_life k' ∧ time k ≤ time k' ∧
  match o with
  | Acquired => took k'
  | Unavailable => as_nanos deadline ≤ clock_at k'
  end.

Lemma deadline_iterations_spec fuel : ∀ k,
  running k → in_life k → Z.max 0 (goal_ticks deadline - time k / period) < Z.of_nat fuel →
  ∃ o k', deadline_iterations caps take fuel deadline rate (max_finite_delay_ticks - 1) k
            = Done (Ok o, k') ∧ (o = Unavailable → waited o k k') ∧ (o = Acquired → took k').
Proof.
  pose proof max_finite_range as Hm. pose proof rate_range as Hrate.
  induction fuel as [|fuel IH]; intros k Hr Hl Hf; [lia|]. simpl.
  pose proof (take_time _ T 0 k) as T0. pose proof (take_running _ T 0 k Hr) as R0.
  pose proof (take_prompt _ T k Hl) as L0.
  destruct (take 0 k) as [s0 k1] eqn:E0. simpl in T0, R0, L0.
  rewrite (mbind_done _ _ k s0 k1) by (unfold call_take; by rewrite E0).
  case_bool_decide as Hs0.
  { subst s0. exists Acquired, k1. split; [done|]. split; [done|]. intros _. by exists 0, k. }
  destruct (now_spec k1 L0) as (d & k2 & En & Wn & Nd & Hle & Hr2 & L2). specialize (Hr2 R0).
  rewrite (mbind_done _ _ _ _ _ En). rewrite Duration.dur_leb_nanos by done.
  destruct (as_nanos deadline <=? as_nanos d) eqn:Eld; bool_to_prop.
  { exists Unavailable, k2. split; [done|]. split; [|done]. intros _. split_and!; done || lia. }
  destruct (ticks_left deadline d k2 Wd Wn Nd Eld) as (p & -> & Hp1 & Hp & Hlt).
  rewrite (mtry_ok _ _ _ p k2) by done.
  set (payload := Z.min p (max_finite_delay_ticks - 1)).
  rewrite (mbind_done _ _ k2 (payload + 1) k2) by (unfold mrun, checked_add; by zb).
  rewrite Z.mod_small by lia.
  pose proof (take_valid _ T (payload + 1) k2) as V. pose proof (take_time _ T (payload + 1) k2) as T1.
  pose proof (take_running _ T (payload + 1) k2 Hr2) as R1.
  pose proof (take_timeout _ T (payload + 1) k2 ltac:(lia)) as To.
  pose proof (Hpat (payload + 1) k2 ltac:(lia) L2 Hlt) as L3.
  destruct (take (payload + 1) k2) as [s k3] eqn:E1. simpl in V, T1, R1, To, L3.
  rewrite (mbind_done _ _ k2 s k3) by (unfold call_take; by rewrite E1). destruct s; [| |done].
  - exists Acquired, k3. split; [done|]. split; [done|]. intros _. by exists (payload + 1), k2.
  - specialize (To eq_refl). assert (time k / period ≤ time k2 / period) by (apply ticks_mono; lia).
    destruct (IH k3 R1 L3) as (o & k' & E & Ho & Ha); [lia|].
    exists o, k'. split; [exact E|]. split; [|done]. intros Eo. destruct (Ho Eo) as (? & ? & ? & ?).
    split_and!; done || lia.
Qed.

Lemma wait_deadline_loop_spec fuel k :
  running k → in_life k → Z.max 0 (goal_ticks deadline - time k / period) < Z.of_nat fuel →
  ∃ o k', wait_deadline_loop caps take fuel deadline k = Done (Ok o, k') ∧
          (o = Unavailable → waited o k k') ∧ (o = Acquired → took k').
Proof.
  intros Hr Hl Hf. pose proof max_finite_range as Hm. unfold wait_deadline_loop.
  rewrite (mbind_done _ _ k kernel_capabilities k) by done.
  rewrite (mbind_done _ _ k (max_finite_delay_ticks - 1) k).
  - by apply deadline_iterations_spec.
  - unfold mrun, checked_sub. by zb.
Qed.

End Deadline.

Lemma ensure_blocking_ok k : running k →
  ∃ k', ensure_blocking_allowed k = Done (Ok (), k') ∧ running k' ∧ time k ≤ time k' ∧
        (in_life k → in_life k').
Proof.
  intros Hr. pose proof (law_scheduler k Hr) as L.
  unfold ensure_blocking_allowed, mbind_, scheduler_state.
  destruct (osal_freertos_scheduler_state k) as [raw k']. destruct L as (-> & ? & ? & ?).
  simpl. eauto.
Qed.

(** [Forever] ends as soon as some attempt gets the object, and only so. *)
Inductive acquires_within : nat → K → Prop :=
| acquires_now n k : fst (take max_finite_delay_ticks k) = Sys.Acquired → acquires_within (S n) k
| acquires_later n k :
    acquires_within n (snd (take max_finite_delay_ticks k)) → acquires_within (S n) k.

Lemma wait_forever_spec fuel k :
  acquires_within fuel k → ∃ k', wait_forever take fuel k = Done (Ok Acquired, k') ∧ took k'.
Proof.
  induction 1 as [n k E|n k A IH]; simpl; unfold mbind_, call_take.
  - destruct (take max_finite_delay_ticks k) as [s k'] eqn:Et. simpl in *. subst s.
    exists k'. split; [done|]. by eexists _, _.
  - pose proof (take_valid _ T max_finite_delay_ticks k) as V.
    destruct (take max_finite_delay_ticks k) as [s k1] eqn:Et. simpl in *. destruct s; [| |done].
    + exists k1. split; [done|]. by eexists _, _.
    + exact IH.
Qed.

Lemma wait_forever_never_unavailable fuel k r k' :
  wait_forever take fuel k = Done (r, k') → r = Ok Acquired.
Proof.
  revert k. induction fuel as [|fuel IH]; intros k; simpl; [done|]. unfold mbind_, call_take.
  destruct (take max_finite_delay_ticks k) as [[] k1]; simpl; [by intros [= <- _]|apply IH|done].
Qed.

End Take.
(** *** Properties *)

(** [FreeRtosClock::delay] never returns early in physical time: whatever
    the phase of the tick when it is called, and however the delay is cut into
    native chunks, at least the requested duration has passed (the guard tick
    of every chunk pays for the partial first tick); it needs at most one
    chunk per tick, so that many iterations are enough. *)
Theorem freertos_delay_not_short d k :
  Duration.wf d → running k →
  ∃ n, TickTime.duration_to_ticks_ceil d rate = Ok n ∧
  ∀ fuel, (Z.to_nat n ≤ fuel)%nat →
  ∃ k', FreeRtosClock.delay caps fuel d k = Done ((), k') ∧
        as_nanos d * rate * period ≤ (time k' - time k) * NANOS_PER_SEC.
Proof.
  intros Wd Hr. pose proof max_finite_range as Hm. pose proof law_period as Hp.
  destruct (TickTime.duration_to_ticks_ceil_spec d rate Wd rate_range) as (n & E & Hn & _ & Hhi).
  exists n. split; [done|]. intros fuel Hf. unfold FreeRtosClock.delay.
  destruct (Duration.is_zero d) eqn:Ez.
  { exists k. split; [done|]. rewrite Duration.dur_is_zero_nanos in Ez by done. bool_to_prop. rewrite Ez. lia. }
  pose proof (law_scheduler k Hr) as L.
  unfold mbind_ at 1, scheduler_state. destruct (osal_freertos_scheduler_state k) as [raw k1].
  destruct L as (-> & Hr1 & Ht & _). simpl.
  rewrite (mbind_done _ _ k1 kernel_capabilities k1) by done. fold rate. rewrite E.
  rewrite (mbind_done _ _ k1 (max_finite_delay_ticks - 1) k1) by (unfold mrun, checked_sub; by zb).
  destruct (delay_loop_spec fuel n k1 Hr1) as (k' & El & _ & Hd); [lia..|].
  exists k'. split; [done|]. unfold NANOS_PER_SEC in *. nia.
Qed.

(** The kernel when a finite wait reads the clock for its deadline: it has asked for
    the scheduler state before. *)
Definition reading (k : K) : K := snd (osal_freertos_tick_snapshot (snd (osal_freertos_scheduler_state k))).

Lemma blocking_reading k k1 d k2 :
  ensure_blocking_allowed k = Done (Ok (), k1) → FreeRtosClock.now caps k1 = Done (d, k2) → k2 = reading k.
Proof.
  unfold ensure_blocking_allowed, FreeRtosClock.now, reading, mbind_, scheduler_state, tick_snapshot, mrun, expect, mret_.
  destruct (osal_freertos_scheduler_state k) as [raw ka]. simpl. intros [= _ ->].
  destruct (osal_freertos_tick_snapshot k1) as [s kb]. simpl.
  destruct (TickTime.snapshot_to_duration s _) as [[]| |]; simpl; by intros [= _ ->].
Qed.


(** [Timeout::Forever] never gives up: with the scheduler running it
    returns only with the object, and it does return when some attempt gets
    it. *)
Theorem freertos_wait_forever take fuel k :
  take_ok take → running k →
  (∀ r k', wait_native caps take fuel Timeout.Forever k = Done (r, k') → r = Ok Acquired) ∧
  (acquires_within take fuel (snd (osal_freertos_scheduler_state k)) →
   ∃ k', wait_native caps take fuel Timeout.Forever k = Done (Ok Acquired, k') ∧ took take k').
Proof.
  intros T Hr. pose proof (law_scheduler k Hr) as L.
  assert (wait_native caps take fuel Timeout.Forever k =
          wait_forever take fuel (snd (osal_freertos_scheduler_state k))) as Ew.
  { destruct (osal_freertos_scheduler_state k) as [raw k1] eqn:Es. destruct L as (-> & _).
    unfold wait_native, budget_new, wait_once, ensure_blocking_allowed, scheduler_state, mbind_.
    rewrite Es. simpl. by destruct (wait_forever take fuel k1) as [[r k2]| |]. }
  rewrite Ew. split.
  - intros r k'. apply wait_forever_never_unavailable.
  - by apply wait_forever_spec.
Qed.

(** A prepared finite budget keeps one absolute deadline: every later wait
    on it ends with an outcome and never with an error, leaves the budget as
    it is, and times out only once that deadline has passed, however many
    waits came before. *)
Theorem freertos_budget_one_deadline take d b k k1 :
  take_ok take → Duration.wf d → running k → in_life k →
  prepare_blocking caps (Finite d None false) k = Done (Ok b, k1) →
  ∃ dl, b = Finite d (Some dl) true ∧ clock_at k + as_nanos d ≤ as_nanos dl ∧
  ∀ k2, patient take dl → running k2 → in_life k2 →
    ∃ n, ∀ fuel, (n ≤ fuel)%nat →
    ∃ o k', wait_once caps take fuel b k2 = Done ((Ok o, b), k') ∧
      (o = Unavailable → as_nanos dl ≤ clock_at k').
Proof.
  intros T Wd Hr Hl E.
  destruct (ensure_blocking_ok k Hr) as (ka & E1 & R1 & T1 & L1). specialize (L1 Hl).
  destruct (now_spec ka L1) as (now & kb & E2 & Wn & Nn & T2 & R2 & L2).
  unfold prepare_blocking in E. rewrite (mtry_ok _ _ _ _ _ E1) in E.
  unfold mtry, resolve_deadline in E.
  destruct (Duration.checked_add now d) as [dl|] eqn:Ea.
  2:{ rewrite (mbind_done _ _ ka (Err Error.Overflow) kb) in E; [done|].
      rewrite (mbind_done _ _ _ _ _ E2), Ea. done. }
  rewrite (mbind_done _ _ ka (Ok dl) kb) in E by (by rewrite (mbind_done _ _ _ _ _ E2), Ea).
  injection E as <- _. pose proof (Duration.dur_checked_add_Some now d dl Wn Wd Ea) as [Wdl Ndl].
  exists dl. split; [done|]. split.
  { assert (clock_at k ≤ as_nanos now) by (rewrite Nn; apply clock_mono; lia). lia. }
  intros k2 Hpat Hr2 Hl2. exists (S (Z.to_nat (goal_ticks dl - time k2 / period))). intros fuel Hf.
  destruct (wait_deadline_loop_spec take T dl Wdl Hpat fuel k2 Hr2 Hl2) as (o & k' & E3 & Ho & _); [lia|].
  exists o, k'. split.
  - unfold wait_once, resolve_deadline. rewrite (mbind_done _ _ k2 (Ok ()) k2) by done.
    rewrite (mbind_done _ _ k2 (Ok dl) k2) by done. by rewrite (mbind_done _ _ _ _ _ E3).
  - intros ->. by destruct (Ho eq_refl) as (_ & _ & _ & ?).
Qed.

End WaitFacts.

(** *** Witnesses: the virtual kernel at time 5, an object free at time 9. *)

Import VirtualKernel.

Lemma sample_patient free deadline :
  0 ≤ free < 2 ^ 60 → as_nanos deadline ≤ as_nanos Duration.MAX → patient (take_at_u free) deadline.
Proof.
  intros Hf Hd n k Hn Hl Hk. unfold take_at_u, take_at. simpl in *.
  assert (goal_ticks deadline ≤ 2 ^ 75) as Hg.
  { unfold goal_ticks, rate. rewrite Duration.dur_as_nanos_MAX in Hd. simpl.
    apply Z.div_le_upper_bound; unfold NANOS_PER_SEC in *; lia. }
  unfold max_finite_delay_ticks in Hn. simpl in Hn. rewrite Z.div_1_r in Hk.
  case_if; simpl; lia.
Qed.

Lemma freertos_delay_not_short_witness :
  ∃ k', FreeRtosClock.delay (Some kernel_capabilities) 3 (Duration.mk 0 2500000) 5 = Done ((), k') ∧
        2500000 * 1000 * 1 ≤ (k' - 5) * NANOS_PER_SEC.
Proof.
  destruct (freertos_delay_not_short (Duration.mk 0 2500000) 5) as (n & E & F).
  - split; vm_compute; split; congruence.
  - exact I.
  - vm_compute in E. injection E as <-. destruct (F 3%nat) as (k' & E' & L); [simpl; lia|].
    exists k'. split; [exact E'|exact L].
Defined.


Lemma freertos_wait_forever_witness :
  ∃ k', wait_native (Some kernel_capabilities) (take_at_u 9) 1 Timeout.Forever 5
          = Done (Ok Acquired, k').
Proof.
  destruct (freertos_wait_forever (take_at_u 9) 1 5) as [_ F].
  - apply take_at_ok. lia.
  - exact I.
  - destruct F as (k' & E & _); [constructor; vm_compute; reflexivity|]. eauto.
Defined.

Lemma freertos_budget_one_deadline_witness :
  ∃ dl, prepare_blocking (Some kernel_capabilities) (Finite (Duration.mk 0 2000000) None false) 5
          = Done (Ok (Finite (Duration.mk 0 2000000) (Some dl) true), 5).
Proof.
  destruct (freertos_budget_one_deadline (take_at_u 9) (Duration.mk 0 2000000)
    (Finite (Duration.mk 0 2000000) (Some (Duration.mk 0 7000000)) true) 5 5) as (dl & E & _).
  - apply take_at_ok. lia.
  - split; vm_compute; split; congruence.
  - exact I.
  - simpl. lia.
  - vm_compute. reflexivity.
  - exists dl. rewrite <- E. vm_compute. reflexivity.
Defined.

End WaitFacts.
