(* ===== verification/FreeRtosQueue.v ===== *)
(** * The FreeRTOS queue

    [crates/osal-backend-freertos/src/queue.rs]: a [ByteQueue] under a native
    mutex with two native counting semaphores for wake-ups and the credit
    protocol that keeps them in step.  Code between taking and giving the state
    mutex is one definition ([send_attempt], [send_reconcile], ...); the machine
    of [QueueMachine] interleaves those sections and the waits of any number of
    tasks.  A token given inside a section can be taken before the section
    ends, but the taker's next step needs the mutex, so the sections are
    atomic. *)

From S2P Require Import Prelude Api Buffers Time Runtime Kernel Wait.
Import Wait (WaitBudget, WaitOutcome).

(** ** The native counting semaphore *)

Class NativeSem (S : Type) := {
  sem_count : S → Z;
  sem_max : S → Z;
  semaphore_give : S → Sys.GiveStatus * S;
  semaphore_take0 : S → Sys.TakeStatus * S;
}.

(** Documented behaviour: a give adds one below the maximum, a take of zero
    ticks succeeds exactly when the count is positive.  A blocking take that
    succeeds has the effect of the latter. *)
Class NativeSemLaws (S : Type) `{NativeSem S} := {
  law_count : ∀ s, 0 ≤ sem_count s ≤ sem_max s;
  law_give_ok : ∀ s, sem_count s < sem_max s →
    fst (semaphore_give s) = Sys.GiveOk ∧
    sem_count (snd (semaphore_give s)) = sem_count s + 1 ∧
    sem_max (snd (semaphore_give s)) = sem_max s;
  law_take_ok : ∀ s, 0 < sem_count s →
    fst (semaphore_take0 s) = Sys.Acquired ∧
    sem_count (snd (semaphore_take0 s)) = sem_count s - 1 ∧
    sem_max (snd (semaphore_take0 s)) = sem_max s;
  law_take_empty : ∀ s, sem_count s = 0 → semaphore_take0 s = (Sys.TakeTimeout, s);
}.

Module FreeRtosQueue.
Section FreeRtosQueue.
Context `{Arch} {S : Type} `{NativeSem S}.

Record QueueState : Type := mkState {
  buffer : ByteQueue.t;
  sender_waiters : Z;
  receiver_waiters : Z;
  sender_wake_credits : Z;
  receiver_wake_credits : Z;
}.

(** The state [FreeRtosQueue::new] starts with. *)
Definition initial_state (b : ByteQueue.t) : QueueState := mkState b 0 0 0 0.

Definition set_buffer (q : QueueState) (b : ByteQueue.t) : QueueState :=
  mkState b (sender_waiters q) (receiver_waiters q) (sender_wake_credits q) (receiver_wake_credits q).
Definition set_sender (q : QueueState) (w c : Z) : QueueState :=
  mkState (buffer q) w (receiver_waiters q) c (receiver_wake_credits q).
Definition set_receiver (q : QueueState) (w c : Z) : QueueState :=
  mkState (buffer q) (sender_waiters q) w (sender_wake_credits q) c.

(** [signal_one_receiver] and [signal_one_sender]: the new credits and the
    semaphore. *)
Definition signal_one (waiters credits : Z) (wake : S) (msg : string) : Run (Z * S) :=
  if credits <? waiters then
    match semaphore_give wake with
    | (Sys.GiveOk, wake') =>
        c ← expect (checked_add 32 credits 1) "wake credit overflowed u32"; Done (c, wake')
    | (_, _) => Panic msg
    end
  else Done (credits, wake).

Definition signal_one_receiver (q : QueueState) (wake : S) : Run (QueueState * S) :=
  '(c, wake') ← signal_one (receiver_waiters q) (receiver_wake_credits q) wake
                  "FreeRTOS queue: receiver wake semaphore give failed";
  Done (set_receiver q (receiver_waiters q) c, wake').
Definition signal_one_sender (q : QueueState) (wake : S) : Run (QueueState * S) :=
  '(c, wake') ← signal_one (sender_waiters q) (sender_wake_credits q) wake
                  "FreeRTOS queue: sender wake semaphore give failed";
  Done (set_sender q (sender_waiters q) c, wake').

(** [for _ in 0..missing] of [broadcast_wake]. *)
Fixpoint give_many (missing : nat) (wake : S) (all_ok : bool) : bool * S :=
  match missing with
  | O => (all_ok, wake)
  | Datatypes.S n =>
      let '(s, wake') := semaphore_give wake in
      give_many n wake' (match s with Sys.GiveOk => all_ok | _ => false end)
  end.

(** All given, the new credits, the semaphore. *)
Definition broadcast_wake (waiters credits : Z) (wake : S) : Run (bool * Z * S) :=
  missing ← expect (checked_sub waiters credits) "wake credits exceed waiter count";
  let '(all_ok, wake') := give_many (Z.to_nat missing) wake true in
  Done (all_ok, waiters, wake').

(** What a critical section of [send] or [recv] decides: return, or block on
    the wake semaphore with this budget. *)
Inductive attempt : Type :=
| Return (r : Result ())
| Block (b : WaitBudget).

(** [prepare] is [budget.prepare_blocking()], whose outcome depends on the
    scheduler and the clock. *)
Definition block_or_fail (b : WaitBudget) (prepare : WaitBudget → Result WaitBudget)
    (would_block : Error.t) (waiters : Z) (msg : string) : Run (attempt * Z) :=
  match b with
  | Wait.NoWait => Done (Return (Err would_block), waiters)
  | Wait.Zero => Done (Return (Err Error.Timeout), waiters)
  | _ =>
      match prepare b with
      | Err e => Done (Return (Err e), waiters)
      | Ok b' => w ← expect (checked_add 32 waiters 1) msg; Done (Block b', w)
      end
  end.

(** The first section of [send]'s loop. *)
Definition send_attempt (prepare : WaitBudget → Result WaitBudget) (data : list u8)
    (b : WaitBudget) (q : QueueState) (receiver_wake : S) : Run (attempt * QueueState * S) :=
  if ByteQueue.is_closed (buffer q) then Done (Return (Err Error.QueueClosed), q, receiver_wake)
  else
    '(r, buf) ← ByteQueue.try_send (buffer q) data;
    match r with
    | Ok _ =>
        '(q', wake') ← signal_one_receiver (set_buffer q buf) receiver_wake;
        Done (Return (Ok ()), q', wake')
    | Err Error.QueueFull =>
        '(a, w) ← block_or_fail b prepare Error.QueueFull (sender_waiters q)
                    "sender waiter count overflowed u32";
        Done (a, set_sender (set_buffer q buf) w (sender_wake_credits q), receiver_wake)
    | Err e => Done (Return (Err e), set_buffer q buf, receiver_wake)
    end.

(** The first section of [recv]'s loop, with the caller's buffer. *)
Definition recv_attempt (prepare : WaitBudget → Result WaitBudget) (out : list u8)
    (b : WaitBudget) (q : QueueState) (sender_wake : S) : Run (attempt * list u8 * QueueState * S) :=
  '(r, (buf, out')) ← ByteQueue.try_recv (buffer q) out;
  match r with
  | Ok _ =>
      '(q', wake') ← signal_one_sender (set_buffer q buf) sender_wake;
      Done (Return (Ok ()), out', q', wake')
  | Err Error.QueueEmpty =>
      if ByteQueue.is_closed buf then
        Done (Return (Err Error.QueueClosed), out', set_buffer q buf, sender_wake)
      else
        '(a, w) ← block_or_fail b prepare Error.QueueEmpty (receiver_waiters q)
                    "receiver waiter count overflowed u32";
        Done (a, out', set_receiver (set_buffer q buf) w (receiver_wake_credits q), sender_wake)
  | Err e => Done (Return (Err e), out', set_buffer q buf, sender_wake)
  end.

(** Confirming a consumed token: one credit and one waiter less. *)
Definition confirm (waiters credits : Z) : Run (Z * Z) :=
  c ← expect (checked_sub credits 1) "wake token without credit";
  w ← expect (checked_sub waiters 1) "unregister without waiter";
  Done (w, c).

(** The second section: [None] to go round the loop again, or the result. *)
Definition send_reconcile (o : WaitOutcome) (q : QueueState) (sender_wake : S)
    : Run (option (Result ()) * QueueState * S) :=
  match o with
  | Wait.Acquired =>
      '(w, c) ← confirm (sender_waiters q) (sender_wake_credits q);
      Done (None, set_sender q w c, sender_wake)
  | Wait.Unavailable =>
      match semaphore_take0 sender_wake with
      | (Sys.Acquired, wake') =>
          '(w, c) ← confirm (sender_waiters q) (sender_wake_credits q);
          Done (None, set_sender q w c, wake')
      | (_, wake') =>
          w ← expect (checked_sub (sender_waiters q) 1) "timeout unregister without sender waiter";
          let q' := set_sender q w (sender_wake_credits q) in
          Done (Some (Err (if ByteQueue.is_closed (buffer q) then Error.QueueClosed
                           else Error.Timeout)), q', wake')
      end
  end.

Definition recv_reconcile (o : WaitOutcome) (q : QueueState) (receiver_wake : S)
    : Run (option (Result ()) * QueueState * S) :=
  match o with
  | Wait.Acquired =>
      '(w, c) ← confirm (receiver_waiters q) (receiver_wake_credits q);
      Done (None, set_receiver q w c, receiver_wake)
  | Wait.Unavailable =>
      match semaphore_take0 receiver_wake with
      | (Sys.Acquired, wake') =>
          '(w, c) ← confirm (receiver_waiters q) (receiver_wake_credits q);
          Done (None, set_receiver q w c, wake')
      | (_, wake') =>
          w ← expect (checked_sub (receiver_waiters q) 1)
                "timeout unregister without receiver waiter";
          let q' := set_receiver q w (receiver_wake_credits q) in
          Done (Some (Err (if ByteQueue.is_closed (buffer q) && ByteQueue.is_empty (buffer q)
                           then Error.QueueClosed else Error.Timeout)), q', wake')
      end
  end.

Definition close (q : QueueState) (sender_wake receiver_wake : S)
    : Run (Result () * QueueState * S * S) :=
  if ByteQueue.is_closed (buffer q) then Done (Ok (), q, sender_wake, receiver_wake)
  else
    let q1 := set_buffer q (ByteQueue.close (buffer q)) in
    '(sender_ok, sc, sw) ← broadcast_wake (sender_waiters q1) (sender_wake_credits q1) sender_wake;
    '(receiver_ok, rc, rw) ← broadcast_wake (receiver_waiters q1) (receiver_wake_credits q1) receiver_wake;
    if negb sender_ok || negb receiver_ok then
      Panic "FreeRTOS queue: wake semaphore give failed during close broadcast"
    else Done (Ok (), set_receiver (set_sender q1 (sender_waiters q1) sc) (receiver_waiters q1) rc, sw, rw).

(** [drop]'s debug assertions. *)
Definition drop_checks (q : QueueState) : Run () :=
  _ ← rassert (sender_waiters q =? 0) "queue dropped with registered sender waiters";
  rassert (receiver_waiters q =? 0) "queue dropped with registered receiver waiters".

Definition len (q : QueueState) : Z := ByteQueue.len (buffer q).

End FreeRtosQueue.
End FreeRtosQueue.

(** ** Any number of senders and receivers on one queue *)

Module QueueMachine.
Import FreeRtosQueue QueueTrace FifoFacts.
Section QueueMachine.
Context `{Arch} {S : Type} `{NativeSemLaws S}.

(** Where a call stands: about to run its first section, blocked on its wake
    semaphore, or back from the wait and about to run its second section. *)
Inductive pc : Type :=
| Ready (x : list u8) (b : WaitBudget)
| Blocked (x : list u8) (b : WaitBudget)
| Woken (x : list u8) (b : WaitBudget) (o : WaitOutcome).

Definition is_ready (p : pc) : bool := match p with Ready _ _ => true | _ => false end.
Definition is_waiter (p : pc) : bool := match p with Ready _ _ => false | _ => true end.
Definition has_token (p : pc) : bool :=
  match p with Woken _ _ Wait.Acquired => true | _ => false end.
Definition pc_data (p : pc) : list u8 := match p with Ready x _ | Blocked x _ | Woken x _ _ => x end.

Record config : Type := mkConfig {
  state : QueueState;
  sender_wake : S;
  receiver_wake : S;
  senders : list pc;
  receivers : list pc;
  history : list (op * ret);   (** the calls that have returned, with their results *)
}.

Inductive event : Type :=
| CallSend (data : list u8) (timeout : Timeout.t)
| CallRecv (out : list u8) (timeout : Timeout.t)
| CallClose
| StepSender (i : nat) (prepare : WaitBudget → Result WaitBudget)
| StepReceiver (i : nat) (prepare : WaitBudget → Result WaitBudget)
| WakeSender (i : nat)
| WakeReceiver (i : nat)
| ExpireSender (i : nat)
| ExpireReceiver (i : nat).

(** The waits: a token is taken from a semaphore that has one; a finite wait
    may end without one. *)
Definition wake (p : pc) (sem : S) : option (pc * S) :=
  match p with
  | Blocked x b =>
      match semaphore_take0 sem with
      | (Sys.Acquired, sem') => Some (Woken x b Wait.Acquired, sem')
      | _ => None
      end
  | _ => None
  end.
Definition expire (p : pc) : option pc :=
  match p with
  | Blocked x (Wait.Finite d dl pr) => Some (Woken x (Wait.Finite d dl pr) Wait.Unavailable)
  | _ => None
  end.

(** The place of a task after a section: gone, blocked or at the loop head. *)
Definition after_attempt (l : list pc) (i : nat) (x : list u8) (a : attempt) : list pc :=
  match a with Return _ => delete i l | Block b => <[i:=Blocked x b]> l end.
Definition after_reconcile (l : list pc) (i : nat) (x : list u8) (b : WaitBudget)
    (r : option (Result ())) : list pc :=
  match r with Some _ => delete i l | None => <[i:=Ready x b]> l end.

(** What a section that returns adds to the history. *)
Definition send_log (x : list u8) (r : Result ()) : list (op * ret) :=
  if logged r then [(Send x, RSend r)] else [].
Definition recv_log (n : Z) (x x' : list u8) (r : Result ()) : list (op * ret) :=
  if logged r
  then [(Recv x, RRecv (match r with Ok _ => Ok n | Err e => Err e end) x')] else [].
Definition attempt_log (log : Result () → list (op * ret)) (a : attempt) : list (op * ret) :=
  match a with Return r => log r | Block _ => [] end.
Definition reconcile_log (log : Result () → list (op * ret)) (r : option (Result ()))
    : list (op * ret) :=
  match r with Some r => log r | None => [] end.

Definition sender_step (c : config) (i : nat) (p : pc)
    (prepare : WaitBudget → Result WaitBudget) : option (Run config) :=
  match p with
  | Ready x b => Some (
      '(a, q, rw) ← send_attempt prepare x b (state c) (receiver_wake c);
      Done (mkConfig q (sender_wake c) rw (after_attempt (senders c) i x a) (receivers c)
                     (history c ++ attempt_log (send_log x) a)))
  | Woken x b o => Some (
      '(r, q, sw) ← send_reconcile o (state c) (sender_wake c);
      Done (mkConfig q sw (receiver_wake c) (after_reconcile (senders c) i x b r) (receivers c)
                     (history c ++ reconcile_log (send_log x) r)))
  | Blocked _ _ => None
  end.

Definition receiver_step (c : config) (i : nat) (p : pc)
    (prepare : WaitBudget → Result WaitBudget) : option (Run config) :=
  match p with
  | Ready x b => Some (
      '(a, x', q, sw) ← recv_attempt prepare x b (state c) (sender_wake c);
      Done (mkConfig q sw (receiver_wake c) (senders c) (after_attempt (receivers c) i x' a)
                     (history c ++ attempt_log (recv_log (ByteQueue.message_size (buffer (state c))) x x') a)))
  | Woken x b o => Some (
      '(r, q, rw) ← recv_reconcile o (state c) (receiver_wake c);
      Done (mkConfig q (sender_wake c) rw (senders c) (after_reconcile (receivers c) i x b r)
                     (history c ++ reconcile_log (recv_log (ByteQueue.message_size (buffer (state c))) x x) r)))
  | Blocked _ _ => None
  end.

(** A call enters only while the tasks inside fit the semaphores' range. *)
Definition room (c : config) : bool :=
  (Z.of_nat (length (senders c) + length (receivers c)) <? 2 ^ 32 - 1) &&
  (Z.of_nat (length (senders c)) <? sem_max (sender_wake c)) &&
  (Z.of_nat (length (receivers c)) <? sem_max (receiver_wake c)).

Definition exec (c : config) (e : event) : option (Run config) :=
  match e with
  | CallSend data t =>
      match Validation.validate_send_message_size (ByteQueue.message_size (buffer (state c)))
              (Z.of_nat (length data)) with
      | Err _ => Some (Done c)
      | Ok _ =>
          if room c then
            Some (Done (mkConfig (state c) (sender_wake c) (receiver_wake c)
                          (senders c ++ [Ready data (Wait.budget_new t)]) (receivers c) (history c)))
          else None
      end
  | CallRecv out t =>
      match Validation.validate_recv_buffer_size (ByteQueue.message_size (buffer (state c)))
              (Z.of_nat (length out)) with
      | Err _ => Some (Done c)
      | Ok _ =>
          if room c then
            Some (Done (mkConfig (state c) (sender_wake c) (receiver_wake c)
                          (senders c) (receivers c ++ [Ready out (Wait.budget_new t)]) (history c)))
          else None
      end
  | CallClose => Some (
      '(_, q, sw, rw) ← close (state c) (sender_wake c) (receiver_wake c);
      Done (mkConfig q sw rw (senders c) (receivers c) (history c ++ [(Close, RClose)])))
  | StepSender i prepare => p ← senders c !! i; sender_step c i p prepare
  | StepReceiver i prepare => p ← receivers c !! i; receiver_step c i p prepare
  | WakeSender i =>
      p ← senders c !! i; '(p', s) ← wake p (sender_wake c);
      Some (Done (mkConfig (state c) s (receiver_wake c) (<[i:=p']> (senders c)) (receivers c) (history c)))
  | WakeReceiver i =>
      p ← receivers c !! i; '(p', s) ← wake p (receiver_wake c);
      Some (Done (mkConfig (state c) (sender_wake c) s (senders c) (<[i:=p']> (receivers c)) (history c)))
  | ExpireSender i =>
      p ← senders c !! i; p' ← expire p;
      Some (Done (mkConfig (state c) (sender_wake c) (receiver_wake c) (<[i:=p']> (senders c))
                    (receivers c) (history c)))
  | ExpireReceiver i =>
      p ← receivers c !! i; p' ← expire p;
      Some (Done (mkConfig (state c) (sender_wake c) (receiver_wake c) (senders c)
                    (<[i:=p']> (receivers c)) (history c)))
  end.

Definition start (b : ByteQueue.t) (sw rw : S) : config :=
  mkConfig (initial_state b) sw rw [] [] [].

(** Preparing to block fails only for reasons outside the queue. *)
Definition prepare_ok (prepare : WaitBudget → Result WaitBudget) : Prop :=
  ∀ b e, prepare b = Err e → logged (Err e) = false.
Definition event_ok (e : event) : Prop :=
  match e with
  | StepSender _ prepare | StepReceiver _ prepare => prepare_ok prepare
  | _ => True
  end.

Inductive reachable (b : ByteQueue.t) (sw rw : S) : config → Prop :=
| fq_init : reachable b sw rw (start b sw rw)
| fq_step c e c' :
    reachable b sw rw c → event_ok e → exec c e = Some (Done c') → reachable b sw rw c'.

(** *** The invariant of one side of the queue *)

(** [W] waiters, [C] credits, a semaphore and the tasks of that side. *)
Record side_ok (W C : Z) (sem : S) (l : list pc) : Prop := {
  side_waiters : W = Z.of_nat (countb is_waiter l);
  side_credits : C = sem_count sem + Z.of_nat (countb has_token l);
  side_le : C ≤ W;
  side_max : Z.of_nat (length l) ≤ sem_max sem;
  side_width : Z.of_nat (length l) < 2 ^ 32;
}.

(** [avail] units wait to be taken on a side with [W] waiters and [C] credits:
    either every waiter has been woken, or no more units than wake-ups under
    way and calls about to look. *)
Definition no_lost (avail W C : Z) (l : list pc) : Prop :=
  C = W ∨ avail ≤ C + Z.of_nat (countb is_ready l).

Lemma waiter_le_length l : Z.of_nat (countb is_waiter l) ≤ Z.of_nat (length l).
Proof. pose proof (countb_le_length is_waiter l). lia. Qed.

(** Signalling one waiter. *)
Lemma signal_one_spec W C sem l msg :
  side_ok W C sem l →
  ∃ C' sem', signal_one W C sem msg = Done (C', sem') ∧ side_ok W C' sem' l ∧
    sem_max sem' = sem_max sem ∧
    (C' = W ∧ C = W ∨ C' = C + 1).
Proof.
  intros [Hw Hc Hle Hm Hx]. pose proof (waiter_le_length l). unfold signal_one.
  destruct (C <? W) eqn:E; bool_to_prop.
  - destruct (law_give_ok sem) as (E1 & E2 & E3); [lia|].
    destruct (semaphore_give sem) as [g sem']. simpl in *. subst g.
    unfold checked_add. zb. exists (C + 1), sem'. split; [done|]. split; [split; lia|]. lia.
  - exists C, sem. split; [done|]. split; [done|]. lia.
Qed.

Lemma give_many_spec n : ∀ sem,
  sem_count sem + Z.of_nat n ≤ sem_max sem →
  ∃ sem', give_many n sem true = (true, sem') ∧ sem_count sem' = sem_count sem + Z.of_nat n ∧
          sem_max sem' = sem_max sem.
Proof.
  induction n as [|n IH]; intros sem Hn; simpl.
  - exists sem. split; [done|]. lia.
  - destruct (law_give_ok sem) as (E1 & E2 & E3); [lia|].
    destruct (semaphore_give sem) as [g sem1]. simpl in *. subst g.
    destruct (IH sem1) as (sem' & E & ? & ?); [lia|]. exists sem'. split; [done|]. lia.
Qed.

Lemma broadcast_wake_spec W C sem l :
  side_ok W C sem l →
  ∃ sem', broadcast_wake W C sem = Done (true, W, sem') ∧ side_ok W W sem' l ∧
          sem_max sem' = sem_max sem.
Proof.
  intros [Hw Hc Hle Hm Hx]. pose proof (waiter_le_length l). unfold broadcast_wake, checked_sub. zb.
  destruct (give_many_spec (Z.to_nat (W - C)) sem) as (sem' & E & E1 & E2); [lia|].
  rewrite E. exists sem'. split; [done|]. split; [split; lia|done].
Qed.

(** The four ways a task moves on its side. *)
Lemma side_register W C sem l i x b b' :
  side_ok W C sem l → l !! i = Some (Ready x b) → side_ok (W + 1) C sem (<[i:=Blocked x b']> l).
Proof.
  intros [Hw Hc Hle Hm Hx] E. pose proof (countb_insert is_waiter l i _ (Blocked x b') E).
  pose proof (countb_insert has_token l i _ (Blocked x b') E). simpl in *.
  split; rewrite ?length_insert; lia.
Qed.

Lemma side_leave W C sem l i x b :
  side_ok W C sem l → l !! i = Some (Ready x b) → side_ok W C sem (delete i l).
Proof.
  intros [Hw Hc Hle Hm Hx] E. pose proof (countb_delete is_waiter l i _ E).
  pose proof (countb_delete has_token l i _ E). pose proof (length_delete l i (mk_is_Some _ _ E)). simpl in *.
  pose proof (lookup_lt_Some _ _ _ E). split; lia.
Qed.

Lemma side_wake W C sem l i p p' sem' :
  side_ok W C sem l → l !! i = Some p → wake p sem = Some (p', sem') →
  side_ok W C sem' (<[i:=p']> l) ∧ sem_max sem' = sem_max sem ∧
  countb is_ready (<[i:=p']> l) = countb is_ready l.
Proof.
  intros [Hw Hc Hle Hm Hx] E Wk. destruct p as [|x b|]; try done. simpl in Wk.
  destruct (decide (sem_count sem = 0)) as [Ez|Ez].
  { by rewrite (law_take_empty sem Ez) in Wk. }
  pose proof (law_count sem). destruct (law_take_ok sem) as (E1 & E2 & E3); [lia|].
  destruct (semaphore_take0 sem) as [g sem1]. simpl in *. subst g. simplify_eq.
  pose proof (countb_insert is_waiter l i _ (Woken x b Wait.Acquired) E).
  pose proof (countb_insert has_token l i _ (Woken x b Wait.Acquired) E).
  pose proof (countb_insert is_ready l i _ (Woken x b Wait.Acquired) E). simpl in *.
  split; [split; rewrite ?length_insert; lia|lia].
Qed.

Lemma side_expire W C sem l i p p' :
  side_ok W C sem l → l !! i = Some p → expire p = Some p' →
  side_ok W C sem (<[i:=p']> l) ∧ countb is_ready (<[i:=p']> l) = countb is_ready l.
Proof.
  intros [Hw Hc Hle Hm Hx] E Ex. destruct p as [|x b|]; try done. destruct b; simplify_eq/=.
  match goal with |- context [<[i:=?p']> l] =>
    pose proof (countb_insert is_waiter l i _ p' E);
    pose proof (countb_insert has_token l i _ p' E);
    pose proof (countb_insert is_ready l i _ p' E) end. simpl in *.
  split; [split; rewrite ?length_insert; lia|lia].
Qed.

(** The second sections. *)
Lemma side_confirm W C sem l i x b :
  side_ok W C sem l → l !! i = Some (Woken x b Wait.Acquired) →
  confirm W C = Done (W - 1, C - 1) ∧ side_ok (W - 1) (C - 1) sem (<[i:=Ready x b]> l) ∧
  countb is_ready (<[i:=Ready x b]> l) = Datatypes.S (countb is_ready l).
Proof.
  intros [Hw Hc Hle Hm Hx] E. pose proof (law_count sem).
  pose proof (countb_insert is_waiter l i _ (Ready x b) E).
  pose proof (countb_insert has_token l i _ (Ready x b) E).
  pose proof (countb_insert is_ready l i _ (Ready x b) E). simpl in *.
  split; [unfold confirm, checked_sub; by zb|]. split; [split; rewrite ?length_insert; lia|lia].
Qed.

Lemma side_race W C sem l i x b :
  side_ok W C sem l → l !! i = Some (Woken x b Wait.Unavailable) → 0 < sem_count sem →
  ∃ sem', semaphore_take0 sem = (Sys.Acquired, sem') ∧ sem_max sem' = sem_max sem ∧
    confirm W C = Done (W - 1, C - 1) ∧ side_ok (W - 1) (C - 1) sem' (<[i:=Ready x b]> l) ∧
    countb is_ready (<[i:=Ready x b]> l) = Datatypes.S (countb is_ready l).
Proof.
  intros [Hw Hc Hle Hm Hx] E Hs. destruct (law_take_ok sem Hs) as (E1 & E2 & E3).
  destruct (semaphore_take0 sem) as [g sem']. simpl in *. subst g. exists sem'.
  pose proof (countb_insert is_waiter l i _ (Ready x b) E).
  pose proof (countb_insert has_token l i _ (Ready x b) E).
  pose proof (countb_insert is_ready l i _ (Ready x b) E). simpl in *.
  split; [done|]. split; [done|].
  split; [unfold confirm, checked_sub; by zb|]. split; [split; rewrite ?length_insert; lia|lia].
Qed.

Lemma token_waiter p : has_token p = true → is_waiter p = true.
Proof. by destruct p as [| |? ? []]. Qed.

Lemma side_timeout W C sem l i x b :
  side_ok W C sem l → l !! i = Some (Woken x b Wait.Unavailable) → sem_count sem = 0 →
  C < W ∧ side_ok (W - 1) C sem (delete i l) ∧ countb is_ready (delete i l) = countb is_ready l.
Proof.
  intros [Hw Hc Hle Hm Hx] E Hs. pose proof (countb_delete is_waiter l i _ E).
  pose proof (countb_delete has_token l i _ E). pose proof (countb_delete is_ready l i _ E).
  pose proof (length_delete l i (mk_is_Some _ _ E)). pose proof (lookup_lt_Some _ _ _ E).
  pose proof (countb_mono has_token is_waiter (delete i l) token_waiter). simpl in *.
  split; [lia|]. split; [split; lia|lia].
Qed.

(** *** The invariant of the machine *)

Definition view (c : config) : Fifo.t := ByteQueueFacts.abs (buffer (state c)).
Record inv (f0 : Fifo.t) (c : config) : Prop := {
  inv_buffer : ByteQueue.wf (buffer (state c));
  inv_send : side_ok (sender_waiters (state c)) (sender_wake_credits (state c)) (sender_wake c) (senders c);
  inv_recv : side_ok (receiver_waiters (state c)) (receiver_wake_credits (state c)) (receiver_wake c) (receivers c);
  inv_closed : Fifo.shut (view c) = true →
    sender_wake_credits (state c) = sender_waiters (state c) ∧
    receiver_wake_credits (state c) = receiver_waiters (state c);
  inv_send_lost : no_lost (Fifo.bound (view c) - used (view c)) (sender_waiters (state c))
                    (sender_wake_credits (state c)) (senders c);
  inv_recv_lost : no_lost (used (view c)) (receiver_waiters (state c))
                    (receiver_wake_credits (state c)) (receivers c);
  inv_data : Forall (λ p, Z.of_nat (length (pc_data p)) = Fifo.msg_len (view c)) (senders c ++ receivers c);
  inv_hist : spec_run f0 (fst <$> history c) = (snd <$> history c, view c);
}.

Lemma data_at f0 c l i p :
  inv f0 c → (l = senders c ∨ l = receivers c) → l !! i = Some p →
  Z.of_nat (length (pc_data p)) = Fifo.msg_len (view c).
Proof.
  intros I Hl E. pose proof (inv_data _ _ I) as [F1 F2]%Forall_app.
  destruct Hl as [-> | ->]; [by apply (Forall_lookup_1 _ _ _ _ F1 E)|by apply (Forall_lookup_1 _ _ _ _ F2 E)].
Qed.

(** A blocked or failed attempt. *)
Definition attempt_ok (W C : Z) (sem : S) (l : list pc) (i : nat) (x : list u8) (b0 : WaitBudget)
    (e : Error.t) (m : Run (attempt * Z)) : Prop :=
  ∃ a W', m = Done (a, W') ∧ side_ok W' C sem (after_attempt l i x a) ∧
    (∀ r, a = Return r → r = Err e ∨ logged r = false) ∧
    (∀ f : list u8 → Prop, Forall (λ p, f (pc_data p)) l →
      Forall (λ p, f (pc_data p)) (after_attempt l i x a)).

Lemma attempt_return W C sem l i x b0 e r :
  side_ok W C sem l → l !! i = Some (Ready x b0) → r = Err e ∨ logged r = false →
  attempt_ok W C sem l i x b0 e (Done (Return r, W)).
Proof.
  intros Sd E Hr. exists (Return r), W. split; [done|]. simpl. split; [by eapply side_leave|].
  split; [by intros ? [= ->]|]. intros f F. by apply Forall_delete.
Qed.

Lemma attempt_block W C sem l i x b0 e b' msg :
  side_ok W C sem l → l !! i = Some (Ready x b0) →
  attempt_ok W C sem l i x b0 e (w ← expect (checked_add 32 W 1) msg; Done (Block b', w)).
Proof.
  intros Sd E. pose proof (side_register _ _ _ _ i x b0 b' Sd E) as Sd'.
  pose proof (waiter_le_length (<[i:=Blocked x b']> l)) as Hl. rewrite length_insert in Hl.
  destruct Sd as [Hw Hc Hle Hm Hx]. pose proof (side_waiters _ _ _ _ Sd').
  unfold checked_add. zb. exists (Block b'), (W + 1). split; [done|]. split; [done|].
  split; [done|]. intros f F. apply Forall_insert; [done|]. simpl.
  apply (Forall_lookup_1 _ _ _ _ F E).
Qed.

Lemma block_or_fail_spec b prepare e W C sem l i x b0 msg :
  side_ok W C sem l → l !! i = Some (Ready x b0) → prepare_ok prepare →
  attempt_ok W C sem l i x b0 e (block_or_fail b prepare e W msg).
Proof.
  intros Sd E P. unfold block_or_fail.
  destruct b; try (apply attempt_return; auto; fail);
    (destruct (prepare _) eqn:Ep; [by apply attempt_block|apply attempt_return; eauto]).
Qed.

Lemma no_lost_empty W C sem l : side_ok W C sem l → ∀ avail l', avail ≤ 0 → no_lost avail W C l'.
Proof.
  intros [Hw Hc Hle Hm Hx] avail l' Ha. right. pose proof (law_count sem). lia.
Qed.

Lemma send_attempt_inv f0 c i x b prepare :
  inv f0 c → senders c !! i = Some (Ready x b) → prepare_ok prepare →
  ∃ c', sender_step c i (Ready x b) prepare = Some (Done c') ∧ inv f0 c'.
Proof.
  intros I Hi P. pose proof (data_at f0 c _ i _ I (or_introl eq_refl) Hi) as Hd. simpl in Hd.
  pose proof I as [Ib Is Ir Icl Ils Ilr Id Ih]. pose proof Id as [Fs Fr]%Forall_app.
  simpl. unfold send_attempt. change (ByteQueue.is_closed (buffer (state c))) with (Fifo.shut (view c)).
  destruct (ByteQueueFacts.try_send_refines (buffer (state c)) x Ib) as (q' & Et & Wq' & Aq').
  fold (view c) in Et, Aq'.
  destruct (fifo_send_cases (view c) x (ByteQueueFacts.abs_wf _ Ib) Hd)
    as [(Hsh & Hs)|[(Hsh & Hfull & Hs)|(Hsh & Hroom & Hs)]];
    rewrite Hs in Et, Aq'; rewrite Hsh; simpl in Et, Aq'.
  - eexists. split; [done|]. split; simpl; try done.
    + by eapply side_leave.
    + left. by apply Icl.
    + apply Forall_app. split; [by apply Forall_delete|done].
    + eapply hist_log; [done|]. unfold spec_step. by rewrite Hs.
  - rewrite Et. simpl.
    destruct (block_or_fail_spec b prepare Error.QueueFull _ _ _ _ i x b
      "sender waiter count overflowed u32" Is Hi P) as (a & W' & Ebf & Sd' & Ha & HF).
    rewrite Ebf. simpl. eexists. split; [done|].
    match goal with |- inv _ ?c' => assert (view c' = view c) as Ev by exact Aq' end.
    split; rewrite ?Ev, ?Hsh; cbn -[view used]; try done.
    + eapply no_lost_empty; [exact Sd'|]. lia.
    + apply Forall_app. split; [|done]. by apply (HF (λ y, Z.of_nat (length y) = _)).
    + destruct a as [r|]; simpl; [|by rewrite app_nil_r]. unfold send_log.
      destruct (Ha r eq_refl) as [-> | ->]; [|by rewrite app_nil_r]. simpl.
      eapply hist_log; [done|]. unfold spec_step. by rewrite Hs.
  - rewrite Et. simpl. unfold signal_one_receiver. simpl.
    destruct (signal_one_spec _ _ _ _ "FreeRTOS queue: receiver wake semaphore give failed" Ir)
      as (C' & sem' & Esig & Sd' & Emax & HC). rewrite Esig. simpl.
    eexists. split; [done|].
    pose proof (countb_delete is_ready _ i _ Hi) as Crd. simpl in Crd.
    assert (used (Fifo.mk (Fifo.bound (view c)) (Fifo.msg_len (view c)) (Fifo.items (view c) ++ [x]) false)
            = used (view c) + 1) as Eu by (unfold used; simpl; rewrite length_app; simpl; lia).
    match goal with |- inv _ ?c' => assert (view c' = Fifo.mk (Fifo.bound (view c))
      (Fifo.msg_len (view c)) (Fifo.items (view c) ++ [x]) false) as Ev by (unfold view; simpl; exact Aq') end.
    split; rewrite ?Ev, ?Eu; cbn -[view used]; try done.
    + by eapply side_leave.
    + destruct Ils as [?|?]; [by left|right; lia].
    + destruct Ilr as [?|?]; destruct HC as [[? ?]|?]; [left; lia|left..|right; lia]; try lia.
      destruct Sd'. lia.
    + apply Forall_app. split; [by apply Forall_delete|done].
    + eapply hist_log; [done|]. unfold spec_step. by rewrite Hs.
Qed.

Lemma recv_attempt_inv f0 c i x b prepare :
  inv f0 c → receivers c !! i = Some (Ready x b) → prepare_ok prepare →
  ∃ c', receiver_step c i (Ready x b) prepare = Some (Done c') ∧ inv f0 c'.
Proof.
  intros I Hi P. pose proof (data_at f0 c _ i _ I (or_intror eq_refl) Hi) as Hd. simpl in Hd.
  pose proof I as [Ib Is Ir Icl Ils Ilr Id Ih]. pose proof Id as [Fs Fr]%Forall_app.
  simpl. unfold recv_attempt.
  destruct (ByteQueueFacts.try_recv_refines (buffer (state c)) x Ib) as (q' & x' & Et & Wq' & Aq').
  fold (view c) in Et, Aq'.
  destruct (fifo_recv_cases (view c) x Hd)
    as [(Hit & Hsh & Hs)|[(Hit & Hsh & Hs)|(m & ms & Hit & Hs)]];
    rewrite Hs in Et, Aq'; simpl in Et, Aq'; apply pair_equal_spec in Aq' as [Av ->]; rewrite Et; simpl.
  - eexists. split; [done|].
    match goal with |- inv _ ?c' => assert (view c' = view c) as Ev by exact Av end.
    split; rewrite ?Ev; cbn -[view used]; try done.
    + by eapply side_leave.
    + left. by apply Icl.
    + apply Forall_app. split; [done|by apply Forall_delete].
    + eapply hist_log; [done|]. unfold spec_step. by rewrite Hs.
  - change (ByteQueue.is_closed q') with (Fifo.shut (ByteQueueFacts.abs q')). rewrite Av, Hsh.
    destruct (block_or_fail_spec b prepare Error.QueueEmpty _ _ _ _ i x b
      "receiver waiter count overflowed u32" Ir Hi P) as (a & W' & Ebf & Sd' & Ha & HF).
    rewrite Ebf. simpl. eexists. split; [done|].
    match goal with |- inv _ ?c' => assert (view c' = view c) as Ev by exact Av end.
    split; rewrite ?Ev, ?Hsh; cbn -[view used]; try done.
    + eapply no_lost_empty; [exact Sd'|]. unfold used. by rewrite Hit.
    + apply Forall_app. split; [done|]. by apply (HF (λ y, Z.of_nat (length y) = _)).
    + destruct a as [r|]; simpl; [|by rewrite app_nil_r]. unfold recv_log.
      destruct (Ha r eq_refl) as [-> | ->]; [|by rewrite app_nil_r]. simpl.
      eapply hist_log; [done|]. unfold spec_step. by rewrite Hs.
  - unfold signal_one_sender. simpl.
    destruct (signal_one_spec _ _ _ _ "FreeRTOS queue: sender wake semaphore give failed" Is)
      as (C' & sem' & Esig & Sd' & Emax & HC). rewrite Esig. simpl.
    eexists. split; [done|].
    pose proof (countb_delete is_ready _ i _ Hi) as Crd. simpl in Crd.
    assert (used (Fifo.mk (Fifo.bound (view c)) (Fifo.msg_len (view c)) ms (Fifo.shut (view c)))
            = used (view c) - 1) as Eu by (unfold used; rewrite Hit; simpl; lia).
    match goal with |- inv _ ?c' => assert (view c' = Fifo.mk (Fifo.bound (view c))
      (Fifo.msg_len (view c)) ms (Fifo.shut (view c))) as Ev by exact Av end.
    split; rewrite ?Ev, ?Eu; cbn -[view used]; try done.
    + by eapply side_leave.
    + intros Hc. destruct (Icl Hc) as [Ec1 Ec2]. split; [|done]. destruct Sd'. lia.
    + destruct Ils as [?|?]; destruct HC as [[? ?]|?]; [left; lia|left..|right; lia]; try lia.
      destruct Sd'. lia.
    + destruct Ilr as [?|?]; [by left|right; lia].
    + apply Forall_app. split; [done|by apply Forall_delete].
    + eapply hist_log; [done|]. unfold spec_step. by rewrite Hs.
Qed.

(** The second sections. *)
Lemma confirm_no_lost W C sem l i x b avail :
  side_ok W C sem l → no_lost avail W C l →
  countb is_ready (<[i:=Ready x b]> l) = Datatypes.S (countb is_ready l) →
  no_lost avail (W - 1) (C - 1) (<[i:=Ready x b]> l).
Proof. intros _ [?|?] E; [left; lia|right; lia]. Qed.

Lemma timeout_no_lost W C l i avail :
  C < W → no_lost avail W C l → countb is_ready (delete i l) = countb is_ready l →
  no_lost avail (W - 1) C (delete i l).
Proof. intros Hlt [?|?] E; [lia|right; lia]. Qed.

Lemma Forall_at {A} (P : A → Prop) l i p p' :
  Forall P l → l !! i = Some p → (P p → P p') → Forall P (<[i:=p']> l).
Proof. intros F E Hp. apply Forall_insert; [done|]. apply Hp. apply (Forall_lookup_1 _ _ _ _ F E). Qed.

Lemma send_reconcile_inv f0 c i x b o prepare :
  inv f0 c → senders c !! i = Some (Woken x b o) →
  ∃ c', sender_step c i (Woken x b o) prepare = Some (Done c') ∧ inv f0 c'.
Proof.
  intros I Hi. pose proof (data_at f0 c _ i _ I (or_introl eq_refl) Hi) as Hd.
  pose proof I as [Ib Is Ir Icl Ils Ilr Id Ih]. pose proof Id as [Fs Fr]%Forall_app. simpl.
  assert (∀ sw, sem_max sw = sem_max (sender_wake c) →
    side_ok (sender_waiters (state c) - 1) (sender_wake_credits (state c) - 1) sw (<[i:=Ready x b]> (senders c)) →
    countb is_ready (<[i:=Ready x b]> (senders c)) = Datatypes.S (countb is_ready (senders c)) →
    inv f0 (mkConfig (set_sender (state c) (sender_waiters (state c) - 1) (sender_wake_credits (state c) - 1))
             sw (receiver_wake c) (<[i:=Ready x b]> (senders c)) (receivers c) (history c ++ []))) as Hconf.
  { intros sw Em Sd Er. rewrite app_nil_r. split; simpl; try done.
    - intros Hc. destruct (Icl Hc). simpl. lia.
    - by eapply confirm_no_lost.
    - apply Forall_app. split; [|done]. by eapply Forall_at. }
  destruct o; simpl.
  - destruct (side_confirm _ _ _ _ i x b Is Hi) as (Ec & Sd & Er). rewrite Ec. simpl. by eauto.
  - destruct (decide (sem_count (sender_wake c) = 0)) as [Ez|Ez].
    + rewrite (law_take_empty _ Ez). destruct (side_timeout _ _ _ _ i x b Is Hi Ez) as (Hlt & Sd & Er).
      pose proof (side_credits _ _ _ _ Is). unfold checked_sub. zb. eexists. split; [done|].
      assert (Fifo.shut (view c) = false) as Hsh.
      { destruct (Fifo.shut (view c)); [|done]. destruct (Icl eq_refl). lia. }
      change (ByteQueue.is_closed (buffer (state c))) with (Fifo.shut (view c)). rewrite Hsh.
      rewrite app_nil_r. split; simpl; try done.
      * change (Fifo.shut (view c) = true → sender_wake_credits (state c) = sender_waiters (state c) - 1 ∧
          receiver_wake_credits (state c) = receiver_waiters (state c)). by rewrite Hsh.
      * by apply timeout_no_lost.
      * apply Forall_app. split; [by apply Forall_delete|done].
    + pose proof (law_count (sender_wake c)).
      destruct (side_race _ _ _ _ i x b Is Hi) as (sw & Et & Em & Ec & Sd & Er); [lia|].
      rewrite Et, Ec. simpl. by eauto.
Qed.

Lemma recv_reconcile_inv f0 c i x b o prepare :
  inv f0 c → receivers c !! i = Some (Woken x b o) →
  ∃ c', receiver_step c i (Woken x b o) prepare = Some (Done c') ∧ inv f0 c'.
Proof.
  intros I Hi. pose proof (data_at f0 c _ i _ I (or_intror eq_refl) Hi) as Hd.
  pose proof I as [Ib Is Ir Icl Ils Ilr Id Ih]. pose proof Id as [Fs Fr]%Forall_app. simpl.
  assert (∀ rw, sem_max rw = sem_max (receiver_wake c) →
    side_ok (receiver_waiters (state c) - 1) (receiver_wake_credits (state c) - 1) rw (<[i:=Ready x b]> (receivers c)) →
    countb is_ready (<[i:=Ready x b]> (receivers c)) = Datatypes.S (countb is_ready (receivers c)) →
    inv f0 (mkConfig (set_receiver (state c) (receiver_waiters (state c) - 1) (receiver_wake_credits (state c) - 1))
             (sender_wake c) rw (senders c) (<[i:=Ready x b]> (receivers c)) (history c ++ []))) as Hconf.
  { intros rw Em Sd Er. rewrite app_nil_r. split; simpl; try done.
    - intros Hc. destruct (Icl Hc). simpl. lia.
    - by eapply confirm_no_lost.
    - apply Forall_app. split; [done|]. by eapply Forall_at. }
  destruct o; simpl.
  - destruct (side_confirm _ _ _ _ i x b Ir Hi) as (Ec & Sd & Er). rewrite Ec. simpl. by eauto.
  - destruct (decide (sem_count (receiver_wake c) = 0)) as [Ez|Ez].
    + rewrite (law_take_empty _ Ez). destruct (side_timeout _ _ _ _ i x b Ir Hi Ez) as (Hlt & Sd & Er).
      pose proof (side_credits _ _ _ _ Ir). unfold checked_sub. zb. eexists. split; [done|].
      assert (Fifo.shut (view c) = false) as Hsh.
      { destruct (Fifo.shut (view c)); [|done]. destruct (Icl eq_refl). lia. }
      change (ByteQueue.is_closed (buffer (state c))) with (Fifo.shut (view c)). rewrite Hsh.
      rewrite app_nil_r. split; simpl; try done.
      * change (Fifo.shut (view c) = true → sender_wake_credits (state c) = sender_waiters (state c) ∧
          receiver_wake_credits (state c) = receiver_waiters (state c) - 1). by rewrite Hsh.
      * by apply timeout_no_lost.
      * apply Forall_app. split; [done|by apply Forall_delete].
    + pose proof (law_count (receiver_wake c)).
      destruct (side_race _ _ _ _ i x b Ir Hi) as (rw & Et & Em & Ec & Sd & Er); [lia|].
      rewrite Et, Ec. simpl. by eauto.
Qed.

Lemma close_inv f0 c :
  inv f0 c → ∃ c', exec c CallClose = Some (Done c') ∧ inv f0 c' ∧ Fifo.shut (view c') = true.
Proof.
  intros I. pose proof I as [Ib Is Ir Icl Ils Ilr Id Ih]. simpl. unfold close.
  change (ByteQueue.is_closed (buffer (state c))) with (Fifo.shut (view c)).
  assert (Hh : spec_run f0 (fst <$> history c ++ [(Close, RClose)]) =
               (snd <$> history c ++ [(Close, RClose)], Fifo.close (view c))) by by eapply hist_log.
  destruct (Fifo.shut (view c)) eqn:Hsh; simpl.
  - assert (Fifo.close (view c) = view c) as Ecl.
    { unfold Fifo.close, view in *. simpl in *. unfold ByteQueueFacts.abs. by rewrite <- Hsh. }
    rewrite Ecl in Hh. eexists. split; [done|]. split; [split; try done; intros _; by apply Icl|done].
  - destruct (broadcast_wake_spec _ _ _ _ Is) as (sw & E1 & S1 & _).
    destruct (broadcast_wake_spec _ _ _ _ Ir) as (rw & E2 & S2 & _).
    rewrite E1. simpl. rewrite E2. simpl. eexists. split; [done|]. split; [|done].
    destruct (ByteQueueFacts.close_refines _ Ib) as [Wc Ac].
    split; simpl; try done; by left.
Qed.

(** A new call on one side. *)
Lemma side_enter W C sem l x b :
  side_ok W C sem l → Z.of_nat (length l) < sem_max sem → Z.of_nat (length l) < 2 ^ 32 - 1 →
  side_ok W C sem (l ++ [Ready x b]) ∧ countb is_ready (l ++ [Ready x b]) = Datatypes.S (countb is_ready l).
Proof.
  intros [Hw Hc Hle Hm Hx] H1' H2'.
  split; [split|]; rewrite ?countb_app, ?length_app; simpl; lia.
Qed.

Lemma enter_inv f0 c e :
  inv f0 c → (∃ x t, e = CallSend x t) ∨ (∃ x t, e = CallRecv x t) →
  exec c e = None ∨ ∃ c', exec c e = Some (Done c') ∧ inv f0 c'.
Proof.
  intros I Hev. pose proof I as [Ib Is Ir Icl Ils Ilr Id Ih]. pose proof Id as [Fs Fr]%Forall_app.
  destruct Hev as [(x & t & ->)|(x & t & ->)]; simpl;
    unfold Validation.validate_send_message_size, Validation.validate_recv_buffer_size;
    (destruct (_ =? _) eqn:Em; simpl; [|by eauto]); bool_to_prop;
    (destruct (room c) eqn:Er; [|by left]); right; eexists; (split; [done|]);
    unfold room in Er; bool_to_prop;
    match goal with |- inv _ ?c' => assert (view c' = view c) as Ev by done end.
  - destruct (side_enter _ _ _ _ x (Wait.budget_new t) Is) as [Sd Er']; [lia..|].
    split; rewrite ?Ev; cbn -[view used]; try done.
    + destruct Ils as [?|?]; [by left|right; lia].
    + rewrite <- app_assoc. apply Forall_app. split; [done|]. by constructor.
  - destruct (side_enter _ _ _ _ x (Wait.budget_new t) Ir) as [Sd Er']; [lia..|].
    split; rewrite ?Ev; cbn -[view used]; try done.
    + destruct Ilr as [?|?]; [by left|right; lia].
    + apply Forall_app. split; [done|]. apply Forall_app. split; [done|]. by constructor.
Qed.

Lemma wake_data p sem p' sem' : wake p sem = Some (p', sem') → pc_data p' = pc_data p.
Proof. destruct p; simpl; try done. destruct (semaphore_take0 sem) as [[] ?]; intros; by simplify_eq. Qed.
Lemma expire_data p p' : expire p = Some p' → pc_data p' = pc_data p.
Proof. destruct p as [|? []|]; simpl; intros; by simplify_eq. Qed.

Lemma no_lost_eq avail W C l l' :
  no_lost avail W C l → countb is_ready l' = countb is_ready l → no_lost avail W C l'.
Proof. unfold no_lost. by intros ? ->. Qed.

Lemma wait_inv f0 c e i :
  inv f0 c → e ∈ [WakeSender i; WakeReceiver i; ExpireSender i; ExpireReceiver i] →
  exec c e = None ∨ ∃ c', exec c e = Some (Done c') ∧ inv f0 c'.
Proof.
  intros I Hev. pose proof I as [Ib Is Ir Icl Ils Ilr Id Ih]. pose proof Id as [Fs Fr]%Forall_app.
  rewrite !elem_of_cons in Hev. destruct Hev as [-> |[-> |[-> |[-> |[]%elem_of_nil]]]]; simpl.
  - destruct (senders c !! i) as [p|] eqn:E; simpl; [|by left].
    destruct (wake p (sender_wake c)) as [[p' s]|] eqn:Wk; simpl; [|by left]. right.
    destruct (side_wake _ _ _ _ _ _ _ _ Is E Wk) as (Sd & _ & Er). eexists; split; [done|].
    split; simpl; try done; [by eapply no_lost_eq|]. apply Forall_app. split; [|done].
    eapply Forall_at; [done..|]. by rewrite (wake_data _ _ _ _ Wk).
  - destruct (receivers c !! i) as [p|] eqn:E; simpl; [|by left].
    destruct (wake p (receiver_wake c)) as [[p' s]|] eqn:Wk; simpl; [|by left]. right.
    destruct (side_wake _ _ _ _ _ _ _ _ Ir E Wk) as (Sd & _ & Er). eexists; split; [done|].
    split; simpl; try done; [by eapply no_lost_eq|]. apply Forall_app. split; [done|].
    eapply Forall_at; [done..|]. by rewrite (wake_data _ _ _ _ Wk).
  - destruct (senders c !! i) as [p|] eqn:E; simpl; [|by left].
    destruct (expire p) as [p'|] eqn:Wk; simpl; [|by left]. right.
    destruct (side_expire _ _ _ _ _ _ _ Is E Wk) as (Sd & Er). eexists; split; [done|].
    split; simpl; try done; [by eapply no_lost_eq|]. apply Forall_app. split; [|done].
    eapply Forall_at; [done..|]. by rewrite (expire_data _ _ Wk).
  - destruct (receivers c !! i) as [p|] eqn:E; simpl; [|by left].
    destruct (expire p) as [p'|] eqn:Wk; simpl; [|by left]. right.
    destruct (side_expire _ _ _ _ _ _ _ Ir E Wk) as (Sd & Er). eexists; split; [done|].
    split; simpl; try done; [by eapply no_lost_eq|]. apply Forall_app. split; [done|].
    eapply Forall_at; [done..|]. by rewrite (expire_data _ _ Wk).
Qed.

Lemma queue_exec_inv f0 c e :
  inv f0 c → event_ok e → exec c e = None ∨ ∃ c', exec c e = Some (Done c') ∧ inv f0 c'.
Proof.
  intros I He. destruct e as [x t|x t| |i pr|i pr|i|i|i|i].
  - apply enter_inv; eauto.
  - apply enter_inv; eauto.
  - destruct (close_inv f0 c I) as (c' & ? & ? & _). right. eauto.
  - unfold exec. destruct (senders c !! i) as [p|] eqn:E; [|by left].
    cbn [mbind option_bind]. destruct p; [right; by eapply send_attempt_inv|by left|right; by eapply send_reconcile_inv].
  - unfold exec. destruct (receivers c !! i) as [p|] eqn:E; [|by left].
    cbn [mbind option_bind]. destruct p; [right; by eapply recv_attempt_inv|by left|right; by eapply recv_reconcile_inv].
  - eapply (wait_inv _ _ _ i); [done|]. set_solver.
  - eapply (wait_inv _ _ _ i); [done|]. set_solver.
  - eapply (wait_inv _ _ _ i); [done|]. set_solver.
  - eapply (wait_inv _ _ _ i); [done|]. set_solver.
Qed.

(** A queue as the constructor leaves it: empty, open, no tokens. *)
Definition fresh (b : ByteQueue.t) (sw rw : S) : Prop :=
  ByteQueue.wf b ∧ ByteQueue.len b = 0 ∧ ByteQueue.is_closed b = false ∧
  sem_count sw = 0 ∧ sem_count rw = 0.

Lemma start_inv b sw rw : fresh b sw rw → inv (ByteQueueFacts.abs b) (start b sw rw).
Proof.
  intros (Wb & Hl & Hcl & Hs & Hr). pose proof (law_count sw). pose proof (law_count rw).
  assert (used (ByteQueueFacts.abs b) = 0) as Eu.
  { unfold used. simpl. rewrite ByteQueue.messages_length. lia. }
  split; simpl; try done; try (by left); split; simpl; lia.
Qed.

Lemma queue_reachable_inv b sw rw c : fresh b sw rw → reachable b sw rw c → inv (ByteQueueFacts.abs b) c.
Proof.
  intros F R. induction R as [|c e c' _ IH Ev E]; [by apply start_inv|].
  destruct (queue_exec_inv _ c e IH Ev) as [E'|(c1 & E' & I')]; rewrite E' in E; [done|].
  injection E as ->. exact I'.
Qed.

(** What the real preparation step can answer, for any kernel. *)
Lemma kernel_prepare_ok {K} `{Kernel K} caps (k : K) b r k' :
  Wait.prepare_blocking caps b k = Done (r, k') → ∀ e, r = Err e → logged (Err e) = false.
Proof.
  unfold Wait.prepare_blocking, Wait.ensure_blocking_allowed, Wait.resolve_deadline, scheduler_state.
  intros E e ->. destruct b as [| |d dl pr|pr]; run_simpl; try done;
    destruct (osal_freertos_scheduler_state k) as [raw k1]; simpl in *;
    destruct (Sys.scheduler_from_raw raw); simplify_eq/=; try done.
  destruct dl; simplify_eq/=. destruct (FreeRtosClock.now caps k1) as [[n k2]| |]; simplify_eq/=.
  unfold ok_or in *. by destruct (Duration.checked_add n d); simplify_eq/=.
Qed.

(** C7: From a fresh queue, no interleaving of any number of [send], [recv]
    and [close] calls, wake-ups and timeouts panics, and every reachable state
    keeps the credit protocol: the waiter counters are the tasks that have
    registered and not yet left the wait, the credits are the tokens in the
    wake semaphore plus the tokens taken and not yet confirmed, and never
    exceed the waiters. *)
Theorem queue_credits_safe b sw rw c :
  fresh b sw rw → reachable b sw rw c →
  (∀ e, event_ok e → exec c e = None ∨ ∃ c', exec c e = Some (Done c')) ∧
  sender_waiters (state c) = Z.of_nat (countb is_waiter (senders c)) ∧
  receiver_waiters (state c) = Z.of_nat (countb is_waiter (receivers c)) ∧
  sender_wake_credits (state c) = sem_count (sender_wake c) + Z.of_nat (countb has_token (senders c)) ∧
  receiver_wake_credits (state c) = sem_count (receiver_wake c) + Z.of_nat (countb has_token (receivers c)) ∧
  sender_wake_credits (state c) ≤ sender_waiters (state c) ∧
  receiver_wake_credits (state c) ≤ receiver_waiters (state c).
Proof.
  intros F R. pose proof (queue_reachable_inv _ _ _ _ F R) as I.
  split; [intros e He; destruct (queue_exec_inv _ _ e I He) as [|(c' & ? & _)]; eauto|].
  destruct I as [_ [] [] _ _ _ _ _]. by split_and!.
Qed.

(** C3: No lost wake-up.  When nothing is under way on a side (no task about
    to look at the queue, no token in the semaphore or in a task's hands), a
    blocked receiver means that the queue is empty, a blocked sender that it is
    full, and in both cases that it is open. *)
Theorem queue_no_lost_wakeup b sw rw c :
  fresh b sw rw → reachable b sw rw c →
  (countb is_ready (receivers c) = 0%nat → receiver_wake_credits (state c) = 0 →
   (0 < countb is_waiter (receivers c))%nat →
   Fifo.items (view c) = [] ∧ Fifo.shut (view c) = false) ∧
  (countb is_ready (senders c) = 0%nat → sender_wake_credits (state c) = 0 →
   (0 < countb is_waiter (senders c))%nat →
   used (view c) = Fifo.bound (view c) ∧ Fifo.shut (view c) = false).
Proof.
  intros F R. pose proof (queue_reachable_inv _ _ _ _ F R) as I.
  pose proof (ByteQueueFacts.abs_wf _ (inv_buffer _ _ I)) as [Hb _]. fold (view c) in Hb.
  destruct I as [_ [Hw1 _ _ _ _] [Hw2 _ _ _ _] Icl Ils Ilr _ _].
  split; intros Hr Hc Hw; (split; [|destruct (Fifo.shut (view c)); [destruct (Icl eq_refl); lia|done]]).
  - destruct Ilr as [?|Hu]; [lia|]. unfold used in Hu. apply length_zero_iff_nil. lia.
  - destruct Ils as [?|Hu]; [lia|]. unfold used in *. lia.
Qed.

(** C2: Linearizability.  The calls that have returned, in the order of their
    sections and with the results they returned to their callers (received
    bytes included), are a run of the abstract bounded FIFO queue; its final
    state is the content of the queue.  Calls that timed out have no effect. *)
Theorem queue_linearizable b sw rw c :
  fresh b sw rw → reachable b sw rw c →
  spec_run (ByteQueueFacts.abs b) (fst <$> history c) =
    (snd <$> history c, ByteQueueFacts.abs (buffer (state c))).
Proof. intros F R. apply (inv_hist _ _ (queue_reachable_inv _ _ _ _ F R)). Qed.

(** A side whose waiters all have their token: a blocked one can take it. *)
Lemma side_can_wake W C sem l i x b :
  side_ok W C sem l → C = W → l !! i = Some (Blocked x b) →
  ∃ sem', semaphore_take0 sem = (Sys.Acquired, sem').
Proof.
  intros [Hw Hc Hle Hm Hx] Heq E.
  pose proof (countb_delete is_waiter l i _ E). pose proof (countb_delete has_token l i _ E).
  pose proof (countb_mono has_token is_waiter (delete i l) token_waiter). simpl in *.
  destruct (law_take_ok sem) as (E1 & _ & _); [lia|].
  destruct (semaphore_take0 sem) as [g sem']. simpl in *. subst g. by eauto.
Qed.

(** C34: Once [close] has returned, every task blocked on the queue, then or in
    any later state, can take a wake-up token, and no task blocks any more:
    a call that runs its first section returns. *)
Theorem queue_close_releases b sw rw c :
  fresh b sw rw → reachable b sw rw c → ByteQueue.is_closed (buffer (state c)) = true →
  (∀ i x t, senders c !! i = Some (Blocked x t) → ∃ c', exec c (WakeSender i) = Some (Done c')) ∧
  (∀ i x t, receivers c !! i = Some (Blocked x t) → ∃ c', exec c (WakeReceiver i) = Some (Done c')) ∧
  (∀ i x t pr, senders c !! i = Some (Ready x t) →
    ∃ c', exec c (StepSender i pr) = Some (Done c') ∧ senders c' = delete i (senders c)) ∧
  (∀ i x t pr, receivers c !! i = Some (Ready x t) → prepare_ok pr →
    ∃ c', exec c (StepReceiver i pr) = Some (Done c') ∧ receivers c' = delete i (receivers c)).
Proof.
  intros F R Hcl. pose proof (queue_reachable_inv _ _ _ _ F R) as I.
  pose proof I as [Ib Is Ir Icl Ils Ilr Id Ih]. destruct (Icl Hcl) as [Ec1 Ec2]. split_and!.
  - intros i x t E. destruct (side_can_wake _ _ _ _ _ _ _ Is Ec1 E) as [sem' Et]. simpl.
    rewrite E. simpl. rewrite Et. simpl. eauto.
  - intros i x t E. destruct (side_can_wake _ _ _ _ _ _ _ Ir Ec2 E) as [sem' Et]. simpl.
    rewrite E. simpl. rewrite Et. simpl. eauto.
  - intros i x t pr E. simpl. rewrite E. simpl. unfold send_attempt. rewrite Hcl. simpl. eauto.
  - intros i x t pr E P. pose proof (data_at _ c _ i _ I (or_intror eq_refl) E) as Hd. simpl in Hd.
    destruct (recv_attempt_inv _ c i x t pr I E P) as (c' & Ex & _).
    exists c'. unfold exec. rewrite E. split; [exact Ex|].
    simpl in Ex. unfold recv_attempt in Ex.
    destruct (ByteQueueFacts.try_recv_refines (buffer (state c)) x Ib) as (q' & x' & Et & _ & Aq').
    fold (view c) in Et, Aq'. rewrite Et in Ex.
    destruct (fifo_recv_cases (view c) x Hd) as [(Hit & Hsh & Hs)|[(Hit & Hsh & Hs)|(m & ms & Hit & Hs)]];
      rewrite Hs in Ex; simpl in Ex.
    + by simplify_eq.
    + by change (ByteQueue.is_closed (buffer (state c)) = false) in Hsh; rewrite Hcl in Hsh.
    + unfold signal_one_sender in Ex. simpl in Ex.
      destruct (signal_one_spec _ _ _ _ "FreeRTOS queue: sender wake semaphore give failed" Is)
        as (C' & sem' & Esig & _). rewrite Esig in Ex. simpl in Ex. by simplify_eq.
Qed.

(** Running a list of events. *)
Fixpoint exec_all (c : config) (es : list event) : option config :=
  match es with
  | [] => Some c
  | e :: es => match exec c e with Some (Done c') => exec_all c' es | _ => None end
  end.

Lemma exec_all_reachable b sw rw es : ∀ c c',
  reachable b sw rw c → Forall event_ok es → exec_all c es = Some c' → reachable b sw rw c'.
Proof.
  induction es as [|e es IH]; intros c c' R F E; simpl in E; [by simplify_eq|].
  apply Forall_cons_1 in F as [Fe F]. destruct (exec c e) as [[c1| |]|] eqn:Ex; try done.
  eapply IH; [|done..]. by eapply fq_step.
Qed.

End QueueMachine.
End QueueMachine.

(** ** Witnesses: a counting semaphore as tokens and free places *)

Module QueueWitness.
Import FreeRtosQueue QueueMachine QueueTrace FifoFacts.
#[local] Existing Instance arch64.

Record CountSem : Type := mkSem { tokens : nat; places : nat }.

#[global] Instance count_sem : NativeSem CountSem := {|
  sem_count := λ s, Z.of_nat (tokens s);
  sem_max := λ s, Z.of_nat (tokens s + places s);
  semaphore_give := λ s, match places s with
    | O => (Sys.GiveFull, s) | S p => (Sys.GiveOk, mkSem (S (tokens s)) p) end;
  semaphore_take0 := λ s, match tokens s with
    | O => (Sys.TakeTimeout, s) | S t => (Sys.Acquired, mkSem t (S (places s))) end;
|}.

#[global] Instance count_sem_laws : NativeSemLaws CountSem.
Proof.
  split; intros [t p]; simpl; try lia.
  - destruct p; simpl; [lia|]. intros _. split_and!; [done|lia..].
  - destruct t; simpl; [lia|]. intros _. split_and!; [done|lia..].
  - by destruct t.
Qed.

(** One slot, one-byte messages. *)
Definition queue : ByteQueue.t := ByteQueue.mk [Byte.x00] 1 1 0 0 0 false.
Definition sem : CountSem := mkSem 0 4.
Definition go (b : WaitBudget) : Result WaitBudget := Ok b.

Lemma queue_fresh : fresh queue sem sem.
Proof. split; [by split|]. done. Qed.

Definition after (es : list event) : config (S:=CountSem) :=
  default (start queue sem sem) (exec_all (start queue sem sem) es).

Lemma after_reachable es :
  Forall event_ok es → is_Some (exec_all (start queue sem sem) es) →
  reachable queue sem sem (after es).
Proof.
  intros F [c' E]. unfold after. rewrite E. eapply exec_all_reachable; [apply fq_init|done..].
Qed.

(** Two receivers block; a message wakes the first, which takes it. *)
Definition receive_events : list event :=
  [CallRecv [Byte.x00] Timeout.Forever; StepReceiver 0 go;
   CallRecv [Byte.x00] Timeout.Forever; StepReceiver 1 go;
   CallSend [Byte.x07] Timeout.NoWait; StepSender 0 go;
   WakeReceiver 0; StepReceiver 0 go; StepReceiver 0 go].

(** A full queue with a blocked sender. *)
Definition full_events : list event :=
  [CallSend [Byte.x07] Timeout.NoWait; StepSender 0 go;
   CallSend [Byte.x08] (Timeout.After (Duration.mk 1 0)); StepSender 0 go].

Lemma receive_reachable : reachable queue sem sem (after receive_events).
Proof. apply after_reachable; [repeat constructor; done|vm_compute; by eexists]. Qed.
Lemma full_reachable : reachable queue sem sem (after full_events).
Proof. apply after_reachable; [repeat constructor; done|vm_compute; by eexists]. Qed.
Lemma closed_reachable : reachable queue sem sem (after (receive_events ++ [CallClose])).
Proof. apply after_reachable; [repeat constructor; done|vm_compute; by eexists]. Qed.

Lemma queue_credits_safe_witness :
  receiver_waiters (state (after receive_events)) = 1 ∧
  receiver_wake_credits (state (after receive_events)) = 0.
Proof.
  destruct (queue_credits_safe queue sem sem (after receive_events) queue_fresh receive_reachable)
    as (_ & _ & W & _ & C & _).
  rewrite W, C. split; vm_compute; reflexivity.
Defined.

Lemma queue_no_lost_wakeup_witness :
  Fifo.items (view (after receive_events)) = [] ∧ used (view (after full_events)) = 1.
Proof.
  destruct (queue_no_lost_wakeup queue sem sem (after receive_events) queue_fresh receive_reachable)
    as [Hr _].
  destruct (queue_no_lost_wakeup queue sem sem (after full_events) queue_fresh full_reachable)
    as [_ Hs].
  split.
  - apply Hr; vm_compute; done || lia.
  - destruct Hs as [-> _]; vm_compute; done || lia.
Defined.

Lemma queue_linearizable_witness :
  spec_run (ByteQueueFacts.abs queue) [Send [Byte.x07]; Recv [Byte.x00]] =
    ([RSend (Ok ()); RRecv (Ok 1) [Byte.x07]],
     ByteQueueFacts.abs (buffer (state (after receive_events)))).
Proof.
  exact (queue_linearizable queue sem sem (after receive_events) queue_fresh receive_reachable).
Defined.

Lemma queue_close_releases_witness :
  ∃ c', exec (after (receive_events ++ [CallClose])) (WakeReceiver 0) = Some (Done c').
Proof.
  destruct (queue_close_releases queue sem sem (after (receive_events ++ [CallClose]))
    queue_fresh closed_reachable eq_refl) as (_ & Hr & _ & _).
  exact (Hr 0%nat [Byte.x00] (Wait.Forever false) eq_refl).
Defined.

End QueueWitness.
