(* ===== verification/FreeRtosSync.v ===== *)
(** * FreeRTOS semaphores, mutexes and object construction

    [crates/osal-backend-freertos/src/semaphore.rs], [mutex.rs], the
    constructor of [queue.rs], and the wrappers of
    [crates/osal-backend-freertos-sys] they use.  The native objects are
    parameters of the class [NativeObjects]. *)

From S2P Require Import Prelude Api Buffers Time Runtime Kernel Wait FreeRtosQueue.

(** ** Native mutexes and semaphores *)

(** Handles are non-null pointers, [None] is [NULL]. *)
Class NativeObjects (K : Type) := {
  osal_freertos_max_semaphore_count : Z;
  osal_freertos_mutex_create : K → option Z * K;
  osal_freertos_mutex_take : Z → Z → K → Z * K;
  osal_freertos_mutex_give : Z → K → Z * K;
  osal_freertos_mutex_delete : Z → K → K;
  osal_freertos_counting_semaphore_create : Z → Z → K → option Z * K;
  osal_freertos_binary_semaphore_create : K → option Z * K;
  osal_freertos_semaphore_take : Z → Z → K → Z * K;
  osal_freertos_semaphore_give : Z → K → Z * K;
  osal_freertos_semaphore_count : Z → K → Z * K;
  osal_freertos_semaphore_delete : Z → K → K;
}.

(** [owned k] are the native objects the task has created and not deleted. *)
Class NativeObjectsLaws (K : Type) `{NativeObjects K} := {
  owned : K → gset Z;
  law_mutex_create : ∀ k, match osal_freertos_mutex_create k with
    | (None, k') => owned k' = owned k
    | (Some h, k') => (h ∉ owned k) ∧ owned k' = {[h]} ∪ owned k end;
  law_sem_create : ∀ m i k, match osal_freertos_counting_semaphore_create m i k with
    | (None, k') => owned k' = owned k
    | (Some h, k') => (h ∉ owned k) ∧ owned k' = {[h]} ∪ owned k end;
  law_binary_create : ∀ k, match osal_freertos_binary_semaphore_create k with
    | (None, k') => owned k' = owned k
    | (Some h, k') => (h ∉ owned k) ∧ owned k' = {[h]} ∪ owned k end;
  law_mutex_delete : ∀ h k, owned (osal_freertos_mutex_delete h k) = owned k ∖ {[h]};
  law_sem_delete : ∀ h k, owned (osal_freertos_semaphore_delete h k) = owned k ∖ {[h]};
}.

(** The safe wrappers. *)
Module SysSync.
Section SysSync.
Context {K : Type} `{NativeObjects K}.

Definition max_semaphore_count : Z := osal_freertos_max_semaphore_count.
Definition mutex_create : M K (option Z) := λ k, Done (osal_freertos_mutex_create k).
Definition mutex_take (h ticks : Z) (k : K) : Sys.TakeStatus * K :=
  let '(raw, k') := osal_freertos_mutex_take h ticks k in (Sys.take_from_raw raw, k').
Definition mutex_give (h : Z) : M K Sys.GiveStatus := λ k,
  let '(raw, k') := osal_freertos_mutex_give h k in Done (Sys.give_from_raw raw, k').
Definition mutex_delete (h : Z) : M K () := λ k, Done ((), osal_freertos_mutex_delete h k).
Definition counting_semaphore_create (max initial : Z) : M K (option Z) := λ k,
  Done (osal_freertos_counting_semaphore_create max initial k).
Definition binary_semaphore_create : M K (option Z) := λ k,
  Done (osal_freertos_binary_semaphore_create k).
Definition semaphore_take (h ticks : Z) (k : K) : Sys.TakeStatus * K :=
  let '(raw, k') := osal_freertos_semaphore_take h ticks k in (Sys.take_from_raw raw, k').
Definition semaphore_give (h : Z) : M K Sys.GiveStatus := λ k,
  let '(raw, k') := osal_freertos_semaphore_give h k in Done (Sys.give_from_raw raw, k').
Definition semaphore_count (h : Z) : M K Z := λ k, Done (osal_freertos_semaphore_count h k).
Definition semaphore_delete (h : Z) : M K () := λ k, Done ((), osal_freertos_semaphore_delete h k).

End SysSync.
End SysSync.

(** ** The backend state the constructors work on *)

Module Backend.

(** The lifecycle word of [runtime.rs] and the kernel. *)
Record t (K : Type) : Type := mk { life : Z; native : K }.
Arguments mk {K} life native.
Arguments life {K} _.
Arguments native {K} _.

Definition on_native {K A} (m : M K A) : M (t K) A := λ s,
  '(a, k) ← m (native s); Done (a, mk (life s) k).
Definition on_life {K A} (f : Z → Run (A * Z)) : M (t K) A := λ s,
  '(a, w) ← f (life s); Done (a, mk w (native s)).

Section Lease.
Context `{Arch} {K : Type}.

(** [runtime::acquire_object] and [RuntimeLease::drop]. *)
Definition acquire_object : M (t K) (Result ()) :=
  on_life (RuntimeLifecycle.run_loop RuntimeLifecycle.acquire_body 0).
Definition lease_drop : M (t K) () :=
  _ <- on_life (RuntimeLifecycle.run_loop RuntimeLifecycle.lease_drop_body 0) ;; mret_ ().

End Lease.
End Backend.
Import Backend (on_native, acquire_object, lease_drop).

(** [create.ok_or(Error::OutOfMemory)?] after the lease: the lease is dropped on
    the way out. *)
Definition create_or_oom `{Arch} {K A} (create : M K (option Z)) (undo : M (Backend.t K) ())
    (k : Z → M (Backend.t K) (Result A)) : M (Backend.t K) (Result A) :=
  h <- on_native create ;;
  match h with
  | Some h => k h
  | None => undo ;;; mret_ (Err Error.OutOfMemory)
  end.

(** ** Semaphores *)

Module FreeRtosSemaphore.
Section FreeRtosSemaphore.
Context `{Arch} {K : Type} `{Kernel K} `{!NativeObjects K}.

(** [SemaphoreInner] without its lease, which the state counts. *)
Record inner : Type := mkInner { native : Z; max_count : Z }.

(** [FreeRtosCountingSemaphore::new] *)
Definition new (max_count initial_count : Z) : M (Backend.t K) (Result inner) :=
  if max_count =? 0 then mret_ (Err Error.InvalidParameter)
  else if max_count <? initial_count then mret_ (Err Error.InvalidParameter)
  else if SysSync.max_semaphore_count <? max_count then mret_ (Err Error.InvalidParameter)
  else
    _ <-? acquire_object ;;
    create_or_oom (SysSync.counting_semaphore_create max_count initial_count) lease_drop
      (λ h, mret_ (Ok (mkInner h max_count))).

(** [FreeRtosBinarySemaphore::new] *)
Definition binary_new : M (Backend.t K) (Result inner) :=
  _ <-? acquire_object ;;
  create_or_oom SysSync.binary_semaphore_create lease_drop
    (λ h, mret_ (Ok (mkInner h 1))).

(** The last handle of a semaphore goes. *)
Definition drop (s : inner) : M (Backend.t K) () :=
  on_native (SysSync.semaphore_delete (native s)) ;;; lease_drop.

(** [acquire] of both kinds. *)
Definition acquire (caps : option Sys.Capabilities) (fuel : nat) (s : inner)
    (timeout : Timeout.t) : M K (Result ()) :=
  outcome <-? Wait.wait_native caps (SysSync.semaphore_take (native s)) fuel timeout ;;
  mret_ (match outcome with
         | Wait.Acquired => Ok ()
         | Wait.Unavailable => Err Error.Timeout
         end).

(** [release] of both kinds. *)
Definition release (s : inner) : M K (Result ()) :=
  g <- SysSync.semaphore_give (native s) ;;
  match g with
  | Sys.GiveOk => mret_ (Ok ())
  | Sys.GiveFull => mret_ (Err Error.Overflow)
  | Sys.GiveInvalid => mpanic "FreeRTOS semaphore give returned Invalid on a live handle"
  end.

(** [sys::semaphore_count(native) as u32] *)
Definition count (s : inner) : M K (Result Z) :=
  n <- SysSync.semaphore_count (native s) ;; mret_ (Ok (n mod 2 ^ 32)).
Definition is_signaled (s : inner) : M K (Result bool) :=
  n <- SysSync.semaphore_count (native s) ;; mret_ (Ok (n =? 1)).

End FreeRtosSemaphore.
End FreeRtosSemaphore.

(** ** Mutexes *)

Module FreeRtosMutex.
Section FreeRtosMutex.
Context `{Arch} {K : Type} `{Kernel K} `{!NativeObjects K} {T : Type}.

(** [MutexInner]: the native handle, and the [spin::Mutex] with its value. *)
Record inner : Type := mkInner { native : Z; spin_locked : bool; value : T }.

Definition new (v : T) : M (Backend.t K) (Result inner) :=
  _ <-? acquire_object ;;
  create_or_oom SysSync.mutex_create lease_drop (λ h, mret_ (Ok (mkInner h false v))).

Definition drop (m : inner) : M (Backend.t K) () :=
  on_native (SysSync.mutex_delete (native m)) ;;; lease_drop.

(** [self.inner.value.try_lock().expect(..)] *)
Definition take_spin (m : inner) : Run inner :=
  _ ← rassert (negb (spin_locked m))
        "FreeRTOS mutex invariant violated: spin::Mutex held after native mutex acquire";
  Done (mkInner (native m) true (value m)).

(** What an outcome of the wait becomes. *)
Definition lock_result (timeout : Timeout.t) (o : Wait.WaitOutcome) (m : inner)
    : Run (Result () * inner) :=
  match o with
  | Wait.Acquired => m' ← take_spin m; Done (Ok (), m')
  | Wait.Unavailable =>
      Done (Err (match timeout with
                 | Timeout.NoWait => Error.LockFailed
                 | Timeout.After _ | Timeout.Forever => Error.Timeout
                 end), m)
  end.

(** [lock]: the result and the mutex, in a state with the kernel and the mutex. *)
Definition lock (caps : option Sys.Capabilities) (fuel : nat) (timeout : Timeout.t)
    : M (K * inner) (Result ()) := λ s,
  '(r, k) ← Wait.wait_native caps (SysSync.mutex_take (native (snd s))) fuel timeout (fst s);
  match r with
  | Err e => Done (Err e, (k, snd s))
  | Ok o => '(res, m) ← lock_result timeout o (snd s); Done (res, (k, m))
  end.

(** [Deref] and [DerefMut] of the guard. *)
Definition deref (m : inner) : T := value m.
Definition deref_mut (m : inner) (f : T → T) : inner := mkInner (native m) (spin_locked m) (f (value m)).

(** The guard's [drop]: the spin lock first, then the native mutex. *)
Definition release_spin (m : inner) : inner := mkInner (native m) false (value m).
Definition guard_drop : M (K * inner) () := λ s,
  let m := release_spin (snd s) in
  '(g, k) ← SysSync.mutex_give (native m) (fst s);
  match g with
  | Sys.GiveOk => Done ((), (k, m))
  | _ => Panic "FreeRTOS mutex give failed after guard release"
  end.

End FreeRtosMutex.
End FreeRtosMutex.

(** ** Construction of the queue *)

Module FreeRtosQueueNew.
Section FreeRtosQueueNew.
Context `{Arch} {K : Type} `{Kernel K} `{!NativeObjects K} (alloc : Z → bool).

(** [NativeQueueResources], and its [drop] in reverse order of creation. *)
Record NativeQueueResources : Type := mkResources {
  mutex : option Z;
  sender_wake : option Z;
  receiver_wake : option Z;
}.

Definition resources_drop (r : NativeQueueResources) : M (Backend.t K) () :=
  let opt (o : option Z) (f : Z → M K ()) :=
    match o with Some h => on_native (f h) | None => mret_ () end in
  opt (receiver_wake r) SysSync.semaphore_delete ;;;
  opt (sender_wake r) SysSync.semaphore_delete ;;;
  opt (mutex r) SysSync.mutex_delete.

(** The three native handles, the state and the cached parameters of
    [QueueInner]. *)
Record QueueInner : Type := mkInner {
  state_mutex : Z;
  sender_sem : Z;
  receiver_sem : Z;
  state : FreeRtosQueue.QueueState;
  capacity : Z;
  message_size : Z;
}.

Definition wake_max : Z := Z.min SysSync.max_semaphore_count (uint_max 32).

(** Leaving [new] early drops the resources, then the lease. *)
Definition undo (r : NativeQueueResources) : M (Backend.t K) () :=
  resources_drop r ;;; lease_drop.

Definition new (cap msg_size : Z) : M (Backend.t K) (Result QueueInner) :=
  _ <-? mret_ (Validation.validate_queue_capacity cap) ;;
  _ <-? mret_ (Validation.validate_queue_message_size msg_size) ;;
  buffer <-? mret_ (ByteQueue.new alloc cap msg_size) ;;
  _ <-? acquire_object ;;
  create_or_oom SysSync.mutex_create (undo (mkResources None None None)) (λ m,
  create_or_oom (SysSync.counting_semaphore_create wake_max 0) (undo (mkResources (Some m) None None)) (λ s,
  create_or_oom (SysSync.counting_semaphore_create wake_max 0) (undo (mkResources (Some m) (Some s) None)) (λ r,
  mret_ (Ok (mkInner m s r (FreeRtosQueue.initial_state buffer) cap msg_size))))).

(** [QueueInner::drop]: the assertions, then the natives, then the lease. *)
Definition drop (q : QueueInner) : M (Backend.t K) () :=
  mrun (FreeRtosQueue.drop_checks (state q)) ;;;
  on_native (SysSync.semaphore_delete (receiver_sem q)) ;;;
  on_native (SysSync.semaphore_delete (sender_sem q)) ;;;
  on_native (SysSync.mutex_delete (state_mutex q)) ;;;
  lease_drop.

(** [lock_state] and the release of its guard. *)
Definition lock_state (caps : option Sys.Capabilities) (fuel : nat) (state_mutex : Z)
    : M K (Result ()) :=
  t <- Wait.call_take (SysSync.mutex_take state_mutex) 0 ;;
  match t with
  | Sys.Acquired => mret_ (Ok ())
  | Sys.TakeTimeout =>
      _ <-? Wait.wait_native caps (SysSync.mutex_take state_mutex) fuel Timeout.Forever ;;
      mret_ (Ok ())
  | Sys.TakeInvalid => mpanic "FreeRTOS queue state mutex invalid on live queue"
  end.
Definition unlock_state (state_mutex : Z) : M K () :=
  g <- SysSync.mutex_give state_mutex ;;
  match g with
  | Sys.GiveOk => mret_ ()
  | _ => mpanic "FreeRTOS queue state mutex give failed"
  end.

End FreeRtosQueueNew.
End FreeRtosQueueNew.

(** ** Construction and destruction are balanced *)

Module Objects.
Section Objects.
Context `{Arch} {K : Type} `{Kernel K} `{!NativeObjects K} `{!NativeObjectsLaws K} (alloc : Z → bool).

Inductive ctor : Type :=
| CCounting (max_count initial_count : Z)
| CBinary
| CMutex (value : Z)
| CQueue (capacity msg_size : Z).

Inductive object : Type :=
| OSemaphore (s : FreeRtosSemaphore.inner)
| OMutex (m : FreeRtosMutex.inner (T:=Z))
| OQueue (q : FreeRtosQueueNew.QueueInner).

Definition construct (c : ctor) : M (Backend.t K) (Result object) :=
  match c with
  | CCounting m i => x <-? FreeRtosSemaphore.new m i ;; mret_ (Ok (OSemaphore x))
  | CBinary => x <-? FreeRtosSemaphore.binary_new ;; mret_ (Ok (OSemaphore x))
  | CMutex v => x <-? FreeRtosMutex.new v ;; mret_ (Ok (OMutex x))
  | CQueue c m => x <-? FreeRtosQueueNew.new alloc c m ;; mret_ (Ok (OQueue x))
  end.

Definition destroy (o : object) : M (Backend.t K) () :=
  match o with
  | OSemaphore x => FreeRtosSemaphore.drop x
  | OMutex x => FreeRtosMutex.drop x
  | OQueue x => FreeRtosQueueNew.drop x
  end.

(** The native objects of an object. *)
Definition handles (o : object) : list Z :=
  match o with
  | OSemaphore x => [FreeRtosSemaphore.native x]
  | OMutex x => [FreeRtosMutex.native x]
  | OQueue q => [FreeRtosQueueNew.receiver_sem q; FreeRtosQueueNew.sender_sem q;
                 FreeRtosQueueNew.state_mutex q]
  end.

(** The parameter checks that come before the lease. *)
Definition acceptable (c : ctor) : bool :=
  match c with
  | CCounting m i =>
      negb (m =? 0) && (i <=? m) && (m <=? SysSync.max_semaphore_count)
  | CBinary | CMutex _ => true
  | CQueue c m =>
      is_ok (Validation.validate_queue_capacity c) &&
      is_ok (Validation.validate_queue_message_size m) && is_ok (ByteQueue.new alloc c m)
  end.

#[local] Abbreviation own s := (owned (Backend.native s)).
#[local] Abbreviation life := Backend.life.

Definition creates (create : M K (option Z)) : Prop := ∀ k, ∃ o k', create k = Done (o, k') ∧
  match o with None => owned k' = owned k | Some h => (h ∉ owned k) ∧ owned k' = {[h]} ∪ owned k end.

Lemma mutex_creates : creates SysSync.mutex_create.
Proof.
  intros k. pose proof (law_mutex_create k) as L. unfold SysSync.mutex_create.
  destruct (osal_freertos_mutex_create k) as [o k']. exists o, k'. by destruct o.
Qed.
Lemma sem_creates m i : creates (SysSync.counting_semaphore_create m i).
Proof.
  intros k. pose proof (law_sem_create m i k) as L. unfold SysSync.counting_semaphore_create.
  destruct (osal_freertos_counting_semaphore_create m i k) as [o k']. exists o, k'. by destruct o.
Qed.
Lemma binary_creates : creates SysSync.binary_semaphore_create.
Proof.
  intros k. pose proof (law_binary_create k) as L. unfold SysSync.binary_semaphore_create.
  destruct (osal_freertos_binary_semaphore_create k) as [o k']. exists o, k'. by destruct o.
Qed.

Lemma create_cases {A} create undo (k : Z → M (Backend.t K) (Result A)) s :
  creates create →
  (∃ s1, life s1 = life s ∧ own s1 = own s ∧
     create_or_oom create undo k s = (undo ;;; mret_ (Err Error.OutOfMemory)) s1) ∨
  (∃ h s1, (h ∉ own s) ∧ life s1 = life s ∧ own s1 = {[h]} ∪ own s ∧
     create_or_oom create undo k s = k h s1).
Proof.
  intros C. destruct (C (Backend.native s)) as (o & k' & E & Ho). unfold create_or_oom.
  assert (on_native create s = Done (o, Backend.mk (life s) k')) as En
    by (unfold on_native, Backend.on_native; by rewrite E).
  rewrite (mbind_done _ _ _ _ _ En).
  destruct o as [h|]; [right; exists h|left]; exists (Backend.mk (life s) k'); [|done].
  destruct Ho. by split_and!.
Qed.

Ltac create_step E law h s1 F L O :=
  let E' := fresh in
  match type of E with _ = create_or_oom ?c ?u ?k ?s =>
    destruct (create_cases c u k s law) as [(s1 & L & O & E')|(h & s1 & F & L & O & E')];
    rewrite E' in E; clear E' end.

Lemma acquire_outcome st n (s : Backend.t K) :
  life s = RuntimeLifecycle.pack st n → 0 ≤ n ≤ RuntimeLifecycle.MAX_COUNT →
  acquire_object s = Done
    match st with
    | RuntimeState.Running =>
        if n <? RuntimeLifecycle.MAX_COUNT
        then (Ok (), Backend.mk (RuntimeLifecycle.pack RuntimeState.Running (n + 1)) (Backend.native s))
        else (Err Error.Overflow, s)
    | _ => (Err Error.NotInitialized, s)
    end.
Proof.
  intros El Hn. unfold acquire_object, Backend.acquire_object, Backend.on_life. rewrite El.
  rewrite (RuntimeLifecycle.run_loop_spec _ _ _ _ (RuntimeLifecycle.acquire_body_spec st n Hn)).
  destruct s as [w k]. simpl in *. subst w. destruct st; simpl; try done.
  by destruct (n <? _).
Qed.

Lemma lease_drop_outcome n (s : Backend.t K) :
  life s = RuntimeLifecycle.pack RuntimeState.Running (n + 1) →
  0 ≤ n < RuntimeLifecycle.MAX_COUNT →
  lease_drop s = Done ((), Backend.mk (RuntimeLifecycle.pack RuntimeState.Running n) (Backend.native s)).
Proof.
  intros El Hn. unfold lease_drop, Backend.lease_drop, Backend.on_life, mbind_. rewrite El.
  assert (0 < n + 1 ≤ RuntimeLifecycle.MAX_COUNT) as Hn' by lia.
  rewrite (RuntimeLifecycle.run_loop_spec _ _ _ _ (RuntimeLifecycle.lease_drop_body_spec _ Hn')).
  simpl. by rewrite Z.add_simpl_r.
Qed.

Lemma delete_outcome (del : Z → M K ()) h (s : Backend.t K) :
  del = SysSync.semaphore_delete ∨ del = SysSync.mutex_delete →
  ∃ s', on_native (del h) s = Done ((), s') ∧ life s' = life s ∧ own s' = own s ∖ {[h]}.
Proof.
  intros [-> | ->]; eexists; (split; [done|]); (split; [done|]); simpl;
    [apply law_sem_delete|apply law_mutex_delete].
Qed.

(** What a constructor may do from lease count [n + 1] on: fail and undo, or
    build an object from fresh natives. *)
Definition builds (n : Z) (s0 s : Backend.t K) (m : M (Backend.t K) (Result object)) : Prop :=
  (∃ s', m s = Done (Err Error.OutOfMemory, s') ∧
     life s' = RuntimeLifecycle.pack RuntimeState.Running n ∧ own s' = own s0) ∨
  (∃ o s', m s = Done (Ok o, s') ∧
     life s' = RuntimeLifecycle.pack RuntimeState.Running (n + 1) ∧
     NoDup (handles o) ∧ (∀ h, h ∈ handles o → h ∉ own s0) ∧
     own s' = list_to_set (handles o) ∪ own s0 ∧
     ∃ s'', destroy o s' = Done ((), s'') ∧
       life s'' = RuntimeLifecycle.pack RuntimeState.Running n ∧ own s'' = own s0).

Lemma single_builds {A} n create del (g : Z → A) (f : A → object) s :
  creates create → del = SysSync.semaphore_delete ∨ del = SysSync.mutex_delete →
  (∀ h, handles (f (g h)) = [h]) → (∀ h, destroy (f (g h)) = (on_native (del h) ;;; lease_drop)) →
  life s = RuntimeLifecycle.pack RuntimeState.Running (n + 1) → 0 ≤ n < RuntimeLifecycle.MAX_COUNT →
  builds n s s (mtry (λ x, mret_ (Ok (f x))) (create_or_oom create lease_drop (λ h, mret_ (Ok (g h))))).
Proof.
  intros C Hdel Hh Hd El Hn.
  destruct (create_cases create lease_drop (λ h, mret_ (Ok (g h))) s C)
    as [(s1 & El1 & Eo1 & E)|(h & s1 & Hf & El1 & Eo1 & E)]; rewrite El in El1.
  - left. rewrite (mbind_done _ _ _ _ _ (lease_drop_outcome n s1 El1 Hn)) in E.
    eexists. split; [by apply (mtry_err _ _ _ _ _ E)|done].
  - right. exists (f (g h)), s1. split; [by rewrite (mtry_ok _ _ _ _ _ E)|]. split; [done|].
    rewrite Hh. split; [apply NoDup_singleton|].
    split; [by intros h' ->%list_elem_of_singleton|]. split; [rewrite Eo1; set_solver|].
    destruct (delete_outcome del h s1 Hdel) as (s2 & E2 & El2 & Eo2). rewrite El1 in El2.
    eexists. rewrite Hd, (mbind_done _ _ _ _ _ E2), (lease_drop_outcome n s2 El2 Hn).
    split; [done|]. split; [done|]. simpl. rewrite Eo2, Eo1. set_solver.
Qed.

(** Undoing a half-built queue. *)
Lemma delete_opt (del : Z → M K ()) (o : option Z) (s : Backend.t K) :
  del = SysSync.semaphore_delete ∨ del = SysSync.mutex_delete →
  ∃ s', (match o with Some h => on_native (del h) | None => mret_ () end) s = Done ((), s') ∧
        life s' = life s ∧ own s' = own s ∖ list_to_set (option_list o).
Proof.
  intros Hd. destruct o as [h|]; simpl.
  - destruct (delete_outcome del h s Hd) as (s' & E & El & Eo). exists s'. split_and!; [done..|set_solver].
  - exists s. split_and!; [done..|set_solver].
Qed.

Lemma undo_outcome n m sd rv (s : Backend.t K) :
  life s = RuntimeLifecycle.pack RuntimeState.Running (n + 1) → 0 ≤ n < RuntimeLifecycle.MAX_COUNT →
  ∃ s', FreeRtosQueueNew.undo (FreeRtosQueueNew.mkResources m sd rv) s = Done ((), s') ∧
    life s' = RuntimeLifecycle.pack RuntimeState.Running n ∧
    own s' = own s ∖ (list_to_set (option_list m ++ option_list sd ++ option_list rv)).
Proof.
  intros El Hn.
  destruct (delete_opt SysSync.semaphore_delete rv s (or_introl eq_refl)) as (s1 & E1 & L1 & O1).
  destruct (delete_opt SysSync.semaphore_delete sd s1 (or_introl eq_refl)) as (s2 & E2 & L2 & O2).
  destruct (delete_opt SysSync.mutex_delete m s2 (or_intror eq_refl)) as (s3 & E3 & L3 & O3).
  assert (life s3 = RuntimeLifecycle.pack RuntimeState.Running (n + 1)) as L by congruence.
  assert (FreeRtosQueueNew.resources_drop (FreeRtosQueueNew.mkResources m sd rv) s = Done ((), s3)) as Er.
  { unfold FreeRtosQueueNew.resources_drop. simpl.
    rewrite (mbind_done _ _ _ _ _ E1), (mbind_done _ _ _ _ _ E2). exact E3. }
  eexists. unfold FreeRtosQueueNew.undo.
  rewrite (mbind_done _ _ _ _ _ Er), (lease_drop_outcome n s3 L Hn).
  split; [done|]. split; [done|]. simpl. rewrite O3, O2, O1. set_solver.
Qed.

(** Sets of up to three fresh handles. *)
Lemma fresh1 (A : gset Z) h1 : h1 ∉ A → ({[h1]} ∪ A) ∖ list_to_set [h1] = A.
Proof. set_solver. Qed.
Lemma fresh2 (A : gset Z) h1 h2 :
  h1 ∉ A → h2 ∉ ({[h1]} ∪ A) → ({[h2]} ∪ ({[h1]} ∪ A)) ∖ list_to_set [h1; h2] = A.
Proof. set_solver. Qed.
Lemma fresh3 (A : gset Z) h1 h2 h3 :
  h1 ∉ A → h2 ∉ ({[h1]} ∪ A) → h3 ∉ ({[h2]} ∪ ({[h1]} ∪ A)) →
  NoDup [h3; h2; h1] ∧ (∀ h, h ∈ [h3; h2; h1] → h ∉ A) ∧
  {[h3]} ∪ ({[h2]} ∪ ({[h1]} ∪ A)) = list_to_set [h3; h2; h1] ∪ A ∧
  (({[h3]} ∪ ({[h2]} ∪ ({[h1]} ∪ A))) ∖ {[h3]}) ∖ {[h2]} ∖ {[h1]} = A.
Proof.
  intros. split; [|split; [|split]]; [|set_solver..].
  rewrite !NoDup_cons. split_and!; [set_solver..|apply NoDup_nil_2].
Qed.

Lemma queue_builds n b c m s :
  life s = RuntimeLifecycle.pack RuntimeState.Running (n + 1) → 0 ≤ n < RuntimeLifecycle.MAX_COUNT →
  builds n s s (mtry (λ x, mret_ (Ok (OQueue x)))
    (create_or_oom SysSync.mutex_create
       (FreeRtosQueueNew.undo (FreeRtosQueueNew.mkResources None None None)) (λ mx,
     create_or_oom (SysSync.counting_semaphore_create FreeRtosQueueNew.wake_max 0)
       (FreeRtosQueueNew.undo (FreeRtosQueueNew.mkResources (Some mx) None None)) (λ sd,
     create_or_oom (SysSync.counting_semaphore_create FreeRtosQueueNew.wake_max 0)
       (FreeRtosQueueNew.undo (FreeRtosQueueNew.mkResources (Some mx) (Some sd) None)) (λ rv,
     mret_ (Ok (FreeRtosQueueNew.mkInner mx sd rv (FreeRtosQueue.initial_state b) c m))))))).
Proof.
  intros El Hn. unfold builds.
  match goal with |- context [mtry ?k ?m] => set (kk := k); set (mm := m) end.
  assert (Hfail : ∀ s1 o1 o2 o3, mm s = (FreeRtosQueueNew.undo (FreeRtosQueueNew.mkResources o1 o2 o3) ;;;
      mret_ (Err Error.OutOfMemory)) s1 → life s1 = life s →
      own s1 ∖ (list_to_set (option_list o1 ++ option_list o2 ++ option_list o3)) = own s →
    ∃ s', mtry kk mm s = Done (Err Error.OutOfMemory, s') ∧
      life s' = RuntimeLifecycle.pack RuntimeState.Running n ∧ own s' = own s).
  { intros s1 o1 o2 o3 E L O. rewrite El in L.
    destruct (undo_outcome n o1 o2 o3 s1 L Hn) as (s2 & E2 & L2 & O2).
    rewrite (mbind_done _ _ _ _ _ E2) in E. exists s2.
    split; [by apply mtry_err|]. split; [done|]. by rewrite O2. }
  assert (mm s = mm s) as E1 by done. unfold mm in E1 at 2.
  create_step E1 mutex_creates h1 s1 F1 L1 O1.
  { left. eapply (Hfail _ None None None); [exact E1|done|]. simpl. by rewrite O1, difference_empty_L. }
  create_step E1 (sem_creates FreeRtosQueueNew.wake_max 0) h2 s2 F2 L2 O2.
  { left. eapply (Hfail _ (Some h1) None None); [exact E1|congruence|]. rewrite O2, O1. by apply fresh1. }
  create_step E1 (sem_creates FreeRtosQueueNew.wake_max 0) h3 s3 F3 L3 O3.
  { left. eapply (Hfail _ (Some h1) (Some h2) None); [exact E1|congruence|].
    rewrite O3, O2, O1. rewrite O1 in F2. by apply fresh2. }
  right. rewrite (mtry_ok _ _ _ _ _ E1). eexists _, s3. split; [done|]. split; [congruence|].
  rewrite O2, O1 in *. destruct (fresh3 (own s) h1 h2 h3 F1 F2 F3) as (Hnd & Hfr & Hu & Hd).
  split; [exact Hnd|]. split; [exact Hfr|]. split; [by rewrite O3|].
  simpl. unfold FreeRtosQueueNew.drop. simpl.
  destruct (delete_outcome SysSync.semaphore_delete h3 s3 (or_introl eq_refl)) as (t1 & D1 & M1 & N1).
  destruct (delete_outcome SysSync.semaphore_delete h2 t1 (or_introl eq_refl)) as (t2 & D2 & M2 & N2).
  destruct (delete_outcome SysSync.mutex_delete h1 t2 (or_intror eq_refl)) as (t3 & D3 & M3 & N3).
  assert (life t3 = RuntimeLifecycle.pack RuntimeState.Running (n + 1)) as L by congruence.
  eexists. erewrite mbind_done by done.
  rewrite (mbind_done _ _ _ _ _ D1), (mbind_done _ _ _ _ _ D2), (mbind_done _ _ _ _ _ D3).
  rewrite (lease_drop_outcome n t3 L Hn). split; [done|]. split; [done|]. cbn.
  by rewrite N3, N2, N1, O3.
Qed.

(** Every constructor checks its parameters, takes a lease, then builds. *)
Lemma construct_refused c s : acceptable c = false → ∃ e, construct c s = Done (Err e, s).
Proof.
  destruct c as [m i| |v|cp ms]; simpl; intros A; try done.
  - unfold FreeRtosSemaphore.new. destruct (m =? 0) eqn:E1; [by eexists|].
    destruct (m <? i) eqn:E2; [by eexists|].
    destruct (SysSync.max_semaphore_count <? m) eqn:E3; [by eexists|].
    rewrite (proj2 (Z.leb_le i m)), (proj2 (Z.leb_le m _)) in A; bool_to_prop; done.
  - unfold FreeRtosQueueNew.new, mtry, mbind_, mret_. simpl.
    destruct (Validation.validate_queue_capacity cp); simpl in *; [|by eexists].
    destruct (Validation.validate_queue_message_size ms); simpl in *; [|by eexists].
    destruct (ByteQueue.new alloc cp ms); simpl in *; [done|by eexists].
Qed.

(** [x <-? (_ <-? acquire_object ;; body) ;; k]: the lease comes first. *)
Lemma leased_err {A} (body : M (Backend.t K) (Result A)) (k : A → M (Backend.t K) (Result object)) s e :
  acquire_object s = Done (Err e, s) → mtry k (mtry (λ _, body) acquire_object) s = Done (Err e, s).
Proof. intros E. apply mtry_err. by apply mtry_err. Qed.

Lemma leased_ok {A} (body : M (Backend.t K) (Result A)) (k : A → M (Backend.t K) (Result object)) s s1 :
  acquire_object s = Done (Ok (), s1) → mtry k (mtry (λ _, body) acquire_object) s = mtry k body s1.
Proof. intros E. unfold mtry at 1 3, mbind_. by rewrite (mtry_ok _ _ _ _ _ E). Qed.

Lemma construct_leased c : acceptable c = true →
  ∃ A (body : M (Backend.t K) (Result A)) k,
    (∀ s, construct c s = mtry k (mtry (λ _, body) acquire_object) s) ∧
    ∀ n s, life s = RuntimeLifecycle.pack RuntimeState.Running (n + 1) →
      0 ≤ n < RuntimeLifecycle.MAX_COUNT → builds n s s (mtry k body).
Proof.
  destruct c as [m i| |v|cp ms]; simpl; intros A.
  - bool_to_prop. eexists _, _, _. split.
    + intros s. unfold FreeRtosSemaphore.new. zb. done.
    + intros n s El Hn. by eapply single_builds; [apply sem_creates|by left|..].
  - eexists _, _, _. split; [done|]. intros n s El Hn.
    by eapply single_builds; [apply binary_creates|by left|..].
  - eexists _, _, _. split; [done|]. intros n s El Hn.
    by eapply single_builds; [apply mutex_creates|by right|..].
  - destruct (Validation.validate_queue_capacity cp) as [[]|] eqn:E1; simpl in A; [|done].
    destruct (Validation.validate_queue_message_size ms) as [[]|] eqn:E2; simpl in A; [|done].
    destruct (ByteQueue.new alloc cp ms) as [b|] eqn:E3; simpl in A; [|done].
    eexists _, _, _. split.
    + intros s. unfold FreeRtosQueueNew.new. rewrite E1, E2, E3. done.
    + intros n s El Hn. by apply queue_builds.
Qed.

(** C35: Every constructor of the FreeRTOS backend (counting and binary
    semaphore, mutex, queue), whatever native allocation fails: an [Err] leaves
    the active-object count and the set of native objects as they were; an
    [Ok] takes exactly one lease and fresh, distinct native objects, and
    dropping the object returns all of them. *)
Theorem freertos_construction_balanced c st n s :
  Backend.life s = RuntimeLifecycle.pack st n → 0 ≤ n ≤ RuntimeLifecycle.MAX_COUNT →
  (∃ e s', construct c s = Done (Err e, s') ∧
     Backend.life s' = RuntimeLifecycle.pack st n ∧
     owned (Backend.native s') = owned (Backend.native s)) ∨
  (st = RuntimeState.Running ∧ n < RuntimeLifecycle.MAX_COUNT ∧ acceptable c = true ∧
   ∃ o s', construct c s = Done (Ok o, s') ∧
     Backend.life s' = RuntimeLifecycle.pack st (n + 1) ∧
     NoDup (handles o) ∧ (∀ h, h ∈ handles o → h ∉ owned (Backend.native s)) ∧
     owned (Backend.native s') = list_to_set (handles o) ∪ owned (Backend.native s) ∧
     ∃ s'', destroy o s' = Done ((), s'') ∧
       Backend.life s'' = RuntimeLifecycle.pack st n ∧
       owned (Backend.native s'') = owned (Backend.native s)).
Proof.
  intros El Hn. destruct (acceptable c) eqn:A.
  2: { left. destruct (construct_refused c s A) as [e E]. by exists e, s. }
  destruct (construct_leased c A) as (T & body & k & Ec & Hb). rewrite Ec.
  pose proof (acquire_outcome st n s El Hn) as Ea.
  destruct st; try (left; rewrite (leased_err _ _ _ _ Ea); by eauto).
  destruct (n <? RuntimeLifecycle.MAX_COUNT) eqn:Hm;
    [|left; rewrite (leased_err _ _ _ _ Ea); by eauto]. bool_to_prop.
  rewrite (leased_ok _ _ _ _ Ea).
  match type of Ea with _ = Done (_, ?s1) => destruct (Hb n s1) as [(s' & E & L & O)|(o & s' & E & L & R)] end;
    [done|lia| |].
  - left. by exists Error.OutOfMemory, s'.
  - right. split; [done|]. split; [done|]. split; [done|]. by exists o, s'.
Qed.

End Objects.
End Objects.

(** ** Any number of tasks on one mutex *)

(** The native mutex of one [FreeRtosMutex]: who holds it, and the calls that
    do not block (a blocking take that succeeds has the effect of [take0]). *)
Class NativeMutex (N : Type) := {
  holder : N → option Z;
  mutex_take0 : Z → N → Sys.TakeStatus * N;
  mutex_give0 : Z → N → Sys.GiveStatus * N;
}.

Class NativeMutexLaws (N : Type) `{NativeMutex N} := {
  law_lock_free : ∀ t n, holder n = None →
    fst (mutex_take0 t n) = Sys.Acquired ∧ holder (snd (mutex_take0 t n)) = Some t;
  (** a held mutex is not taken, not even by its holder *)
  law_lock_held : ∀ t n u, holder n = Some u → mutex_take0 t n = (Sys.TakeTimeout, n);
  law_give_held : ∀ t n, holder n = Some t →
    fst (mutex_give0 t n) = Sys.GiveOk ∧ holder (snd (mutex_give0 t n)) = None;
}.

Module MutexMachine.
Section MutexMachine.
Context {T N : Type} `{NativeMutexLaws N}.
Abbreviation inner := (FreeRtosMutex.inner (T:=T)).

(** Where a task stands: outside, waiting in [lock], between the native and
    the spin lock, holding the guard, between the two releases. *)
Inductive phase : Type :=
| Outside
| Waiting (timeout : Timeout.t)
| Taken (timeout : Timeout.t)
| Holding
| Releasing.

Definition inside (p : phase) : bool :=
  match p with Taken _ | Holding | Releasing => true | _ => false end.
Definition holding (p : phase) : bool := match p with Holding => true | _ => false end.

Record config : Type := mkConfig {
  native : N;
  mutex : inner;
  phases : gmap Z phase;
  failures : list (Z * Error.t);  (** the errors [lock] returned *)
}.

Definition phase_of (c : config) (t : Z) : phase := default Outside (phases c !! t).

Inductive event : Type :=
| Lock (t : Z) (timeout : Timeout.t)
| Acquire (t : Z)
| GiveUp (t : Z)
| Spin (t : Z)
| Access (t : Z) (f : T → T)
| DropSpin (t : Z)
| DropNative (t : Z).

Definition move (c : config) (n : N) (m : inner) (t : Z) (p : phase) (l : list (Z * Error.t)) : config :=
  mkConfig n m (<[t:=p]> (phases c)) (failures c ++ l).

Definition exec (c : config) (e : event) : option (Run config) :=
  match e with
  | Lock t timeout =>
      match phase_of c t with
      | Outside => Some (Done (move c (native c) (mutex c) t (Waiting timeout) []))
      | _ => None
      end
  | Acquire t =>
      match phase_of c t, mutex_take0 t (native c) with
      | Waiting timeout, (Sys.Acquired, n) => Some (Done (move c n (mutex c) t (Taken timeout) []))
      | _, _ => None
      end
  | GiveUp t =>
      match phase_of c t with
      | Waiting (Timeout.NoWait as timeout) | Waiting (Timeout.After _ as timeout) => Some (
          '(r, m) ← FreeRtosMutex.lock_result timeout Wait.Unavailable (mutex c);
          Done (move c (native c) m t Outside (match r with Ok _ => [] | Err e => [(t, e)] end)))
      | _ => None
      end
  | Spin t =>
      match phase_of c t with
      | Taken timeout => Some (
          '(r, m) ← FreeRtosMutex.lock_result timeout Wait.Acquired (mutex c);
          Done (move c (native c) m t Holding (match r with Ok _ => [] | Err e => [(t, e)] end)))
      | _ => None
      end
  | Access t f =>
      match phase_of c t with
      | Holding => Some (Done (move c (native c) (FreeRtosMutex.deref_mut (mutex c) f) t Holding []))
      | _ => None
      end
  | DropSpin t =>
      match phase_of c t with
      | Holding => Some (Done (move c (native c) (FreeRtosMutex.release_spin (mutex c)) t Releasing []))
      | _ => None
      end
  | DropNative t =>
      match phase_of c t, mutex_give0 t (native c) with
      | Releasing, (Sys.GiveOk, n) => Some (Done (move c n (mutex c) t Outside []))
      | Releasing, (_, _) => Some (Panic "FreeRTOS mutex give failed after guard release")
      | _, _ => None
      end
  end.

Inductive reachable (n : N) (m : inner) : config → Prop :=
| mm_init : reachable n m (mkConfig n m ∅ [])
| mm_step c e c' : reachable n m c → exec c e = Some (Done c') → reachable n m c'.

Record inv (c : config) : Prop := {
  inv_inside : ∀ t, inside (phase_of c t) = true ↔ holder (native c) = Some t;
  inv_spin : FreeRtosMutex.spin_locked (mutex c) = true ↔ ∃ t, holding (phase_of c t) = true;
}.

Lemma phase_move c n m t p l u :
  phase_of (move c n m t p l) u = if decide (t = u) then p else phase_of c u.
Proof. unfold phase_of, move. simpl. case_decide; subst; by simplify_map_eq. Qed.

(** A task moves: the others keep their places. *)
Lemma inv_move c n m t p l :
  inv c →
  (inside p = true → holder n = Some t) → (holder n = Some t → inside p = true) →
  (∀ u, u ≠ t → holder n = Some u ↔ holder (native c) = Some u) →
  (FreeRtosMutex.spin_locked m = true ↔
     holding p = true ∨ ∃ u, u ≠ t ∧ holding (phase_of c u) = true) →
  inv (move c n m t p l).
Proof.
  intros [Hi Hs] H1 H2 H3 H4. split.
  - intros u. rewrite phase_move. case_decide as E; subst; [by split; auto|].
    rewrite Hi. by rewrite (H3 u) by done.
  - simpl. rewrite H4. split.
    + intros [Hp|(u & Hu & Hp)]; [exists t|exists u]; rewrite phase_move; by case_decide.
    + intros [u Hu]. rewrite phase_move in Hu. case_decide; [by left|]. right. by exists u.
Qed.

Lemma holding_inside p : holding p = true → inside p = true.
Proof. by destruct p. Qed.

(** While [t] is inside, no other task holds. *)
Lemma others_out c t u :
  inv c → inside (phase_of c t) = true → u ≠ t → holding (phase_of c u) = true → False.
Proof.
  intros [Hi _] Ht Hu Hp. apply holding_inside, Hi in Hp. apply Hi in Ht. congruence.
Qed.

Lemma spin_elsewhere c t :
  inv c → holding (phase_of c t) = false →
  FreeRtosMutex.spin_locked (mutex c) = true ↔
    False ∨ ∃ u, u ≠ t ∧ holding (phase_of c u) = true.
Proof.
  intros I Ht. rewrite (inv_spin c I). split.
  - intros [u Hu]. right. exists u. split; [congruence|done].
  - intros [[]|(u & _ & Hu)]. by exists u.
Qed.

(** A move that changes neither lock nor whether the task is inside. *)
Lemma inv_outside_move c t p l :
  inv c → inside (phase_of c t) = false → inside p = false → inv (move c (native c) (mutex c) t p l).
Proof.
  intros I Ho Hp. pose proof (inv_inside c I t) as Hi. rewrite Ho in Hi.
  assert (holding (phase_of c t) = false) as Hh.
  { destruct (holding (phase_of c t)) eqn:E; [|done]. apply holding_inside in E. congruence. }
  assert (holding p = false) as Hhp.
  { destruct (holding p) eqn:E; [|done]. apply holding_inside in E. congruence. }
  apply inv_move; [done| |by intros ?%Hi|done|].
  - congruence.
  - rewrite (spin_elsewhere c t I Hh), Hhp. split; intros [?|?]; auto; done.
Qed.

(** A move of the task inside, after which it holds the spin lock or not. *)
Lemma inv_inside_move c m t p l :
  inv c → inside (phase_of c t) = true → inside p = true →
  FreeRtosMutex.spin_locked m = holding p → inv (move c (native c) m t p l).
Proof.
  intros I Hin Hp Hm. apply inv_move; [done|by intros _; apply (inv_inside c I)|done|done|].
  rewrite Hm. split; [by left|]. intros [?|(u & Hu & Hh)]; [done|].
  exfalso. by apply (others_out c t u).
Qed.

Lemma not_locked_before_spin c t :
  inv c → inside (phase_of c t) = true → holding (phase_of c t) = false →
  FreeRtosMutex.spin_locked (mutex c) = false.
Proof.
  intros I Hin Hh. destruct (FreeRtosMutex.spin_locked (mutex c)) eqn:E; [|done].
  apply (inv_spin c I) in E as [u Hu]. destruct (decide (u = t)); [congruence|].
  exfalso. by apply (others_out c t u).
Qed.

Lemma mutex_exec_inv c e : inv c → exec c e = None ∨ ∃ c', exec c e = Some (Done c') ∧ inv c'.
Proof.
  intros I. destruct e as [t to|t|t|t|t f|t|t]; simpl; destruct (phase_of c t) as [|to'|to'| |] eqn:P;
    try (by left).
  - right. eexists. split; [done|]. apply inv_outside_move; by rewrite ?P.
  - destruct (mutex_take0 t (native c)) as [[] n] eqn:E; try (by left). right. eexists. split; [done|].
    pose proof (inv_inside c I t) as Hi. rewrite P in Hi.
    destruct (holder (native c)) as [u|] eqn:Eh.
    { by rewrite (law_lock_held t _ u Eh) in E. }
    destruct (law_lock_free t _ Eh) as [_ Hn]. rewrite E in Hn. simpl in Hn.
    apply inv_move; [done|done|done| |].
    + intros u Hu. rewrite Hn. split; [intros [= ->]; done|congruence].
    + rewrite (spin_elsewhere c t I) by by rewrite P. split; intros [?|?]; auto; done.
  - destruct to'; [right..|by left]; simpl; eexists; (split; [done|]);
      apply inv_outside_move; by rewrite ?P.
  - right. pose proof (not_locked_before_spin c t I) as Hs. rewrite P in Hs.
    unfold FreeRtosMutex.take_spin. rewrite Hs by done. simpl. eexists. split; [done|].
    apply inv_inside_move; by rewrite ?P.
  - right. eexists. split; [done|]. apply inv_inside_move; rewrite ?P; try done. simpl.
    apply (inv_spin c I). exists t. by rewrite P.
  - right. eexists. split; [done|]. apply inv_inside_move; by rewrite ?P.
  - right. assert (holder (native c) = Some t) as Eh by (apply (inv_inside c I); by rewrite P).
    destruct (law_give_held t _ Eh) as [Eg Hn]. destruct (mutex_give0 t (native c)) as [g n].
    simpl in *. subst g. eexists. split; [done|]. apply inv_move; [done|done|congruence| |].
    + intros u Hu. rewrite Hn, Eh. split; congruence.
    + rewrite (not_locked_before_spin c t I) by by rewrite P. split; [done|].
      intros [?|(u & Hu & Hh)]; [done|]. exfalso. apply (others_out c t u); by rewrite ?P.
Qed.

Lemma reachable_mutex_inv n m c :
  holder n = None → FreeRtosMutex.spin_locked m = false → reachable n m c → inv c.
Proof.
  intros Hn Hm R. induction R as [|c e c' _ IH E].
  - split; simpl.
    + intros t. unfold phase_of. simpl. rewrite lookup_empty, Hn. by split.
    + rewrite Hm. split; [done|]. intros [t Ht]. unfold phase_of in Ht. simpl in Ht.
      by rewrite lookup_empty in Ht.
  - destruct (mutex_exec_inv c e IH) as [E'|(c1 & E' & I)]; rewrite E' in E; [done|]. by injection E as <-.
Qed.

(** C21: Any number of tasks that lock a fresh mutex, access its value through
    their guards, give up and drop their guards, in any interleaving: no panic
    (the inner [spin::Mutex] is never found locked after the native take, the
    native give on drop never fails), never two tasks between the native take
    and the native give, and only a task that holds its guard has the spin
    lock. *)
Theorem freertos_mutex_exclusive n m c :
  holder n = None → FreeRtosMutex.spin_locked m = false → reachable n m c →
  (∀ e, exec c e = None ∨ ∃ c', exec c e = Some (Done c')) ∧
  (∀ t u, inside (phase_of c t) = true → inside (phase_of c u) = true → t = u) ∧
  (FreeRtosMutex.spin_locked (mutex c) = true ↔ ∃ t, phase_of c t = Holding).
Proof.
  intros Hn Hm R. pose proof (reachable_mutex_inv n m c Hn Hm R) as I. split_and!.
  - intros e. destruct (mutex_exec_inv c e I) as [|(c' & ? & _)]; eauto.
  - intros t u Ht%(inv_inside c I) Hu%(inv_inside c I). congruence.
  - rewrite (inv_spin c I). by split; intros [t Ht]; exists t; destruct (phase_of c t).
Qed.

Fixpoint exec_all (c : config) (es : list event) : option config :=
  match es with
  | [] => Some c
  | e :: es => match exec c e with Some (Done c') => exec_all c' es | _ => None end
  end.

Lemma exec_all_mutex n m es : ∀ c c', reachable n m c → exec_all c es = Some c' → reachable n m c'.
Proof.
  induction es as [|e es IH]; intros c c' R E; simpl in E; [by simplify_eq|].
  destruct (exec c e) as [[c1| |]|] eqn:Ex; try done. eapply IH; [|done]. by eapply mm_step.
Qed.

End MutexMachine.
End MutexMachine.

(** ** Witnesses *)

Module SyncWitness.
#[local] Existing Instance arch32.
#[local] Existing Instance VirtualKernel.kernel.

(** Handles come from a counter; the kernel state is the time, the next handle
    and the live handles; every third creation fails. *)
Record vk : Type := mkVk { vtime : Z; next : Z; alive : gset Z }.

Definition vcreate (k : vk) : option Z * vk :=
  if next k mod 3 =? 2 then (None, mkVk (vtime k) (next k + 1) (alive k))
  else (Some (fresh (alive k)), mkVk (vtime k) (next k + 1) ({[fresh (alive k)]} ∪ alive k)).
Definition vdelete (h : Z) (k : vk) : vk := mkVk (vtime k) (next k) (alive k ∖ {[h]}).

#[global] Instance vk_kernel : Kernel vk := {|
  osal_freertos_probe_capabilities := VirtualKernel.raw_caps;
  osal_freertos_max_finite_delay_ticks := 2 ^ 32 - 2;
  osal_freertos_scheduler_state := λ k, (Sys.SCHEDULER_RUNNING, k);
  osal_freertos_tick_snapshot := λ k,
    (TickTime.mkSnapshot (vtime k / 2 ^ 32) (vtime k mod 2 ^ 32), k);
  osal_freertos_delay_ticks := λ n k, (Sys.DELAY_OK, mkVk (vtime k + n) (next k) (alive k));
|}.

#[global] Instance vk_objects : NativeObjects vk := {|
  osal_freertos_max_semaphore_count := 2 ^ 32 - 1;
  osal_freertos_mutex_create := vcreate;
  osal_freertos_mutex_take := λ _ _ k, (Sys.TAKE_ACQUIRED, k);
  osal_freertos_mutex_give := λ _ k, (Sys.GIVE_OK, k);
  osal_freertos_mutex_delete := vdelete;
  osal_freertos_counting_semaphore_create := λ _ _, vcreate;
  osal_freertos_binary_semaphore_create := vcreate;
  osal_freertos_semaphore_take := λ _ _ k, (Sys.TAKE_ACQUIRED, k);
  osal_freertos_semaphore_give := λ _ k, (Sys.GIVE_OK, k);
  osal_freertos_semaphore_count := λ _ k, (0, k);
  osal_freertos_semaphore_delete := vdelete;
|}.

Lemma vcreate_law k : match vcreate k with
  | (None, k') => alive k' = alive k
  | (Some h, k') => (h ∉ alive k) ∧ alive k' = {[h]} ∪ alive k end.
Proof. unfold vcreate. destruct (_ =? _); [done|]. split; [apply is_fresh|done]. Qed.

#[global] Instance vk_laws : NativeObjectsLaws vk.
Proof. refine {| owned := alive |}; intros; [apply vcreate_law..| |]; done. Defined.

Definition backend0 : Backend.t vk :=
  Backend.mk (RuntimeLifecycle.pack RuntimeState.Running 0) (mkVk 0 0 ∅).

(** The third native creation of a queue fails: the first two are undone. *)
Lemma freertos_construction_balanced_witness :
  ∃ e s', Objects.construct (λ _, true) (Objects.CQueue 2 4) backend0 = Done (Err e, s') ∧
    Backend.life s' = Backend.life backend0 ∧ owned (Backend.native s') = ∅.
Proof.
  destruct (Objects.freertos_construction_balanced (λ _, true) (Objects.CQueue 2 4)
    RuntimeState.Running 0 backend0) as [(e & s' & E & L & O)|(_ & _ & _ & o & s' & E & _)].
  - reflexivity.
  - vm_compute. split; discriminate.
  - exists e, s'. split; [exact E|]. split; [exact L|exact O].
  - exfalso. vm_compute in E. discriminate E.
Defined.

#[global] Instance plain_mutex : NativeMutex (option Z) := {|
  holder := λ n, n;
  mutex_take0 := λ t n, match n with None => (Sys.Acquired, Some t) | Some _ => (Sys.TakeTimeout, n) end;
  mutex_give0 := λ t n, if bool_decide (n = Some t) then (Sys.GiveOk, None) else (Sys.GiveFull, n);
|}.
#[global] Instance plain_mutex_laws : NativeMutexLaws (option Z).
Proof. split; simpl; intros t n; [by intros ->|by intros u ->|by intros ->; rewrite bool_decide_true]. Qed.

(** Task 1 holds its guard while task 2 gives up. *)
Definition mutex_cell : FreeRtosMutex.inner (T:=Z) := FreeRtosMutex.mkInner 1 false 5.
Definition fresh_mutex : MutexMachine.config (T:=Z) (N:=option Z) :=
  MutexMachine.mkConfig None mutex_cell ∅ [].
Definition contention : list (MutexMachine.event (T:=Z)) :=
  [MutexMachine.Lock 1 Timeout.Forever; MutexMachine.Acquire 1; MutexMachine.Spin 1;
   MutexMachine.Lock 2 Timeout.NoWait; MutexMachine.GiveUp 2].
Definition contended : MutexMachine.config (T:=Z) (N:=option Z) :=
  default fresh_mutex (MutexMachine.exec_all fresh_mutex contention).

Lemma contended_reachable : MutexMachine.reachable None mutex_cell contended.
Proof.
  apply (MutexMachine.exec_all_mutex _ _ contention fresh_mutex); [apply MutexMachine.mm_init|].
  vm_compute. reflexivity.
Qed.

Lemma freertos_mutex_exclusive_witness :
  (∃ t, MutexMachine.phase_of contended t = MutexMachine.Holding) ∧
  MutexMachine.inside (MutexMachine.phase_of contended 2) = false.
Proof.
  destruct (MutexMachine.freertos_mutex_exclusive (N:=option Z) None mutex_cell contended)
    as (_ & Hex & Hspin).
  - reflexivity.
  - reflexivity.
  - exact contended_reachable.
  - split; [apply Hspin; vm_compute; reflexivity|].
    destruct (MutexMachine.inside (MutexMachine.phase_of contended 2)) eqn:E; [|reflexivity].
    specialize (Hex 1 2). rewrite E in Hex. discriminate Hex; reflexivity.
Defined.

End SyncWitness.
