(* ===== verification/FreeRtosRuntime.v ===== *)
(** * Start and stop of the FreeRTOS backend

    [crates/osal-backend-freertos/src/runtime.rs]: the lifecycle word, the cached
    kernel capabilities and the calls of [initialize] and [shutdown] under way.
    The timer service they start and stop is a parameter of the step: it returns
    some result at some time ([timer_returned]). *)

From S2P Require Import Prelude Api Runtime Kernel.
Import RuntimeLifecycle (run_loop, acquire_body, lease_drop_body, begin_shutdown_body,
  begin_initialize, commit_initialize, drop_initialize, commit_shutdown, drop_shutdown, pack, MAX_COUNT).

Module FreeRtosRuntime.
Section FreeRtosRuntime.
Context `{Arch} (probed : Sys.Capabilities).

(** A call under way, by its next step. *)
Inductive transition : Type :=
| InitTimer | InitCaps | InitCommit | InitAbort
| ShutTimer | ShutCaps | ShutCommit | ShutAbort.
#[global] Instance transition_eq_dec : EqDecision transition.
Proof. solve_decision. Defined.

Record t : Type := mk {
  life : Z;
  caps : option Sys.Capabilities;
  transitions : list transition;
}.

Definition new : t := mk RuntimeLifecycle.new None [].

Definition set_life (r : t) (w : Z) : t := mk w (caps r) (transitions r).

(** [RUNTIME.begin_initialize()?] and [RUNTIME.begin_shutdown()?] *)
Definition initialize_begin (r : t) : Run (Result () * t) :=
  '(res, w) ← begin_initialize (life r);
  Done (res, mk w (caps r) (transitions r ++ if is_ok res then [InitTimer] else [])).
Definition shutdown_begin (r : t) : Run (Result () * t) :=
  '(res, w) ← run_loop begin_shutdown_body 0 (life r);
  Done (res, mk w (caps r) (transitions r ++ if is_ok res then [ShutTimer] else [])).

(** [timer_service::initialize()?] or [timer_service::shutdown()?] returns: on an
    error the transition guard is dropped. *)
Definition timer_returned (i : nat) (res : Result ()) (r : t) : option t :=
  let continue x := Some (mk (life r) (caps r) (<[i:=x]> (transitions r))) in
  match transitions r !! i with
  | Some InitTimer => continue (if is_ok res then InitCaps else InitAbort)
  | Some ShutTimer => continue (if is_ok res then ShutCaps else ShutAbort)
  | _ => None
  end.

(** The remaining steps: the capabilities, then the commit or the drop of the
    transition guard. *)
Definition transition_step (i : nat) (r : t) : option (Run t) :=
  let continue c x := Some (Done (mk (life r) c (<[i:=x]> (transitions r)))) in
  let return_ (f : Z → Run Z) :=
    Some (w ← f (life r); Done (mk w (caps r) (delete i (transitions r)))) in
  match transitions r !! i with
  | Some InitCaps => continue (Some probed) InitCommit
  | Some InitCommit => return_ commit_initialize
  | Some InitAbort => return_ drop_initialize
  | Some ShutCaps => continue None ShutCommit
  | Some ShutCommit => return_ commit_shutdown
  | Some ShutAbort => return_ drop_shutdown
  | _ => None
  end.

(** [acquire_object], the drop of a lease, and the queries. *)
Definition acquire_object (r : t) : Run (Result () * t) :=
  '(res, w) ← run_loop acquire_body 0 (life r); Done (res, set_life r w).
Definition lease_drop (r : t) : Run t :=
  '(_, w) ← run_loop lease_drop_body 0 (life r); Done (set_life r w).
Definition state (r : t) : Run RuntimeState.t := RuntimeLifecycle.state (life r).
Definition capabilities (r : t) : option Sys.Capabilities := caps r.

(** ** The invariant, with [n] leases *)

Definition phase_ok (st : RuntimeState.t) (r : t) : Prop :=
  match st with
  | RuntimeState.Uninitialized => transitions r = [] ∧ caps r = None
  | RuntimeState.Initializing =>
      (∃ x, transitions r = [x] ∧ x ∈ [InitTimer; InitCaps; InitAbort] ∧ caps r = None) ∨
      transitions r = [InitCommit] ∧ caps r = Some probed
  | RuntimeState.Running => transitions r = [] ∧ caps r = Some probed
  | RuntimeState.ShuttingDown =>
      (∃ x, transitions r = [x] ∧ x ∈ [ShutTimer; ShutCaps; ShutAbort] ∧ caps r = Some probed) ∨
      transitions r = [ShutCommit] ∧ caps r = None
  end.

Definition ok (n : nat) (r : t) : Prop :=
  ∃ st, life r = pack st (Z.of_nat n) ∧ Z.of_nat n ≤ MAX_COUNT ∧
    (st ≠ RuntimeState.Running → n = 0%nat) ∧ phase_ok st r.

Lemma new_ok : ok 0 new.
Proof.
  pose proof RuntimeLifecycle.zero_le_MAX_COUNT.
  exists RuntimeState.Uninitialized. split_and!; try done; lia.
Qed.

(** While an object lives the runtime is up and its capabilities are cached. *)
Lemma ok_lease n r : ok (S n) r →
  state r = Done RuntimeState.Running ∧ transitions r = [] ∧ caps r = Some probed.
Proof.
  intros (st & El & Hn & H0 & P). destruct (decide (st = RuntimeState.Running)) as [->|Hne].
  - destruct P as [-> ->]. split; [|done]. unfold state, RuntimeLifecycle.state. rewrite El.
    apply RuntimeLifecycle.decode_state_pack. lia.
  - by apply H0 in Hne.
Qed.

#[local] Arguments run_loop : simpl never.

Lemma acquire_object_spec n r : ok n r →
  acquire_object r = Done (Err Error.NotInitialized, r) ∨
  acquire_object r = Done (Err Error.Overflow, r) ∨
  ∃ r', acquire_object r = Done (Ok (), r') ∧ ok (S n) r' ∧
    caps r' = caps r ∧ transitions r' = transitions r.
Proof.
  intros (st & El & Hn & H0 & P). unfold acquire_object.
  assert (set_life r (life r) = r) as Er by (by destruct r).
  assert (0 ≤ Z.of_nat n ≤ MAX_COUNT) as Hr by lia.
  rewrite (RuntimeLifecycle.run_loop_spec _ _ _ _
    (eq_trans (f_equal acquire_body El) (RuntimeLifecycle.acquire_body_spec st _ Hr))).
  destruct st; simpl; rewrite ?Er; auto. destruct (_ <? _) eqn:Hc; simpl; rewrite ?Er; [|by auto].
  bool_to_prop. right. right. eexists. split; [done|]. split; [|done].
  exists RuntimeState.Running. simpl. split; [f_equal; lia|]. split; [lia|]. by split.
Qed.

Lemma lease_drop_spec n r : ok (S n) r →
  ∃ r', lease_drop r = Done r' ∧ ok n r' ∧ caps r' = caps r ∧ transitions r' = transitions r.
Proof.
  intros (st & El & Hn & H0 & P).
  destruct (decide (st = RuntimeState.Running)) as [->|Hne]; [|by apply H0 in Hne].
  unfold lease_drop.
  assert (0 < Z.of_nat (S n) ≤ MAX_COUNT) as Hr by lia.
  rewrite (RuntimeLifecycle.run_loop_spec _ _ _ _
    (eq_trans (f_equal lease_drop_body El) (RuntimeLifecycle.lease_drop_body_spec _ Hr))).
  simpl. eexists. split; [done|]. split; [|done].
  exists RuntimeState.Running. simpl. split; [f_equal; lia|]. split; [lia|]. by split.
Qed.

Lemma initialize_begin_spec n r : ok n r →
  (∃ e, initialize_begin r = Done (Err e, r)) ∨
  ∃ r', initialize_begin r = Done (Ok (), r') ∧ n = 0%nat ∧ transitions r = [] ∧ caps r = None ∧
    transitions r' = [InitTimer] ∧ caps r' = None ∧ ok 0 r'.
Proof.
  intros (st & El & Hn & H0 & P). unfold initialize_begin.
  assert (mk (life r) (caps r) (transitions r ++ []) = r) as Er by (rewrite app_nil_r; by destruct r).
  rewrite El, RuntimeLifecycle.begin_initialize_spec, <- El by lia. pose proof RuntimeLifecycle.zero_le_MAX_COUNT.
  destruct st; simpl; rewrite ?Er; eauto. rewrite (H0 ltac:(done)). simpl. right.
  destruct P as [Et Ec]. rewrite Et, Ec. eexists. split; [done|]. split_and!; try done.
  exists RuntimeState.Initializing. split_and!; try done; [lia|]. left. eexists. split_and!; try done. set_solver.
Qed.

Lemma shutdown_begin_spec n r : ok n r →
  (∃ e, shutdown_begin r = Done (Err e, r)) ∨
  ∃ r', shutdown_begin r = Done (Ok (), r') ∧ n = 0%nat ∧ transitions r = [] ∧ caps r = Some probed ∧
    transitions r' = [ShutTimer] ∧ caps r' = Some probed ∧ ok 0 r'.
Proof.
  intros (st & El & Hn & H0 & P). unfold shutdown_begin.
  assert (mk (life r) (caps r) (transitions r ++ []) = r) as Er by (rewrite app_nil_r; by destruct r).
  rewrite (RuntimeLifecycle.run_loop_spec _ _ _ _
    (eq_trans (f_equal begin_shutdown_body El) (RuntimeLifecycle.begin_shutdown_body_spec st _ (Nat2Z.is_nonneg n)))).
  pose proof RuntimeLifecycle.zero_le_MAX_COUNT.
  destruct st; simpl; rewrite ?Er; eauto. destruct (_ =? 0) eqn:En; simpl; rewrite ?Er; eauto. right.
  bool_to_prop. destruct P as [Et Ec]. rewrite Et, Ec.
  eexists. split; [done|]. split_and!; try done; [lia|].
  exists RuntimeState.ShuttingDown. split_and!; try done; [lia|]. left. eexists. split_and!; try done. set_solver.
Qed.

(** A transition under way: nothing else is. *)
Lemma ok_transition n r i x : ok n r → transitions r !! i = Some x →
  n = 0%nat ∧ i = 0%nat ∧ transitions r = [x] ∧
  life r = pack (if decide (x ∈ [InitTimer; InitCaps; InitCommit; InitAbort])
                 then RuntimeState.Initializing else RuntimeState.ShuttingDown) 0 ∧
  caps r = if decide (x ∈ [InitTimer; InitCaps; InitAbort; ShutCommit]) then None else Some probed.
Proof.
  intros (st & El & Hn & H0 & P) E.
  assert (∀ y, transitions r = [y] → i = 0%nat ∧ y = x) as Hy.
  { intros y Ey. rewrite Ey in E. by destruct i as [|[|i]]; simplify_eq/=. }
  assert (transitions r ≠ []) as Hne by (intros Ey; by rewrite Ey in E).
  destruct st; simpl in P; try (by destruct P).
  all: rewrite (H0 ltac:(done)) in *; simpl in El.
  all: destruct P as [(y & Ey & Hx & Ec)|[Ey Ec]]; destruct (Hy _ Ey) as [-> <-]; try set_unfold in Hx.
  all: destruct_or?; subst; done.
Qed.

Lemma timer_returned_spec n r i res r' : ok n r → timer_returned i res r = Some r' →
  n = 0%nat ∧ i = 0%nat ∧ ok n r' ∧ caps r' = caps r ∧
  (transitions r = [InitTimer] ∧ transitions r' = [if is_ok res then InitCaps else InitAbort] ∨
   transitions r = [ShutTimer] ∧ transitions r' = [if is_ok res then ShutCaps else ShutAbort]).
Proof.
  unfold timer_returned. intros O E. destruct (transitions r !! i) as [x|] eqn:Ex; [|done].
  destruct (ok_transition _ _ _ _ O Ex) as (-> & -> & Et & El & Ec).
  pose proof RuntimeLifecycle.zero_le_MAX_COUNT.
  destruct x; simplify_eq; rewrite Et; simpl in *; split_and!; auto;
    [exists RuntimeState.Initializing|exists RuntimeState.ShuttingDown]; split_and!; try done; try lia;
    left; eexists; split_and!; try done; destruct (is_ok res); set_solver.
Qed.

Lemma transition_step_spec n r i res : ok n r → transition_step i r = Some res →
  ∃ r' x, res = Done r' ∧ ok n r' ∧ n = 0%nat ∧ i = 0%nat ∧ transitions r = [x] ∧ x ≠ InitTimer ∧ x ≠ ShutTimer ∧
    match x with
    | InitCaps => transitions r' = [InitCommit] ∧ caps r' = Some probed
    | ShutCaps => transitions r' = [ShutCommit] ∧ caps r' = None
    | _ => transitions r' = [] ∧ caps r' = caps r
    end.
Proof.
  unfold transition_step. intros O E. destruct (transitions r !! i) as [x|] eqn:Ex; [|done].
  destruct (ok_transition _ _ _ _ O Ex) as (-> & -> & Et & El & Ec).
  pose proof RuntimeLifecycle.zero_le_MAX_COUNT.
  destruct x; simplify_eq; rewrite Et; simpl in *; rewrite ?El;
    unfold commit_initialize, drop_initialize, commit_shutdown, drop_shutdown;
    rewrite ?RuntimeLifecycle.guarded_exchange_spec; simpl; eexists _, _; (split; [done|]); split_and!; try done.
  - exists RuntimeState.Initializing. split_and!; try done; [lia|]. by right.
  - exists RuntimeState.Running. split_and!; try done; lia.
  - exists RuntimeState.Uninitialized. split_and!; try done; lia.
  - exists RuntimeState.ShuttingDown. split_and!; try done; [lia|]. by right.
  - exists RuntimeState.Uninitialized. split_and!; try done; lia.
  - exists RuntimeState.Running. split_and!; try done; lia.
Qed.

End FreeRtosRuntime.
End FreeRtosRuntime.
