(* ===== verification/Fixture.v ===== *)
(** * The kernel the FreeRTOS backend is tested on

    [crates/osal-backend-freertos-sys/src/sync_fixture.rs] and the [test-fixture]
    parts of [lib.rs]: mutexes, semaphores, ticks and the scheduler state of a
    simulated kernel.  Code between taking and releasing the fixture's lock is one
    definition; a wait on its condition variable ends by a wake-up or a timeout
    that the caller of the second half decides.

    [kernel] and [native_objects] make the fixture an instance of the classes the
    backend is modelled against, as one thread sees it. *)

From S2P Require Import Prelude Api Time Kernel FreeRtosSync.

Module Fixture.

(** ** State *)

Record FixtureMutexEntry : Type := mkMutex {
  locked : bool;
  owner : option Z;
  m_deleted : bool;
  m_waiters : Z;
  m_blocked_count : Z;
}.

Record FixtureSemaphoreEntry : Type := mkSemaphore {
  count : Z;
  max_count : Z;
  s_deleted : bool;
  s_waiters : Z;
  s_blocked_count : Z;
}.

Record FixtureState : Type := mkFixtureState {
  mutexes : gmap Z FixtureMutexEntry;
  semaphores : gmap Z FixtureSemaphoreEntry;
  next_id : Z;
  mutex_create_count : Z;
  mutex_delete_count : Z;
  sem_create_count : Z;
  sem_delete_count : Z;
  take_call_ticks : list Z;
  give_call_count : Z;
}.

Definition fixture_default : FixtureState := mkFixtureState ∅ ∅ 1 0 0 0 0 [] 0.

(** The tick counter: [TICK_BITS_FIXTURE], [TICK_OVERFLOW_FIXTURE], [TICK_COUNT_FIXTURE]. *)
Record Ticks : Type := mkTicks { tick_bits : Z; tick_overflow : Z; tick_count : Z }.

Inductive FixtureWaitMode : Type := Realtime | Virtual.

(** What tests set: [SCHEDULER_STATE_FIXTURE], [MAX_FINITE_DELAY_FIXTURE],
    [MAX_FINITE_WAIT_TICKS], [FAIL_NEXT_MUTEX_CREATE], [FAIL_NEXT_SEM_CREATE], [WAIT_MODE]. *)
Record Settings : Type := mkSettings {
  scheduler : Z;
  max_finite_delay : Z;
  max_finite_wait : Z;
  fail_next_mutex : bool;
  fail_next_sem : bool;
  wait_mode : FixtureWaitMode;
}.

Record t : Type := mk {
  fixture : FixtureState;
  ticks : Ticks;
  settings : Settings;
  blocked_count : Z;      (* BLOCKED_COUNT *)
  tick_generation : Z;    (* TICK_GENERATION *)
  panicked : bool;        (* a call has panicked *)
}.

Definition default_settings : Settings :=
  mkSettings Sys.SCHEDULER_RUNNING (2 ^ 32 - 2) (2 ^ 32 - 2) false false Realtime.
Definition initial : t := mk fixture_default (mkTicks 32 0 0) default_settings 0 0 false.

Definition set_fixture (f : FixtureState) (s : t) : t := mk f (ticks s) (settings s) (blocked_count s) (tick_generation s) (panicked s).
Definition set_ticks (x : Ticks) (s : t) : t := mk (fixture s) x (settings s) (blocked_count s) (tick_generation s) (panicked s).
Definition set_settings (x : Settings) (s : t) : t := mk (fixture s) (ticks s) x (blocked_count s) (tick_generation s) (panicked s).
Definition set_blocked (n : Z) (s : t) : t := mk (fixture s) (ticks s) (settings s) n (tick_generation s) (panicked s).
Definition bump_generation (s : t) : t :=
  mk (fixture s) (ticks s) (settings s) (blocked_count s) (wrapping_add 64 (tick_generation s) 1) (panicked s).

Definition put_mutex (id : Z) (e : FixtureMutexEntry) (s : t) : t :=
  let f := fixture s in
  set_fixture (mkFixtureState (<[id:=e]> (mutexes f)) (semaphores f) (next_id f) (mutex_create_count f) (mutex_delete_count f)
    (sem_create_count f) (sem_delete_count f) (take_call_ticks f) (give_call_count f)) s.
Definition put_semaphore (id : Z) (e : FixtureSemaphoreEntry) (s : t) : t :=
  let f := fixture s in
  set_fixture (mkFixtureState (mutexes f) (<[id:=e]> (semaphores f)) (next_id f) (mutex_create_count f) (mutex_delete_count f)
    (sem_create_count f) (sem_delete_count f) (take_call_ticks f) (give_call_count f)) s.
Definition push_take (n : Z) (s : t) : t :=
  let f := fixture s in
  set_fixture (mkFixtureState (mutexes f) (semaphores f) (next_id f) (mutex_create_count f) (mutex_delete_count f)
    (sem_create_count f) (sem_delete_count f) (take_call_ticks f ++ [n]) (give_call_count f)) s.

(** ** Ticks *)

Definition advance_virtual_ticks (n : Z) : M t () := λ s,
  let modulus := Z.shiftl 1 (tick_bits (ticks s)) in
  total ← expect (checked_add 128 (tick_count (ticks s)) n) "fixture tick overflowed u128";
  let wrap_count := total / modulus in
  let new_count := (total mod modulus) mod 2 ^ 64 in
  new_overflow ← expect (checked_add 64 (tick_overflow (ticks s)) (wrap_count mod 2 ^ 64)) "fixture overflow count overflowed u64";
  Done ((), set_ticks (mkTicks (tick_bits (ticks s)) new_overflow new_count) s).

Definition monotonic_virtual_ticks (s : t) : Z :=
  tick_overflow (ticks s) * Z.shiftl 1 (tick_bits (ticks s)) + tick_count (ticks s).

Definition advance_ticks_and_notify (n : Z) : M t () :=
  advance_virtual_ticks n ;;; mmodify bump_generation.

(** [delay_ticks] of [lib.rs] *)
Definition delay_ticks (n : Z) : M t Sys.DelayStatus := λ s,
  match wait_mode (settings s) with
  | Virtual => (advance_ticks_and_notify n ;;; mret_ Sys.DelayOk) s
  | Realtime => (advance_virtual_ticks n ;;; mret_ Sys.DelayOk) s
  end.

(** ** Mutexes *)

Definition mutex_create : M t (option Z) := λ s,
  if fail_next_mutex (settings s) then
    let c := settings s in
    Done (None, set_settings (mkSettings (scheduler c) (max_finite_delay c) (max_finite_wait c) false (fail_next_sem c) (wait_mode c)) s)
  else
    let f := fixture s in
    let id := next_id f in
    Done (Some id,
      set_fixture (mkFixtureState (<[id:=mkMutex false None false 0 0]> (mutexes f)) (semaphores f) (id + 1)
        (mutex_create_count f + 1) (mutex_delete_count f) (sem_create_count f) (sem_delete_count f) (take_call_ticks f) (give_call_count f)) s).

(** What the first half of a round decides. *)
Inductive round : Type :=
| Ret (status : Sys.TakeStatus)
| WaitFor (wait_ticks : Z).

(** [mutex_take], up to the wait *)
Definition mutex_round (me id n : Z) : M t round := λ s,
  entry ← expect (mutexes (fixture s) !! id) "mutex not found";
  if m_deleted entry then Done (Ret Sys.TakeInvalid, s)
  else if negb (locked entry) then
    Done (Ret Sys.Acquired, put_mutex id (mkMutex true (Some me) (m_deleted entry) (m_waiters entry) (m_blocked_count entry)) s)
  else if bool_decide (owner entry = Some me) then
    if 0 <? n then (advance_virtual_ticks n ;;; mret_ (Ret Sys.TakeTimeout)) s else Done (Ret Sys.TakeTimeout, s)
  else if n =? 0 then Done (Ret Sys.TakeTimeout, s)
  else
    let wait_ticks := Z.min n (max_finite_wait (settings s)) in
    Done (WaitFor wait_ticks,
      set_blocked (wrapping_add 64 (blocked_count s) 1)
        (put_mutex id (mkMutex (locked entry) (owner entry) (m_deleted entry) (m_waiters entry + 1) (m_blocked_count entry + 1)) s)).

(** after the wait: [None] to go round again *)
Definition mutex_resume (me id wait_ticks : Z) (timed_out : bool) : M t (option Sys.TakeStatus) := λ s,
  let s := set_blocked (wrapping_sub 64 (blocked_count s) 1) s in
  entry ← expect (mutexes (fixture s) !! id) "called `Option::unwrap()` on a `None` value";
  let entry := mkMutex (locked entry) (owner entry) (m_deleted entry) (saturating_sub (m_waiters entry) 1) (saturating_sub (m_blocked_count entry) 1) in
  let s := put_mutex id entry s in
  if timed_out then
    if negb (locked entry) then
      (mmodify (put_mutex id (mkMutex true (Some me) (m_deleted entry) (m_waiters entry) (m_blocked_count entry))) ;;;
       advance_virtual_ticks wait_ticks ;;; mret_ (Some Sys.Acquired)) s
    else (advance_virtual_ticks wait_ticks ;;; mret_ (Some Sys.TakeTimeout)) s
  else (advance_virtual_ticks wait_ticks ;;; mret_ None) s.

(** A take by the only thread: [wakes] spurious wake-ups, then the timeout. *)
Fixpoint mutex_loop (me id n : Z) (wakes : nat) : M t Sys.TakeStatus :=
  r <- mutex_round me id n ;;
  match r with
  | Ret status => mret_ status
  | WaitFor w =>
      match wakes with
      | O => o <- mutex_resume me id w true ;; match o with Some status => mret_ status | None => λ _, NoFuel end
      | S k => mutex_resume me id w false ;;; mutex_loop me id n k
      end
  end.
Definition mutex_take (me id n : Z) (wakes : nat) : M t Sys.TakeStatus :=
  mmodify (push_take n) ;;; mutex_loop me id n wakes.

Definition count_give (s : t) : t :=
  let f := fixture s in
  set_fixture (mkFixtureState (mutexes f) (semaphores f) (next_id f) (mutex_create_count f) (mutex_delete_count f)
    (sem_create_count f) (sem_delete_count f) (take_call_ticks f) (give_call_count f + 1)) s.

Definition mutex_give (me id : Z) : M t Sys.GiveStatus := λ s,
  let s := count_give s in
  entry ← expect (mutexes (fixture s) !! id) "mutex not found";
  if m_deleted entry then Done (Sys.GiveInvalid, s)
  else if negb (locked entry) || negb (bool_decide (owner entry = Some me)) then Done (Sys.GiveInvalid, s)
  else Done (Sys.GiveOk, put_mutex id (mkMutex false None (m_deleted entry) (m_waiters entry) (m_blocked_count entry)) s).

Definition mutex_delete (id : Z) : M t () := λ s,
  let f := fixture s in
  _ ← match mutexes f !! id with
      | Some entry =>
          _ ← rassert (negb (locked entry)) "cannot delete a held mutex";
          rassert (negb (m_deleted entry)) "mutex already deleted"
      | None => Done ()
      end;
  Done ((), set_fixture (mkFixtureState (delete id (mutexes f)) (semaphores f) (next_id f) (mutex_create_count f) (mutex_delete_count f + 1)
    (sem_create_count f) (sem_delete_count f) (take_call_ticks f) (give_call_count f)) s).

(** ** Semaphores *)

Definition semaphore_create (max initial : Z) : M t (option Z) := λ s,
  if fail_next_sem (settings s) then
    let c := settings s in
    Done (None, set_settings (mkSettings (scheduler c) (max_finite_delay c) (max_finite_wait c) (fail_next_mutex c) false (wait_mode c)) s)
  else
    let f := fixture s in
    let id := next_id f in
    Done (Some id,
      set_fixture (mkFixtureState (mutexes f) (<[id:=mkSemaphore initial max false 0 0]> (semaphores f)) (id + 1)
        (mutex_create_count f) (mutex_delete_count f) (sem_create_count f + 1) (sem_delete_count f) (take_call_ticks f) (give_call_count f)) s).
Definition counting_semaphore_create (max initial : Z) : M t (option Z) := semaphore_create max initial.
Definition binary_semaphore_create : M t (option Z) := semaphore_create 1 0.

(** One unit less. *)
Definition take_unit (e : FixtureSemaphoreEntry) : FixtureSemaphoreEntry :=
  mkSemaphore (count e - 1) (max_count e) (s_deleted e) (s_waiters e) (s_blocked_count e).
Definition enter_wait (e : FixtureSemaphoreEntry) : FixtureSemaphoreEntry :=
  mkSemaphore (count e) (max_count e) (s_deleted e) (s_waiters e + 1) (s_blocked_count e + 1).
Definition leave_wait (e : FixtureSemaphoreEntry) : FixtureSemaphoreEntry :=
  mkSemaphore (count e) (max_count e) (s_deleted e) (saturating_sub (s_waiters e) 1) (saturating_sub (s_blocked_count e) 1).

(** [semaphore_take_realtime] *)
Definition realtime_round (id n : Z) : M t round := λ s,
  entry ← expect (semaphores (fixture s) !! id) "semaphore not found";
  if s_deleted entry then Done (Ret Sys.TakeInvalid, s)
  else if 0 <? count entry then Done (Ret Sys.Acquired, put_semaphore id (take_unit entry) s)
  else if n =? 0 then Done (Ret Sys.TakeTimeout, s)
  else
    Done (WaitFor (Z.min n (max_finite_wait (settings s))),
      set_blocked (wrapping_add 64 (blocked_count s) 1) (put_semaphore id (enter_wait entry) s)).
Definition realtime_resume (id wait_ticks : Z) (timed_out : bool) : M t (option Sys.TakeStatus) := λ s,
  let s := set_blocked (wrapping_sub 64 (blocked_count s) 1) s in
  entry ← expect (semaphores (fixture s) !! id) "called `Option::unwrap()` on a `None` value";
  let entry := leave_wait entry in
  let s := put_semaphore id entry s in
  if timed_out then
    if 0 <? count entry then
      (mmodify (put_semaphore id (take_unit entry)) ;;; advance_virtual_ticks wait_ticks ;;; mret_ (Some Sys.Acquired)) s
    else (advance_virtual_ticks wait_ticks ;;; mret_ (Some Sys.TakeTimeout)) s
  else (advance_virtual_ticks wait_ticks ;;; mret_ None) s.

Fixpoint realtime_loop (id n : Z) (wakes : nat) : M t Sys.TakeStatus :=
  r <- realtime_round id n ;;
  match r with
  | Ret status => mret_ status
  | WaitFor w =>
      match wakes with
      | O => o <- realtime_resume id w true ;; match o with Some status => mret_ status | None => λ _, NoFuel end
      | S k => realtime_resume id w false ;;; realtime_loop id n k
      end
  end.
Definition semaphore_take_realtime (id n : Z) (wakes : nat) : M t Sys.TakeStatus :=
  mmodify (push_take n) ;;; realtime_loop id n wakes.

(** [semaphore_take_virtual]: only a test that advances the ticks ends the wait. *)
Definition virtual_round (id deadline : Z) : M t round := λ s,
  entry ← expect (semaphores (fixture s) !! id) "semaphore not found";
  if s_deleted entry then Done (Ret Sys.TakeInvalid, s)
  else if 0 <? count entry then Done (Ret Sys.Acquired, put_semaphore id (take_unit entry) s)
  else if deadline <=? monotonic_virtual_ticks s then Done (Ret Sys.TakeTimeout, s)
  else
    Done (WaitFor (tick_generation s),
      set_blocked (wrapping_add 64 (blocked_count s) 1) (put_semaphore id (enter_wait entry) s)).
Definition virtual_resume (id deadline gen_before : Z) (watchdog : bool) : M t () := λ s,
  let s := set_blocked (wrapping_sub 64 (blocked_count s) 1) s in
  entry ← expect (semaphores (fixture s) !! id) "semaphore not found";
  let entry := leave_wait entry in
  _ ← rassert (negb (watchdog && (monotonic_virtual_ticks s <? deadline) && (count entry =? 0) && (tick_generation s =? gen_before)))
        "virtual semaphore wait stalled: test did not advance ticks or signal the semaphore";
  Done ((), put_semaphore id entry s).
Fixpoint virtual_loop (id deadline : Z) (wakes : nat) : M t Sys.TakeStatus :=
  r <- virtual_round id deadline ;;
  match r with
  | Ret status => mret_ status
  | WaitFor gen_before =>
      match wakes with
      | O => virtual_resume id deadline gen_before true ;;; λ _, NoFuel
      | S k => virtual_resume id deadline gen_before false ;;; virtual_loop id deadline k
      end
  end.
Definition semaphore_take_virtual (id n : Z) (wakes : nat) : M t Sys.TakeStatus := λ s,
  if n =? 0 then
    (mmodify (push_take 0) ;;; r <- realtime_round id 0 ;; match r with Ret status => mret_ status | WaitFor _ => λ _, NoFuel end) s
  else
    deadline ← expect (checked_add 128 (monotonic_virtual_ticks s) n) "fixture virtual deadline overflow";
    (mmodify (push_take n) ;;; virtual_loop id deadline wakes) s.

Definition semaphore_take (id n : Z) (wakes : nat) : M t Sys.TakeStatus := λ s,
  match wait_mode (settings s) with
  | Realtime => semaphore_take_realtime id n wakes s
  | Virtual => semaphore_take_virtual id n wakes s
  end.

Definition semaphore_give (id : Z) : M t Sys.GiveStatus := λ s,
  let s := count_give s in
  entry ← expect (semaphores (fixture s) !! id) "semaphore not found";
  if s_deleted entry then Done (Sys.GiveInvalid, s)
  else if max_count entry <=? count entry then Done (Sys.GiveFull, s)
  else
    c ← uadd 32 (count entry) 1;
    Done (Sys.GiveOk, put_semaphore id (mkSemaphore c (max_count entry) (s_deleted entry) (s_waiters entry) (s_blocked_count entry)) s).

Definition semaphore_count (id : Z) (s : t) : Z := from_option count 0 (semaphores (fixture s) !! id).

Definition semaphore_delete (id : Z) (s : t) : t :=
  let f := fixture s in
  set_fixture (mkFixtureState (mutexes f) (delete id (semaphores f)) (next_id f) (mutex_create_count f) (mutex_delete_count f)
    (sem_create_count f) (sem_delete_count f + 1) (take_call_ticks f) (give_call_count f)) s.

(** [sync_reset] *)
Definition sync_reset : M t () := λ s,
  let c := settings s in
  _ ← rassert (blocked_count s =? 0) "sync_reset: threads still blocked in Condvar";
  Done ((), mk fixture_default (ticks s) (mkSettings (scheduler c) (max_finite_delay c) (2 ^ 32 - 2) false false Realtime) 0 0 (panicked s)).

(** ** The control interface of the tests *)

Definition with_settings (f : Settings → Settings) (s : t) : t := set_settings (f (settings s)) s.

Definition sync_set_wait_mode (mode : FixtureWaitMode) : t → t := with_settings (λ c,
  mkSettings (scheduler c) (max_finite_delay c) (max_finite_wait c) (fail_next_mutex c) (fail_next_sem c) mode).
Definition sync_wait_mode (s : t) : FixtureWaitMode := wait_mode (settings s).
Definition sync_set_fail_next_mutex_create (fail : bool) : t → t := with_settings (λ c,
  mkSettings (scheduler c) (max_finite_delay c) (max_finite_wait c) fail (fail_next_sem c) (wait_mode c)).
Definition sync_set_fail_next_semaphore_create (fail : bool) : t → t := with_settings (λ c,
  mkSettings (scheduler c) (max_finite_delay c) (max_finite_wait c) (fail_next_mutex c) fail (wait_mode c)).
Definition sync_set_max_finite_wait_ticks (n : Z) : M t () := λ s,
  _ ← rassert (2 <=? n) "max_finite_wait_ticks must be >= 2";
  Done ((), with_settings (λ c,
    mkSettings (scheduler c) (max_finite_delay c) n (fail_next_mutex c) (fail_next_sem c) (wait_mode c)) s).
Definition set_max_finite_delay_ticks (n : Z) : M t () := λ s,
  _ ← rassert (2 <=? n) "max_finite_delay_ticks must be at least 2";
  Done ((), with_settings (λ c,
    mkSettings (scheduler c) n (max_finite_wait c) (fail_next_mutex c) (fail_next_sem c) (wait_mode c)) s).
Definition set_scheduler_state (state : Sys.SchedulerState) : t → t := with_settings (λ c,
  mkSettings (match state with
              | Sys.NotStarted => Sys.SCHEDULER_NOT_STARTED
              | Sys.Running => Sys.SCHEDULER_RUNNING
              | Sys.Suspended => Sys.SCHEDULER_SUSPENDED
              | Sys.UnknownState v => v
              end) (max_finite_delay c) (max_finite_wait c) (fail_next_mutex c) (fail_next_sem c) (wait_mode c)).
Definition set_tick_bits (bits : Z) : M t () := λ s,
  _ ← rassert ((bits =? 16) || (bits =? 32) || (bits =? 64)) "tick_bits must be 16, 32, or 64";
  Done ((), set_ticks (mkTicks bits (tick_overflow (ticks s)) (tick_count (ticks s))) s).
Definition set_tick_snapshot (overflow_count tick_count : Z) (s : t) : t :=
  bump_generation (set_ticks (mkTicks (tick_bits (ticks s)) overflow_count tick_count) s).

(** The counters tests read: an object that is gone counts nothing. *)
Definition sync_clear_take_call_ticks (s : t) : t :=
  let f := fixture s in
  set_fixture (mkFixtureState (mutexes f) (semaphores f) (next_id f) (mutex_create_count f) (mutex_delete_count f)
    (sem_create_count f) (sem_delete_count f) [] (give_call_count f)) s.
Definition sync_mutex_waiters (id : Z) (s : t) : Z := from_option m_waiters 0 (mutexes (fixture s) !! id).
Definition sync_semaphore_waiters (id : Z) (s : t) : Z := from_option s_waiters 0 (semaphores (fixture s) !! id).
Definition sync_mutex_blocked_count (id : Z) (s : t) : Z := from_option m_blocked_count 0 (mutexes (fixture s) !! id).
Definition sync_semaphore_blocked_count (id : Z) (s : t) : Z := from_option s_blocked_count 0 (semaphores (fixture s) !! id).

(** ** The fixture as the kernel of one thread *)

(** The thread, and the spurious wake-ups of its [i]-th take. *)
Section Kernel.
Context (me : Z) (wakes : nat → nat).

(** [probe_capabilities] of the fixture, with its default tick width *)
Definition probe_capabilities : Sys.KernelCapabilities :=
  Sys.mkKernelCapabilities 1000 8 16 32 4 1 1 64 0xFFFFFFFF 5 0.

Definition take_to_raw (x : Sys.TakeStatus) : Z := match x with Sys.Acquired => 0 | Sys.TakeTimeout => 1 | Sys.TakeInvalid => 2 end.
Definition give_to_raw (x : Sys.GiveStatus) : Z := match x with Sys.GiveOk => 0 | Sys.GiveFull => 1 | Sys.GiveInvalid => 2 end.

(** The classes of the backend have total functions for the kernel.  A call that
    panics in the fixture answers [d] and is recorded in the state; who runs the
    backend on the fixture panics when it is ([check_panic]). *)
Definition or_else {A} (d : A) (m : M t A) (s : t) : A * t :=
  match m s with
  | Done x => x
  | _ => (d, mk (fixture s) (ticks s) (settings s) (blocked_count s) (tick_generation s) true)
  end.
Definition check_panic (s : t) : Run () := rassert (negb (panicked s)) "the simulated kernel panicked".

#[global] Instance kernel : Kernel t := {|
  osal_freertos_probe_capabilities := probe_capabilities;
  osal_freertos_max_finite_delay_ticks := 2 ^ 32 - 2;
  osal_freertos_scheduler_state := λ s, (scheduler (settings s), s);
  osal_freertos_tick_snapshot := λ s, (TickTime.mkSnapshot (tick_overflow (ticks s)) (tick_count (ticks s)), s);
  osal_freertos_delay_ticks := λ n s, or_else Sys.DELAY_INVALID_TICKS (delay_ticks n ;;; mret_ Sys.DELAY_OK) s;
|}.

(** The number of the call in the log. *)
Definition wakes_now (s : t) : nat := wakes (length (take_call_ticks (fixture s))).

Definition native_objects : NativeObjects t := {|
  osal_freertos_max_semaphore_count := uint_max 32;
  osal_freertos_mutex_create := or_else None mutex_create;
  osal_freertos_mutex_take := λ id n s, or_else 2 (x <- mutex_take me id n (wakes_now s) ;; mret_ (take_to_raw x)) s;
  osal_freertos_mutex_give := λ id, or_else 2 (x <- mutex_give me id ;; mret_ (give_to_raw x));
  osal_freertos_mutex_delete := λ id s, snd (or_else () (mutex_delete id) s);
  osal_freertos_counting_semaphore_create := λ m i, or_else None (counting_semaphore_create m i);
  osal_freertos_binary_semaphore_create := or_else None binary_semaphore_create;
  osal_freertos_semaphore_take := λ id n s, or_else 2 (x <- semaphore_take id n (wakes_now s) ;; mret_ (take_to_raw x)) s;
  osal_freertos_semaphore_give := λ id, or_else 2 (x <- semaphore_give id ;; mret_ (give_to_raw x));
  osal_freertos_semaphore_count := λ id s, (semaphore_count id s, s);
  osal_freertos_semaphore_delete := semaphore_delete;
|}.

End Kernel.
End Fixture.

(** ** What one thread sees *)

Module FixtureFacts.
Import Fixture.

(** The counter after [x] ticks, with its default width. *)
Definition ticks_of (x : Z) : Ticks := mkTicks 32 (x / 2 ^ 32) (x mod 2 ^ 32).

Lemma advance_spec x n s : ticks s = ticks_of x → 0 ≤ x → 0 ≤ n < 2 ^ 64 → x + n < 2 ^ 96 →
  advance_virtual_ticks n s = Done ((), set_ticks (ticks_of (x + n)) s).
Proof.
  intros Et Hx Hn Hl. unfold advance_virtual_ticks. rewrite Et. cbn [ticks_of tick_bits tick_overflow tick_count]. change (Z.shiftl 1 32) with (2 ^ 32).
  pose proof (Z.mod_pos_bound x (2 ^ 32) ltac:(lia)) as Hm. pose proof (Z.mod_pos_bound (x + n) (2 ^ 32) ltac:(lia)) as Hm'.
  assert ((x mod 2 ^ 32 + n) mod 2 ^ 32 = (x + n) mod 2 ^ 32) as E1 by (rewrite Z.add_mod_idemp_l by lia; done).
  assert (x / 2 ^ 32 + (x mod 2 ^ 32 + n) / 2 ^ 32 = (x + n) / 2 ^ 32) as E2.
  { rewrite <- Z.div_add_l by lia. f_equal. pose proof (Z.div_mod x (2 ^ 32) ltac:(lia)). lia. }
  assert (0 ≤ (x mod 2 ^ 32 + n) / 2 ^ 32 < 2 ^ 64) as Hd by (split; [apply Z.div_pos; lia|apply Z.div_lt_upper_bound; lia]).
  assert ((x + n) / 2 ^ 32 < 2 ^ 64) as Hd' by (apply Z.div_lt_upper_bound; lia).
  rewrite (proj2 (checked_add_Some 128 _ n _)) by (split; [reflexivity|lia]). cbn [expect mbind Run_bind].
  rewrite (Z.mod_small ((x mod 2 ^ 32 + n) / 2 ^ 32)), E1, (Z.mod_small ((x + n) mod 2 ^ 32)) by lia.
  rewrite (proj2 (checked_add_Some 64 _ _ ((x + n) / 2 ^ 32))) by lia. done.
Qed.

Lemma ticks_mono_eq x s : ticks s = ticks_of x → monotonic_virtual_ticks s = x.
Proof.
  intros Et. unfold monotonic_virtual_ticks. rewrite Et. simpl. change (Z.shiftl 1 32) with (2 ^ 32).
  pose proof (Z.div_mod x (2 ^ 32) ltac:(lia)). change (Z.pow_pos 2 32) with (2 ^ 32). lia.
Qed.

(** Everything but the ticks and the log of takes. *)
Definition erase (s : t) : t :=
  let f := fixture s in
  mk (mkFixtureState (mutexes f) (semaphores f) (next_id f) (mutex_create_count f) (mutex_delete_count f)
        (sem_create_count f) (sem_delete_count f) [] (give_call_count f)) (mkTicks 0 0 0) (settings s) (blocked_count s) (tick_generation s) (panicked s).

(** [s] is [s0] at tick [x], perhaps after more takes that changed nothing. *)
Definition like (s0 : t) (x : Z) (s : t) : Prop := ticks s = ticks_of x ∧ 0 ≤ x ∧ erase s = erase s0.

Lemma erase_push n s : erase (push_take n s) = erase s.
Proof. done. Qed.
Lemma erase_ticks x s : erase (set_ticks x s) = erase s.
Proof. done. Qed.

Lemma erase_fields s s' : erase s = erase s' →
  mutexes (fixture s) = mutexes (fixture s') ∧ semaphores (fixture s) = semaphores (fixture s') ∧
  next_id (fixture s) = next_id (fixture s') ∧ settings s = settings s' ∧ blocked_count s = blocked_count s' ∧ panicked s = panicked s'.
Proof. destruct s as [[] [] ? ? ? ?], s' as [[] [] ? ? ? ?]. unfold erase. simpl. intros [= ]. by subst. Qed.

Lemma put_semaphore_same id e s : semaphores (fixture s) !! id = Some e → put_semaphore id e s = s.
Proof. intros E. unfold put_semaphore. rewrite insert_id by done. by destruct s as [[] ? ? ? ? ?]. Qed.
Lemma put_semaphore_twice id e e' s : put_semaphore id e (put_semaphore id e' s) = put_semaphore id e s.
Proof. unfold put_semaphore, set_fixture. simpl. by rewrite insert_insert_eq. Qed.
Lemma leave_enter e : 0 ≤ s_waiters e → 0 ≤ s_blocked_count e → leave_wait (enter_wait e) = e.
Proof.
  intros Hw Hb. unfold leave_wait, enter_wait, saturating_sub. simpl. destruct e; simpl in *. f_equal; lia.
Qed.
Lemma blocked_back b : in_uint 64 b → wrapping_sub 64 (wrapping_add 64 b 1) 1 = b.
Proof.
  intros Hb. unfold wrapping_sub, wrapping_add. rewrite Zminus_mod_idemp_l. replace (b + 1 - 1) with b by lia. by apply Z.mod_small.
Qed.

(** A semaphore nobody waits on. *)
Definition quiet (e : FixtureSemaphoreEntry) : Prop := s_deleted e = false ∧ 0 ≤ s_waiters e ∧ 0 ≤ s_blocked_count e.

Section Facts.
Context (me : Z).

(** *** Semaphores *)

Lemma take_available id n w s e : semaphores (fixture s) !! id = Some e → quiet e → 0 < count e →
  wait_mode (settings s) = Realtime →
  semaphore_take id n w s = Done (Sys.Acquired, put_semaphore id (take_unit e) (push_take n s)).
Proof.
  intros E (Hd & _) Hc Hm. unfold semaphore_take. rewrite Hm. unfold semaphore_take_realtime, mbind_, mmodify. simpl.
  destruct w; simpl; unfold mbind_, realtime_round; simpl; rewrite E; simpl; rewrite Hd, (proj2 (Z.ltb_lt _ _)) by done; done.
Qed.

Lemma take_empty_now id w s e : semaphores (fixture s) !! id = Some e → quiet e → count e = 0 →
  wait_mode (settings s) = Realtime → semaphore_take id 0 w s = Done (Sys.TakeTimeout, push_take 0 s).
Proof.
  intros E (Hd & _) Hc Hm. unfold semaphore_take. rewrite Hm. unfold semaphore_take_realtime, mbind_, mmodify. simpl.
  destruct w; simpl; unfold mbind_, realtime_round; simpl; rewrite E; simpl; rewrite Hd, Hc; done.
Qed.

Lemma realtime_wait id n s e : semaphores (fixture s) !! id = Some e → quiet e → count e = 0 → in_uint 64 (blocked_count s) →
  0 < n ≤ max_finite_wait (settings s) → ∃ s1, realtime_round id n s = Done (WaitFor n, s1) ∧
  ∀ x b, ticks s = ticks_of x → 0 ≤ x → 0 ≤ n < 2 ^ 64 → x + n < 2 ^ 96 →
    realtime_resume id n b s1 = Done (if b : bool then Some Sys.TakeTimeout else None, set_ticks (ticks_of (x + n)) s).
Proof.
  intros E (Hd & Hw & Hb) Hc Hbl Hn. eexists. split.
  { unfold realtime_round. rewrite E. simpl. rewrite Hd, Hc. simpl. rewrite (proj2 (Z.eqb_neq _ _)) by lia. by rewrite Z.min_l by lia. }
  intros x b Et Hx Hn' Hl. unfold realtime_resume. simpl. rewrite lookup_insert_eq. simpl. rewrite leave_enter by done.
  assert (put_semaphore id e (set_blocked (wrapping_sub 64 (wrapping_add 64 (blocked_count s) 1) 1) (set_blocked (wrapping_add 64 (blocked_count s) 1) (put_semaphore id (enter_wait e) s))) = s) as Es.
  { rewrite blocked_back by done. transitivity (put_semaphore id e (put_semaphore id (enter_wait e) s)); [by destruct s|].
    by rewrite put_semaphore_twice, put_semaphore_same. }
  rewrite Es, Hc. simpl. unfold mbind_. rewrite (advance_spec x n s) by done. by destruct b.
Qed.

Lemma take_empty id n w s e x : semaphores (fixture s) !! id = Some e → quiet e → count e = 0 → in_uint 64 (blocked_count s) →
  wait_mode (settings s) = Realtime → 0 < n ≤ max_finite_wait (settings s) → ticks s = ticks_of x → 0 ≤ x → n < 2 ^ 64 →
  x + (Z.of_nat w + 1) * n < 2 ^ 96 →
  semaphore_take id n w s = Done (Sys.TakeTimeout, set_ticks (ticks_of (x + (Z.of_nat w + 1) * n)) (push_take n s)).
Proof.
  intros E Q Hc Hbl Hm Hn Et Hx Hn' Hl. unfold semaphore_take. rewrite Hm. unfold semaphore_take_realtime, mbind_ at 1, mmodify. simpl.
  clear Hm. set (s1 := push_take n s). assert (semaphores (fixture s1) !! id = Some e) as E1 by done.
  assert (in_uint 64 (blocked_count s1)) as Hbl1 by done. assert (0 < n ≤ max_finite_wait (settings s1)) as Hn1 by done.
  assert (ticks s1 = ticks_of x) as Et1 by done. clearbody s1. clear E Hbl Hn Et s.
  revert x s1 E1 Hbl1 Hn1 Et1 Hx Hl. induction w as [|w IH]; intros x s1 E1 Hbl1 Hn1 Et1 Hx Hl;
    destruct (realtime_wait id n s1 e E1 Q Hc Hbl1 Hn1) as (s2 & Er & Ew); cbn [realtime_loop]; unfold mbind_ at 1; rewrite Er;
    cbn [mbind Run_bind]; unfold mbind_ at 1.
  - rewrite (Ew x true) by (done || lia). replace (x + (Z.of_nat 0 + 1) * n) with (x + n) by lia. done.
  - rewrite (Ew x false) by (done || lia). cbn [mbind Run_bind].
    replace (x + (Z.of_nat (S w) + 1) * n) with (x + n + (Z.of_nat w + 1) * n) by lia.
    rewrite (IH (x + n)) by (done || lia). done.
Qed.

Lemma give_room id s e : semaphores (fixture s) !! id = Some e → quiet e → 0 ≤ count e < max_count e → max_count e < 2 ^ 32 →
  semaphore_give id s =
    Done (Sys.GiveOk, put_semaphore id (mkSemaphore (count e + 1) (max_count e) (s_deleted e) (s_waiters e) (s_blocked_count e)) (count_give s)).
Proof.
  intros E (Hd & _) Hc Hm. unfold semaphore_give. simpl. rewrite E. simpl. rewrite Hd. zb. by rewrite uadd_ok by lia.
Qed.
Lemma give_full id s e : semaphores (fixture s) !! id = Some e → quiet e → max_count e ≤ count e →
  semaphore_give id s = Done (Sys.GiveFull, count_give s).
Proof. intros E (Hd & _) Hc. unfold semaphore_give. simpl. rewrite E. simpl. rewrite Hd. by zb. Qed.

(** *** Mutexes *)

Lemma mutex_take_free id n w s e : mutexes (fixture s) !! id = Some e → m_deleted e = false → locked e = false →
  mutex_take me id n w s =
    Done (Sys.Acquired, put_mutex id (mkMutex true (Some me) false (m_waiters e) (m_blocked_count e)) (push_take n s)).
Proof.
  intros E Hd Hl. unfold mutex_take, mbind_, mmodify. simpl.
  destruct w; simpl; unfold mbind_, mutex_round; simpl; rewrite E; simpl; rewrite Hd, Hl; done.
Qed.

Lemma mutex_take_mine id n w s e x : mutexes (fixture s) !! id = Some e → m_deleted e = false → locked e = true → owner e = Some me →
  ticks s = ticks_of x → 0 ≤ x → 0 ≤ n < 2 ^ 64 → x + n < 2 ^ 96 →
  mutex_take me id n w s = Done (Sys.TakeTimeout, set_ticks (ticks_of (x + n)) (push_take n s)).
Proof.
  intros E Hd Hl Ho Et Hx Hn Hl'. unfold mutex_take, mbind_, mmodify. simpl.
  assert (mutex_round me id n (push_take n s) = Done (Ret Sys.TakeTimeout, set_ticks (ticks_of (x + n)) (push_take n s))) as Er.
  { unfold mutex_round. simpl. rewrite E. simpl. rewrite Hd, Hl, bool_decide_true by done. simpl. case_if; bool_to_prop.
    - unfold mbind_. by rewrite (advance_spec x n (push_take n s)).
    - assert (n = 0) as -> by lia. rewrite Z.add_0_r, <- Et. by destruct s as [[] ? ? ? ? ?]. }
  destruct w; simpl; unfold mbind_; by rewrite Er.
Qed.

Lemma mutex_give_mine id s e : mutexes (fixture s) !! id = Some e → m_deleted e = false → locked e = true → owner e = Some me →
  mutex_give me id s = Done (Sys.GiveOk, put_mutex id (mkMutex false None false (m_waiters e) (m_blocked_count e)) (count_give s)).
Proof. intros E Hd Hl Ho. unfold mutex_give. simpl. rewrite E. simpl. rewrite Hd, Hl, bool_decide_true by done. done. Qed.

End Facts.
End FixtureFacts.
