(* ===== verification/FixtureWait.v ===== *)
(** * Waits and whole calls on the simulated kernel

    [FixtureWait]: the wait engine of [wait.rs] when a take of the fixture can
    never succeed, and when it succeeds at once.

    [FreeRtosQueueCalls]: [send], [recv], [close] and [len] of [queue.rs] as one
    task executes them, from taking the state mutex over the wait on a wake
    semaphore to the return; [FreeRtosQueue] has the sections they consist of. *)

From S2P Require Import Prelude Api Buffers Time Runtime Kernel Wait FreeRtosQueue FreeRtosSync Fixture.
Import Duration (as_nanos, NANOS_PER_SEC).

(** ** Waits that nobody ends *)

Module FixtureWait.
Import Fixture FixtureFacts.

(** The longest wait in seconds, the most spurious wake-ups of one take, the ticks
    one call may pass, and what the clock must stay below. *)
Definition MAX_WAIT : Z := 2 ^ 20.
Definition WAKES : Z := 2 ^ 20.
Definition COST : Z := 2 ^ 52.
Definition LIFE : Z := 2 ^ 70.

(** Rounds of a deadline loop: the second one finds the deadline passed. *)
Definition FUEL : nat := 2.

Abbreviation caps := (Some (kernel_capabilities (K:=t))).

Lemma now_at s0 x s : like s0 x s → x < LIFE →
  ∃ d, FreeRtosClock.now caps s = Done (d, s) ∧ Duration.wf d ∧ as_nanos d = x * 1000000.
Proof.
  intros (Et & Hx & _) Hl. unfold FreeRtosClock.now. rewrite (mbind_done _ _ s kernel_capabilities s) by done.
  unfold mbind_ at 1, tick_snapshot. simpl. rewrite Et. simpl. change (Z.pow_pos 2 32) with (2 ^ 32).
  set (c := Sys.tick_config kernel_capabilities). pose proof (Z.mod_pos_bound x (2 ^ 32) ltac:(lia)).
  destruct (TickTime.snapshot_to_duration_spec c (TickTime.mkSnapshot (x / 2 ^ 32) (x mod 2 ^ 32))) as (d & E & Wd & Nd).
  - split; [done|]. right. left. done.
  - split; [|done]. split; simpl; [apply Z.div_pos; lia|apply Z.div_lt_upper_bound; unfold LIFE in *; lia].
  - exists d. unfold mbind_, mrun. rewrite E. simpl. split; [done|]. split; [done|]. rewrite Nd, Duration.dur_as_nanos_MAX.
    unfold TickTime.total, TickTime.ticks_nanos. simpl. change (Z.pow_pos 2 32) with (2 ^ 32).
    pose proof (Z.div_mod x (2 ^ 32) ltac:(lia)) as Ex. replace (x / 2 ^ 32 * 2 ^ 32 + x mod 2 ^ 32) with x by lia.
    unfold NANOS_PER_SEC, LIFE in *. replace (x * 1000000000) with (x * 1000000 * 1000) by lia. rewrite Z.div_mul by lia. lia.
Qed.

(** A take that never succeeds and changes nothing but the ticks and the log. *)
Definition stuck (take : Z → t → Sys.TakeStatus * t) (s0 : t) : Prop := ∀ n s x,
  0 ≤ n ≤ 2 ^ 32 - 2 → like s0 x s → x + (WAKES + 1) * n < 2 ^ 96 →
  ∃ s' y, take n s = (Sys.TakeTimeout, s') ∧ like s0 y s' ∧ x + n ≤ y ≤ x + (WAKES + 1) * n.

Lemma like_settings s0 x s : like s0 x s → settings s = settings s0.
Proof. intros (_ & _ & E). by apply erase_fields in E as (_ & _ & _ & ? & _). Qed.

Lemma like_bound s0 x s : like s0 x s → x < LIFE → x + (WAKES + 1) * (2 ^ 32 - 2) < 2 ^ 96.
Proof. unfold LIFE, WAKES. lia. Qed.

(** A take of zero ticks, and a look at the clock. *)
Lemma stuck_now take s0 x s : stuck take s0 → like s0 x s → x < LIFE →
  ∃ s' d, take 0 s = (Sys.TakeTimeout, s') ∧ like s0 x s' ∧ FreeRtosClock.now caps s' = Done (d, s') ∧
    Duration.wf d ∧ as_nanos d = x * 1000000.
Proof.
  intros St Hl Hx. destruct (St 0 s x) as (s' & y & Et & Hl' & Hy); [lia|done|unfold LIFE in *; lia|].
  assert (y = x) as -> by lia. destruct (now_at s0 x s' Hl' Hx) as (d & En & Wd & Nd). by exists s', d.
Qed.

Lemma deadline_stuck take s0 x s dl d : stuck take s0 → like s0 x s → x + COST < LIFE →
  Duration.wf dl → as_nanos dl = x * 1000000 + d → 0 < d ≤ (MAX_WAIT + 1) * NANOS_PER_SEC →
  ∃ s' y, Wait.deadline_iterations caps take FUEL dl 1000 (2 ^ 32 - 3) s = Done (Ok Wait.Unavailable, s') ∧
    like s0 y s' ∧ x ≤ y ≤ x + COST.
Proof.
  intros St Hl Hx Wl Nl Hd. unfold FUEL. cbn [Wait.deadline_iterations].
  destruct (stuck_now take s0 x s St Hl) as (s1 & d1 & E1 & L1 & N1 & W1 & A1); [unfold COST in *; lia|].
  rewrite (mbind_done _ _ s Sys.TakeTimeout s1) by (unfold Wait.call_take; by rewrite E1). rewrite bool_decide_false by done.
  rewrite (mbind_done _ _ _ _ _ N1), Duration.dur_leb_nanos by done. rewrite (proj2 (Z.leb_gt _ _)) by lia.
  destruct (TickTime.duration_to_ticks_ceil_spec (Duration.saturating_sub dl d1) 1000) as (p & Ep & Hp & Hlo & Hhi);
    [by apply Duration.dur_saturating_sub_wf|lia|]. rewrite Duration.dur_saturating_sub_nanos in Hlo, Hhi by done.
  rewrite Ep. rewrite (mtry_ok _ _ _ p s1) by done.
  assert (p * 1000000 < d + 1000000) as Hpd by (unfold NANOS_PER_SEC in *; lia).
  assert (d ≤ p * 1000000) as Hdp by (unfold NANOS_PER_SEC in *; lia).
  assert (0 < p < 2 ^ 31) as Hpr by (unfold MAX_WAIT, NANOS_PER_SEC in *; lia).
  rewrite Z.min_l by lia. rewrite (mbind_done _ _ s1 (p + 1) s1) by (unfold mrun, checked_add; by zb). rewrite Z.mod_small by lia.
  destruct (St (p + 1) s1 x) as (s2 & y & E2 & L2 & Hy); [lia|done|unfold WAKES, COST, LIFE in *; lia|].
  assert (y ≤ x + COST) as Hyc by (unfold WAKES, COST in *; lia).
  rewrite (mbind_done _ _ s1 Sys.TakeTimeout s2) by (unfold Wait.call_take; by rewrite E2).
  destruct (stuck_now take s0 y s2 St L2) as (s3 & d3 & E3 & L3 & N3 & W3 & A3); [lia|].
  rewrite (mbind_done _ _ s2 Sys.TakeTimeout s3) by (unfold Wait.call_take; by rewrite E3). rewrite bool_decide_false by done.
  rewrite (mbind_done _ _ _ _ _ N3), Duration.dur_leb_nanos by done. rewrite (proj2 (Z.leb_le _ _)) by lia.
  exists s3, y. split; [done|]. split; [done|lia].
Qed.

(** A prepared or unprepared finite budget. *)
Lemma resolve_stuck s0 x s d : like s0 x s → x + COST < LIFE → Duration.wf d → Duration.as_secs d ≤ MAX_WAIT →
  ∃ dl, Wait.resolve_deadline caps d None s = Done (Ok dl, s) ∧ Duration.wf dl ∧ as_nanos dl = x * 1000000 + as_nanos d.
Proof.
  intros Hl Hx Wd Hd. destruct (now_at s0 x s Hl ltac:(unfold COST in *; lia)) as (t0 & En & Wt & Nt).
  unfold Wait.resolve_deadline. rewrite (mbind_done _ _ _ _ _ En). destruct (Duration.checked_add t0 d) as [dl|] eqn:E.
  - apply Duration.dur_checked_add_Some in E as [Wl Nl]; [|done..]. exists dl. split; [done|]. split; [done|lia].
  - apply Duration.dur_checked_add_None in E; [|done..]. rewrite Duration.dur_as_nanos_MAX in E.
    exfalso. rewrite Nt in E. destruct Wd as [Ws Wn]. unfold as_nanos, NANOS_PER_SEC, MAX_WAIT, LIFE, COST in *. lia.
Qed.

Lemma nanos_range d : Duration.wf d → Duration.as_secs d ≤ MAX_WAIT → Duration.eqb d Duration.ZERO = false →
  0 < as_nanos d ≤ (MAX_WAIT + 1) * NANOS_PER_SEC.
Proof.
  intros Wd Hs Hz. destruct d as [sec ns]. unfold Duration.eqb in Hz. simpl in Hz.
  unfold Duration.wf, as_nanos, in_uint, NANOS_PER_SEC in *. simpl in *. apply andb_false_iff in Hz as [Hz|Hz]; bool_to_prop; lia.
Qed.

Lemma allowed s : settings s = default_settings → Wait.ensure_blocking_allowed s = Done (Ok (), s).
Proof. intros Hs. unfold Wait.ensure_blocking_allowed, mbind_, scheduler_state. simpl. by rewrite Hs. Qed.

Lemma loop_eq take dl s : Wait.wait_deadline_loop caps take FUEL dl s = Wait.deadline_iterations caps take FUEL dl 1000 (2 ^ 32 - 3) s.
Proof. reflexivity. Qed.

(** [wait_once] with a finite budget whose deadline is set or not. *)
Lemma wait_once_stuck take s0 x s d dl prepared : stuck take s0 → settings s0 = default_settings → like s0 x s → x + COST < LIFE →
  Duration.wf d → Duration.as_secs d ≤ MAX_WAIT → Duration.eqb d Duration.ZERO = false →
  match dl with Some dl => Duration.wf dl ∧ as_nanos dl = x * 1000000 + as_nanos d | None => True end →
  ∃ s' y dl', Wait.wait_once caps take FUEL (Wait.Finite d dl prepared) s = Done ((Ok Wait.Unavailable, Wait.Finite d dl' prepared), s') ∧
    like s0 y s' ∧ x ≤ y ≤ x + COST.
Proof.
  intros St Hs Hl Hx Wd Hd Hz Hdl. unfold Wait.wait_once.
  rewrite (mbind_done _ _ s (Ok ()) s) by (destruct prepared; [done|apply allowed; by rewrite (like_settings s0 x s)]).
  assert (∃ v, Wait.resolve_deadline caps d dl s = Done (Ok v, s) ∧ Duration.wf v ∧ as_nanos v = x * 1000000 + as_nanos d) as (v & Ev & Wv & Nv).
  { destruct dl as [v|]; [by exists v|]. by eapply resolve_stuck. }
  rewrite (mbind_done _ _ _ _ _ Ev).
  destruct (deadline_stuck take s0 x s v (as_nanos d) St Hl Hx Wv Nv (nanos_range d Wd Hd Hz)) as (s' & y & E & L & Hy).
  exists s', y, (Some v). split; [|done]. rewrite <- loop_eq in E. by rewrite (mbind_done _ _ _ _ _ E).
Qed.

Lemma wait_stuck take s0 x s d : stuck take s0 → settings s0 = default_settings → like s0 x s → x + COST < LIFE →
  Duration.wf d → Duration.as_secs d ≤ MAX_WAIT →
  ∃ s' y, Wait.wait_native caps take FUEL (Timeout.After d) s = Done (Ok Wait.Unavailable, s') ∧ like s0 y s' ∧ x ≤ y ≤ x + COST.
Proof.
  intros St Hs Hl Hx Wd Hd. unfold Wait.wait_native, Wait.budget_new. destruct (Duration.eqb d Duration.ZERO) eqn:Hz.
  - destruct (stuck_now take s0 x s St Hl) as (s1 & d1 & E1 & L1 & _); [unfold COST in *; lia|].
    exists s1, x. split; [|split; [done|unfold COST; lia]]. unfold Wait.wait_once, Wait.try_now, mbind_, Wait.call_take. by rewrite E1.
  - destruct (wait_once_stuck take s0 x s d None false St Hs Hl Hx Wd Hd Hz I) as (s' & y & dl & E & L & Hy).
    exists s', y. split; [|done]. unfold mbind_ at 1. by rewrite E.
Qed.

(** A take that succeeds at once. *)
Lemma wait_ready take s s0 s1 t : take 0 s = (Sys.Acquired, s0) → take (2 ^ 32 - 2) s = (Sys.Acquired, s1) → settings s = default_settings →
  (∀ d, t = Timeout.After d → ∃ dl, Wait.resolve_deadline caps d None s = Done (Ok dl, s)) →
  Wait.wait_native caps take FUEL t s = Done (Ok Wait.Acquired, match t with Timeout.Forever => s1 | _ => s0 end).
Proof.
  intros E0 Em Hs Hd. unfold Wait.wait_native, Wait.budget_new. destruct t as [|d|].
  - unfold Wait.wait_once, Wait.try_now, mbind_, Wait.call_take. by rewrite E0.
  - case_if; [unfold Wait.wait_once, Wait.try_now, mbind_, Wait.call_take; by rewrite E0|].
    destruct (Hd d eq_refl) as (dl & Ed).
    assert (Wait.wait_deadline_loop caps take FUEL dl s = Done (Ok Wait.Acquired, s0)) as El.
    { rewrite loop_eq. unfold FUEL. cbn [Wait.deadline_iterations].
      rewrite (mbind_done _ _ s Sys.Acquired s0) by (unfold Wait.call_take; by rewrite E0). done. }
    unfold mbind_ at 1, Wait.wait_once. rewrite (mbind_done _ _ s (Ok ()) s) by by apply allowed.
    rewrite (mbind_done _ _ _ _ _ Ed), (mbind_done _ _ _ _ _ El). done.
  - unfold mbind_ at 1, Wait.wait_once. rewrite (mbind_done _ _ s (Ok ()) s) by by apply allowed.
    unfold mbind_, Wait.wait_forever, FUEL. unfold mbind_, Wait.call_take, max_finite_delay_ticks. simpl. by rewrite Em.
Qed.

(** *** Takes of the fixture *)

Section Takes.
Context (me : Z) (wakes : nat → nat).
#[local] Hint Extern 0 (NativeObjects t) => exact (native_objects me wakes) : typeclass_instances.

Lemma take_raw x : Sys.take_from_raw (take_to_raw x) = x.
Proof. by destruct x. Qed.
Lemma give_raw x : Sys.give_from_raw (give_to_raw x) = x.
Proof. by destruct x. Qed.

Lemma sys_semaphore_take id n s x s' : semaphore_take id n (wakes_now wakes s) s = Done (x, s') → SysSync.semaphore_take id n s = (x, s').
Proof. intros E. unfold SysSync.semaphore_take. simpl. unfold or_else, mbind_. rewrite E. simpl. by rewrite take_raw. Qed.
Lemma sys_mutex_take id n s x s' : mutex_take me id n (wakes_now wakes s) s = Done (x, s') → SysSync.mutex_take id n s = (x, s').
Proof. intros E. unfold SysSync.mutex_take. simpl. unfold or_else, mbind_. rewrite E. simpl. by rewrite take_raw. Qed.
Lemma sys_semaphore_give id s x s' : semaphore_give id s = Done (x, s') → SysSync.semaphore_give id s = Done (x, s').
Proof. intros E. unfold SysSync.semaphore_give. simpl. unfold or_else, mbind_. rewrite E. simpl. by rewrite give_raw. Qed.
Lemma sys_mutex_give id s x s' : mutex_give me id s = Done (x, s') → SysSync.mutex_give id s = Done (x, s').
Proof. intros E. unfold SysSync.mutex_give. simpl. unfold or_else, mbind_. rewrite E. simpl. by rewrite give_raw. Qed.

Context (Hwakes : ∀ i, Z.of_nat (wakes i) ≤ WAKES).

Lemma like_later s0 x y n s : like s0 x s → 0 ≤ y → like s0 y (set_ticks (ticks_of y) (push_take n s)).
Proof. intros (_ & _ & E) Hy. split; [done|]. split; [done|]. by rewrite erase_ticks, erase_push. Qed.

Lemma sem_stuck id e s0 : semaphores (fixture s0) !! id = Some e → quiet e → count e = 0 → in_uint 64 (blocked_count s0) →
  settings s0 = default_settings → stuck (SysSync.semaphore_take id) s0.
Proof.
  intros E Q Hc Hb Hs n s x Hn Hl Hx. pose proof Hl as (Et & Hx0 & Er). apply erase_fields in Er as (_ & Es & _ & Ec & Eb & _).
  rewrite <- Es in E. rewrite <- Eb in Hb. rewrite Hs in Ec. pose proof (Hwakes (length (take_call_ticks (fixture s)))) as Hw.
  destruct (decide (n = 0)) as [->|Hn0].
  - exists (set_ticks (ticks_of x) (push_take 0 s)), x. split; [|split; [by eapply like_later|lia]].
    apply sys_semaphore_take. rewrite (take_empty_now id _ s e) by (done || by rewrite Ec). rewrite <- Et. by destruct s as [[] ? ? ? ? ?].
  - set (w := wakes_now wakes s). exists (set_ticks (ticks_of (x + (Z.of_nat w + 1) * n)) (push_take n s)), (x + (Z.of_nat w + 1) * n).
    assert (0 ≤ Z.of_nat w ≤ WAKES) as Hwr by (unfold w, wakes_now; lia). split; [|split; [eapply like_later; [done|nia]|nia]].
    apply sys_semaphore_take. apply (take_empty id n w s e x); try done; try (by rewrite Ec); [rewrite Ec; simpl; lia|lia|nia].
Qed.

Lemma mutex_stuck id e s0 : mutexes (fixture s0) !! id = Some e → m_deleted e = false → locked e = true → owner e = Some me →
  stuck (SysSync.mutex_take id) s0.
Proof.
  intros E Hd Hlk Ho n s x Hn Hl Hx. pose proof Hl as (Et & Hx0 & Er). apply erase_fields in Er as (Em & _).
  rewrite <- Em in E. exists (set_ticks (ticks_of (x + n)) (push_take n s)), (x + n). unfold WAKES in *.
  split; [|split; [eapply like_later; [done|lia]|lia]]. apply sys_mutex_take. apply (mutex_take_mine me id n _ s e x); try done; lia.
Qed.

End Takes.
End FixtureWait.

(** ** Whole calls on a queue *)

Module FreeRtosQueueCalls.
Import FreeRtosQueue FreeRtosQueueNew.

Section Calls.
Context `{Arch} {K : Type} `{Kernel K} `{!NativeObjects K} (caps : option Sys.Capabilities) (fuel : nat).

(** A native semaphore of the kernel, by its handle. *)
#[local] Instance sem_at : NativeSem (Z * K) := {|
  sem_count x := fst (osal_freertos_semaphore_count (fst x) (snd x));
  sem_max _ := wake_max;
  semaphore_give x :=
    let '(raw, k) := osal_freertos_semaphore_give (fst x) (snd x) in (Sys.give_from_raw raw, (fst x, k));
  semaphore_take0 x :=
    let '(status, k) := SysSync.semaphore_take (fst x) 0 (snd x) in (status, (fst x, k));
|}.

(** The kernel and the queue. *)
Abbreviation St := (K * QueueInner)%type.

Definition on_kernel {A} (m : M K A) : M St A := λ s, '(a, k) ← m (fst s); Done (a, (k, snd s)).
Definition set_state (q : QueueInner) (st : QueueState) : QueueInner :=
  mkInner (state_mutex q) (sender_sem q) (receiver_sem q) st (capacity q) (message_size q).
Definition put (k : K) (q : QueueInner) (st : QueueState) : St := (k, set_state q st).

Definition lock : M St (Result ()) := λ s, on_kernel (lock_state caps fuel (state_mutex (snd s))) s.
Definition unlock : M St () := λ s, on_kernel (unlock_state (state_mutex (snd s))) s.

(** What to do about a queue that is full or empty. *)
Definition block_or_fail (b : Wait.WaitBudget) (would_block : Error.t) (waiters : Z) (msg : string) : M K (attempt * Z) :=
  match b with
  | Wait.NoWait => mret_ (Return (Err would_block), waiters)
  | Wait.Zero => mret_ (Return (Err Error.Timeout), waiters)
  | _ =>
      p <- Wait.prepare_blocking caps b ;;
      match p with
      | Err e => mret_ (Return (Err e), waiters)
      | Ok b' => w <- mrun (expect (checked_add 32 waiters 1) msg) ;; mret_ (Block b', w)
      end
  end.

(** [send], under the state mutex *)
Definition send_section (data : list u8) (b : Wait.WaitBudget) : M St attempt := λ s,
  let '(k, q) := s in
  let st := state q in
  if ByteQueue.is_closed (buffer st) then Done (Return (Err Error.QueueClosed), s)
  else
    '(r, buf) ← ByteQueue.try_send (buffer st) data;
    match r with
    | Ok _ =>
        '(st, wake) ← signal_one_receiver (set_buffer st buf) (receiver_sem q, k);
        Done (Return (Ok ()), put (snd wake) q st)
    | Err Error.QueueFull =>
        '(x, k) ← block_or_fail b Error.QueueFull (sender_waiters st) "sender waiter count overflowed u32" k;
        Done (fst x, put k q (set_sender (set_buffer st buf) (snd x) (sender_wake_credits st)))
    | Err e => Done (Return (Err e), put k q (set_buffer st buf))
    end.
Definition send_reconcile_section (o : Wait.WaitOutcome) : M St (option (Result ())) := λ s,
  '(r, st, wake) ← send_reconcile o (state (snd s)) (sender_sem (snd s), fst s);
  Done (r, put (snd wake) (snd s) st).

(** [recv], under the state mutex *)
Definition recv_section (out : list u8) (b : Wait.WaitBudget) : M St (attempt * list u8) := λ s,
  let '(k, q) := s in
  let st := state q in
  '(r, (buf, out)) ← ByteQueue.try_recv (buffer st) out;
  match r with
  | Ok _ =>
      '(st, wake) ← signal_one_sender (set_buffer st buf) (sender_sem q, k);
      Done ((Return (Ok ()), out), put (snd wake) q st)
  | Err Error.QueueEmpty =>
      if ByteQueue.is_closed buf then Done ((Return (Err Error.QueueClosed), out), put k q (set_buffer st buf))
      else
        '(x, k) ← block_or_fail b Error.QueueEmpty (receiver_waiters st) "receiver waiter count overflowed u32" k;
        Done ((fst x, out), put k q (set_receiver (set_buffer st buf) (snd x) (receiver_wake_credits st)))
  | Err e => Done ((Return (Err e), out), put k q (set_buffer st buf))
  end.
Definition recv_reconcile_section (o : Wait.WaitOutcome) : M St (option (Result ())) := λ s,
  '(r, st, wake) ← recv_reconcile o (state (snd s)) (receiver_sem (snd s), fst s);
  Done (r, put (snd wake) (snd s) st).

(** The wait between the two sections, and the second one: the result, or the budget
    with which to go round again. *)
Definition blocked (sem : QueueInner → Z) (reconcile : Wait.WaitOutcome → M St (option (Result ()))) (b : Wait.WaitBudget) :
  M St (Result () + Wait.WaitBudget) := λ s,
  (x <- on_kernel (Wait.wait_once caps (SysSync.semaphore_take (sem (snd s))) fuel b) ;;
   match fst x with
   | Err e => mret_ (inl (Err e))
   | Ok o =>
       l <- lock ;;
       match l with
       | Err e => mret_ (inl (Err e))
       | Ok _ => r <- reconcile o ;; unlock ;;; mret_ (match r with Some r => inl r | None => inr (snd x) end)
       end
   end) s.

Fixpoint send_loop (n : nat) (data : list u8) (b : Wait.WaitBudget) : M St (Result ()) :=
  match n with
  | O => λ _, NoFuel
  | S n =>
      _ <-? lock ;;
      a <- send_section data b ;;
      unlock ;;;
      match a with
      | Return r => mret_ r
      | Block b =>
          x <- blocked sender_sem send_reconcile_section b ;;
          match x with inl r => mret_ r | inr b => send_loop n data b end
      end
  end.
Definition send (data : list u8) (timeout : Timeout.t) : M St (Result ()) := λ s,
  (_ <-? mret_ (Validation.validate_send_message_size (message_size (snd s)) (Z.of_nat (length data))) ;;
   send_loop fuel data (Wait.budget_new timeout)) s.

Fixpoint recv_loop (n : nat) (out : list u8) (b : Wait.WaitBudget) : M St (Result () * list u8) :=
  match n with
  | O => λ _, NoFuel
  | S n =>
      l <- lock ;;
      match l with
      | Err e => mret_ (Err e, out)
      | Ok _ =>
          a <- recv_section out b ;;
          unlock ;;;
          match fst a with
          | Return r => mret_ (r, snd a)
          | Block b =>
              x <- blocked receiver_sem recv_reconcile_section b ;;
              match x with inl r => mret_ (r, snd a) | inr b => recv_loop n (snd a) b end
          end
      end
  end.
Definition recv (out : list u8) (timeout : Timeout.t) : M St (Result () * list u8) := λ s,
  match Validation.validate_recv_buffer_size (message_size (snd s)) (Z.of_nat (length out)) with
  | Err e => Done ((Err e, out), s)
  | Ok _ => recv_loop fuel out (Wait.budget_new timeout) s
  end.

Definition close_section : M St (Result ()) := λ s,
  let '(k, q) := s in
  let st := state q in
  if ByteQueue.is_closed (buffer st) then Done (Ok (), s)
  else
    let st := set_buffer st (ByteQueue.close (buffer st)) in
    '(sender_ok, sc, sw) ← broadcast_wake (sender_waiters st) (sender_wake_credits st) (sender_sem q, k);
    '(receiver_ok, rc, rw) ← broadcast_wake (receiver_waiters st) (receiver_wake_credits st) (receiver_sem q, snd sw);
    if negb sender_ok || negb receiver_ok then
      Panic "FreeRTOS queue: wake semaphore give failed during close broadcast"
    else Done (Ok (), put (snd rw) q (set_receiver (set_sender st (sender_waiters st) sc) (receiver_waiters st) rc)).
Definition close : M St (Result ()) :=
  _ <-? lock ;; r <- close_section ;; unlock ;;; mret_ r.

Definition queue_len : M St (Result Z) :=
  _ <-? lock ;; n <- (λ s, Done (ByteQueue.len (buffer (state (snd s))), s)) ;; unlock ;;; mret_ (Ok n).

End Calls.
End FreeRtosQueueCalls.
