(* ===== verification/FreeRtosTask.v ===== *)
(** * FreeRTOS tasks

    [crates/osal-backend-freertos/src/task.rs] and the event-group and task
    wrappers of [crates/osal-backend-freertos-sys].

    [TaskConfig] has the pure part (stack depth, priority, name, handles),
    [FreeRtosTask] the shared objects and the steps of [spawn], of the task
    trampoline, of [join] and of the drops, and [TaskMachine] interleaves them
    with the start and stop of the runtime and with other objects.  A step is
    one access to shared memory or one kernel call; a call into the kernel that
    blocks is a step at the moment it returns. *)

From S2P Require Import Prelude Api Buffers Runtime Kernel Wait FreeRtosRuntime.

(** ** Event groups and task creation of the kernel *)

Class NativeTasks (G : Type) := {
  osal_freertos_event_group_create : G → option Z * G;
  osal_freertos_event_group_set_bits : Z → Z → G → Z * G;
  (** handle, bits, clear on exit, wait for all, ticks *)
  osal_freertos_event_group_wait_bits : Z → Z → bool → bool → Z → G → Z * G;
  osal_freertos_event_group_delete : Z → G → G;
  (** name buffer, stack depth in words, priority *)
  osal_freertos_task_create : list u8 → Z → Z → G → Z * G;
}.

Module SysTask.

Definition EVENT_GROUP_OK : Z := 0.
Definition EVENT_GROUP_TIMEOUT : Z := 1.
Inductive EventGroupWaitStatus : Type := WaitOk | WaitTimeout | WaitInvalid.
Definition wait_from_raw (raw : Z) : EventGroupWaitStatus :=
  if raw =? EVENT_GROUP_OK then WaitOk
  else if raw =? EVENT_GROUP_TIMEOUT then WaitTimeout else WaitInvalid.

Definition TASK_CREATE_OK : Z := 0.
Definition TASK_CREATE_OOM : Z := 1.
Inductive TaskCreateStatus : Type := CreateOk | CreateOutOfMemory | CreateInvalid.
Definition create_from_raw (raw : Z) : TaskCreateStatus :=
  if raw =? TASK_CREATE_OK then CreateOk
  else if raw =? TASK_CREATE_OOM then CreateOutOfMemory else CreateInvalid.

Section SysTask.
Context {G : Type} `{NativeTasks G}.

Definition event_group_create (g : G) : option Z * G := osal_freertos_event_group_create g.
Definition event_group_set_bits (h bits : Z) (g : G) : Z * G := osal_freertos_event_group_set_bits h bits g.
Definition event_group_wait_bits (h bits : Z) (clear all : bool) (ticks : Z) (g : G)
    : EventGroupWaitStatus * G :=
  let '(raw, g') := osal_freertos_event_group_wait_bits h bits clear all ticks g in (wait_from_raw raw, g').
Definition event_group_delete (h : Z) (g : G) : G := osal_freertos_event_group_delete h g.
Definition task_create (name : list u8) (words prio : Z) (g : G) : TaskCreateStatus * G :=
  let '(raw, g') := osal_freertos_task_create name words prio g in (create_from_raw raw, g').

End SysTask.
End SysTask.

(** The documented behaviour: [groups] are the live event groups with their bits. *)
Class NativeTasksLaws (G : Type) `{NativeTasks G} := {
  groups : G → gmap Z Z;
  law_group_create : ∀ g, match osal_freertos_event_group_create g with
    | (None, g') => groups g' = groups g
    | (Some h, g') => groups g !! h = None ∧ groups g' = <[h:=0]> (groups g)
    end;
  law_group_set : ∀ g h b bits, groups g !! h = Some b →
    fst (osal_freertos_event_group_set_bits h bits g) = SysTask.EVENT_GROUP_OK ∧
    groups (snd (osal_freertos_event_group_set_bits h bits g)) = <[h:=Z.lor b bits]> (groups g);
  (** a wait for all bits without clearing *)
  law_group_wait : ∀ g h b bits ticks, groups g !! h = Some b →
    let '(raw, g') := osal_freertos_event_group_wait_bits h bits false true ticks g in
    groups g' = groups g ∧
    raw = if Z.land b bits =? bits then SysTask.EVENT_GROUP_OK else SysTask.EVENT_GROUP_TIMEOUT;
  law_group_delete : ∀ g h, groups (osal_freertos_event_group_delete h g) = delete h (groups g);
  law_task_create : ∀ g name words prio, groups (snd (osal_freertos_task_create name words prio g)) = groups g;
}.

(** ** Stack, priority, name and handle *)

Module TaskConfig.
Section TaskConfig.
Context `{Arch}.

Definition COMPLETION_RUNNING : Z := 0.
Definition COMPLETION_FINISHED : Z := 1.
Definition TASK_COMPLETED_BIT : Z := 1.

Definition stack_bytes_to_words (bytes word_size minimal_words max_words : Z) : Result Z :=
  if word_size =? 0 then Err (Error.Internal "stack word size is zero")
  else
    sum ← ok_or (checked_add usize_bits bytes (word_size - 1)) Error.Overflow;
    let words := Z.max (sum / word_size) minimal_words in
    if max_words <? words then Err Error.Overflow else Ok words.

Definition map_native_priority (requested max_priorities : Z) : Z :=
  if max_priorities <=? 1 then 0 else Z.min requested (max_priorities - 1).

(** [NEXT_HANDLE.fetch_update(checked_add(1))] and [TaskHandle::from_raw]. *)
Definition allocate_task_handle (next : Z) : Result TaskHandle.t * Z :=
  match checked_add usize_bits next 1 with
  | None => (Err Error.Overflow, next)
  | Some next' => (ok_or (TaskHandle.from_raw next) Error.Overflow, next')
  end.

(** [FreeRtosTaskBuilder] *)
Record FreeRtosTaskBuilder : Type := mkBuilder {
  name : list u8;
  stack_size : Z;
  priority : Z;
}.
Definition builder_new : FreeRtosTaskBuilder := mkBuilder [] 4096 1.
Definition builder_name (b : FreeRtosTaskBuilder) (n : list u8) : FreeRtosTaskBuilder :=
  mkBuilder n (stack_size b) (priority b).
Definition builder_stack_size (b : FreeRtosTaskBuilder) (bytes : Z) : FreeRtosTaskBuilder :=
  mkBuilder (name b) bytes (priority b).
Definition builder_priority (b : FreeRtosTaskBuilder) (prio : Z) : FreeRtosTaskBuilder :=
  mkBuilder (name b) (stack_size b) prio.

(** The NUL-terminated, truncated name. *)
Definition name_buf (n : list u8) (max_task_name_len : Z) : Run (list u8) :=
  limit ← usub max_task_name_len 1;
  let name_len := Z.min (Z.min (Z.of_nat (length n)) limit) 31 in
  src ← slice n 0 name_len;
  slice_copy (replicate 32 Byte.x00) 0 name_len src.

(** The string C code reads from a buffer. *)
Fixpoint c_string (l : list u8) : list u8 :=
  match l with
  | [] => []
  | b :: l => if Byte.eqb b Byte.x00 then [] else b :: c_string l
  end.

End TaskConfig.
End TaskConfig.

(** ** Tasks and their steps *)

Module FreeRtosTask.
Import TaskConfig.
Section FreeRtosTask.
Context `{Arch} {G : Type} `{NativeTasks G} (probed : Sys.Capabilities).

(** The two shared objects, each with its [Arc] strong count. *)
Record TaskIdentity : Type := mkIdentity {
  handle : TaskHandle.t;
  requested_priority : Z;
  id_strong : nat;
}.
Record TaskCompletion : Type := mkCompletion {
  event_group : option Z;
  state : Z;
  exit_code : Z;
  co_strong : nat;
}.

(** [task_trampoline], by the next step. *)
Inductive trampoline_pc : Type :=
| TSetContext | TAcquireLive | TTakeEntry | TEntry | TDropLive | TClearContext
| TStoreCode | TStoreState | TSetBits | TDropIdentity | TDropCompletion | TDelete | TDeleted.

(** A created task: its objects, the [entry] of its start payload, the thread-local
    pointer to an identity (the index of the task it belongs to), the
    [FreeRtosTask] handles and those whose identity is already dropped. *)
Record task : Type := mkTask {
  identity : TaskIdentity;
  completion : TaskCompletion;
  created_with : list u8 * Z * Z;
  entry : bool;
  tls : option nat;
  tpc : trampoline_pc;
  handles : nat;
  half_dropped : nat;
}.

(** [spawn], by the next step; what it owns at that point. *)
Inductive spawn_pc : Type :=
| SpLease (b : FreeRtosTaskBuilder)
| SpGroup (b : FreeRtosTaskBuilder)
| SpHandle (b : FreeRtosTaskBuilder) (words prio : Z) (group : Z)
| SpCreate (b : FreeRtosTaskBuilder) (words prio : Z) (group : Z) (h : TaskHandle.t).

(** [join], by the next step. *)
Inductive join_pc : Type := JFast | JLoadCode | JBlock | JWait | JAcquired | JExpired.
Record join_call : Type := mkJoin {
  target : nat;
  timeout : Timeout.t;
  jpc : join_pc;
}.

Record config : Type := mkConfig {
  runtime : FreeRtosRuntime.t;
  native : G;
  next_handle : Z;
  live_count : Z;
  tasks : list task;
  spawns : list spawn_pc;
  joins : list join_call;
  others : nat;
  (** results of [join], by task *)
  results : list (nat * Timeout.t * Result ExitCode.t);
  (** event groups whose handle was dropped without [event_group_delete] *)
  lost : list Z;
}.

Definition set_runtime (c : config) r := mkConfig r (native c) (next_handle c) (live_count c) (tasks c) (spawns c) (joins c) (others c) (results c) (lost c).
Definition set_native (c : config) g := mkConfig (runtime c) g (next_handle c) (live_count c) (tasks c) (spawns c) (joins c) (others c) (results c) (lost c).
Definition set_next (c : config) n := mkConfig (runtime c) (native c) n (live_count c) (tasks c) (spawns c) (joins c) (others c) (results c) (lost c).
Definition set_live (c : config) n := mkConfig (runtime c) (native c) (next_handle c) n (tasks c) (spawns c) (joins c) (others c) (results c) (lost c).
Definition set_tasks (c : config) l := mkConfig (runtime c) (native c) (next_handle c) (live_count c) l (spawns c) (joins c) (others c) (results c) (lost c).
Definition set_spawns (c : config) l := mkConfig (runtime c) (native c) (next_handle c) (live_count c) (tasks c) l (joins c) (others c) (results c) (lost c).
Definition set_joins (c : config) l := mkConfig (runtime c) (native c) (next_handle c) (live_count c) (tasks c) (spawns c) l (others c) (results c) (lost c).
Definition set_others (c : config) n := mkConfig (runtime c) (native c) (next_handle c) (live_count c) (tasks c) (spawns c) (joins c) n (results c) (lost c).
Definition set_lost (c : config) l := mkConfig (runtime c) (native c) (next_handle c) (live_count c) (tasks c) (spawns c) (joins c) (others c) (results c) l.

Definition set_task (c : config) (k : nat) (t : task) : config := set_tasks c (<[k:=t]> (tasks c)).
Definition set_identity (t : task) i := mkTask i (completion t) (created_with t) (entry t) (tls t) (tpc t) (handles t) (half_dropped t).
Definition set_completion (t : task) x := mkTask (identity t) x (created_with t) (entry t) (tls t) (tpc t) (handles t) (half_dropped t).
Definition goto (t : task) p := mkTask (identity t) (completion t) (created_with t) (entry t) (tls t) p (handles t) (half_dropped t).
Definition set_tls (t : task) x := mkTask (identity t) (completion t) (created_with t) (entry t) x (tpc t) (handles t) (half_dropped t).
Definition take_entry (t : task) := mkTask (identity t) (completion t) (created_with t) false (tls t) (tpc t) (handles t) (half_dropped t).
Definition set_handles (t : task) n h := mkTask (identity t) (completion t) (created_with t) (entry t) (tls t) (tpc t) n h.

(** *** Reference counts *)

(** Dropping an [Arc<TaskIdentity>] of a task: the last one drops the lease. *)
Definition drop_identity (t : task) (r : FreeRtosRuntime.t) : Run (task * FreeRtosRuntime.t) :=
  let i := identity t in
  match id_strong i with
  | O => Panic "identity used after free"
  | S n =>
      r' ← match n with O => FreeRtosRuntime.lease_drop r | S _ => Done r end;
      Done (set_identity t (mkIdentity (handle i) (requested_priority i) n), r')
  end.

(** Dropping an [Arc<TaskCompletion>]: the last one deletes the event group. *)
Definition drop_completion (t : task) (g : G) : Run (task * G) :=
  let x := completion t in
  match co_strong x with
  | O => Panic "completion used after free"
  | S (S n) => Done (set_completion t (mkCompletion (event_group x) (state x) (exit_code x) (S n)), g)
  | S O =>
      Done (set_completion t (mkCompletion None (state x) (exit_code x) O),
            match event_group x with Some h => SysTask.event_group_delete h g | None => g end)
  end.

(** An access through an [Arc<TaskCompletion>]. *)
Definition access (t : task) : Run TaskCompletion :=
  match co_strong (completion t) with O => Panic "completion used after free" | S _ => Done (completion t) end.

(** *** [spawn] *)

(** Steps 1 to 3: the arguments of [xTaskCreate]. *)
Definition spawn_args (caps : option Sys.Capabilities) (b : FreeRtosTaskBuilder) : Run (Result (Z * Z)) :=
  caps ← expect caps "spawn requires osal::initialize()";
  Done (words ← stack_bytes_to_words (stack_size b) (Sys.stack_word_size caps)
                   (Sys.minimal_stack_depth_words caps) (Sys.max_stack_depth_words caps);
        Ok (words, map_native_priority (priority b) (Sys.max_priorities caps))).

Definition spawn_start (c : config) (b : FreeRtosTaskBuilder) : config :=
  match Validation.validate_task_config (name b) (stack_size b) with
  | Ok _ => set_spawns c (spawns c ++ [SpLease b])
  | Err _ => c
  end.

(** The objects of a new task: one [Arc] of each in the handle, one in the payload. *)
Definition new_task (b : FreeRtosTaskBuilder) (h : TaskHandle.t) (group : Z) (args : list u8 * Z * Z) : task :=
  mkTask (mkIdentity h (priority b) 2)
         (mkCompletion (Some group) COMPLETION_RUNNING 0 2) args true None TSetContext 1 0.

Definition spawn_step (c : config) (i : nat) (p : spawn_pc) : Run config :=
  let continue c p' := Done (set_spawns c (<[i:=p']> (spawns c))) in
  let return_ c := Done (set_spawns c (delete i (spawns c))) in
  let fail c := r ← FreeRtosRuntime.lease_drop (runtime c); return_ (set_runtime c r) in
  match p with
  | SpLease b =>
      '(res, r) ← FreeRtosRuntime.acquire_object (runtime c);
      let c := set_runtime c r in
      match res with Ok _ => continue c (SpGroup b) | Err _ => return_ c end
  | SpGroup b =>
      res ← spawn_args (FreeRtosRuntime.capabilities (runtime c)) b;
      match res with
      | Err _ => fail c
      | Ok (words, prio) =>
          match SysTask.event_group_create (native c) with
          | (None, g) => fail (set_native c g)
          | (Some h, g) => continue (set_native c g) (SpHandle b words prio h)
          end
      end
  | SpHandle b words prio group =>
      let '(res, next) := allocate_task_handle (next_handle c) in
      let c := set_next c next in
      match res with
      | Ok h => continue c (SpCreate b words prio group h)
      | Err _ => fail (set_lost c (lost c ++ [group]))
      end
  | SpCreate b words prio group h =>
      caps ← expect (FreeRtosRuntime.capabilities (runtime c)) "spawn requires osal::initialize()";
      buf ← name_buf (name b) (Sys.max_task_name_len caps);
      let '(status, g) := SysTask.task_create buf (words mod 2 ^ 32) prio (native c) in
      match status with
      | SysTask.CreateOk =>
          let t := new_task b h group (buf, words mod 2 ^ 32, prio) in
          return_ (set_tasks (set_native c g) (tasks c ++ [t]))
      | SysTask.CreateOutOfMemory | SysTask.CreateInvalid =>
          fail (set_native c (SysTask.event_group_delete group g))
      end
  end.

(** *** The trampoline *)

Definition trampoline_step (c : config) (k : nat) (t : task) : option (Run config) :=
  let continue c t p := Done (set_task c k (goto t p)) in
  match tpc t with
  | TSetContext => Some (continue c (set_tls t (Some k)) TAcquireLive)
  | TAcquireLive => Some (continue (set_live c (wrapping_add usize_bits (live_count c) 1)) t TTakeEntry)
  | TTakeEntry =>
      Some (_ ← rassert (entry t) "FreeRTOS task entry already consumed"; continue c (take_entry t) TEntry)
  | TEntry => Some (continue c t TDropLive)
  | TDropLive => Some (continue (set_live c (wrapping_sub usize_bits (live_count c) 1)) t TClearContext)
  | TClearContext => Some (continue c (set_tls t None) TStoreCode)
  | TStoreCode =>
      Some (x ← access t;
            continue c (set_completion t (mkCompletion (event_group x) (state x)
                          (ExitCode.code ExitCode.SUCCESS) (co_strong x))) TStoreState)
  | TStoreState =>
      Some (x ← access t;
            continue c (set_completion t (mkCompletion (event_group x) COMPLETION_FINISHED
                          (exit_code x) (co_strong x))) TSetBits)
  | TSetBits =>
      Some (x ← access t;
            match event_group x with
            | None => continue c t TDropIdentity
            | Some h =>
                let '(status, g) := SysTask.event_group_set_bits h TASK_COMPLETED_BIT (native c) in
                _ ← rassert (status =? SysTask.EVENT_GROUP_OK)
                      "live task completion EventGroup became invalid - invariant violation";
                continue (set_native c g) t TDropIdentity
            end)
  | TDropIdentity =>
      Some ('(t, r) ← drop_identity t (runtime c); continue (set_runtime c r) t TDropCompletion)
  | TDropCompletion =>
      Some ('(t, g) ← drop_completion t (native c); continue (set_native c g) t TDelete)
  | TDelete => Some (continue c t TDeleted)
  | TDeleted => None
  end.

(** *** [current] and [join] *)

(** [current()] in task [caller], or in a thread that is no OSAL task. *)
Definition current (c : config) (caller : option nat) : Run (option TaskHandle.t) :=
  match (k ← caller; t ← tasks c !! k; tls t) with
  | None => Done None
  | Some p =>
      i ← expect (identity <$> tasks c !! p) "dangling context pointer";
      _ ← rassert (negb (Nat.eqb (id_strong i) 0)) "identity used after free";
      Done (Some (handle i))
  end.

(** The kinds of ending of a wait whose last native call timed out. *)
Inductive wait_next : Type := Again | GiveUp | WaitFails (e : Error.t).

(** The first step, with the self-join guard. *)
Definition join_start (c : config) (caller : option nat) (k : nat) (t : task) (tmo : Timeout.t) : Run config :=
  cur ← current c caller;
  if decide (cur = Some (handle (identity t)))
  then Done (mkConfig (runtime c) (native c) (next_handle c) (live_count c) (tasks c) (spawns c) (joins c)
               (others c) (results c ++ [(k, tmo, Err Error.Busy)]) (lost c))
  else Done (set_joins c (joins c ++ [mkJoin k tmo JFast])).

Definition join_return (c : config) (j : nat) (x : join_call) (r : Result ExitCode.t) : config :=
  mkConfig (runtime c) (native c) (next_handle c) (live_count c) (tasks c) (spawns c) (delete j (joins c))
    (others c) (results c ++ [(target x, timeout x, r)]) (lost c).

(** The further steps of [join].  [prepared] is what [prepare_blocking] returns,
    [next] how [wait_once] goes on after a native timeout. *)
Definition join_step (c : config) (j : nat) (x : join_call) (t : task)
    (prepared : Result ()) (ticks : Z) (next : wait_next) : option (Run config) :=
  let continue c p := Done (set_joins c (<[j:=mkJoin (target x) (timeout x) p]> (joins c))) in
  let return_ r := Done (join_return c j x r) in
  match jpc x with
  | JFast =>
      Some (y ← access t;
            if state y =? COMPLETION_FINISHED then continue c JLoadCode
            else match timeout x with
                 | Timeout.NoWait => return_ (Err Error.Timeout)
                 | Timeout.After d => if Duration.eqb d Duration.ZERO then return_ (Err Error.Timeout)
                                      else continue c JBlock
                 | Timeout.Forever => continue c JBlock
                 end)
  | JLoadCode => Some (y ← access t; return_ (Ok (ExitCode.new (exit_code y))))
  | JBlock => Some (match prepared with Ok _ => continue c JWait | Err e => return_ (Err e) end)
  | JWait =>
      match access t with
      | Done y =>
          match event_group y with
          | None => Some (Panic "task completion event group already deleted")
          | Some h =>
              match SysTask.event_group_wait_bits h TASK_COMPLETED_BIT false true ticks (native c) with
              | (SysTask.WaitOk, g) => Some (continue (set_native c g) JAcquired)
              | (SysTask.WaitTimeout, g) =>
                  match next, timeout x with
                  | Again, _ => Some (continue (set_native c g) JWait)
                  | GiveUp, Timeout.After _ => Some (continue (set_native c g) JExpired)
                  | WaitFails e, Timeout.After _ => Some (Done (join_return (set_native c g) j x (Err e)))
                  | _, _ => None
                  end
              | (SysTask.WaitInvalid, _) => Some (Panic "FreeRTOS take returned Invalid on a live handle")
              end
          end
      | Panic s => Some (Panic s)
      | NoFuel => Some NoFuel
      end
  | JAcquired =>
      Some (y ← access t;
            if state y =? COMPLETION_FINISHED then continue c JLoadCode
            else Panic "completion bit set before Finished state")
  | JExpired =>
      Some (y ← access t;
            if state y =? COMPLETION_FINISHED then continue c JLoadCode else return_ (Err Error.Timeout))
  end.

(** [count()] *)
Definition count (c : config) : Z := live_count c.

End FreeRtosTask.
End FreeRtosTask.

(** ** The pure part *)

Module TaskConfigFacts.
Import TaskConfig.
Section TaskConfigFacts.
Context `{Arch}.

(** The stack depth is the least number of words that holds the bytes and is not
    below the platform's minimum. *)
Lemma stack_words_spec bytes ws lo hi w :
  0 ≤ bytes → 0 < ws → stack_bytes_to_words bytes ws lo hi = Ok w →
  w ≤ hi ∧ lo ≤ w ∧ bytes ≤ w * ws ∧ (w = lo ∨ (w - 1) * ws < bytes).
Proof.
  intros Hb Hw. unfold stack_bytes_to_words. zb. unfold checked_add. case_if; [|done]. simpl.
  case_if; [done|]. intros [= <-]. bool_to_prop.
  pose proof (Z.div_mod (bytes + (ws - 1)) ws ltac:(lia)).
  pose proof (Z.mod_pos_bound (bytes + (ws - 1)) ws ltac:(lia)).
  destruct (Z.max_spec ((bytes + (ws - 1)) / ws) lo) as [[? ->]|[? ->]]; split_and!; nia.
Qed.

(** ... and it is refused exactly when that does not fit. *)
Lemma stack_words_err bytes ws lo hi e :
  0 ≤ bytes → 0 < ws → hi < 2 ^ 32 → stack_bytes_to_words bytes ws lo hi = Err e →
  e = Error.Overflow ∧ (hi < lo ∨ hi * ws < bytes ∨ 2 ^ usize_bits < bytes + ws).
Proof.
  intros Hb Hw Hh. unfold stack_bytes_to_words. zb. unfold checked_add. case_if; simpl; bool_to_prop.
  - case_if; [|done]. intros [= <-]. split; [done|]. bool_to_prop.
    pose proof (Z.div_mod (bytes + (ws - 1)) ws ltac:(lia)).
    pose proof (Z.mod_pos_bound (bytes + (ws - 1)) ws ltac:(lia)).
    destruct (Z.max_spec ((bytes + (ws - 1)) / ws) lo) as [[? E]|[? E]]; rewrite E in *; [lia|].
    right. left. nia.
  - intros [= <-]. split; [done|lia].
Qed.

(** A native priority is one the kernel has, and keeps the order of requests. *)
Lemma map_native_priority_spec p q n : 0 ≤ p ≤ q → 1 ≤ n →
  0 ≤ map_native_priority p n < n ∧ map_native_priority p n ≤ map_native_priority q n ∧
  (p < n → map_native_priority p n = p).
Proof. intros. unfold map_native_priority. case_if; bool_to_prop; lia. Qed.

Lemma c_string_app l l' : (Byte.x00 ∉ l) → c_string (l ++ Byte.x00 :: l') = l.
Proof.
  induction l as [|b l IH]; intros Hn; simpl; [done|]. apply not_elem_of_cons in Hn as [Hb Hn].
  destruct (Byte.eqb b Byte.x00) eqn:E; [by apply Byte.byte_dec_bl in E; subst|]. by rewrite IH.
Qed.

(** The kernel reads the longest prefix of the name that fits. *)
Lemma name_buf_spec n len : (Byte.x00 ∉ n) → 1 ≤ len →
  ∃ buf, name_buf n len = Done buf ∧ length buf = 32%nat ∧
    c_string buf = take (Z.to_nat (Z.min (len - 1) 31)) n.
Proof.
  intros Hn Hl. unfold name_buf. remember (replicate 32 Byte.x00) as z eqn:Ez.
  assert (length z = 32%nat) as Lz by (by subst z).
  assert (∀ m, (m ≤ 31)%nat → ∃ z', drop m z = Byte.x00 :: z') as Hz.
  { intros m Hm. subst z. rewrite drop_replicate. by replace (32 - m)%nat with (S (31 - m)) by lia; eexists. }
  clear Ez. rewrite usub_ok by lia. run_simpl.
  set (k := Z.min (Z.min _ _) 31). assert (0 ≤ k ≤ 31 ∧ k ≤ Z.of_nat (length n)) as [Hk Hk'] by (unfold k; lia).
  rewrite slice_ok by lia. simpl. rewrite drop_0.
  assert (length (take (Z.to_nat k) n) = Z.to_nat k) as El by (rewrite length_take; lia).
  rewrite slice_copy_ok by (rewrite ?Lz, ?El; lia). eexists. split; [done|]. simpl.
  rewrite length_app, length_drop, El, Lz. split; [lia|]. rewrite Z.add_0_l.
  destruct (Hz (Z.to_nat k)) as [z' ->]; [lia|].
  rewrite c_string_app.
  - unfold k. destruct (decide (Z.of_nat (length n) ≤ Z.min (len - 1) 31)).
    + rewrite !take_ge by lia. done.
    + f_equal. lia.
  - intros Hx. apply Hn. apply elem_of_take in Hx as (i & Hi & _). by eapply list_elem_of_lookup_2.
Qed.

Lemma allocate_spec next : 1 ≤ next ≤ uint_max usize_bits →
  allocate_task_handle next =
    if next =? uint_max usize_bits then (Err Error.Overflow, next)
    else (Ok (TaskHandle.TaskHandle next), next + 1).
Proof.
  intros Hn. unfold allocate_task_handle, checked_add, TaskHandle.from_raw, uint_max in *.
  destruct (next =? 2 ^ usize_bits - 1) eqn:E; bool_to_prop; zb; done.
Qed.

(** [prepare_blocking] does not return [Timeout]. *)
Lemma prepare_blocking_err {K} `{Kernel K} caps b k e k' :
  Wait.prepare_blocking caps b k = Done (Err e, k') → e ≠ Error.Timeout.
Proof.
  unfold Wait.prepare_blocking, Wait.ensure_blocking_allowed, Wait.resolve_deadline, mtry, mbind_, mret_, ok_or,
    mbind, Run_bind.
  repeat (case_match; simplify_eq/=; try done); by intros [= <-].
Qed.

(** What [spawn] passes to the kernel: a stack of at least the requested bytes and
    the least such depth, a priority the kernel has, and the longest prefix of
    the name that fits, NUL-terminated. *)
Theorem freertos_spawn_args caps b words prio :
  Validation.validate_task_config (name b) (stack_size b) = Ok () →
  0 ≤ stack_size b → 0 ≤ priority b →
  0 < Sys.stack_word_size caps → 1 ≤ Sys.max_priorities caps → 1 ≤ Sys.max_task_name_len caps →
  0 ≤ Sys.minimal_stack_depth_words caps → Sys.max_stack_depth_words caps < 2 ^ 32 →
  FreeRtosTask.spawn_args (Some caps) b = Done (Ok (words, prio)) →
  words mod 2 ^ 32 = words ∧ Sys.minimal_stack_depth_words caps ≤ words ≤ Sys.max_stack_depth_words caps ∧
  stack_size b ≤ words * Sys.stack_word_size caps ∧
  (words = Sys.minimal_stack_depth_words caps ∨ (words - 1) * Sys.stack_word_size caps < stack_size b) ∧
  0 ≤ prio < Sys.max_priorities caps ∧ (priority b < Sys.max_priorities caps → prio = priority b) ∧
  ∃ buf, name_buf (name b) (Sys.max_task_name_len caps) = Done buf ∧ length buf = 32%nat ∧
    c_string buf = take (Z.to_nat (Z.min (Sys.max_task_name_len caps - 1) 31)) (name b).
Proof.
  intros (_ & Hn & _)%Validation.validate_task_config_ok Hs Hp Hw Hm Hl Hlo Hhi E.
  unfold FreeRtosTask.spawn_args in E. simpl in E.
  destruct (stack_bytes_to_words _ _ _ _) as [w|] eqn:Ew; simplify_eq/=.
  destruct (stack_words_spec _ _ _ _ _ Hs Hw Ew) as (H1 & H2 & H3 & H4).
  destruct (map_native_priority_spec (priority b) (priority b) _ ltac:(lia) Hm) as (Hr & _ & He).
  split; [rewrite Z.mod_small; lia|]. split_and!; try done; try lia. by apply name_buf_spec.
Qed.

End TaskConfigFacts.
End TaskConfigFacts.

(** ** Any number of tasks, joiners and spawners *)

Module TaskMachine.
Import TaskConfig FreeRtosTask TaskConfigFacts.
Section TaskMachine.
Context `{Arch} {G : Type} `{NativeTasks G} `{!NativeTasksLaws G} (probed : Sys.Capabilities).

Abbreviation config := (FreeRtosTask.config (G:=G)).

Inductive event : Type :=
| KernelRuns (g : G)
| InitBegin | ShutBegin
| TimerReturned (i : nat) (res : Result ())
| TransitionStep (i : nat)
| AcquireOther | ReleaseOther
| Spawn (b : FreeRtosTaskBuilder)
| SpawnStep (i : nat)
| Trampoline (k : nat)
| Join (caller : option nat) (k : nat) (tmo : Timeout.t)
| JoinStep (j : nat) (prepared : Result ()) (ticks : Z) (next : wait_next)
| CloneHandle (k : nat)
| DropHandle (k : nat)
| DropHalf (k : nat).

(** [Drop for FreeRtosTask]: the identity, then the completion. *)
Definition drop_handle (c : config) (k : nat) (t : task) : Run config :=
  '(t, r) ← drop_identity t (runtime c);
  Done (set_task (set_runtime c r) k (set_handles t (pred (handles t)) (S (half_dropped t)))).
Definition drop_half (c : config) (k : nat) (t : task) : Run config :=
  '(t, g) ← drop_completion t (native c);
  Done (set_task (set_native c g) k (set_handles t (handles t) (pred (half_dropped t)))).
Definition clone_handle (t : task) : task :=
  let i := identity t in let x := completion t in
  set_handles (set_completion (set_identity t (mkIdentity (handle i) (requested_priority i) (S (id_strong i))))
     (mkCompletion (event_group x) (state x) (exit_code x) (S (co_strong x)))) (S (handles t)) (half_dropped t).

(** A call of [join] borrows a handle. *)
Definition borrowed (c : config) (k : nat) : bool := existsb (λ x, Nat.eqb (target x) k) (joins c).

Definition exec (c : config) (e : event) : option (Run config) :=
  match e with
  | KernelRuns g => Some (Done (set_native c g))
  | InitBegin => Some ('(_, r) ← FreeRtosRuntime.initialize_begin (runtime c); Done (set_runtime c r))
  | ShutBegin => Some ('(_, r) ← FreeRtosRuntime.shutdown_begin (runtime c); Done (set_runtime c r))
  | TimerReturned i res => r ← FreeRtosRuntime.timer_returned i res (runtime c); Some (Done (set_runtime c r))
  | TransitionStep i =>
      m ← FreeRtosRuntime.transition_step probed i (runtime c); Some (r ← m; Done (set_runtime c r))
  | AcquireOther =>
      Some ('(res, r) ← FreeRtosRuntime.acquire_object (runtime c);
            Done (set_others (set_runtime c r) (if is_ok res then S (others c) else others c)))
  | ReleaseOther =>
      match others c with
      | O => None
      | S n => Some (r ← FreeRtosRuntime.lease_drop (runtime c); Done (set_others (set_runtime c r) n))
      end
  | Spawn b => Some (Done (spawn_start c b))
  | SpawnStep i => p ← spawns c !! i; Some (spawn_step c i p)
  | Trampoline k => t ← tasks c !! k; trampoline_step c k t
  | Join caller k tmo =>
      t ← tasks c !! k;
      match handles t with O => None | S _ => Some (join_start c caller k t tmo) end
  | JoinStep j prepared ticks next =>
      x ← joins c !! j; t ← tasks c !! target x; join_step c j x t prepared ticks next
  | CloneHandle k =>
      t ← tasks c !! k;
      match handles t with O => None | S _ => Some (Done (set_task c k (clone_handle t))) end
  | DropHandle k =>
      t ← tasks c !! k;
      match handles t with
      | O => None
      | S n => if Nat.eqb n 0 && borrowed c k then None else Some (drop_handle c k t)
      end
  | DropHalf k =>
      t ← tasks c !! k;
      match half_dropped t with O => None | S _ => Some (drop_half c k t) end
  end.

(** What the environment keeps to: the rest of the kernel leaves the event groups
    alone, a caller is a thread of no task or a task inside its entry, a stack
    size is a [usize], and [prepare_blocking] does not time out
    ([prepare_blocking_err]). *)
Definition event_ok (c : config) (e : event) : Prop :=
  match e with
  | KernelRuns g => groups g = groups (native c)
  | Join (Some k) _ _ => ∃ t, tasks c !! k = Some t ∧ tpc t = TEntry
  | Spawn b => 0 ≤ stack_size b
  | JoinStep _ (Err e) _ _ => e ≠ Error.Timeout
  | _ => True
  end.

Definition start_config (g : G) : config :=
  mkConfig FreeRtosRuntime.new g 1 0 [] [] [] 0 [] [].

Inductive reachable : config → Prop :=
| tk_init g : groups g = ∅ → reachable (start_config g)
| tk_step c e c' : reachable c → event_ok c e → exec c e = Some (Done c') → reachable c'.

(** *** The invariant *)

Definition rank (p : trampoline_pc) : nat :=
  match p with
  | TSetContext => 0 | TAcquireLive => 1 | TTakeEntry => 2 | TEntry => 3 | TDropLive => 4
  | TClearContext => 5 | TStoreCode => 6 | TStoreState => 7 | TSetBits => 8 | TDropIdentity => 9
  | TDropCompletion => 10 | TDelete => 11 | TDeleted => 12
  end.
(** The payload's own references. *)
Definition payload_id (t : task) : nat := if decide (rank (tpc t) ≤ 9)%nat then 1 else 0.
Definition payload_co (t : task) : nat := if decide (rank (tpc t) ≤ 10)%nat then 1 else 0.
Definition counted (t : task) : bool := bool_decide (2 ≤ rank (tpc t) ≤ 4)%nat.
Definition id_alive (t : task) : bool := negb (Nat.eqb (id_strong (identity t)) 0).
Definition finished (t : task) : Prop := state (completion t) = COMPLETION_FINISHED.

Record task_ok (k : nat) (m : gmap Z Z) (t : task) : Prop := {
  to_tls : tls t = if decide (1 ≤ rank (tpc t) ≤ 5)%nat then Some k else None;
  to_entry : entry t = bool_decide (rank (tpc t) ≤ 2)%nat;
  to_state : state (completion t) = if decide (8 ≤ rank (tpc t))%nat then COMPLETION_FINISHED else COMPLETION_RUNNING;
  to_code : exit_code (completion t) = 0;
  to_id : id_strong (identity t) = (handles t + payload_id t)%nat;
  to_co : co_strong (completion t) = (handles t + half_dropped t + payload_co t)%nat;
  to_group : event_group (completion t) = None ↔ co_strong (completion t) = 0%nat;
  to_bits : ∀ h, event_group (completion t) = Some h →
    m !! h = Some (if decide (9 ≤ rank (tpc t))%nat then TASK_COMPLETED_BIT else 0);
}.

Definition sp_group (p : spawn_pc) : option Z :=
  match p with SpHandle _ _ _ h | SpCreate _ _ _ h _ => Some h | _ => None end.
Definition sp_handle (p : spawn_pc) : option TaskHandle.t :=
  match p with SpCreate _ _ _ _ h => Some h | _ => None end.
Definition sp_lease (p : spawn_pc) : bool := match p with SpLease _ => false | _ => true end.
Definition sp_builder (p : spawn_pc) : FreeRtosTaskBuilder :=
  match p with SpLease b | SpGroup b | SpHandle b _ _ _ | SpCreate b _ _ _ _ => b end.

Definition spawn_ok (m : gmap Z Z) (p : spawn_pc) : Prop :=
  (Byte.x00 ∉ name (sp_builder p)) ∧ 0 ≤ stack_size (sp_builder p) ∧ ∀ h, sp_group p = Some h → m !! h = Some 0.

Definition task_group (t : task) : option Z := event_group (completion t).
Definition owned (c : config) : list Z := omap task_group (tasks c) ++ omap sp_group (spawns c) ++ lost c.
Definition task_handle (t : task) : TaskHandle.t := handle (identity t).
Definition all_handles (c : config) : list TaskHandle.t :=
  (task_handle <$> tasks c) ++ omap sp_handle (spawns c).
Definition leases (c : config) : nat := (others c + countb sp_lease (spawns c) + countb id_alive (tasks c))%nat.

Definition join_ok (c : config) (x : join_call) : Prop :=
  ∃ t, tasks c !! target x = Some t ∧ (0 < handles t)%nat ∧
    (jpc x = JLoadCode ∨ jpc x = JAcquired → finished t) ∧
    (jpc x = JExpired → timeout x ≠ Timeout.Forever).

Definition result_ok (c : config) (r : nat * Timeout.t * Result ExitCode.t) : Prop :=
  match r with
  | (k, tmo, Ok code) => code = ExitCode.SUCCESS ∧ ∃ t, tasks c !! k = Some t ∧ finished t
  | (_, tmo, Err e) => e = Error.Timeout → tmo ≠ Timeout.Forever
  end.

Record inv (c : config) : Prop := {
  i_rt : FreeRtosRuntime.ok probed (leases c) (runtime c);
  i_tasks : ∀ k t, tasks c !! k = Some t → task_ok k (groups (native c)) t;
  i_spawns : ∀ i p, spawns c !! i = Some p → spawn_ok (groups (native c)) p;
  i_owned : NoDup (owned c);
  i_groups : ∀ h, is_Some (groups (native c) !! h) ↔ h ∈ owned c;
  i_live : live_count c = Z.of_nat (countb counted (tasks c));
  i_handles : NoDup (all_handles c);
  i_next : 1 ≤ next_handle c ≤ uint_max usize_bits;
  i_fresh : ∀ h, h ∈ all_handles c → 1 ≤ TaskHandle.raw h < next_handle c;
  i_number : Z.of_nat (length (all_handles c)) < next_handle c;
  i_joins : ∀ j x, joins c !! j = Some x → join_ok c x;
  i_results : ∀ i r, results c !! i = Some r → result_ok c r;
  i_lost : lost c ≠ [] → next_handle c = uint_max usize_bits;
}.

Lemma task_inv_init g : groups g = ∅ → inv (start_config g).
Proof.
  intros Hg. pose proof usize_range. split; simpl; try done.
  - apply FreeRtosRuntime.new_ok.
  - constructor.
  - intros h. rewrite Hg, lookup_empty. split; [by intros []|by intros ?%not_elem_of_nil].
  - constructor.
  - unfold uint_max. lia.
  - intros h Hh. by apply not_elem_of_nil in Hh.
Qed.

(** *** One task changes *)

Lemma omap_insert_perm {A B} (f : A → option B) (l : list A) i x y : l !! i = Some x →
  ∃ l', omap f l ≡ₚ option_list (f x) ++ l' ∧ omap f (<[i:=y]> l) ≡ₚ option_list (f y) ++ l'.
Proof.
  intros E. exists (omap f (take i l) ++ omap f (drop (S i) l)).
  rewrite insert_take_drop by (by eapply lookup_lt_Some).
  rewrite <- (take_drop_middle l i x E) at 1. rewrite !omap_app. csimpl.
  split; destruct (f _); simpl; by rewrite ?Permutation_middle.
Qed.

(** A change of task [k] that keeps its handle, its progress and the event groups of others. *)
Record task_change (c : config) (k : nat) (t t' : task) (g : G) : Prop := {
  tc_ok : task_ok k (groups g) t';
  tc_handle : task_handle t' = task_handle t;
  tc_finished : finished t → finished t';
  tc_handles : handles t' = 0%nat → handles t = 0%nat ∨ borrowed c k = false;
  tc_same : ∀ h, task_group t ≠ Some h → groups g !! h = groups (native c) !! h;
  tc_group : task_group t' = task_group t ∨
    task_group t' = None ∧ ∀ h, task_group t = Some h → groups g !! h = None;
}.

Lemma borrowed_false c k j x : borrowed c k = false → joins c !! j = Some x → target x ≠ k.
Proof.
  unfold borrowed. intros E Hj Hk. apply list_elem_of_lookup_2, list_elem_of_In in Hj.
  assert (existsb (λ y, Nat.eqb (target y) k) (joins c) = true); [|congruence].
  apply existsb_exists. exists x. split; [done|]. by apply Nat.eqb_eq.
Qed.

Lemma owned_task c k t t' g r n :
  inv c → tasks c !! k = Some t → task_change c k t t' g →
  let c' := mkConfig r g (next_handle c) n (<[k:=t']> (tasks c)) (spawns c) (joins c) (others c) (results c) (lost c) in
  NoDup (owned c') ∧ ∀ h, is_Some (groups g !! h) ↔ h ∈ owned c'.
Proof.
  intros I E [To _ _ _ Ts Tg] c'. pose proof (i_owned _ I) as Nd. pose proof (i_groups _ I) as Hg.
  destruct (omap_insert_perm task_group (tasks c) k t t' E) as (l' & P & P').
  unfold owned in *. subst c'. simpl. rewrite P in Nd. setoid_rewrite P in Hg. rewrite P'. setoid_rewrite P'.
  rewrite <- !(assoc_L (++)) in *.
  destruct Tg as [Eg|[Eg Hd]].
  - rewrite Eg. split; [done|]. intros h. destruct (decide (task_group t = Some h)) as [Eh|Eh].
    + rewrite Eh. simpl. split; [set_solver|]. intros _. rewrite <- Eg in Eh.
      eexists. apply (to_bits _ _ _ To). exact Eh.
    + rewrite (Ts h Eh), Hg. done.
  - rewrite Eg. simpl in *. split; [by apply NoDup_app in Nd as (_ & _ & ?)|]. intros h.
    destruct (decide (task_group t = Some h)) as [Eh|Eh].
    + rewrite (Hd h Eh). split; [by intros []|]. intros Hh. rewrite Eh in Nd. simpl in Nd.
      rewrite NoDup_cons in Nd. by destruct Nd.
    + rewrite (Ts h Eh), Hg, elem_of_app.
      destruct (task_group t) as [h'|]; simpl; [|set_solver]. set_unfold. naive_solver.
Qed.

Lemma omap_NoDup_inj {A B} (f : A → option B) (l : list A) i j x y b : NoDup (omap f l) →
  l !! i = Some x → l !! j = Some y → f x = Some b → f y = Some b → i = j.
Proof.
  intros Nd. revert i j. induction l as [|z l IH]; intros i j Hi Hj Hx Hy; [done|]. csimpl in Nd.
  assert (∀ i x, l !! i = Some x → f x = Some b → b ∈ omap f l) as Hin.
  { intros i' x' Hi' Hx'. apply list_elem_of_omap. exists x'. split; [by eapply list_elem_of_lookup_2|done]. }
  destruct i as [|i], j as [|j]; simplify_eq/=; [done|..].
  - rewrite Hx in Nd. apply NoDup_cons in Nd as [Hn _]. by destruct Hn; eapply Hin.
  - rewrite Hy in Nd. apply NoDup_cons in Nd as [Hn _]. by destruct Hn; eapply Hin.
  - f_equal. apply IH; try done. destruct (f z); [by apply NoDup_cons in Nd as [_ ?]|done].
Qed.

Lemma handles_task (c : config) k t t' : tasks c !! k = Some t → task_handle t' = task_handle t →
  task_handle <$> <[k:=t']> (tasks c) = task_handle <$> tasks c.
Proof.
  intros E Hh. rewrite list_fmap_insert. apply list_insert_id. rewrite list_lookup_fmap, E. simpl. congruence.
Qed.

Lemma inv_task c k t t' g r n :
  inv c → tasks c !! k = Some t → task_change c k t t' g →
  FreeRtosRuntime.ok probed (others c + countb sp_lease (spawns c) + countb id_alive (<[k:=t']> (tasks c))) r →
  n = Z.of_nat (countb counted (<[k:=t']> (tasks c))) →
  inv (mkConfig r g (next_handle c) n (<[k:=t']> (tasks c)) (spawns c) (joins c) (others c) (results c) (lost c)).
Proof.
  intros I E C Hr Hn. pose proof (owned_task _ _ _ _ _ r n I E C) as [Ho Hg].
  destruct C as [To Th Tf Tb Ts Tg]. pose proof (lookup_lt_Some _ _ _ E) as Hlt.
  assert (∀ k', (∃ t0, tasks c !! k' = Some t0 ∧ finished t0) →
                ∃ t0, <[k:=t']> (tasks c) !! k' = Some t0 ∧ finished t0) as Hf.
  { intros k' (t0 & E0 & F). destruct (decide (k = k')) as [<-|Hne].
    - exists t'. rewrite list_lookup_insert_eq by done. simplify_eq. auto.
    - exists t0. by rewrite list_lookup_insert_ne. }
  assert (∀ r g n, all_handles (mkConfig r g (next_handle c) n (<[k:=t']> (tasks c)) (spawns c) (joins c)
            (others c) (results c) (lost c)) = all_handles c) as Eh.
  { intros. unfold all_handles. simpl. by rewrite (handles_task _ _ t). }
  destruct I. split; rewrite ?Eh; try done.
  - intros k' t0 [(<- & <- & _)|[Hne E0]]%list_lookup_insert_Some; [done|].
    destruct (i_tasks0 _ _ E0). split; try done. intros h Hh. rewrite Ts; [auto|]. intros Ht.
    unfold owned in i_owned0. apply NoDup_app in i_owned0 as (Nd & _ & _).
    apply Hne. by eapply (omap_NoDup_inj task_group (tasks c)).
  - intros i p Hp. destruct (i_spawns0 i p Hp) as (? & ? & Hs). split_and!; try done.
    intros h Hh. rewrite Ts; [auto|]. intros Ht.
    unfold owned in i_owned0. apply NoDup_app in i_owned0 as (_ & Hd & _).
    apply (Hd h); [apply list_elem_of_omap; exists t; split; [by eapply list_elem_of_lookup_2|done]|].
    apply elem_of_app. left. apply list_elem_of_omap. exists p. split; [by eapply list_elem_of_lookup_2|done].
  - intros j x Hx. destruct (i_joins0 j x Hx) as (t0 & E0 & Hz & Hp & Hq). unfold join_ok. simpl.
    destruct (decide (k = target x)) as [->|Hne].
    + exists t'. simplify_eq. split_and!; [by rewrite list_lookup_insert_eq| |auto|done].
      destruct (decide (handles t' = 0%nat)) as [Ez|]; [|lia]. destruct (Tb Ez) as [|Hb]; [lia|].
      by destruct (borrowed_false _ _ _ _ Hb Hx).
    + exists t0. by rewrite list_lookup_insert_ne.
  - intros i [[k' tmo] res] Hi. specialize (i_results0 i _ Hi). destruct res; simpl in *; [|done].
    destruct i_results0 as [-> Hk]. split; auto.
Qed.

(** *** The trampoline *)

Lemma countb_same {A} (f : A → bool) (l : list A) i x y : l !! i = Some x → f y = f x →
  countb f (<[i:=y]> l) = countb f l.
Proof. intros E Ef. pose proof (countb_insert f l i x y E). rewrite Ef in *. lia. Qed.

Lemma live_bound c : inv c → 0 ≤ Z.of_nat (countb counted (tasks c)) < 2 ^ usize_bits - 1.
Proof.
  intros I. pose proof (countb_le_length counted (tasks c)). pose proof (i_number _ I) as Hn.
  pose proof (i_next _ I) as Hx. unfold all_handles, uint_max in *. rewrite length_app, length_fmap in Hn. lia.
Qed.

(** A step of the trampoline within the task: no reference is dropped. *)
Lemma inv_advance c k t t' :
  inv c → tasks c !! k = Some t → task_ok k (groups (native c)) t' →
  task_handle t' = task_handle t → task_group t' = task_group t → handles t' = handles t →
  id_alive t' = id_alive t → (finished t → finished t') →
  inv (mkConfig (runtime c) (native c) (next_handle c) (Z.of_nat (countb counted (<[k:=t']> (tasks c))))
         (<[k:=t']> (tasks c)) (spawns c) (joins c) (others c) (results c) (lost c)).
Proof.
  intros I E To Th Tg Tn Ta Tf. apply (inv_task c k t t'); try done.
  - split; auto. rewrite Tn. by left.
  - rewrite (countb_same id_alive _ _ t) by done. apply (i_rt _ I).
Qed.

Lemma inv_advance_same c k t t' :
  inv c → tasks c !! k = Some t → task_ok k (groups (native c)) t' →
  task_handle t' = task_handle t → task_group t' = task_group t → handles t' = handles t →
  id_alive t' = id_alive t → (finished t → finished t') → counted t' = counted t → inv (set_task c k t').
Proof.
  intros I E To Th Tg Tn Ta Tf Tc. pose proof (inv_advance c k t t' I E To Th Tg Tn Ta Tf) as I'.
  rewrite (countb_same counted _ _ t), <- (i_live _ I) in I' by done. exact I'.
Qed.

Lemma completion_alive k m t : task_ok k m t → (rank (tpc t) ≤ 10)%nat →
  access t = Done (completion t) ∧ ∃ h, event_group (completion t) = Some h.
Proof.
  intros [_ _ _ _ _ Hc Hg _] Hr. unfold payload_co in Hc. rewrite decide_True in Hc by done.
  unfold access. destruct (co_strong _) eqn:Es; [lia|]. split; [done|].
  destruct (event_group _) as [h|]; [by eexists|]. by pose proof (proj1 Hg eq_refl).
Qed.

Ltac task_ok_tac T :=
  destruct T; unfold payload_id, payload_co, finished, task_group, id_alive, task_handle, counted in *;
  repeat match goal with E : tpc _ = _ |- _ => rewrite E in *; clear E end; simpl in *; try done;
  try (split; unfold payload_id, payload_co; simpl in *; try done; try lia; auto).

Lemma trampoline_quiet c k t : inv c → tasks c !! k = Some t → (rank (tpc t) ≤ 7 ∨ rank (tpc t) = 11)%nat →
  ∃ c', trampoline_step c k t = Some (Done c') ∧ inv c'.
Proof.
  intros I E Hr. pose proof (i_tasks _ I _ _ E) as T. unfold trampoline_step.
  destruct (tpc t) eqn:Ep; simpl in Hr; try lia.
  - eexists. split; [done|]. apply (inv_advance_same c k t); try done; task_ok_tac T.
  - eexists. split; [done|]. pose proof (live_bound c I). pose proof (i_live _ I) as El.
    unfold wrapping_add. rewrite Z.mod_small by lia.
    pose proof (countb_insert counted (tasks c) k t (goto t TTakeEntry) E) as Hc.
    unfold counted in Hc at 2 4. rewrite Ep in Hc. simpl in Hc.
    replace (live_count c + 1) with (Z.of_nat (countb counted (<[k:=goto t TTakeEntry]> (tasks c)))) by lia.
    apply (inv_advance c k t); try done; task_ok_tac T.
  - rewrite (to_entry _ _ _ T), Ep. simpl. eexists. split; [done|].
    apply (inv_advance_same c k t); try done; task_ok_tac T.
  - eexists. split; [done|]. apply (inv_advance_same c k t); try done; task_ok_tac T.
  - eexists. split; [done|]. pose proof (live_bound c I). pose proof (i_live _ I) as El.
    pose proof (countb_insert counted (tasks c) k t (goto t TClearContext) E) as Hc.
    unfold counted in Hc at 2 4. rewrite Ep in Hc. simpl in Hc.
    unfold wrapping_sub. rewrite Z.mod_small by lia.
    replace (live_count c - 1) with (Z.of_nat (countb counted (<[k:=goto t TClearContext]> (tasks c)))) by lia.
    apply (inv_advance c k t); try done; task_ok_tac T.
  - eexists. split; [done|]. apply (inv_advance_same c k t); try done; task_ok_tac T.
  - destruct (completion_alive _ _ _ T) as [-> _]; [rewrite Ep; simpl; lia|]. simpl. eexists. split; [done|].
    apply (inv_advance_same c k t); try done; task_ok_tac T.
  - destruct (completion_alive _ _ _ T) as [-> _]; [rewrite Ep; simpl; lia|]. simpl. eexists. split; [done|].
    apply (inv_advance_same c k t); try done; task_ok_tac T.
  - eexists. split; [done|]. apply (inv_advance_same c k t); try done; task_ok_tac T.
Qed.

(** *** References *)

Definition with_strong (t : task) (n : nat) : task :=
  set_identity t (mkIdentity (handle (identity t)) (requested_priority (identity t)) n).

Lemma drop_identity_spec c k t n : inv c → tasks c !! k = Some t → id_strong (identity t) = S n →
  ∃ r, drop_identity t (runtime c) = Done (with_strong t n, r) ∧
    ∀ t', id_strong (identity t') = n →
      FreeRtosRuntime.ok probed (others c + countb sp_lease (spawns c) + countb id_alive (<[k:=t']> (tasks c))) r.
Proof.
  intros I E Es. unfold drop_identity. rewrite Es. pose proof (i_rt _ I) as O. unfold leases in O.
  assert (id_alive t = true) as Ha by (unfold id_alive; by rewrite Es).
  destruct n as [|n].
  - pose proof (countb_insert id_alive (tasks c) k t) as Hc.
    pose proof (countb_pos id_alive (tasks c) k t E Ha) as Hp.
    destruct (FreeRtosRuntime.lease_drop_spec probed (pred (leases c)) (runtime c)) as (r & -> & Or & _).
    { unfold leases in *. by replace (S (pred _)) with (others c + countb sp_lease (spawns c) + countb id_alive (tasks c))%nat by lia. }
    eexists. split; [done|]. intros t' Ht'. specialize (Hc t' E). rewrite Ha in Hc. unfold id_alive in Hc at 3.
    rewrite Ht' in Hc. simpl in Hc. unfold leases in Or.
    by replace (others c + _ + _)%nat with (pred (others c + countb sp_lease (spawns c) + countb id_alive (tasks c))) by lia.
  - eexists. split; [done|]. intros t' Ht'. rewrite (countb_same id_alive _ _ t); [done|done|].
    rewrite Ha. unfold id_alive. by rewrite Ht'.
Qed.

(** After a reference to the completion is gone: the event group goes with the last. *)
Definition without_completion (t : task) : task :=
  let x := completion t in
  set_completion t (mkCompletion (if decide (co_strong x = 1%nat) then None else event_group x)
                      (state x) (exit_code x) (pred (co_strong x))).

Lemma drop_completion_spec k m t g : task_ok k m t → groups g = m → co_strong (completion t) ≠ 0%nat →
  ∃ g', drop_completion t g = Done (without_completion t, g') ∧
    (∀ h, task_group t ≠ Some h → groups g' !! h = m !! h) ∧
    (co_strong (completion t) ≠ 1%nat → groups g' = m) ∧
    (co_strong (completion t) = 1%nat → ∀ h, task_group t = Some h → groups g' !! h = None).
Proof.
  intros T <- Hc. unfold drop_completion, without_completion, task_group. pose proof (to_group _ _ _ T) as Hg.
  destruct (co_strong (completion t)) as [|[|n]]; [done|..]; simpl in *.
  - destruct (event_group (completion t)) as [h|] eqn:Eh; [|by specialize (proj1 Hg eq_refl)].
    eexists. split; [done|]. unfold SysTask.event_group_delete. rewrite law_group_delete. split_and!; try done.
    + intros h' Hh. by rewrite lookup_delete_ne by congruence.
    + intros _ h' [= <-]. apply lookup_delete_eq.
  - eexists. split; [done|]. by split_and!.
Qed.

(** A task whose event group either stays or goes as its reference count says. *)
Lemma task_change_drop c k t t' g :
  inv c → tasks c !! k = Some t →
  task_ok k (groups (native c)) t →
  (event_group (completion t') = if decide (co_strong (completion t) = 1%nat) then None else task_group t) →
  (∀ h, task_group t ≠ Some h → groups g !! h = groups (native c) !! h) →
  (co_strong (completion t) ≠ 1%nat → groups g = groups (native c)) →
  (co_strong (completion t) = 1%nat → ∀ h, task_group t = Some h → groups g !! h = None) →
  task_ok k (groups g) t' → task_handle t' = task_handle t → (finished t → finished t') → handles t' = handles t →
  task_change c k t t' g.
Proof.
  intros I E T Eg Hs H2 H1 T' Eh Hf Hn. split; try done.
  - rewrite Hn. by left.
  - unfold task_group at 1 3. rewrite Eg. case_decide; [right|by left]. split; [done|]. auto.
Qed.

Lemma set_bits_inv c k t : inv c → tasks c !! k = Some t → tpc t = TSetBits →
  ∃ c', trampoline_step c k t = Some (Done c') ∧ inv c'.
Proof.
  intros I E Ep. pose proof (i_tasks _ I _ _ E) as T. unfold trampoline_step. rewrite Ep.
  destruct (completion_alive _ _ _ T) as (-> & h & Eh); [rewrite Ep; simpl; lia|]. simpl. rewrite Eh.
  unfold SysTask.event_group_set_bits.
  pose proof (to_bits _ _ _ T h Eh) as Hb. destruct (law_group_set _ _ _ TASK_COMPLETED_BIT Hb) as [Hs Hg].
  destruct (osal_freertos_event_group_set_bits _ _ _) as [st g]. simpl in *. subst st. simpl.
  eexists. split; [done|]. rewrite Ep in Hg. simpl in Hg.
  apply (inv_task c k t); try done.
  - split; simpl; try done; [|by auto|by intros h' Hh; rewrite Hg, lookup_insert_ne by (unfold task_group in Hh; congruence)|by left].
    task_ok_tac T. intros h' Hh. simplify_eq. by rewrite Hg, lookup_insert_eq.
  - rewrite (countb_same id_alive _ _ t) by done. apply (i_rt _ I).
  - rewrite (countb_same counted _ _ t); [apply (i_live _ I)|done|]. unfold counted. by rewrite Ep.
Qed.

Lemma drop_identity_inv c k t : inv c → tasks c !! k = Some t → tpc t = TDropIdentity →
  ∃ c', trampoline_step c k t = Some (Done c') ∧ inv c'.
Proof.
  intros I E Ep. pose proof (i_tasks _ I _ _ E) as T. unfold trampoline_step. rewrite Ep.
  destruct (drop_identity_spec c k t (handles t) I E) as (r & -> & Hr).
  { rewrite (to_id _ _ _ T). unfold payload_id. rewrite Ep. simpl. lia. }
  simpl. eexists. split; [done|]. apply (inv_task c k t); try done; [|by apply Hr|].
  - split; simpl; try done; [|by auto|by left]. task_ok_tac T.
  - rewrite (countb_same counted _ _ t); [apply (i_live _ I)|done|]. unfold counted. by rewrite Ep.
Qed.

(** ... in a task whose counters agree with the dropped reference. *)
Lemma drop_completion_ok k m m' t p n : task_ok k m t →
  (n + if decide (rank p ≤ 10) then 1 else 0)%nat = pred (half_dropped t + payload_co t)%nat →
  (half_dropped t + payload_co t ≠ 0)%nat →
  (rank p = rank (tpc t) ∨ rank (tpc t) = 10 ∧ rank p = 11)%nat →
  (co_strong (completion t) ≠ 1%nat → m' = m) →
  task_ok k m' (set_handles (goto (without_completion t) p) (handles t) n).
Proof.
  intros T Hn Hz Hp Hm. pose proof T as [T1 T2 T3 T4 T5 T6 T7 T8].
  unfold payload_co, payload_id in *.
  assert (id_strong (identity t) = handles t + if decide (rank p ≤ 9) then 1 else 0)%nat as T5'.
  { rewrite T5. f_equal. destruct Hp as [->|[-> ->]]; done. }
  split; unfold payload_id, payload_co; simpl; try done.
  - rewrite T1. destruct Hp as [->|[-> ->]]; done.
  - rewrite T2. destruct Hp as [->|[-> ->]]; done.
  - rewrite T3. destruct Hp as [->|[-> ->]]; done.
  - rewrite T6. lia.
  - destruct (decide (co_strong (completion t) = 1%nat)) as [Ec|Ec]; [by rewrite Ec|]. rewrite T7. split; intros; lia.
  - intros h. destruct (decide (co_strong (completion t) = 1%nat)) as [Ec|Ec]; [done|]. intros Hh. rewrite (Hm Ec), (T8 h Hh).
    destruct Hp as [->|[-> ->]]; done.
Qed.

Lemma drop_completion_inv c k t : inv c → tasks c !! k = Some t → tpc t = TDropCompletion →
  ∃ c', trampoline_step c k t = Some (Done c') ∧ inv c'.
Proof.
  intros I E Ep. pose proof (i_tasks _ I _ _ E) as T. unfold trampoline_step. rewrite Ep.
  assert (payload_co t = 1%nat) as Hc by (unfold payload_co; by rewrite Ep).
  destruct (drop_completion_spec k _ t (native c) T eq_refl) as (g & -> & Hs & H2 & H1).
  { rewrite (to_co _ _ _ T). lia. }
  simpl. eexists. split; [done|].
  pose proof (drop_completion_ok k _ (groups g) t TDelete (half_dropped t) T) as T'.
  apply (inv_task c k t); try done.
  - apply task_change_drop; try done; simpl.
    apply T'; rewrite ?Ep; simpl; auto; lia.
  - rewrite (countb_same id_alive _ _ t) by done. apply (i_rt _ I).
  - rewrite (countb_same counted _ _ t); [apply (i_live _ I)|done|]. unfold counted. by rewrite Ep.
Qed.

Lemma trampoline_inv c k t r : inv c → tasks c !! k = Some t → trampoline_step c k t = Some r →
  ∃ c', r = Done c' ∧ inv c'.
Proof.
  intros I E Er.
  assert (tpc t = TSetBits ∨ tpc t = TDropIdentity ∨ tpc t = TDropCompletion ∨ tpc t = TDeleted ∨
          rank (tpc t) ≤ 7 ∨ rank (tpc t) = 11)%nat as Hp by (destruct (tpc t); simpl; auto; lia).
  destruct Hp as [Hp|[Hp|[Hp|[Hp|Hp]]]];
    [destruct (set_bits_inv c k t I E Hp) as (c' & Ec & Ic)|destruct (drop_identity_inv c k t I E Hp) as (c' & Ec & Ic)
    |destruct (drop_completion_inv c k t I E Hp) as (c' & Ec & Ic)|unfold trampoline_step in Er; by rewrite Hp in Er
    |destruct (trampoline_quiet c k t I E Hp) as (c' & Ec & Ic)]; rewrite Ec in Er; simplify_eq; eauto.
Qed.

(** *** Handles *)

Lemma clone_inv c k t : inv c → tasks c !! k = Some t → handles t ≠ 0%nat → inv (set_task c k (clone_handle t)).
Proof.
  intros I E Hn. pose proof (i_tasks _ I _ _ E) as T. pose proof T as [T1 T2 T3 T4 T5 T6 T7 T8].
  apply (inv_task c k t); try done.
  - split; simpl; try done; [|by left]. split; unfold payload_id, payload_co in *; simpl; try done; try lia.
    rewrite T7. lia.
  - rewrite (countb_same id_alive _ _ t); [apply (i_rt _ I)|done|]. unfold id_alive. simpl.
    rewrite T5. by destruct (handles t).
  - rewrite (countb_same counted _ _ t) by done. apply (i_live _ I).
Qed.

Lemma drop_handle_inv c k t n : inv c → tasks c !! k = Some t → handles t = S n →
  (n = 0%nat → borrowed c k = false) → ∃ c', drop_handle c k t = Done c' ∧ inv c'.
Proof.
  intros I E Hn Hb. pose proof (i_tasks _ I _ _ E) as T. pose proof T as [T1 T2 T3 T4 T5 T6 T7 T8].
  unfold drop_handle.
  destruct (drop_identity_spec c k t (n + payload_id t) I E) as (r & -> & Hr); [rewrite T5; lia|].
  simpl. eexists. split; [done|]. apply (inv_task c k t); try done; [|by apply Hr|].
  - split; simpl; try done; [| |by left].
    + split; unfold payload_id, payload_co in *; simpl; try done; try lia.
    + rewrite Hn. simpl. auto.
  - rewrite (countb_same counted _ _ t) by done. apply (i_live _ I).
Qed.

Lemma drop_half_inv c k t n : inv c → tasks c !! k = Some t → half_dropped t = S n →
  ∃ c', drop_half c k t = Done c' ∧ inv c'.
Proof.
  intros I E Hn. pose proof (i_tasks _ I _ _ E) as T. unfold drop_half.
  destruct (drop_completion_spec k _ t (native c) T eq_refl) as (g & -> & Hs & H2 & H1).
  { rewrite (to_co _ _ _ T). lia. }
  simpl. eexists. split; [done|].
  pose proof (drop_completion_ok k _ (groups g) t (tpc t) n T) as T'.
  assert (goto (without_completion t) (tpc t) = without_completion t) as Eg by done.
  rewrite Eg, Hn in *. simpl.
  apply (inv_task c k t); try done.
  - apply task_change_drop; try done. apply T'; auto; unfold payload_co; case_decide; simpl; lia.
  - rewrite (countb_same id_alive _ _ t) by done. apply (i_rt _ I).
  - rewrite (countb_same counted _ _ t) by done. apply (i_live _ I).
Qed.

(** *** [current] and [join] *)

Lemma current_spec c caller : inv c →
  (∀ k, caller = Some k → ∃ t, tasks c !! k = Some t ∧ tpc t = TEntry) →
  current c caller = Done (k ← caller; t ← tasks c !! k; Some (handle (identity t))).
Proof.
  intros I Hc. unfold current. destruct caller as [k|]; [|done].
  destruct (Hc k eq_refl) as (t & E & Ep). simpl. rewrite E. simpl.
  pose proof (i_tasks _ I _ _ E) as T. rewrite (to_tls _ _ _ T), Ep. simpl. rewrite E. simpl.
  unfold rassert. rewrite (to_id _ _ _ T). unfold payload_id. rewrite Ep. simpl.
  rewrite Nat.add_comm. done.
Qed.

(** Only calls of [join] and the kernel change. *)
Lemma inv_joins c g l rs :
  inv c → groups g = groups (native c) →
  (∀ j x, l !! j = Some x → join_ok c x) → (∀ i r, rs !! i = Some r → result_ok c r) →
  inv (mkConfig (runtime c) g (next_handle c) (live_count c) (tasks c) (spawns c) l (others c) rs (lost c)).
Proof.
  intros [] Eg Hj Hr. split; simpl; rewrite ?Eg; try done.
Qed.

Lemma inv_join_continue c g j x p :
  inv c → groups g = groups (native c) → joins c !! j = Some x →
  (p = JLoadCode ∨ p = JAcquired → ∃ t, tasks c !! target x = Some t ∧ finished t) →
  (p = JExpired → timeout x ≠ Timeout.Forever) →
  inv (set_joins (set_native c g) (<[j:=mkJoin (target x) (timeout x) p]> (joins c))).
Proof.
  intros I Eg E Hp Hx. apply (inv_joins c g); try done; [|apply (i_results _ I)].
  intros j' y [(<- & <- & _)|[Hne E']]%list_lookup_insert_Some; [|by eapply i_joins].
  destruct (i_joins _ I _ _ E) as (t & Et & Hn & _). exists t. split_and!; try done.
  intros Hp'. destruct (Hp Hp') as (t' & Et' & ?). by simplify_eq/=.
Qed.

Lemma lookup_delete_inv {A} (l : list A) i j x : delete i l !! j = Some x → ∃ j', l !! j' = Some x.
Proof.
  intros E. destruct (decide (j < i)%nat).
  - rewrite list_lookup_delete_lt in E by done. by eexists.
  - rewrite list_lookup_delete_ge in E by lia. by eexists.
Qed.

Lemma results_snoc c r : inv c → result_ok c r → ∀ i r', (results c ++ [r]) !! i = Some r' → result_ok c r'.
Proof.
  intros I Hr i r' [E|[_ E]]%lookup_app_Some; [by eapply (i_results _ I)|].
  destruct (i - _)%nat as [|[|?]]; by simplify_eq/=.
Qed.

Lemma inv_join_return c g j x r :
  inv c → groups g = groups (native c) → joins c !! j = Some x → result_ok c (target x, timeout x, r) →
  inv (join_return (set_native c g) j x r).
Proof.
  intros I Eg E Hr. apply (inv_joins c g); try done; [|exact (results_snoc c _ I Hr)].
  intros j' y [i Hi]%lookup_delete_inv. by eapply i_joins.
Qed.

Lemma join_start_inv c caller k t tmo : inv c → tasks c !! k = Some t → handles t ≠ 0%nat →
  event_ok c (Join caller k tmo) → ∃ c', join_start c caller k t tmo = Done c' ∧ inv c'.
Proof.
  intros I E Hn Hev. unfold join_start. rewrite (current_spec c caller I).
  2: { intros k' ->. exact Hev. }
  simpl. case_decide as Hs; (eexists; split; [done|]).
  - apply (inv_joins c (native c)); try done; [apply (i_joins _ I)|]. by apply results_snoc.
  - apply (inv_joins c (native c)); try done; [|apply (i_results _ I)].
    intros j x [Ej|[_ Ej]]%lookup_app_Some; [by eapply (i_joins _ I)|].
    destruct (j - _)%nat as [|[|?]]; simplify_eq/=. exists t. split_and!; try done; [lia|by intros [?|?]].
Qed.

Lemma join_access c x t : inv c → join_ok c x → tasks c !! target x = Some t →
  access t = Done (completion t) ∧ (∃ h, task_group t = Some h ∧
    groups (native c) !! h = Some (if decide (9 ≤ rank (tpc t))%nat then TASK_COMPLETED_BIT else 0)) ∧
  (9 ≤ rank (tpc t) → finished t)%nat.
Proof.
  intros I (t' & Et' & Hn & _) Et. assert (t' = t) as -> by congruence. pose proof (i_tasks _ I _ _ Et) as T.
  unfold access, task_group. pose proof (to_co _ _ _ T) as Hc. pose proof (to_group _ _ _ T) as Hg.
  destruct (co_strong _) eqn:Es; [lia|]. split; [done|]. split.
  - destruct (event_group _) as [h|] eqn:Eh; [|by specialize (proj1 Hg eq_refl)].
    exists h. split; [done|]. by apply (to_bits _ _ _ T).
  - intros Hr. unfold finished. rewrite (to_state _ _ _ T), decide_True by lia. done.
Qed.

(** The native call [join] blocks in. *)
Lemma join_wait_spec c x t ticks : inv c → join_ok c x → tasks c !! target x = Some t →
  ∃ h g, event_group (completion t) = Some h ∧
    SysTask.event_group_wait_bits h TASK_COMPLETED_BIT false true ticks (native c) =
      (if decide (9 ≤ rank (tpc t))%nat then SysTask.WaitOk else SysTask.WaitTimeout, g) ∧
    groups g = groups (native c).
Proof.
  intros I J E. destruct (join_access c x t I J E) as (_ & (h & Eh & Hb) & _).
  pose proof (law_group_wait _ h _ TASK_COMPLETED_BIT ticks Hb) as Hw. exists h.
  unfold SysTask.event_group_wait_bits.
  destruct (osal_freertos_event_group_wait_bits h _ _ _ _ _) as [raw g]. destruct Hw as [Hg ->].
  exists g. split_and!; try done. by case_decide.
Qed.

Lemma join_step_inv c j x t prepared ticks next r :
  inv c → joins c !! j = Some x → tasks c !! target x = Some t →
  event_ok c (JoinStep j prepared ticks next) →
  join_step c j x t prepared ticks next = Some r → ∃ c', r = Done c' ∧ inv c'.
Proof.
  intros I Ej Et Hev. pose proof (i_joins _ I _ _ Ej) as J.
  destruct (join_access c x t I J Et) as (Ha & _ & Hf).
  pose proof (i_tasks _ I _ _ Et) as T.
  pose proof (λ g p Eg, inv_join_continue c g j x p I Eg Ej) as Hcont.
  pose proof (λ g r Eg, inv_join_return c g j x r I Eg Ej) as Hret.
  unfold join_step. destruct (jpc x) eqn:Ep.
  - intros [= <-]. rewrite Ha. simpl. case_if; bool_to_prop.
    + eexists. split; [done|]. apply (Hcont (native c)); try done. intros _. by exists t.
    + destruct (timeout x) as [|d|] eqn:Ex; [|destruct (Duration.eqb _ _)|]; (eexists; split; [done|]);
        try (apply (Hret (native c)); [done|]; simpl; intros _; congruence).
      all: apply (Hcont (native c)); try done; by intros [|].
  - intros [= <-]. rewrite Ha. simpl. eexists. split; [done|]. apply (Hret (native c)); [done|]. simpl.
    rewrite (to_code _ _ _ T). split; [done|]. exists t. split; [done|].
    destruct J as (t' & Et' & _ & Hj & _). assert (t' = t) as -> by congruence. auto.
  - intros [= <-]. destruct prepared as [[]|e]; (eexists; split; [done|]).
    + apply (Hcont (native c)); try done; by intros [|].
    + apply (Hret (native c)); [done|]. simpl in *. congruence.
  - rewrite Ha. destruct (join_wait_spec c x t ticks I J Et) as (h & g & Eh & Hw & Hg). rewrite Eh, Hw.
    case_decide as Hr.
    + intros [= <-]. eexists. split; [done|]. apply (Hcont g); try done. intros _. exists t. auto.
    + destruct next as [| |e], (timeout x) as [|d|] eqn:Ex; intros [= <-]; (eexists; split; [done|]);
        try (apply (Hcont g); [done|by intros [|]|by rewrite ?Ex]).
      apply (Hret g); [done|]. simpl. congruence.
  - intros [= <-]. rewrite Ha. simpl. destruct J as (t' & Et' & _ & Hj & _).
    assert (t' = t) as -> by congruence.
    assert (finished t) as Hfin by auto. rewrite Hfin. simpl. eexists. split; [done|].
    apply (Hcont (native c)); try done. intros _. by exists t.
  - intros [= <-]. rewrite Ha. simpl. case_if; bool_to_prop; (eexists; split; [done|]).
    + apply (Hcont (native c)); try done. intros _. by exists t.
    + apply (Hret (native c)); [done|]. simpl. intros _. destruct J as (t' & _ & _ & _ & Hj). auto.
Qed.

(** *** [spawn] *)

Definition update {A} (i : nat) (o : option A) (l : list A) : list A :=
  match o with Some p => <[i:=p]> l | None => delete i l end.

Lemma update_perm {A} (l : list A) i x o : l !! i = Some x →
  ∃ l', l ≡ₚ x :: l' ∧ update i o l ≡ₚ option_list o ++ l'.
Proof.
  intros E. exists (take i l ++ drop (S i) l). destruct o as [y|]; simpl.
  - rewrite insert_take_drop by (by eapply lookup_lt_Some). rewrite <- (take_drop_middle l i x E) at 1.
    by rewrite !Permutation_middle.
  - rewrite delete_take_drop. rewrite <- (take_drop_middle l i x E) at 1. by rewrite Permutation_middle.
Qed.

Lemma omap_option_list {A B} (f : A → option B) (o : option A) : omap f (option_list o) = option_list (o ≫= f).
Proof. destruct o as [x|]; simpl; [|done]. by destruct (f x). Qed.

Lemma update_elem {A} (l : list A) i o j y : update i o l !! j = Some y → o = Some y ∨ ∃ j', l !! j' = Some y.
Proof.
  destruct o as [x|]; simpl.
  - intros [(<- & <- & _)|[_ E]]%list_lookup_insert_Some; [by left|right; by eexists].
  - intros E%lookup_delete_inv. by right.
Qed.

(** What happens to the event group of a step of [spawn]: kept, created or deleted. *)
Definition group_change (old new : option Z) (m m' : gmap Z Z) : Prop :=
  new = old ∧ m' = m ∨
  (∃ h, old = None ∧ new = Some h ∧ m !! h = None ∧ m' = <[h:=0]> m) ∨
  (∃ h, old = Some h ∧ new = None ∧ m' = delete h m).

Lemma group_change_owned old new m m' W :
  group_change old new m m' → NoDup (option_list old ++ W) →
  (∀ h, is_Some (m !! h) ↔ h ∈ option_list old ++ W) →
  NoDup (option_list new ++ W) ∧ (∀ h, is_Some (m' !! h) ↔ h ∈ option_list new ++ W) ∧
  (∀ h, h ∈ W → m' !! h = m !! h).
Proof.
  intros [[-> ->]|[(h & -> & -> & Hh & ->)|(h & -> & -> & ->)]] Nd Hm; simpl in *; [done|..].
  - assert (h ∉ W) as Hn by (rewrite <- Hm, Hh; by intros []).
    split_and!; [by constructor| |intros h' Hh'; rewrite lookup_insert_ne; [done|congruence]].
    intros h'. rewrite lookup_insert_is_Some, elem_of_cons, Hm. naive_solver.
  - apply NoDup_cons in Nd as [Hn Nd]. split_and!; [done| |].
    + intros h'. rewrite lookup_delete_is_Some, Hm, elem_of_cons. naive_solver.
    + intros h' Hh'. rewrite lookup_delete_ne; [done|congruence].
Qed.

(** ... and to its handle. *)
Definition handle_change (old new : option TaskHandle.t) (n n' : Z) : Prop :=
  (new = old ∨ new = None) ∧ n' = n ∨
  old = None ∧ new = Some (TaskHandle.TaskHandle n) ∧ n' = n + 1 ∧ n < uint_max usize_bits.

Lemma handle_change_all old new n n' W :
  handle_change old new n n' → NoDup (option_list old ++ W) → 1 ≤ n ≤ uint_max usize_bits →
  (∀ h, h ∈ option_list old ++ W → 1 ≤ TaskHandle.raw h < n) → Z.of_nat (length (option_list old ++ W)) < n →
  NoDup (option_list new ++ W) ∧ 1 ≤ n' ≤ uint_max usize_bits ∧
  (∀ h, h ∈ option_list new ++ W → 1 ≤ TaskHandle.raw h < n') ∧ Z.of_nat (length (option_list new ++ W)) < n'.
Proof.
  intros Hc Nd Hn Hf Hl.
  assert (NoDup W ∧ (∀ h, h ∈ W → 1 ≤ TaskHandle.raw h < n) ∧ Z.of_nat (length W) < n) as (NdW & HfW & HlW).
  { destruct old; simpl in *; [|done]. apply NoDup_cons in Nd as [_ ?]. split_and!; [done| |lia].
    intros h Hh. apply Hf. by right. }
  destruct Hc as [[[->| ->] ->]|(-> & -> & -> & Hlt)]; [done|done|]. simpl in *.
  split; [|split; [lia|split; [|lia]]].
  - constructor; [|done]. intros Hin. apply HfW in Hin. simpl in Hin. lia.
  - intros h [->|Hh]%elem_of_cons; [simpl; lia|]. apply HfW in Hh. lia.
Qed.

(** A step of [spawn]: its new program point [o], a task [tl] it starts, an event
    group [ls] it loses. *)
Definition spawn_result (c : config) (i : nat) (o : option spawn_pc) r g nx (tl : list task) (ls : list Z) : config :=
  mkConfig r g nx (live_count c) (tasks c ++ tl) (update i o (spawns c)) (joins c) (others c) (results c) (lost c ++ ls).

Lemma spawn_owned c i p o r g nx tl ls new :
  inv c → spawns c !! i = Some p →
  omap task_group tl ++ option_list (o ≫= sp_group) ++ ls = option_list new →
  group_change (sp_group p) new (groups (native c)) (groups g) →
  let c' := spawn_result c i o r g nx tl ls in
  NoDup (owned c') ∧ (∀ h, is_Some (groups g !! h) ↔ h ∈ owned c') ∧
  (∀ k t h, tasks c !! k = Some t → task_group t = Some h → groups g !! h = groups (native c) !! h) ∧
  (∀ j q h, j ≠ i → spawns c !! j = Some q → sp_group q = Some h → groups g !! h = groups (native c) !! h).
Proof.
  intros I E En Hg c'. destruct (update_perm (spawns c) i p o E) as (l & P & P').
  set (W := omap task_group (tasks c) ++ omap sp_group l ++ lost c).
  assert (owned c ≡ₚ option_list (sp_group p) ++ W) as Po.
  { unfold owned, W. rewrite P. csimpl. destruct (sp_group p); simpl; solve_Permutation. }
  assert (owned c' ≡ₚ option_list new ++ W) as Po'.
  { unfold owned, c', W. simpl. rewrite P', !omap_app, omap_option_list, <- En. solve_Permutation. }
  pose proof (i_owned _ I) as Nd. rewrite Po in Nd. pose proof (i_groups _ I) as Hm. setoid_rewrite Po in Hm.
  destruct (group_change_owned _ _ _ _ _ Hg Nd Hm) as (Nd' & Hm' & Hs). rewrite Po'. setoid_rewrite Po'.
  split_and!; try done.
  - intros k t h Et Eh. apply Hs. unfold W. apply elem_of_app. left. apply list_elem_of_omap.
    exists t. split; [by eapply list_elem_of_lookup_2|done].
  - intros j q h Hne Ej Eq. apply Hs. unfold W. apply elem_of_app. right. apply elem_of_app. left.
    assert (h ∈ omap sp_group (spawns c)) as Hin.
    { apply list_elem_of_omap. exists q. split; [by eapply list_elem_of_lookup_2|done]. }
    rewrite P in Hin. csimpl in Hin. destruct (sp_group p) as [h'|] eqn:Ep; [|done].
    apply elem_of_cons in Hin as [->|]; [|done]. destruct Hne.
    assert (NoDup (omap sp_group (spawns c))) as Ndl.
    { pose proof (i_owned _ I) as N. unfold owned in N. apply NoDup_app in N as (_ & _ & N).
      by apply NoDup_app in N as (? & _ & _). }
    by eapply (omap_NoDup_inj sp_group (spawns c)).
Qed.

Lemma spawn_handles c i p o r g nx tl ls newh :
  inv c → spawns c !! i = Some p →
  (task_handle <$> tl) ++ option_list (o ≫= sp_handle) = option_list newh →
  handle_change (sp_handle p) newh (next_handle c) nx →
  let c' := spawn_result c i o r g nx tl ls in
  NoDup (all_handles c') ∧ 1 ≤ nx ≤ uint_max usize_bits ∧
  (∀ h, h ∈ all_handles c' → 1 ≤ TaskHandle.raw h < nx) ∧ Z.of_nat (length (all_handles c')) < nx.
Proof.
  intros I E En Hh c'. destruct (update_perm (spawns c) i p o E) as (l & P & P').
  set (W := (task_handle <$> tasks c) ++ omap sp_handle l).
  assert (all_handles c ≡ₚ option_list (sp_handle p) ++ W) as Po.
  { unfold all_handles, W. rewrite P. csimpl. destruct (sp_handle p); simpl; solve_Permutation. }
  assert (all_handles c' ≡ₚ option_list newh ++ W) as Po'.
  { unfold all_handles, c', W. simpl. rewrite P', fmap_app, !omap_app, omap_option_list, <- En. solve_Permutation. }
  rewrite Po'. setoid_rewrite Po'. pose proof (i_handles _ I) as Nd. rewrite Po in Nd.
  pose proof (i_fresh _ I) as Hf. setoid_rewrite Po in Hf. pose proof (i_number _ I) as Hl. rewrite Po in Hl.
  by apply (handle_change_all (sp_handle p) newh (next_handle c) nx W Hh Nd (i_next _ I)).
Qed.

Lemma task_lookup_app (c : config) tl k t : tasks c !! k = Some t → (tasks c ++ tl) !! k = Some t.
Proof. intros E. by apply lookup_app_l_Some. Qed.

Lemma inv_spawn c i p o r g nx tl ls new newh :
  inv c → spawns c !! i = Some p →
  (∀ p', o = Some p' → spawn_ok (groups g) p') →
  (∀ j t, tl !! j = Some t → j = 0%nat ∧ task_ok (length (tasks c)) (groups g) t) →
  omap task_group tl ++ option_list (o ≫= sp_group) ++ ls = option_list new →
  group_change (sp_group p) new (groups (native c)) (groups g) →
  (task_handle <$> tl) ++ option_list (o ≫= sp_handle) = option_list newh →
  handle_change (sp_handle p) newh (next_handle c) nx →
  countb counted tl = 0%nat →
  FreeRtosRuntime.ok probed (others c + countb sp_lease (update i o (spawns c)) + countb id_alive (tasks c ++ tl)) r →
  (lost c ++ ls ≠ [] → nx = uint_max usize_bits) →
  inv (spawn_result c i o r g nx tl ls).
Proof.
  intros I E Ho Ht En Hg Eh Hh Hc Hr Hl.
  destruct (spawn_owned c i p o r g nx tl ls new I E En Hg) as (Nd & Hm & Hs & Hs').
  destruct (spawn_handles c i p o r g nx tl ls newh I E Eh Hh) as (N1 & N2 & N3 & N4).
  split; try done.
  - intros k t [Ek|[Hle Ek]]%lookup_app_Some.
    + destruct (i_tasks _ I _ _ Ek). split; try done. intros h Eg. rewrite (Hs k t); auto.
    + destruct (Ht _ _ Ek) as [Hz T]. by replace k with (length (tasks c)) by lia.
  - simpl. intros j q Ej. destruct o as [p'|]; simpl in Ej.
    + apply list_lookup_insert_Some in Ej as [(<- & <- & _)|[Hne Ej]]; [by apply Ho|].
      destruct (i_spawns _ I _ _ Ej) as (? & ? & Hb). split_and!; try done. intros h Eq.
      rewrite (Hs' j q h) by done. auto.
    + assert (∃ j', j' ≠ i ∧ spawns c !! j' = Some q) as (j' & Hne & Ej').
      { destruct (decide (j < i)%nat); [rewrite list_lookup_delete_lt in Ej by done; exists j|
          rewrite list_lookup_delete_ge in Ej by lia; exists (S j)]; split; done || lia. }
      destruct (i_spawns _ I _ _ Ej') as (? & ? & Hb). split_and!; try done. intros h Eq.
      rewrite (Hs' j' q h) by done. auto.
  - simpl. rewrite countb_app, Hc, Nat.add_0_r. apply (i_live _ I).
  - intros j x Hx. destruct (i_joins _ I _ _ Hx) as (t & Et & Hp). exists t. split; [by apply task_lookup_app|done].
  - intros j [[k tmo] res] Hj. pose proof (i_results _ I _ _ Hj) as R. destruct res; simpl in *; [|done].
    destruct R as [-> (t & Et & Hf)]. split; [done|]. exists t. split; [by apply task_lookup_app|done].
Qed.

Lemma spawn_lease_drop c i p : inv c → spawns c !! i = Some p → sp_lease p = true →
  FreeRtosRuntime.capabilities (runtime c) = Some probed ∧
  ∃ r, FreeRtosRuntime.lease_drop (runtime c) = Done r ∧
    FreeRtosRuntime.ok probed (others c + countb sp_lease (delete i (spawns c)) + countb id_alive (tasks c)) r.
Proof.
  intros I E Hp. pose proof (i_rt _ I) as O. pose proof (countb_delete sp_lease (spawns c) i p E) as Hc.
  rewrite Hp in Hc. simpl in Hc. unfold leases in O.
  replace (others c + _ + _)%nat
    with (S (others c + countb sp_lease (delete i (spawns c)) + countb id_alive (tasks c))) in O by lia.
  destruct (FreeRtosRuntime.ok_lease _ _ _ O) as (_ & _ & Hcaps). split; [done|].
  destruct (FreeRtosRuntime.lease_drop_spec _ _ _ O) as (r & -> & Or & _). eauto.
Qed.

(** The steps that start no task and lose no event group. *)
Lemma inv_spawn_move c i p o r g nx new newh :
  inv c → spawns c !! i = Some p → (∀ p', o = Some p' → spawn_ok (groups g) p') →
  option_list (o ≫= sp_group) = option_list new →
  group_change (sp_group p) new (groups (native c)) (groups g) →
  option_list (o ≫= sp_handle) = option_list newh →
  handle_change (sp_handle p) newh (next_handle c) nx →
  FreeRtosRuntime.ok probed (others c + countb sp_lease (update i o (spawns c)) + countb id_alive (tasks c)) r →
  (lost c ≠ [] → nx = uint_max usize_bits) →
  inv (mkConfig r g nx (live_count c) (tasks c) (update i o (spawns c)) (joins c) (others c) (results c) (lost c)).
Proof.
  intros I E Ho En Hg Eh Hh Hr Hl.
  assert (inv (spawn_result c i o r g nx [] [])) as I'.
  { apply (inv_spawn c i p o r g nx [] [] new newh); rewrite ?app_nil_r; simpl; done. }
  unfold spawn_result in I'. by rewrite !app_nil_r in I'.
Qed.

Lemma spawn_fail c g i p : inv c → spawns c !! i = Some p → sp_lease p = true →
  group_change (sp_group p) None (groups (native c)) (groups g) →
  ∃ c', (r ← FreeRtosRuntime.lease_drop (runtime c);
         Done (set_spawns (set_runtime (set_native c g) r) (delete i (spawns c)))) = Done c' ∧ inv c'.
Proof.
  intros I E Hp Hg. destruct (spawn_lease_drop c i p I E Hp) as (_ & r & -> & Or). simpl.
  eexists. split; [done|]. apply (inv_spawn_move c i p None r g (next_handle c) None None); try done.
  - left. auto.
  - apply (i_lost _ I).
Qed.

Lemma spawn_acquire_inv c i b : inv c → spawns c !! i = Some (SpLease b) →
  ∃ c', spawn_step c i (SpLease b) = Done c' ∧ inv c'.
Proof.
  intros I E. simpl. pose proof (i_spawns _ I _ _ E) as (Hn & Hz & _).
  pose proof (countb_delete sp_lease (spawns c) i _ E) as Hd. simpl in Hd.
  pose proof (countb_insert sp_lease (spawns c) i _ (SpGroup b) E) as Hi. simpl in Hi.
  pose proof (i_rt _ I) as O.
  assert (∀ r, FreeRtosRuntime.ok probed (leases c) r →
            inv (set_spawns (set_runtime c r) (delete i (spawns c)))) as Hret.
  { intros r Or. apply (inv_spawn_move c i _ None r (native c) (next_handle c) None None I E); try done.
    - by left.
    - left. auto.
    - simpl. unfold leases in Or. by replace (countb sp_lease (delete i (spawns c))) with (countb sp_lease (spawns c)) by lia.
    - apply (i_lost _ I). }
  destruct (FreeRtosRuntime.acquire_object_spec _ _ _ O) as [->|[->|(r & -> & Or & _)]]; simpl;
    [eauto..|]. eexists. split; [done|].
  apply (inv_spawn_move c i _ (Some (SpGroup b)) r (native c) (next_handle c) None None I E); try done.
  - intros p' [= <-]. by split_and!.
  - by left.
  - left. auto.
  - simpl. unfold leases in Or.
    by replace (countb sp_lease (<[i:=SpGroup b]> (spawns c))) with (S (countb sp_lease (spawns c))) by lia;
      rewrite Nat.add_succ_r.
  - apply (i_lost _ I).
Qed.

Lemma spawn_group_inv c i b : inv c → spawns c !! i = Some (SpGroup b) →
  ∃ c', spawn_step c i (SpGroup b) = Done c' ∧ inv c'.
Proof.
  intros I E. simpl. pose proof (i_spawns _ I _ _ E) as (Hn & Hz & _).
  destruct (spawn_lease_drop c i _ I E eq_refl) as (-> & _). unfold spawn_args. simpl.
  destruct (_ ≫= _) as [[words prio]|e]; simpl.
  2: { apply (spawn_fail c (native c) i _ I E eq_refl). by left. }
  pose proof (law_group_create (native c)) as Hg. unfold SysTask.event_group_create.
  destruct (osal_freertos_event_group_create (native c)) as [[h|] g].
  2: { apply (spawn_fail c g i _ I E eq_refl). by left. }
  destruct Hg as [Hf Hg]. eexists. split; [done|].
  apply (inv_spawn_move c i _ (Some (SpHandle b words prio h)) (runtime c) g (next_handle c) (Some h) None I E);
    try done.
  - intros p' [= <-]. split_and!; try done. intros h' [= <-]. by rewrite Hg, lookup_insert_eq.
  - right. left. eauto.
  - left. auto.
  - simpl. rewrite (countb_same sp_lease _ _ (SpGroup b)) by done. apply (i_rt _ I).
  - apply (i_lost _ I).
Qed.

(** The event group of a [spawn] that finds no handle is lost. *)
Lemma spawn_handle_inv c i b words prio h : inv c → spawns c !! i = Some (SpHandle b words prio h) →
  ∃ c', spawn_step c i (SpHandle b words prio h) = Done c' ∧ inv c'.
Proof.
  intros I E. pose proof (i_spawns _ I _ _ E) as (Hn & Hz & Hb). pose proof (i_next _ I) as Hx.
  simpl. rewrite allocate_spec by done. destruct (next_handle c =? _) eqn:Em; bool_to_prop.
  - destruct (spawn_lease_drop c i _ I E eq_refl) as (_ & r & Er & Or). simpl. rewrite Er. simpl.
    eexists. split; [done|].
    assert (inv (spawn_result c i None r (native c) (next_handle c) [] [h])) as I'.
    { apply (inv_spawn c i _ None r (native c) (next_handle c) [] [h] (Some h) None I E);
        rewrite ?app_nil_r; try done; [by left|]. left. auto. }
    unfold spawn_result in I'. by rewrite !app_nil_r in I'.
  - eexists. split; [done|]. set (th := TaskHandle.TaskHandle (next_handle c)).
    apply (inv_spawn_move c i _ (Some (SpCreate b words prio h th)) (runtime c) (native c) (next_handle c + 1)
             (Some h) (Some th) I E); try done.
    + intros p' [= <-]. by split_and!.
    + by left.
    + right. split_and!; try done. lia.
    + simpl. rewrite (countb_same sp_lease _ _ (SpHandle b words prio h)) by done. apply (i_rt _ I).
    + intros Hl. by destruct Em; apply (i_lost _ I).
Qed.

Context (name_len_ok : 1 ≤ Sys.max_task_name_len probed).

Lemma new_task_ok k m b th h args : m !! h = Some 0 → task_ok k m (new_task b th h args).
Proof. intros Hm. split; simpl; try done. intros h' [= <-]. done. Qed.

Lemma spawn_create_inv c i b words prio h th : inv c → spawns c !! i = Some (SpCreate b words prio h th) →
  ∃ c', spawn_step c i (SpCreate b words prio h th) = Done c' ∧ inv c'.
Proof.
  intros I E. pose proof (i_spawns _ I _ _ E) as (Hn & Hz & Hb). simpl in *. specialize (Hb h eq_refl).
  destruct (spawn_lease_drop c i _ I E eq_refl) as (-> & _). simpl.
  destruct (name_buf_spec (name b) _ Hn name_len_ok) as (buf & -> & _). simpl.
  unfold SysTask.task_create. pose proof (law_task_create (native c) buf (words mod 2 ^ 32) prio) as Hg.
  destruct (osal_freertos_task_create _ _ _ _) as [raw g]. simpl in Hg.
  assert (∃ c', (r ← FreeRtosRuntime.lease_drop (runtime c);
     Done (set_spawns (set_runtime (set_native c (SysTask.event_group_delete h g)) r) (delete i (spawns c)))) = Done c'
     ∧ inv c') as Hfail.
  { apply (spawn_fail c _ i _ I E eq_refl). right. right. exists h. split_and!; try done.
    unfold SysTask.event_group_delete. by rewrite law_group_delete, Hg. }
  destruct (SysTask.create_from_raw raw); [|done..].
  eexists. split; [done|].
  set (t := new_task b th h (buf, words mod 2 ^ 32, prio)).
  assert (inv (spawn_result c i None (runtime c) g (next_handle c) [t] [])) as I'.
  { apply (inv_spawn c i _ None (runtime c) g (next_handle c) [t] [] (Some h) (Some th) I E); try done.
    - intros [|j] t' Et; simplify_eq/=. split; [done|]. apply new_task_ok. by rewrite Hg.
    - by left.
    - left. auto.
    - simpl. rewrite countb_app. simpl. pose proof (countb_delete sp_lease (spawns c) i _ E) as Hd. simpl in Hd.
      pose proof (i_rt _ I) as O. unfold leases in O.
      by replace (others c + countb sp_lease (delete i (spawns c)) + (countb id_alive (tasks c) + 1))%nat
        with (others c + countb sp_lease (spawns c) + countb id_alive (tasks c))%nat by lia.
    - rewrite app_nil_r. apply (i_lost _ I). }
  unfold spawn_result in I'. by rewrite !app_nil_r in I'.
Qed.

Lemma spawn_step_inv c i p : inv c → spawns c !! i = Some p → ∃ c', spawn_step c i p = Done c' ∧ inv c'.
Proof.
  destruct p; [apply spawn_acquire_inv|apply spawn_group_inv|apply spawn_handle_inv|apply spawn_create_inv].
Qed.

(** *** Every step *)

Lemma inv_runtime c r n : inv c →
  FreeRtosRuntime.ok probed (n + countb sp_lease (spawns c) + countb id_alive (tasks c)) r →
  inv (set_others (set_runtime c r) n).
Proof. by intros [] Hr. Qed.

Lemma inv_native c g : inv c → groups g = groups (native c) → inv (set_native c g).
Proof. intros [] Eg. split; simpl; rewrite ?Eg; done. Qed.

Lemma spawn_start_inv c b : inv c → 0 ≤ stack_size b → inv (spawn_start c b).
Proof.
  intros I Hb. unfold spawn_start. destruct (Validation.validate_task_config _ _) as [[]|] eqn:Ev; [|done].
  apply Validation.validate_task_config_ok in Ev as (_ & Hn & _).
  destruct I. split; simpl; try done; unfold leases, owned, all_handles in *; simpl;
    rewrite ?omap_app, ?countb_app, ?app_nil_r; simpl; rewrite ?app_nil_r, ?Nat.add_0_r; try done.
  intros i p [E|[_ E]]%lookup_app_Some; [by eapply i_spawns0|].
  destruct (i - _)%nat as [|[|?]]; simplify_eq/=. by split_and!.
Qed.

Lemma others_inv c e r : inv c → e = AcquireOther ∨ e = ReleaseOther → exec c e = Some r →
  ∃ c', r = Done c' ∧ inv c'.
Proof.
  intros I [->| ->] E; simpl in E; pose proof (i_rt _ I) as O; unfold leases in O.
  - simplify_eq.
    destruct (FreeRtosRuntime.acquire_object_spec _ _ _ O) as [->|[->|(r & -> & Or & _)]]; simpl; eexists;
      (split; [done|]); by apply inv_runtime.
  - destruct (others c) as [|n]; [done|]. simplify_eq.
    destruct (FreeRtosRuntime.lease_drop_spec _ _ _ O) as (r & -> & Or & _). simpl.
    eexists. split; [done|]. by apply inv_runtime.
Qed.

Lemma transitions_inv c e r : inv c → exec c e = Some r →
  match e with InitBegin | ShutBegin | TimerReturned _ _ | TransitionStep _ => True | _ => False end →
  ∃ c', r = Done c' ∧ inv c'.
Proof.
  intros I E He. pose proof (i_rt _ I) as O. pose proof (λ r, inv_runtime c r (others c) I) as Hr.
  destruct e; try done; simpl in E.
  - simplify_eq. destruct (FreeRtosRuntime.initialize_begin_spec _ _ _ O) as [[e ->]|(r & -> & Hz & _ & _ & _ & _ & Or)];
      simpl; eexists; (split; [done|]); apply Hr; [done|]. unfold leases in Hz. by rewrite Hz.
  - simplify_eq. destruct (FreeRtosRuntime.shutdown_begin_spec _ _ _ O) as [[e ->]|(r & -> & Hz & _ & _ & _ & _ & Or)];
      simpl; eexists; (split; [done|]); apply Hr; [done|]. unfold leases in Hz. by rewrite Hz.
  - destruct (FreeRtosRuntime.timer_returned _ _ _) as [r'|] eqn:Et; simplify_eq/=.
    destruct (FreeRtosRuntime.timer_returned_spec _ _ _ _ _ _ O Et) as (_ & _ & Or & _).
    eexists. split; [done|]. by apply Hr.
  - destruct (FreeRtosRuntime.transition_step _ _ _) as [m|] eqn:Et; simplify_eq/=.
    destruct (FreeRtosRuntime.transition_step_spec _ _ _ _ _ O Et) as (r' & x & -> & Or & _).
    simpl. eexists. split; [done|]. by apply Hr.
Qed.

Lemma exec_inv c e r : inv c → event_ok c e → exec c e = Some r → ∃ c', r = Done c' ∧ inv c'.
Proof.
  intros I Hev E. destruct e;
    try (by apply (transitions_inv c _ r I E)); try solve [refine (others_inv c _ r I _ E); auto]; simpl in E.
  - simplify_eq. eexists. split; [done|]. by apply inv_native.
  - simplify_eq. eexists. split; [done|]. by apply spawn_start_inv.
  - destruct (spawns c !! i) as [p|] eqn:Ep; simplify_eq/=. by apply spawn_step_inv.
  - destruct (tasks c !! k) as [t|] eqn:Et; simplify_eq/=. by eapply trampoline_inv.
  - destruct (tasks c !! k) as [t|] eqn:Et; simplify_eq/=. destruct (handles t) eqn:Hh; simplify_eq/=.
    apply join_start_inv; try done. congruence.
  - destruct (joins c !! j) as [x|] eqn:Ex; simplify_eq/=.
    destruct (tasks c !! target x) as [t|] eqn:Et; simplify_eq/=. by eapply join_step_inv.
  - destruct (tasks c !! k) as [t|] eqn:Et; simplify_eq/=. destruct (handles t) eqn:Hh; simplify_eq/=.
    eexists. split; [done|]. apply clone_inv; try done. congruence.
  - destruct (tasks c !! k) as [t|] eqn:Et; simplify_eq/=. destruct (handles t) as [|n] eqn:Hh; simplify_eq/=.
    destruct (Nat.eqb n 0 && borrowed c k) eqn:Hb; simplify_eq. apply (drop_handle_inv c k t n); try done.
    intros ->. done.
  - destruct (tasks c !! k) as [t|] eqn:Et; simplify_eq/=. destruct (half_dropped t) as [|n] eqn:Hh; simplify_eq/=.
    by apply (drop_half_inv c k t n).
Qed.

Lemma task_reachable_inv c : reachable c → inv c.
Proof.
  induction 1 as [g Hg|c e c' _ I Hev E]; [by apply task_inv_init|].
  by destruct (exec_inv c e _ I Hev E) as (c'' & [= ->] & ?).
Qed.

(** *** Runs *)

Fixpoint exec_all (c : config) (es : list event) : option config :=
  match es with
  | [] => Some c
  | e :: es => match exec c e with Some (Done c') => exec_all c' es | _ => None end
  end.

(** Steps the environment may take. *)
Fixpoint events_ok (c : config) (es : list event) : Prop :=
  match es with
  | [] => True
  | e :: es => event_ok c e ∧ match exec c e with Some (Done c') => events_ok c' es | _ => True end
  end.

Lemma task_exec_reachable es c c' : reachable c → events_ok c es → exec_all c es = Some c' → reachable c'.
Proof.
  revert c. induction es as [|e es IH]; intros c R Hev E; simpl in *; [by simplify_eq|].
  destruct Hev as [He Hes]. destruct (exec c e) as [[c1| |]|] eqn:Ex; try done.
  apply (IH c1); try done. by eapply tk_step.
Qed.

(** One step of a trampoline that has left its entry. *)
Lemma trampoline_advances c k t : inv c → tasks c !! k = Some t → (4 ≤ rank (tpc t) ≤ 8)%nat →
  ∃ c' t', exec c (Trampoline k) = Some (Done c') ∧ inv c' ∧ tasks c' !! k = Some t' ∧
    rank (tpc t') = S (rank (tpc t)) ∧ joins c' = joins c ∧ results c' = results c.
Proof.
  intros I E Hr. pose proof (i_tasks _ I _ _ E) as T. pose proof (lookup_lt_Some _ _ _ E) as Hlt.
  destruct (exec c (Trampoline k)) as [r|] eqn:Ex.
  2: { simpl in Ex. rewrite E in Ex. simpl in Ex. unfold trampoline_step in Ex. destruct (tpc t); simpl in Hr; done || lia. }
  destruct (exec_inv c (Trampoline k) r I ltac:(done) Ex) as (c' & -> & I'). exists c'.
  simpl in Ex. rewrite E in Ex. simpl in Ex. unfold trampoline_step in Ex.
  destruct (completion_alive _ _ _ T) as (Ha & h & Eh); [lia|]. rewrite Ha in Ex. simpl in Ex. rewrite Eh in Ex.
  destruct (tpc t) eqn:Ep; simpl in Hr; try lia; simplify_eq/=.
  5: { destruct (SysTask.event_group_set_bits _ _ _) as [st g]. unfold rassert in Ex.
       destruct (st =? _); simplify_eq/=. eexists. split_and!; try done; [by apply list_lookup_insert_eq|done]. }
  all: eexists; split_and!; try done; [by apply list_lookup_insert_eq|done].
Qed.

Lemma task_exec_app es es' c c1 : exec_all c es = Some c1 → exec_all c (es ++ es') = exec_all c1 es'.
Proof.
  revert c. induction es as [|e es IH]; intros c E; simpl in *; [by simplify_eq|].
  destruct (exec c e) as [[c2| |]|]; try done. by apply IH.
Qed.

(** ... and all of them up to the completion bit. *)
Lemma trampoline_publishes c k t : inv c → tasks c !! k = Some t → (4 ≤ rank (tpc t))%nat →
  ∃ n c' t', (n ≤ 5)%nat ∧ exec_all c (replicate n (Trampoline k)) = Some c' ∧ inv c' ∧
    tasks c' !! k = Some t' ∧ (9 ≤ rank (tpc t'))%nat ∧ joins c' = joins c ∧ results c' = results c.
Proof.
  intros I E Hr.
  assert (∀ m c t, inv c → tasks c !! k = Some t → (4 ≤ rank (tpc t))%nat → (9 ≤ m + rank (tpc t))%nat →
    ∃ n c' t', (n ≤ m)%nat ∧ exec_all c (replicate n (Trampoline k)) = Some c' ∧ inv c' ∧
      tasks c' !! k = Some t' ∧ (9 ≤ rank (tpc t'))%nat ∧ joins c' = joins c ∧ results c' = results c) as Hind.
  { clear c t I E Hr. induction m as [|m IH]; intros c t I E Hr Hm.
    { exists 0%nat, c, t. simpl in *. by split_and!. }
    destruct (decide (9 ≤ rank (tpc t))%nat) as [|Hlt]; [exists 0%nat, c, t; split_and!; done || lia|].
    destruct (trampoline_advances c k t I E) as (c1 & t1 & Ex & I1 & E1 & Hr1 & Hj & Hs); [lia|].
    destruct (IH c1 t1 I1 E1) as (n & c' & t' & Hn & En & I' & E' & Hr' & Hj' & Hs'); [lia..|].
    exists (S n), c', t'. cbn [replicate exec_all]. rewrite Ex.
    split_and!; try done; [lia|congruence|congruence]. }
  apply (Hind 5%nat c t); done || lia.
Qed.

(** A joiner of a task whose bit is set. *)
Lemma join_finishes c j x t : inv c → joins c !! j = Some x → tasks c !! target x = Some t →
  (9 ≤ rank (tpc t))%nat → jpc x = JWait →
  ∃ c', exec_all c (replicate 3 (JoinStep j (Ok ()) 0 Again)) = Some c' ∧
    results c' = results c ++ [(target x, timeout x, Ok ExitCode.SUCCESS)].
Proof.
  intros I Ej Et Hr Ep. pose proof (i_joins _ I _ _ Ej) as J. pose proof (lookup_lt_Some _ _ _ Ej) as Hlt.
  destruct (join_access c x t I J Et) as (Ha & _ & Hf). specialize (Hf Hr). unfold finished in Hf.
  pose proof (i_tasks _ I _ _ Et) as T.
  destruct (join_wait_spec c x t 0 I J Et) as (h & g & Eh & Hw & Hg). rewrite decide_True in Hw by done.
  cbn [replicate exec_all exec]. rewrite Ej. cbn [mbind option_bind]. rewrite Et. cbn [mbind option_bind].
  unfold join_step at 1. rewrite Ep, Ha, Eh, Hw.
  cbn [set_joins set_native joins tasks]. rewrite list_lookup_insert_eq by done. cbn [mbind option_bind target]. rewrite Et. cbn [mbind option_bind].
  unfold join_step at 1. cbn [jpc target timeout]. rewrite Ha. cbn [mbind Run_bind]. rewrite Hf, Z.eqb_refl.
  cbn [set_joins set_native joins tasks]. rewrite list_insert_insert_eq, list_lookup_insert_eq by done.
  cbn [mbind option_bind target]. rewrite Et. cbn [mbind option_bind].
  unfold join_step. cbn [jpc target timeout]. rewrite Ha. cbn [mbind Run_bind].
  eexists. split; [done|]. simpl. by rewrite (to_code _ _ _ T).
Qed.
(** Nothing deletes a lost event group. *)
Lemma lost_grows c e c' : exec c e = Some (Done c') → ∃ l, lost c' = lost c ++ l.
Proof.
  intros E. destruct e; simpl in E;
    unfold spawn_step, spawn_start, trampoline_step, join_start, join_step, drop_handle, drop_half,
      mbind, Run_bind, option_bind in E;
    repeat case_match; simplify_eq/=; try (exists []; by rewrite app_nil_r); try (by eexists).
Qed.

Lemma lost_elem es c c' h : h ∈ lost c → exec_all c es = Some c' → h ∈ lost c'.
Proof.
  revert c. induction es as [|e es IH]; intros c Hh E; simpl in E; [by simplify_eq|].
  destruct (exec c e) as [[c1| |]|] eqn:Ex; try done. apply (IH c1); [|done].
  destruct (lost_grows c e c1 Ex) as [l ->]. apply elem_of_app. by left.
Qed.

(** ** Claims *)

(** C20: No interleaving of task creation, trampolines, joins, clones, drops, other
    objects and starts and stops of the runtime panics or uses a freed object;
    [count] is the number of tasks between the start and the end of their entry,
    handles are unique, and [current] is the caller's own handle. *)
Theorem freertos_tasks_safe c :
  reachable c →
  (∀ e r, event_ok c e → exec c e = Some r → completes r) ∧
  count c = Z.of_nat (length (filter (λ t, 2 ≤ rank (tpc t) ≤ 4)%nat (tasks c))) ∧
  NoDup (task_handle <$> tasks c) ∧
  (∀ k t, tasks c !! k = Some t → tpc t = TEntry → current c (Some k) = Done (Some (task_handle t))) ∧
  current c None = Done None.
Proof.
  intros R. pose proof (task_reachable_inv c R) as I. split_and!.
  - intros e r Hev Ex. destruct (exec_inv c e r I Hev Ex) as (c' & -> & _). by eexists.
  - unfold count. rewrite (i_live _ I). f_equal. apply countb_filter. intros t. apply bool_decide_eq_true.
  - pose proof (i_handles _ I) as Nd. unfold all_handles in Nd. by apply NoDup_app in Nd as (? & _ & _).
  - intros k t E Ep. rewrite (current_spec c (Some k) I); [simpl; by rewrite E|].
    intros k' [= <-]. eauto.
  - done.
Qed.

(** C31: A [join] that returns a code returns the one the trampoline published, after
    the entry returned; one that waits forever does not time out. *)
Theorem freertos_join_sound c k tmo r :
  reachable c → (k, tmo, r) ∈ results c →
  match r with
  | Ok code => code = ExitCode.SUCCESS ∧ ∃ t, tasks c !! k = Some t ∧ (TStoreState ≠ tpc t ∧ rank TStoreState ≤ rank (tpc t))%nat
  | Err e => e = Error.Timeout → tmo ≠ Timeout.Forever
  end.
Proof.
  intros R [i Hi]%list_elem_of_lookup. pose proof (task_reachable_inv c R) as I.
  pose proof (i_results _ I _ _ Hi) as Hr. destruct r as [code|e]; simpl in *; [|done].
  destruct Hr as [-> (t & Et & Hf)]. split; [done|]. exists t. split; [done|].
  pose proof (to_state _ _ _ (i_tasks _ I _ _ Et)) as Hs. unfold finished in Hf. rewrite Hf in Hs.
  case_decide as Hd; [|done]. split; [|lia]. intros Ep. rewrite <- Ep in Hd. simpl in Hd. lia.
Qed.

(** Leases and event groups are those of the objects that exist: a lease for every
    referenced identity, an event group for every referenced completion; only a
    [spawn] that runs out of handles loses one.  A task that is over and has no
    handles holds nothing. *)
Theorem freertos_task_resources c :
  reachable c →
  RuntimeLifecycle.active_objects (FreeRtosRuntime.life (runtime c)) =
    Z.of_nat (others c + countb sp_lease (spawns c) + countb id_alive (tasks c)) ∧
  (∀ h, is_Some (groups (native c) !! h) ↔
     (∃ k t, tasks c !! k = Some t ∧ event_group (completion t) = Some h) ∨
     (∃ i p, spawns c !! i = Some p ∧ sp_group p = Some h) ∨ h ∈ lost c) ∧
  (lost c ≠ [] → next_handle c = uint_max usize_bits) ∧
  (∀ k t, tasks c !! k = Some t → tpc t = TDeleted → handles t = 0%nat → half_dropped t = 0%nat →
     id_alive t = false ∧ event_group (completion t) = None).
Proof.
  intros R. pose proof (task_reachable_inv c R) as I. split_and!.
  - destruct (i_rt _ I) as (st & -> & _). apply RuntimeLifecycle.decode_count_pack.
  - intros h. rewrite (i_groups _ I h). unfold owned. rewrite !elem_of_app, !list_elem_of_omap.
    setoid_rewrite list_elem_of_lookup. unfold task_group. naive_solver.
  - apply (i_lost _ I).
  - intros k t E Ep Hh Hd. destruct (i_tasks _ I _ _ E) as [_ _ _ _ Hid Hco Hg _].
    unfold payload_id, payload_co in *. rewrite Ep, Hh, ?Hd in *. simpl in *. unfold id_alive. rewrite Hid.
    split; [done|]. by apply Hg.
Qed.

(** A join that waits for a task whose entry has returned gets its exit code: five
    steps of the trampoline at most set the completion bit, three steps of the
    joiner return. *)
Theorem freertos_join_completes c k t j x :
  reachable c → tasks c !! k = Some t → (rank TDropLive ≤ rank (tpc t))%nat →
  joins c !! j = Some x → target x = k → jpc x = JWait →
  ∃ n c', (n ≤ 5)%nat ∧
    exec_all c (replicate n (Trampoline k) ++ replicate 3 (JoinStep j (Ok ()) 0 Again)) = Some c' ∧
    results c' = results c ++ [(k, timeout x, Ok ExitCode.SUCCESS)].
Proof.
  intros R E Hr Ej <- Ep. pose proof (task_reachable_inv c R) as I.
  destruct (trampoline_publishes c _ t I E Hr) as (n & c1 & t1 & Hn & E1 & I1 & Et1 & Hr1 & Hj1 & Hs1).
  rewrite <- Hj1 in Ej. destruct (join_finishes c1 j x t1 I1 Ej Et1 Hr1 Ep) as (c' & Ec & Hs).
  exists n, c'. split; [done|]. rewrite (task_exec_app _ _ _ _ E1), Hs1 in *. done.
Qed.

(** When the handles have run out, [spawn] fails and its event group is never
    deleted, whatever happens afterwards. *)
Theorem freertos_spawn_group_leak c i b words prio h es c' :
  reachable c → spawns c !! i = Some (SpHandle b words prio h) → next_handle c = uint_max usize_bits →
  events_ok c (SpawnStep i :: es) → exec_all c (SpawnStep i :: es) = Some c' →
  is_Some (groups (native c') !! h) ∧ h ∈ lost c'.
Proof.
  intros R E Hn Hev Hex. pose proof (task_exec_reachable _ _ _ R Hev Hex) as R'.
  pose proof (task_reachable_inv c R) as I. pose proof (task_reachable_inv c' R') as I'.
  assert (h ∈ lost c') as Hl.
  { cbn [exec_all] in Hex. destruct (exec c (SpawnStep i)) as [[c1| |]|] eqn:E1; try done.
    apply (lost_elem es c1); [|done]. simpl in E1. rewrite E in E1. simpl in E1.
    rewrite (allocate_spec _ (i_next _ I)), Hn, Z.eqb_refl in E1.
    destruct (FreeRtosRuntime.lease_drop _); simplify_eq/=. set_solver. }
  split; [|done]. apply (i_groups _ I'). unfold owned. set_solver.
Qed.

End TaskMachine.
End TaskMachine.

(** ** A kernel with the laws, and runs on it *)

Module TaskWitness.
Import TaskConfig FreeRtosTask TaskMachine.

(** The live event groups, the next event group if it is free, and what task
    creation answers. *)
Record vg : Type := mkVg { vgroups : gmap Z Z; vnext : Z; vcreate : Z }.

#[global] Instance vtasks : NativeTasks vg := {|
  osal_freertos_event_group_create g :=
    match vgroups g !! vnext g with
    | Some _ => (None, g)
    | None => (Some (vnext g), mkVg (<[vnext g:=0]> (vgroups g)) (vnext g) (vcreate g))
    end;
  osal_freertos_event_group_set_bits h bits g :=
    match vgroups g !! h with
    | Some b => (0, mkVg (<[h:=Z.lor b bits]> (vgroups g)) (vnext g) (vcreate g))
    | None => (2, g)
    end;
  osal_freertos_event_group_wait_bits h bits _ _ _ g :=
    (match vgroups g !! h with
     | Some b => if Z.land b bits =? bits then 0 else 1
     | None => 2
     end, g);
  osal_freertos_event_group_delete h g := mkVg (delete h (vgroups g)) (vnext g) (vcreate g);
  osal_freertos_task_create _ _ _ g := (vcreate g, g);
|}.

#[global] Program Instance vtasks_laws : NativeTasksLaws vg := {| groups := vgroups |}.
Next Obligation. intros g. simpl. by destruct (vgroups g !! vnext g) eqn:E. Qed.
Next Obligation. intros g h b bits E. simpl. by rewrite E. Qed.
Next Obligation. intros g h b bits ticks E. simpl. by rewrite E. Qed.
Next Obligation. done. Qed.
Next Obligation. done. Qed.

#[local] Existing Instance arch64.

Definition caps : Sys.Capabilities := Sys.capabilities VirtualKernel.raw_caps.
Definition builder : FreeRtosTaskBuilder := builder_priority builder_new 3.
Definition start_up : list (event (G:=vg)) :=
  [InitBegin; TimerReturned 0 (Ok ()); TransitionStep 0; TransitionStep 0].
Definition spawn_one : list (event (G:=vg)) :=
  [Spawn builder; SpawnStep 0; SpawnStep 0; SpawnStep 0; SpawnStep 0].
Definition blocked_join : list (event (G:=vg)) :=
  [Join None 0 Timeout.Forever; JoinStep 0 (Ok ()) 0 Again; JoinStep 0 (Ok ()) 0 Again].

(** A task inside its entry with a joiner waiting, the same after the entry, and
    after everything. *)
Definition run_up : list (event (G:=vg)) :=
  start_up ++ spawn_one ++ [Trampoline 0; Trampoline 0; Trampoline 0] ++ blocked_join ++ [Trampoline 0].
Definition to_end : list (event (G:=vg)) :=
  run_up ++ replicate 5 (Trampoline 0) ++ replicate 3 (JoinStep 0 (Ok ()) 0 Again) ++
  replicate 3 (Trampoline 0) ++ [DropHandle 0; DropHalf 0].

Definition booted : config := start_config (mkVg ∅ 7 0).
Definition waiting : config := default booted (exec_all caps booted run_up).
Definition over : config := default booted (exec_all caps booted to_end).

Lemma waiting_reachable : reachable caps waiting.
Proof.
  apply (task_exec_reachable caps run_up booted); [by apply tk_init| |by vm_compute].
  vm_compute. by repeat split.
Qed.
Lemma over_reachable : reachable caps over.
Proof.
  apply (task_exec_reachable caps to_end booted); [by apply tk_init| |by vm_compute].
  vm_compute. by repeat split.
Qed.

(** *** Running out of handles *)

Definition up : FreeRtosRuntime.t := FreeRtosRuntime.mk 2 (Some caps) [].
Definition idle (n : Z) : config := mkConfig up (mkVg ∅ 7 1) n 0 [] [] [] 0 [] [].
Definition numbering (n : Z) : config :=
  mkConfig (FreeRtosRuntime.mk 6 (Some caps) []) (mkVg {[7:=0]} 7 1) n 0 []
    [SpHandle builder 1024 3 7] [] 0 [] [].
Definition creating (n : Z) : config :=
  mkConfig (FreeRtosRuntime.mk 6 (Some caps) []) (mkVg {[7:=0]} 7 1) (n + 1) 0 []
    [SpCreate builder 1024 3 7 (TaskHandle.TaskHandle n)] [] 0 [] [].

Definition claim_steps : list (event (G:=vg)) := [Spawn builder; SpawnStep 0; SpawnStep 0].
Lemma idle_numbering n : exec_all caps (idle n) claim_steps = Some (numbering n).
Proof. by vm_compute. Qed.
Lemma idle_events n : events_ok caps (idle n) claim_steps.
Proof. vm_compute. by repeat split. Qed.
Lemma creating_idle n : exec_all caps (creating n) [SpawnStep 0] = Some (idle (n + 1)).
Proof. by vm_compute. Qed.
Lemma numbering_creating n : 1 ≤ n < uint_max usize_bits →
  exec_all caps (numbering n) [SpawnStep 0] = Some (creating n).
Proof.
  intros Hn. cbn [exec_all exec numbering spawns lookup list_lookup mbind option_bind spawn_step next_handle].
  rewrite TaskConfigFacts.allocate_spec by lia.
  rewrite (proj2 (Z.eqb_neq _ _)) by lia. done.
Qed.

Lemma idle_reachable n : 1 ≤ n ≤ uint_max usize_bits → reachable caps (idle n).
Proof.
  intros Hn. replace n with (1 + Z.of_nat (Z.to_nat (n - 1))) in * by lia. revert Hn.
  induction (Z.to_nat (n - 1)) as [|m IH]; intros Hn.
  - apply (task_exec_reachable caps (start_up) (start_config (mkVg ∅ 7 1))); [by apply tk_init| |by vm_compute].
    vm_compute. by repeat split.
  - set (k := 1 + Z.of_nat m) in *. replace (1 + Z.of_nat (S m)) with (k + 1) in * by lia.
    assert (reachable caps (idle k)) as R by (apply IH; lia).
    assert (reachable caps (numbering k)) as R1.
    { exact (task_exec_reachable caps claim_steps (idle k) (numbering k) R (idle_events k) (idle_numbering k)). }
    assert (reachable caps (creating k)) as R2.
    { apply (task_exec_reachable caps [SpawnStep 0] _ _ R1); [|apply numbering_creating; lia].
      cbn [events_ok event_ok]. split; [done|]. by destruct (exec _ _ _) as [[]|]. }
    apply (task_exec_reachable caps [SpawnStep 0] _ _ R2); [|apply creating_idle].
    cbn [events_ok event_ok]. split; [done|]. by destruct (exec _ _ _) as [[]|].
Qed.

(** *** Applications *)

Definition named : FreeRtosTaskBuilder := builder_name builder [Byte.x61; Byte.x62].
Lemma freertos_spawn_args_witness :
  FreeRtosTask.spawn_args (Some caps) named = Done (Ok (1024, 3)) ∧ 4096 ≤ 1024 * Sys.stack_word_size caps.
Proof.
  split; [by vm_compute|].
  destruct (TaskConfigFacts.freertos_spawn_args caps named 1024 3) as (_ & _ & H & _); done.
Defined.

Lemma freertos_tasks_safe_witness : completes (default (Panic EmptyString) (exec caps waiting (Trampoline 0))) ∧ count waiting = 1.
Proof.
  destruct (freertos_tasks_safe caps ltac:(done) waiting waiting_reachable) as (Hs & Hc & _). split.
  - eapply (Hs (Trampoline 0)); [done|]. vm_compute. reflexivity.
  - by rewrite Hc.
Defined.

Lemma freertos_join_sound_witness : results over = [(0%nat, Timeout.Forever, Ok ExitCode.SUCCESS)] ∧
  ∃ t, tasks over !! 0%nat = Some t ∧ (TStoreState ≠ tpc t ∧ rank TStoreState ≤ rank (tpc t))%nat.
Proof.
  split; [by vm_compute|].
  apply (freertos_join_sound caps ltac:(done) over 0 Timeout.Forever (Ok ExitCode.SUCCESS) over_reachable).
  replace (results over) with [(0%nat, Timeout.Forever, Ok ExitCode.SUCCESS : Result ExitCode.t)] by by vm_compute.
  by apply list_elem_of_singleton.
Defined.

Lemma freertos_task_resources_witness :
  RuntimeLifecycle.active_objects (FreeRtosRuntime.life (runtime over)) = 0.
Proof. destruct (freertos_task_resources caps ltac:(done) over over_reachable) as (-> & _). by vm_compute. Defined.

Lemma freertos_join_completes_witness : ∃ n c', (n ≤ 5)%nat ∧
  exec_all caps waiting (replicate n (Trampoline 0) ++ replicate 3 (JoinStep 0 (Ok ()) 0 Again)) = Some c' ∧
  results c' = results waiting ++ [(0%nat, Timeout.Forever, Ok ExitCode.SUCCESS)].
Proof.
  destruct (tasks waiting !! 0%nat) as [t|] eqn:Et; [|by vm_compute in Et].
  apply (freertos_join_completes caps ltac:(done) waiting 0 t 0 (mkJoin 0 Timeout.Forever JWait) waiting_reachable Et);
    [|by vm_compute|reflexivity|reflexivity].
  vm_compute in Et. simplify_eq. simpl. lia.
Defined.

Lemma freertos_spawn_group_leak_witness :
  is_Some (vgroups (native (default (idle 1) (exec_all caps (numbering (uint_max usize_bits)) [SpawnStep 0]))) !! 7).
Proof.
  pose proof (task_exec_reachable caps claim_steps _ _ (idle_reachable (uint_max usize_bits) ltac:(done))
                (idle_events _) (idle_numbering _)) as R.
  apply (freertos_spawn_group_leak caps ltac:(done) _ 0 builder 1024 3 7 [] _ R); done.
Defined.

End TaskWitness.
