(* ===== verification/PosixSys.v ===== *)
(** * POSIX: error codes, monotonic time, sleeping and timed locking

    [crates/osal-backend-posix/src/sys/errno.rs], [sys/time.rs],
    [sys/mutex.rs] and [clock.rs].  The C library is the class [Posix]. *)

From S2P Require Import Prelude Api.

(** ** [sys/errno.rs] *)

Module Errno.

(** The numbers of Linux. *)
Definition EPERM : Z := 1.
Definition EINTR : Z := 4.
Definition EAGAIN : Z := 11.
Definition ENOMEM : Z := 12.
Definition EBUSY : Z := 16.
Definition EINVAL : Z := 22.
Definition EDEADLK : Z := 35.
Definition ETIMEDOUT : Z := 110.

Definition map_errno_code (code : Z) : Error.t :=
  if code =? ETIMEDOUT then Error.Timeout
  else if code =? EAGAIN then Error.Timeout
  else if code =? ENOMEM then Error.OutOfMemory
  else if code =? EINVAL then Error.InvalidParameter
  else if code =? EBUSY then Error.LockFailed
  else if code =? EDEADLK then Error.LockFailed
  else if code =? EPERM then Error.LockFailed
  else Error.Internal "unexpected POSIX error".

Definition check_ret (ret : Z) : Result () :=
  if ret =? 0 then Ok () else Err (map_errno_code ret).

End Errno.

(** ** [sys/time.rs]: timespecs *)

Module PosixTime.

Record timespec : Type := mkTimespec { tv_sec : Z; tv_nsec : Z }.
#[global] Instance timespec_eq_dec : EqDecision timespec.
Proof. solve_decision. Defined.

Definition NSEC : Z := Duration.NANOS_PER_SEC.

Section Conversions.
Context `{Arch}.

(** [time_t] has the width of a pointer. *)
Definition TIME_MAX : Z := 2 ^ (usize_bits - 1) - 1.
Definition MAX_SLEEP_SECS : Z := TIME_MAX.

(** [checked_add] on [time_t] (both operands are non-negative here). *)
Definition time_checked_add (a b : Z) : option Z :=
  if (a + b <=? TIME_MAX) && (- TIME_MAX - 1 <=? a + b) then Some (a + b) else None.

Definition duration_to_timespec (d : Duration.t) : Result timespec :=
  if Duration.as_secs d <=? TIME_MAX
  then Ok (mkTimespec (Duration.as_secs d) (Duration.subsec_nanos d))
  else Err Error.Overflow.

Definition timespec_ge (a b : timespec) : bool :=
  (tv_sec b <? tv_sec a) || ((tv_sec a =? tv_sec b) && (tv_nsec b <=? tv_nsec a)).

(** [checked_abs_deadline] once the clock has been read. *)
Definition abs_deadline (now : timespec) (timeout : Duration.t) : Result timespec :=
  match duration_to_timespec timeout with
  | Err e => Err e
  | Ok to =>
      match time_checked_add (tv_sec now) (tv_sec to) with
      | None => Err Error.Overflow
      | Some s =>
          let n := tv_nsec now + tv_nsec to in
          if NSEC <=? n then
            match time_checked_add s 1 with
            | None => Err Error.Overflow
            | Some s' => Ok (mkTimespec s' (n - NSEC))
            end
          else Ok (mkTimespec s n)
      end
  end.

(** A timespec as the kernel hands it out, and its value in nanoseconds. *)
Definition valid (t : timespec) : Prop := 0 ≤ tv_sec t ≤ TIME_MAX ∧ 0 ≤ tv_nsec t < NSEC.
Definition nanos (t : timespec) : Z := tv_sec t * NSEC + tv_nsec t.
Definition TS_MAX : Z := TIME_MAX * NSEC + (NSEC - 1).

Lemma TIME_MAX_range : 2 ^ 31 - 1 ≤ TIME_MAX < 2 ^ 63.
Proof. unfold TIME_MAX. destruct usize_bits_ok as [-> | ->]; vm_compute; split; done. Qed.

Lemma timespec_ge_nanos a b : valid a → valid b → timespec_ge a b = (nanos b <=? nanos a).
Proof.
  unfold valid, timespec_ge, nanos, NSEC, Duration.NANOS_PER_SEC. intros.
  apply eq_true_iff_eq. rewrite orb_true_iff, andb_true_iff, Z.ltb_lt, Z.eqb_eq, !Z.leb_le. lia.
Qed.

Lemma duration_to_timespec_spec d :
  Duration.wf d →
  (∃ t, duration_to_timespec d = Ok t ∧ valid t ∧ nanos t = Duration.as_nanos d) ∨
  (duration_to_timespec d = Err Error.Overflow ∧ TIME_MAX < Duration.as_secs d).
Proof.
  intros [Hs Hn]. unfold duration_to_timespec. case_if; bool_to_prop; [left|by right].
  eexists. split; [done|]. unfold valid, nanos, Duration.as_nanos, in_uint, NSEC in *. simpl. lia.
Qed.

Lemma abs_deadline_spec now d :
  valid now → Duration.wf d →
  (∃ t, abs_deadline now d = Ok t ∧ valid t ∧ nanos t = nanos now + Duration.as_nanos d) ∨
  (abs_deadline now d = Err Error.Overflow ∧ TS_MAX < nanos now + Duration.as_nanos d).
Proof.
  intros V [Hs Hn]. pose proof TIME_MAX_range.
  unfold abs_deadline, duration_to_timespec, time_checked_add, TS_MAX, nanos, valid, Duration.as_nanos,
    in_uint, NSEC, Duration.NANOS_PER_SEC in *.
  repeat (case_if; simpl in *; bool_to_prop);
    try (left; eexists; split; [done|]; simpl; lia); right; (split; [done|]); simpl in *;
    rewrite ?andb_false_iff in *; bool_to_prop;
    repeat match goal with H : _ ∨ _ |- _ => destruct H; bool_to_prop end; lia.
Qed.

Lemma abs_deadline_err now d e : abs_deadline now d = Err e → e = Error.Overflow.
Proof.
  unfold abs_deadline, duration_to_timespec, time_checked_add. intros E.
  repeat (case_if; simplify_eq/=); done.
Qed.

End Conversions.
End PosixTime.
Import PosixTime (timespec, mkTimespec, tv_sec, tv_nsec).

(** ** The C library *)

(** Return codes as the library gives them; [nanosleep] also leaves [errno] and
    the remaining time.  The mutex calls are on the one mutex at hand. *)
Class Posix (K : Type) := {
  clock_gettime : K → Z * timespec * K;
  libc_nanosleep : timespec → K → Z * Z * timespec * K;
  pthread_mutex_lock : K → Z * K;
  pthread_mutex_trylock : K → Z * K;
  pthread_mutex_unlock : K → Z * K;
}.

(** What the backend relies on; [ptime] is the monotonic time in nanoseconds,
    which the clock shows as long as it can represent it. *)
Class PosixLaws (K : Type) `{Posix K, Arch} := {
  ptime : K → Z;
  law_ptime : ∀ k, 0 ≤ ptime k;
  law_gettime : ∀ k, ∃ ts k', clock_gettime k = (0, ts, k') ∧ PosixTime.valid ts ∧
    PosixTime.nanos ts = Z.min PosixTime.TS_MAX (ptime k') ∧ ptime k ≤ ptime k';
  (** a sleep ends after the requested time, or is interrupted with the rest *)
  law_sleep : ∀ req k, PosixTime.valid req → ∃ ret err rem k',
    libc_nanosleep req k = (ret, err, rem, k') ∧ ptime k ≤ ptime k' ∧
    (ret = 0 ∧ ptime k + PosixTime.nanos req ≤ ptime k' ∨
     ret ≠ 0 ∧ err = Errno.EINTR ∧ PosixTime.valid rem ∧
     ptime k + PosixTime.nanos req ≤ ptime k' + PosixTime.nanos rem);
  law_trylock : ∀ k, ∃ ret k', pthread_mutex_trylock k = (ret, k') ∧ ptime k ≤ ptime k' ∧
    (ret = 0 ∨ ret = Errno.EBUSY);
}.

(** ** [sys/time.rs]: the clock and sleeping *)

Module PosixSleep.
Section PosixSleep.
Context `{Arch} {K : Type} `{!Posix K}.

Definition monotonic_now_raw : M K timespec := λ k,
  let '(ret, ts, k') := clock_gettime k in
  if ret =? 0 then Done (ts, k')
  else Panic "clock_gettime(CLOCK_MONOTONIC) failed unrecoverably".

Definition monotonic_now : M K Duration.t :=
  ts <- monotonic_now_raw ;;
  mrun (Duration.new (tv_sec ts mod 2 ^ 64) (tv_nsec ts mod 2 ^ 32)).

Definition checked_abs_deadline (timeout : Duration.t) : M K (Result timespec) :=
  now <- monotonic_now_raw ;; mret_ (PosixTime.abs_deadline now timeout).

(** The inner loop: [true] when the segment has been slept, [false] when the
    whole function returns because of an error. *)
Fixpoint sleep_segment (fuel : nat) (req : timespec) : M K bool := λ k,
  match fuel with
  | O => NoFuel
  | S fuel =>
      let '(ret, err, rem, k') := libc_nanosleep req k in
      if ret =? 0 then Done (true, k')
      else if err =? Errno.EINTR then sleep_segment fuel rem k'
      else Done (false, k')
  end.

(** The outer loop, with fuel [n] for segments and [fuel] for interruptions of
    each segment. *)
Fixpoint nanosleep (fuel n : nat) (remaining : Duration.t) : M K () :=
  match n with
  | O => λ _, NoFuel
  | S n =>
      if Duration.is_zero remaining then mret_ ()
      else
        let seg_secs := Z.min (Duration.as_secs remaining) PosixTime.MAX_SLEEP_SECS in
        seg <- mrun (Duration.new seg_secs (Duration.subsec_nanos remaining)) ;;
        match PosixTime.duration_to_timespec seg with
        | Err _ => mret_ ()
        | Ok ts =>
            go <- sleep_segment fuel ts ;;
            if (go : bool) then nanosleep fuel n (Duration.saturating_sub remaining seg)
            else mret_ ()
        end
  end.

(** [clock.rs] *)
Definition now : M K Duration.t :=
  ts <- monotonic_now_raw ;;
  mrun (Duration.new (tv_sec ts mod 2 ^ 64) (tv_nsec ts mod 2 ^ 32)).
Definition delay (fuel n : nat) (duration : Duration.t) : M K () := nanosleep fuel n duration.

End PosixSleep.
End PosixSleep.

(** ** [sys/mutex.rs] *)

Module PosixMutex.
Section PosixMutex.
Context `{Arch} {K : Type} `{!Posix K}.

Definition lock : M K (Result ()) := λ k,
  let '(ret, k') := pthread_mutex_lock k in Done (Errno.check_ret ret, k').
Definition try_lock : M K (Result ()) := λ k,
  let '(ret, k') := pthread_mutex_trylock k in Done (Errno.check_ret ret, k').
Definition unlock : M K (Result ()) := λ k,
  let '(ret, k') := pthread_mutex_unlock k in Done (Errno.check_ret ret, k').

(** The loop of [timed_lock]; the back-off sleep of 1 ms is one segment. *)
Fixpoint timed_lock_loop (sleep_fuel fuel : nat) (deadline : timespec) : M K (Result ()) :=
  match fuel with
  | O => λ _, NoFuel
  | S fuel =>
      r <- try_lock ;;
      match r with
      | Ok _ => mret_ (Ok ())
      | Err Error.LockFailed =>
          now <- PosixSleep.monotonic_now_raw ;;
          if PosixTime.timespec_ge now deadline then mret_ (Err Error.Timeout)
          else
            PosixSleep.nanosleep sleep_fuel 2 (Duration.from_millis 1) ;;;
            timed_lock_loop sleep_fuel fuel deadline
      | Err e => mret_ (Err e)
      end
  end.

Definition timed_lock (sleep_fuel fuel : nat) (timeout : Duration.t) : M K (Result ()) :=
  deadline <-? PosixSleep.checked_abs_deadline timeout ;;
  timed_lock_loop sleep_fuel fuel deadline.

(** [PosixMutexImpl::lock] of [mutex.rs] *)
Definition lock_timeout (sleep_fuel fuel : nat) (timeout : Timeout.t) : M K (Result ()) :=
  match timeout with
  | Timeout.NoWait => _ <-? try_lock ;; mret_ (Ok ())
  | Timeout.After d =>
      if Duration.eqb d Duration.ZERO then
        r <- try_lock ;;
        mret_ (match r with
               | Ok _ => Ok ()
               | Err Error.LockFailed => Err Error.Timeout
               | Err e => Err e
               end)
      else _ <-? timed_lock sleep_fuel fuel d ;; mret_ (Ok ())
  | Timeout.Forever => _ <-? lock ;; mret_ (Ok ())
  end.

End PosixMutex.
End PosixMutex.

(** ** Facts *)

Module PosixFacts.
Section PosixFacts.
Context `{HA : Arch} {K : Type} `{HP : !Posix K} `{HL : !PosixLaws K}.

(** A sleep that is interrupted fewer than [n] times. *)
Fixpoint settles (n : nat) (req : timespec) (k : K) : Prop :=
  match n with
  | O => False
  | S n => let '(ret, err, rem, k') := libc_nanosleep req k in ret = 0 ∨ settles n rem k'
  end.

(** No sleep is interrupted [n] times or more. *)
Definition calm (n : nat) : Prop := ∀ req k, PosixTime.valid req → settles n req k.

Lemma now_raw_spec k : ∃ ts k', PosixSleep.monotonic_now_raw k = Done (ts, k') ∧ PosixTime.valid ts ∧
  PosixTime.nanos ts = Z.min PosixTime.TS_MAX (ptime k') ∧ ptime k ≤ ptime k'.
Proof.
  destruct (law_gettime k) as (ts & k' & E & R). exists ts, k'.
  unfold PosixSleep.monotonic_now_raw. by rewrite E.
Qed.

Lemma sleep_segment_spec n : ∀ req k, PosixTime.valid req → settles n req k →
  ∃ k', PosixSleep.sleep_segment n req k = Done (true, k') ∧ ptime k + PosixTime.nanos req ≤ ptime k'.
Proof.
  induction n as [|n IH]; intros req k V S; simpl in *; [done|].
  destruct (law_sleep req k V) as (ret & err & rem & k' & E & Hm & Hc). rewrite E in S |- *.
  destruct Hc as [(-> & Ht)|(Hr & -> & Vr & Ht)]; [by eauto|].
  destruct S as [->|S]; [done|]. rewrite (proj2 (Z.eqb_neq _ _) Hr). simpl.
  destruct (IH rem k' Vr S) as (k2 & -> & H2). exists k2. split; [done|]. lia.
Qed.

Lemma segment_rest d :
  Duration.wf d →
  let s := Z.min (Duration.as_secs d) PosixTime.MAX_SLEEP_SECS in
  Duration.saturating_sub d (Duration.mk s (Duration.subsec_nanos d)) = Duration.mk (Duration.as_secs d - s) 0.
Proof.
  intros [Hs Hn]. pose proof PosixTime.TIME_MAX_range.
  unfold Duration.saturating_sub, Duration.checked_sub, checked_sub, PosixTime.MAX_SLEEP_SECS, in_uint in *.
  simpl. zb. by rewrite Z.sub_diag.
Qed.

Lemma nanosleep_spec fuel n : ∀ d k, calm fuel → Duration.wf d →
  (Duration.is_zero d = true ∧ (1 ≤ n)%nat) ∨
  (Duration.as_secs d ≤ (Z.of_nat n - 1) * PosixTime.TIME_MAX ∧ (2 ≤ n)%nat) →
  ∃ k', PosixSleep.nanosleep fuel n d k = Done ((), k') ∧ ptime k + Duration.as_nanos d ≤ ptime k'.
Proof.
  induction n as [|n IH]; intros d k C W Hn; [lia|]. simpl.
  pose proof PosixTime.TIME_MAX_range as HT.
  destruct (Duration.is_zero d) eqn:Z0.
  { rewrite Duration.dur_is_zero_nanos in Z0 by done. bool_to_prop. exists k. split; [done|]. lia. }
  destruct Hn as [[? _]|[Hs Hn]]; [done|]. pose proof W as [Ws Wn].
  rewrite Duration.dur_new_small by apply Wn. rewrite mbind_done with (a := Duration.mk _ _) (s' := k) by done.
  set (s := Z.min (Duration.as_secs d) PosixTime.MAX_SLEEP_SECS).
  assert (0 ≤ s ≤ PosixTime.TIME_MAX) as Hsr.
  { unfold s, PosixTime.MAX_SLEEP_SECS, in_uint in *. lia. }
  assert (s ≤ Duration.as_secs d) as Hsd by (unfold s; lia).
  unfold PosixTime.duration_to_timespec. simpl. zb.
  set (ts := mkTimespec s (Duration.subsec_nanos d)).
  assert (PosixTime.valid ts) as V by (split; simpl; [lia|apply Wn]).
  destruct (sleep_segment_spec fuel ts k V (C ts k V)) as (k1 & E1 & H1).
  rewrite (mbind_done _ _ _ _ _ E1). pose proof (segment_rest d W) as ER. cbv zeta in ER. fold s in ER.
  rewrite ER. destruct (IH (Duration.mk (Duration.as_secs d - s) 0) k1 C) as (k2 & E2 & H2).
  - split; simpl; [unfold in_uint in *; lia|by vm_compute].
  - unfold Duration.is_zero. simpl. rewrite andb_true_r.
    destruct (decide (Duration.as_secs d ≤ PosixTime.TIME_MAX)).
    + left. rewrite Z.eqb_eq. unfold s, PosixTime.MAX_SLEEP_SECS. lia.
    + right. unfold s, PosixTime.MAX_SLEEP_SECS in *. nia.
  - exists k2. split; [exact E2|].
    unfold PosixTime.nanos, Duration.as_nanos, PosixTime.NSEC in *. simpl in *. lia.
Qed.

Lemma ms_wf : Duration.wf (Duration.from_millis 1).
Proof. by vm_compute. Qed.

Lemma back_off fuel k : calm fuel →
  ∃ k', PosixSleep.nanosleep fuel 2 (Duration.from_millis 1) k = Done ((), k') ∧
        ptime k + 1000000 ≤ ptime k'.
Proof.
  intros C. apply (nanosleep_spec fuel 2 _ k C ms_wf). right. split; [|lia].
  pose proof PosixTime.TIME_MAX_range.
  change (Duration.as_secs (Duration.from_millis 1)) with 0. lia.
Qed.

(** The mutex was taken by the last call. *)
Definition locked_at (k' : K) : Prop := ∃ k, pthread_mutex_trylock k = (0, k').

Lemma timed_lock_loop_spec sf fuel deadline : ∀ k, calm sf → PosixTime.valid deadline → (1 ≤ fuel)%nat →
  PosixTime.nanos deadline ≤ ptime k + (Z.of_nat fuel - 1) * 1000000 →
  ∃ r k', PosixMutex.timed_lock_loop sf fuel deadline k = Done (r, k') ∧ ptime k ≤ ptime k' ∧
    (r = Ok () ∧ locked_at k' ∨ r = Err Error.Timeout ∧ PosixTime.nanos deadline ≤ ptime k').
Proof.
  induction fuel as [|fuel IH]; intros k C V Hf Hd; [lia|]. simpl.
  destruct (law_trylock k) as (ret & k1 & E1 & M1 & Hr).
  assert (PosixMutex.try_lock k = Done (Errno.check_ret ret, k1)) as Et
    by (unfold PosixMutex.try_lock; by rewrite E1).
  rewrite (mbind_done _ _ _ _ _ Et). destruct Hr as [-> | ->]; simpl.
  { exists (Ok ()), k1. split; [done|]. split; [done|]. left. split; [done|]. by exists k. }
  destruct (now_raw_spec k1) as (ts & k2 & E2 & V2 & N2 & M2). rewrite (mbind_done _ _ _ _ _ E2).
  rewrite PosixTime.timespec_ge_nanos by done.
  assert (PosixTime.nanos deadline ≤ PosixTime.TS_MAX) as Hmax.
  { unfold PosixTime.valid, PosixTime.nanos, PosixTime.TS_MAX, PosixTime.NSEC, Duration.NANOS_PER_SEC in *. lia. }
  case_if; bool_to_prop.
  { exists (Err Error.Timeout), k2. split; [done|]. split; [lia|]. right. split; [done|lia]. }
  destruct (back_off sf k2 C) as (k3 & E3 & H3). rewrite (mbind_done _ _ _ _ _ E3).
  destruct (IH k3 C V) as (r & k4 & E4 & M4 & Hc); [lia..|].
  exists r, k4. split; [done|]. split; [lia|done].
Qed.

(** [PosixClock::delay]: it returns, however long the duration (also one
    that [time_t] cannot hold, which it splits into segments) and however often
    sleeps are interrupted, and at least the duration has passed. *)
Theorem posix_delay_not_short fuel n d k :
  calm fuel → Duration.wf d → Duration.as_secs d ≤ (Z.of_nat n - 1) * PosixTime.TIME_MAX → (2 ≤ n)%nat →
  ∃ k', PosixSleep.delay fuel n d k = Done ((), k') ∧ ptime k + Duration.as_nanos d ≤ ptime k'.
Proof. intros C W Hs Hn. apply nanosleep_spec; auto. Qed.

(** [PosixMutex::timed_lock]: it returns; with [Ok] having taken the mutex,
    with [Timeout] not before the timeout has passed, and with [Overflow]
    exactly when the deadline is beyond what a timespec holds. *)
Theorem posix_timed_lock sf fuel d k :
  calm sf → Duration.wf d → Duration.as_nanos d ≤ (Z.of_nat fuel - 1) * 1000000 → (1 ≤ fuel)%nat →
  ∃ r k', PosixMutex.timed_lock sf fuel d k = Done (r, k') ∧
    ((r = Ok () ∧ locked_at k') ∨
     (r = Err Error.Timeout ∧ ptime k + Duration.as_nanos d ≤ ptime k') ∨
     (r = Err Error.Overflow ∧
      PosixTime.TS_MAX < Z.min PosixTime.TS_MAX (ptime k') + Duration.as_nanos d)).
Proof.
  intros C W Hd Hf. destruct (now_raw_spec k) as (ts & k1 & E1 & V1 & N1 & M1).
  assert (PosixSleep.checked_abs_deadline d k = Done (PosixTime.abs_deadline ts d, k1)) as Ed
    by (unfold PosixSleep.checked_abs_deadline; by rewrite (mbind_done _ _ _ _ _ E1)).
  unfold PosixMutex.timed_lock.
  pose proof (Duration.dur_wf_nanos_range d W).
  destruct (PosixTime.abs_deadline_spec ts d V1 W) as [(dl & Ea & Vd & Nd)|[Ea Ho]]; rewrite Ea in Ed.
  - rewrite (mtry_ok _ _ _ _ _ Ed).
    destruct (timed_lock_loop_spec sf fuel dl k1 C Vd Hf) as (r & k2 & E2 & M2 & Hc); [lia|].
    exists r, k2. split; [done|]. destruct Hc as [?|[-> Ht]]; [by left|]. right. left. split; [done|].
    assert (PosixTime.nanos dl ≤ PosixTime.TS_MAX).
    { unfold PosixTime.valid, PosixTime.nanos, PosixTime.TS_MAX, PosixTime.NSEC, Duration.NANOS_PER_SEC in *. lia. }
    lia.
  - rewrite (mtry_err _ _ _ _ _ Ed). eexists _, _. split; [done|]. right. right. split; [done|]. lia.
Qed.

(** The absolute deadline: exactly now plus the timeout, normalised, or
    [Overflow] exactly when that is beyond the last timespec; no panic. *)
Theorem posix_deadline_exact d k :
  Duration.wf d →
  ∃ r k', PosixSleep.checked_abs_deadline d k = Done (r, k') ∧ ptime k ≤ ptime k' ∧
    match r with
    | Ok t => PosixTime.valid t ∧
        PosixTime.nanos t = Z.min PosixTime.TS_MAX (ptime k') + Duration.as_nanos d
    | Err e => e = Error.Overflow ∧
        PosixTime.TS_MAX < Z.min PosixTime.TS_MAX (ptime k') + Duration.as_nanos d
    end.
Proof.
  intros W. destruct (now_raw_spec k) as (ts & k1 & E1 & V1 & N1 & M1).
  exists (PosixTime.abs_deadline ts d), k1.
  split; [unfold PosixSleep.checked_abs_deadline; by rewrite (mbind_done _ _ _ _ _ E1)|].
  split; [done|]. rewrite <- N1.
  by destruct (PosixTime.abs_deadline_spec ts d V1 W) as [(t & -> & ? & ?)|[-> ?]].
Qed.

End PosixFacts.
End PosixFacts.

(** ** A concrete C library

    The state is the time in nanoseconds, a flag that interrupts the next sleep
    at once, and when the mutex becomes free. *)

Module VirtualPosix.
#[local] Existing Instance arch64.

Record vp : Type := mkVp { clock : Z; signal : bool; free_at : Z }.

Definition ts_of (n : Z) : timespec :=
  let m := Z.min PosixTime.TS_MAX (Z.max 0 n) in mkTimespec (m / PosixTime.NSEC) (m mod PosixTime.NSEC).

#[global] Instance posix : Posix vp := {|
  clock_gettime := λ k, (0, ts_of (clock k), k);
  libc_nanosleep := λ req k,
    if signal k then (-1, Errno.EINTR, req, mkVp (clock k) false (free_at k))
    else (0, 0, mkTimespec 0 0, mkVp (Z.max 0 (clock k) + PosixTime.nanos req) false (free_at k));
  pthread_mutex_lock := λ k, (0, mkVp (Z.max (clock k) (free_at k)) (signal k) (free_at k));
  pthread_mutex_trylock := λ k, (if free_at k <=? clock k then 0 else Errno.EBUSY, k);
  pthread_mutex_unlock := λ k, (0, k);
|}.

Lemma ts_of_valid n : PosixTime.valid (ts_of n) ∧ PosixTime.nanos (ts_of n) = Z.min PosixTime.TS_MAX (Z.max 0 n).
Proof.
  pose proof PosixTime.TIME_MAX_range. unfold ts_of.
  set (m := Z.min PosixTime.TS_MAX (Z.max 0 n)).
  assert (0 ≤ m ≤ PosixTime.TS_MAX) as Hm by (unfold m, PosixTime.TS_MAX, PosixTime.NSEC, Duration.NANOS_PER_SEC in *; lia).
  pose proof (Z.div_mod m PosixTime.NSEC ltac:(done)). pose proof (Z.mod_pos_bound m PosixTime.NSEC ltac:(done)).
  unfold PosixTime.valid, PosixTime.nanos, PosixTime.TS_MAX, PosixTime.NSEC, Duration.NANOS_PER_SEC in *.
  simpl. lia.
Qed.

#[global] Instance posix_laws : PosixLaws vp.
Proof.
  refine {| ptime := λ k, Z.max 0 (clock k) |}.
  - intros k. lia.
  - intros k. eexists _, k. split; [done|]. destruct (ts_of_valid (clock k)). split_and!; [done|lia|lia].
  - intros req k V. simpl.
    assert (0 ≤ PosixTime.nanos req).
    { unfold PosixTime.valid, PosixTime.nanos, PosixTime.NSEC, Duration.NANOS_PER_SEC in *. lia. }
    destruct (signal k); eexists _, _, _, _; (split; [done|]); simpl; (split; [lia|]).
    + right. split_and!; done || lia.
    + left. lia.
  - intros k. eexists _, k. split; [done|]. split; [lia|]. simpl. case_if; auto.
Defined.

(** No sleep is interrupted twice. *)
Lemma calm2 : PosixFacts.calm (K:=vp) 2.
Proof. intros req k V. simpl. destruct (signal k); simpl; [right|]; by left. Qed.

Definition k0 : vp := mkVp 5000000000 true 8000000000.

Lemma posix_delay_not_short_witness :
  ∃ k', PosixSleep.delay (K:=vp) 2 2 (Duration.mk 3 7) k0 = Done ((), k') ∧ 8000000007 ≤ ptime k'.
Proof.
  destruct (PosixFacts.posix_delay_not_short 2 2 (Duration.mk 3 7) k0) as (k' & E & Ht).
  - exact calm2.
  - by vm_compute.
  - by vm_compute.
  - lia.
  - exists k'. split; [exact E|exact Ht].
Defined.

(** A one-second attempt on a mutex that is busy for three. *)
Lemma posix_timed_lock_witness :
  ∃ k', PosixMutex.timed_lock (K:=vp) 2 1001 (Duration.mk 1 0) k0 = Done (Err Error.Timeout, k') ∧
        6000000000 ≤ ptime k'.
Proof.
  destruct (PosixFacts.posix_timed_lock 2 1001 (Duration.mk 1 0) k0)
    as (r & k' & E & [(-> & _)|[(-> & Ht)|(-> & Ho)]]).
  - exact calm2.
  - by vm_compute.
  - by vm_compute.
  - lia.
  - exfalso. vm_compute in E. discriminate E.
  - exists k'. split; [exact E|exact Ht].
  - exfalso. vm_compute in E. discriminate E.
Defined.

Lemma posix_deadline_exact_witness :
  ∃ k', PosixSleep.checked_abs_deadline (K:=vp) (Duration.mk 1 999999999) k0 =
        Done (Ok (mkTimespec 6 999999999), k').
Proof.
  destruct (PosixFacts.posix_deadline_exact (Duration.mk 1 999999999) k0) as (r & k' & E & _ & _).
  - by vm_compute.
  - exists k'. rewrite E. vm_compute in E. injection E as <- <-. reflexivity.
Defined.

End VirtualPosix.
