(* ===== verification/PosixMonitor.v ===== *)
(** * Monitors: a mutex, condition variables and any number of threads

    The POSIX semaphore and queue are monitors: every operation runs under one
    [PosixMutex], waits with [pthread_cond_wait] or [pthread_cond_timedwait] in
    a loop and signals after changing the state.  [Monitor] is the interface an
    object offers to this machine, [MonitorLaws] what it promises; the theorems
    about the machine are proved against the interface.

    The sections between the waits are atomic because they run with the mutex
    held.  [pthread_cond_signal] unblocks a thread of any choice, waits may end
    spuriously, and a timed wait may end with [ETIMEDOUT] although it has consumed a
    signal, as POSIX allows ([Expire] from [Woken]); [stolen] lists the condition
    variables of those waits.  Signalling an initialised condition variable succeeds, so the
    panics after a failed signal are not reached. *)

From S2P Require Import Prelude Api PosixSys.
Import PosixTime (timespec, mkTimespec, tv_sec, tv_nsec).

Inductive wake_op (cv : Type) : Type :=
| Signal (v : cv)
| Broadcast (v : cv).
Arguments Signal {cv} v.
Arguments Broadcast {cv} v.

(** How a section ends: the call returns, or waits on a condition variable. *)
Inductive outcome (cv ret : Type) : Type :=
| Return (r : ret)
| WaitOn (v : cv).
Arguments Return {cv ret} r.
Arguments WaitOn {cv ret} v.

Class Monitor (St call ret cv : Type) := {
  (** the call up to its first wait; also the deadline of its timed waits *)
  m_start : call → timespec → St → Run (outcome cv ret * option timespec * St * list (wake_op cv));
  (** one round of its loop, after a wait *)
  m_iter : call → St → Run (outcome cv ret * St * list (wake_op cv));
  (** what it returns when a timed wait ends with [ETIMEDOUT] *)
  m_timeout : call → ret;
}.

Section Laws.
Context {St call ret cv : Type} `{EqDecision cv}.

Definition signals (v : cv) (ws : list (wake_op cv)) : nat :=
  countb (λ w, match w with Signal v' => bool_decide (v = v') | Broadcast _ => false end) ws.

(** What a section may do.  [avail v] is how many threads waiting on [v] could
    proceed, [final] that nobody will wait any more. *)
Record section_ok (wf : St → Prop) (avail : cv → St → Z) (final : St → bool)
    (hist_ok : list (call * ret) → St → Prop) (c : call) (own : option cv)
    (st : St) (o : outcome cv ret) (st' : St) (ws : list (wake_op cv)) : Prop := {
  sec_wf : wf st';
  sec_avail : ∀ v, avail v st' ≤ Z.max 0 (avail v st - (if bool_decide (own = Some v) then 1 else 0))
                                  + Z.of_nat (signals v ws)
                   ∨ Broadcast v ∈ ws ∨ final st = true;
  sec_final : final st = true → final st' = true;
  sec_close : final st' = true → final st = true ∨ ∀ v, Broadcast v ∈ ws;
  sec_wait : ∀ v, o = WaitOn v → avail v st' ≤ 0 ∧ final st' = false ∧ ws = [] ∧
                                 ∀ v', avail v' st' ≤ avail v' st;
  sec_hist : ∀ h, hist_ok h st →
    hist_ok (h ++ match o with Return r => [(c, r)] | WaitOn _ => [] end) st';
}.

End Laws.

Class MonitorLaws (St call ret cv : Type) `{EqDecision cv} `{!Monitor St call ret cv} := {
  m_wf : St → Prop;
  m_good : call → Prop;
  m_cv : call → option cv;   (** where a call waits *)
  m_timed : call → bool;     (** whether its waits have a deadline *)
  m_avail : cv → St → Z;
  m_final : St → bool;
  m_hist : list (call * ret) → St → Prop;
  law_start : ∀ c now st, m_wf st → m_good c →
    ∃ o dl st' ws, m_start c now st = Done (o, dl, st', ws) ∧
      section_ok m_wf m_avail m_final m_hist c None st o st' ws ∧
      ∀ v, o = WaitOn v → m_cv c = Some v ∧ (is_Some dl → m_timed c = true);
  law_iter : ∀ c st, m_wf st → m_good c →
    ∃ o st' ws, m_iter c st = Done (o, st', ws) ∧
      section_ok m_wf m_avail m_final m_hist c (m_cv c) st o st' ws ∧
      ∀ v, o = WaitOn v → m_cv c = Some v;
  law_timeout : ∀ c h st, m_hist h st → m_hist (h ++ [(c, m_timeout c)]) st;
}.

(** ** The machine *)

Module MonitorMachine.
Section MonitorMachine.
Context {St call ret cv : Type} `{EqDecision cv} `{!Monitor St call ret cv}.

Inductive pc : Type :=
| New (c : call)
| Waiting (c : call) (v : cv) (deadline : option timespec)
| Woken (c : call) (v : cv) (deadline : option timespec).

Definition pc_call (p : pc) : call := match p with New c | Waiting c _ _ | Woken c _ _ => c end.
Definition waits_on (v : cv) (p : pc) : bool :=
  match p with Waiting _ v' _ => bool_decide (v = v') | _ => false end.
Definition woken_on (v : cv) (p : pc) : bool :=
  match p with Woken _ v' _ => bool_decide (v = v') | _ => false end.

Record config : Type := mkConfig {
  mstate : St;
  threads : list pc;
  history : list (call * ret);
  stolen : list cv;   (** signals consumed by waits that ended with [ETIMEDOUT] *)
}.

Inductive event : Type :=
| Call (c : call)
| Step (i : nat) (now : timespec) (picks : list nat)
| Spurious (i : nat)
| Expire (i : nat).

Definition wake_pc (p : pc) : pc := match p with Waiting c v dl => Woken c v dl | _ => p end.

(** Apply the signals of a section: each wakes the next picked waiter, if any
    thread waits. *)
Fixpoint apply_wakes (ws : list (wake_op cv)) (picks : list nat) (l : list pc) : option (list pc) :=
  match ws with
  | [] => Some l
  | Broadcast v :: ws =>
      apply_wakes ws picks ((λ p, if waits_on v p then wake_pc p else p) <$> l)
  | Signal v :: ws =>
      if Nat.eqb (countb (waits_on v) l) 0 then apply_wakes ws picks l
      else match picks with
           | [] => None
           | j :: picks =>
               match l !! j with
               | Some p => if waits_on v p then apply_wakes ws picks (<[j:=wake_pc p]> l) else None
               | None => None
               end
           end
  end.

(** The thread after its section. *)
Definition place (l : list pc) (i : nat) (c : call) (dl : option timespec) (o : outcome cv ret) : list pc :=
  match o with Return _ => delete i l | WaitOn v => <[i:=Waiting c v dl]> l end.

Definition finish (cf : config) (i : nat) (c : call) (dl : option timespec) (o : outcome cv ret)
    (st : St) (ws : list (wake_op cv)) (picks : list nat) : option (Run config) :=
  match apply_wakes ws picks (place (threads cf) i c dl o) with
  | Some l => Some (Done (mkConfig st l
                (history cf ++ match o with Return r => [(c, r)] | WaitOn _ => [] end) (stolen cf)))
  | None => None
  end.

Definition exec (cf : config) (e : event) : option (Run config) :=
  match e with
  | Call c => Some (Done (mkConfig (mstate cf) (threads cf ++ [New c]) (history cf) (stolen cf)))
  | Step i now picks =>
      match threads cf !! i with
      | Some (New c) =>
          match m_start c now (mstate cf) with
          | Done (o, dl, st, ws) => finish cf i c dl o st ws picks
          | Panic s => Some (Panic s)
          | NoFuel => Some NoFuel
          end
      | Some (Woken c _ dl) =>
          match m_iter c (mstate cf) with
          | Done (o, st, ws) => finish cf i c dl o st ws picks
          | Panic s => Some (Panic s)
          | NoFuel => Some NoFuel
          end
      | _ => None
      end
  | Spurious i =>
      match threads cf !! i with
      | Some (Waiting c v dl) =>
          Some (Done (mkConfig (mstate cf) (<[i:=Woken c v dl]> (threads cf)) (history cf) (stolen cf)))
      | _ => None
      end
  | Expire i =>
      match threads cf !! i with
      | Some (Waiting c v (Some dl)) =>
          Some (Done (mkConfig (mstate cf) (delete i (threads cf)) (history cf ++ [(c, m_timeout c)]) (stolen cf)))
      | Some (Woken c v (Some dl)) =>
          Some (Done (mkConfig (mstate cf) (delete i (threads cf)) (history cf ++ [(c, m_timeout c)]) (v :: stolen cf)))
      | _ => None
      end
  end.

Context `{!MonitorLaws St call ret cv}.

Definition event_ok (e : event) : Prop :=
  match e with
  | Call c => m_good c
  | _ => True
  end.

Inductive reachable (st0 : St) : config → Prop :=
| mon_init : reachable st0 (mkConfig st0 [] [] [])
| mon_step cf e cf' :
    reachable st0 cf → event_ok e → exec cf e = Some (Done cf') → reachable st0 cf'.

Definition stolen_on (v : cv) (cf : config) : nat := countb (λ u, bool_decide (v = u)) (stolen cf).

(** Either nobody waits on [v], or no more could proceed than are on the way or
    lost their signal to a timeout. *)
Definition no_lost (v : cv) (a : Z) (l : list pc) (k : nat) : Prop :=
  countb (waits_on v) l = 0%nat ∨ a ≤ Z.of_nat (countb (woken_on v) l) + Z.of_nat k.

(** A waiting call: where it waits, and whether with a deadline. *)
Definition waits_well (c : call) (v : cv) (dl : option timespec) : Prop :=
  m_cv c = Some v ∧ (is_Some dl → m_timed c = true).
Definition pc_ok (p : pc) : Prop :=
  m_good (pc_call p) ∧ ∀ v dl c, p = Woken c v dl ∨ p = Waiting c v dl → waits_well c v dl.

Record inv (cf : config) : Prop := {
  inv_wf : m_wf (mstate cf);
  inv_lost : ∀ v, no_lost v (m_avail v (mstate cf)) (threads cf) (stolen_on v cf);
  inv_final : m_final (mstate cf) = true → ∀ v, countb (waits_on v) (threads cf) = 0%nat;
  inv_good : Forall pc_ok (threads cf);
  inv_hist : m_hist (history cf) (mstate cf);
  (** a stolen signal belongs to a call with a deadline that has returned its timeout *)
  inv_stolen : ∃ cs, length cs = length (stolen cf) ∧ Forall (λ c, m_timed c = true) cs ∧
    sublist ((λ c, (c, m_timeout c)) <$> cs) (history cf);
}.

Lemma wake_pc_ok p : pc_ok p → pc_ok (wake_pc p).
Proof.
  intros [Hg Hc]. destruct p as [c|c v dl|c v dl]; simpl; try done. split; [done|].
  intros v' dl' c' [?|?]; simplify_eq. eapply Hc. by right.
Qed.

(** A picked waiter is woken. *)
Lemma wake_counts v l j p : ∀ u, l !! j = Some p → waits_on v p = true →
  countb (waits_on u) (<[j:=wake_pc p]> l) =
    (countb (waits_on u) l - (if bool_decide (u = v) then 1 else 0))%nat ∧
  countb (woken_on u) (<[j:=wake_pc p]> l) =
    (countb (woken_on u) l + (if bool_decide (u = v) then 1 else 0))%nat.
Proof.
  intros u E Hw. destruct p as [c|c v' dl|c v' dl]; try done. simpl in Hw. apply bool_decide_eq_true in Hw as <-.
  pose proof (countb_insert (waits_on u) l j _ (Woken c v dl) E).
  pose proof (countb_insert (woken_on u) l j _ (Woken c v dl) E). simpl in *.
  destruct (bool_decide (u = v)); simpl in *; lia.
Qed.

Lemma broadcast_counts v l u :
  let l' := (λ p, if waits_on v p then wake_pc p else p) <$> l in
  countb (waits_on u) l' = (if bool_decide (u = v) then 0 else countb (waits_on u) l)%nat ∧
  (countb (woken_on u) l ≤ countb (woken_on u) l')%nat.
Proof.
  intros l'. subst l'. induction l as [|p l [IH1 IH2]]; [by simpl; case_bool_decide|].
  rewrite fmap_cons. cbn [countb]. rewrite IH1. destruct p as [c|c v' dl|c v' dl]; simpl; try (case_bool_decide; lia).
  destruct (bool_decide (v = v')) eqn:E1; simpl;
    repeat case_bool_decide; subst; simpl; try done; try lia.
Qed.

(** What applying the signals of a section does. *)
Lemma apply_wakes_spec ws : ∀ picks l l', apply_wakes ws picks l = Some l' →
  (Forall pc_ok l → Forall pc_ok l') ∧
  ∀ v, (countb (waits_on v) l' ≤ countb (waits_on v) l)%nat ∧
       (countb (woken_on v) l ≤ countb (woken_on v) l')%nat ∧
       (Broadcast v ∈ ws → countb (waits_on v) l' = 0%nat) ∧
       (countb (waits_on v) l' = 0%nat ∨
        (countb (woken_on v) l + signals v ws ≤ countb (woken_on v) l')%nat).
Proof.
  induction ws as [|w ws IH]; intros picks l l' E; simpl in E.
  { simplify_eq. split; [done|]. intros v. split_and!; [done..|by intros ?%not_elem_of_nil|right; unfold signals; simpl; lia]. }
  destruct w as [u|u].
  - destruct (Nat.eqb _ 0) eqn:E0.
    + apply Nat.eqb_eq in E0. destruct (IH _ _ _ E) as [Hf Hv]. split; [done|]. intros v.
      destruct (Hv v) as (H1 & H2 & H3 & H4). split_and!; [done..| |].
      * intros [?|?]%elem_of_cons; [done|auto].
      * unfold signals in *. simpl. case_bool_decide; subst; simpl; [left; lia|]. destruct H4; [by left|right; lia].
    + apply Nat.eqb_neq in E0. destruct picks as [|j picks]; [done|].
      destruct (l !! j) as [p|] eqn:Ej; [|done]. destruct (waits_on u p) eqn:Ew; [|done].
      destruct (IH _ _ _ E) as [Hf Hv]. split.
      * intros F. apply Hf. apply Forall_insert; [done|]. apply wake_pc_ok.
        apply (Forall_lookup_1 _ _ _ _ F Ej).
      * intros v. destruct (wake_counts u l j p v Ej Ew) as [C1 C2].
        destruct (Hv v) as (H1 & H2 & H3 & H4). rewrite C1 in H1. rewrite C2 in H2, H4. split_and!.
        -- lia.
        -- lia.
        -- intros [?|?]%elem_of_cons; [done|auto].
        -- unfold signals in *. simpl. destruct H4 as [?|H4]; [by left|right]. destruct (bool_decide (v = u)); simpl; lia.
  - destruct (IH _ _ _ E) as [Hf Hv]. split.
    + intros F. apply Hf. apply Forall_fmap. eapply Forall_impl; [exact F|]. intros p Hp. simpl.
      destruct (waits_on u p); [by apply wake_pc_ok|done].
    + intros v. destruct (broadcast_counts u l v) as [C1 C2]. destruct (Hv v) as (H1 & H2 & H3 & H4).
      rewrite C1 in H1. split_and!.
      * case_bool_decide; lia.
      * lia.
      * intros [[= ->]|?]%elem_of_cons; [|auto]. rewrite bool_decide_true in H1 by done. lia.
      * destruct H4 as [?|H4]; [by left|]. right. unfold signals in *. simpl. lia.
Qed.

(** The condition variable a thread was woken on. *)
Definition own_of (p : pc) : option cv := match p with Woken _ v _ => Some v | _ => None end.
Definition runnable (p : pc) : bool := match p with Waiting _ _ _ => false | _ => true end.

(** The counts once a running thread has its new place. *)
Lemma place_counts l i p c dl (o : outcome cv ret) v :
  l !! i = Some p → runnable p = true →
  countb (waits_on v) (place l i c dl o) =
    (countb (waits_on v) l + match o with WaitOn u => Nat.b2n (bool_decide (v = u)) | _ => 0 end)%nat ∧
  (countb (woken_on v) (place l i c dl o) + Nat.b2n (bool_decide (own_of p = Some v)) =
    countb (woken_on v) l)%nat.
Proof.
  intros E R. assert (waits_on v p = false) as Hw by by destruct p.
  assert (woken_on v p = bool_decide (own_of p = Some v)) as Hk.
  { destruct p as [|?|? u ?]; simpl; try done. apply bool_decide_ext. split; congruence. }
  destruct o as [r|u]; simpl.
  - pose proof (countb_delete (waits_on v) l i p E). pose proof (countb_delete (woken_on v) l i p E).
    rewrite Hw, Hk in *. simpl in *. lia.
  - pose proof (countb_insert (waits_on v) l i p (Waiting c u dl) E).
    pose proof (countb_insert (woken_on v) l i p (Waiting c u dl) E).
    rewrite Hw, Hk in *. simpl in *. lia.
Qed.

Lemma finish_inv cf i p dl o st ws picks :
  inv cf → threads cf !! i = Some p → runnable p = true →
  section_ok m_wf m_avail m_final m_hist (pc_call p) (own_of p) (mstate cf) o st ws →
  (∀ v, o = WaitOn v → waits_well (pc_call p) v dl) →
  finish cf i (pc_call p) dl o st ws picks = None ∨
  ∃ cf', finish cf i (pc_call p) dl o st ws picks = Some (Done cf') ∧ inv cf'.
Proof.
  intros [Iw Il If Ig Ih (cs & Hl & Hm & Hsub)] E R [Sw Sa Sf Sc Swt Sh] Hcv. unfold finish.
  destruct (apply_wakes ws picks _) as [l'|] eqn:Ea; [|by left]. right. eexists. split; [done|].
  destruct (apply_wakes_spec _ _ _ _ Ea) as [Hf Hv].
  assert (m_final st = true → ∀ v, countb (waits_on v) l' = 0%nat) as Hfin.
  { intros F v. destruct (Hv v) as (H1 & _ & H3 & _).
    destruct (place_counts (threads cf) i p (pc_call p) dl o v E R) as [C1 _].
    destruct (Sc F) as [F0|Hb]; [|by apply H3]. rewrite (If F0 v) in C1.
    destruct o as [r|u]; [lia|]. destruct (Swt u eq_refl) as (_ & F' & _). congruence. }
  assert (m_final (mstate cf) = true → m_final st = true) as Hmono by done.
  split; simpl; [done| |done| |by apply Sh|exists cs; split_and!; try done; by apply sublist_inserts_r].
  - intros v. destruct (Hv v) as (H1 & H2 & H3 & H4).
    destruct (place_counts (threads cf) i p (pc_call p) dl o v E R) as [C1 C2].
    destruct (Nat.eq_dec (countb (waits_on v) l') 0%nat) as [?|Hnz]; [by left|].
    destruct H4 as [?|H4]; [by left|]. right. unfold no_lost, stolen_on in *. destruct o as [r|u]; simpl in *.
    + destruct (Il v) as [Hz|Hle]; [lia|].
      destruct (Sa v) as [Hs|[Hb|F]]; [|by apply H3 in Hb|by apply Hmono in F; rewrite Hfin in Hnz].
      destruct (bool_decide (own_of p = Some v)); simpl in *; lia.
    + destruct (Swt u eq_refl) as (Hu & _ & -> & Hav). destruct (decide (v = u)) as [->|Hne].
      { lia. }
      rewrite bool_decide_false in C1 by done. simpl in C1. specialize (Hav v).
      destruct (Il v) as [Hz|Hle]; [lia|].
      assert (own_of p ≠ Some v) as Ho.
      { intros Ho. destruct p as [c|c v' dl'|c v' dl']; simplify_eq/=.
        pose proof (Forall_lookup_1 _ _ _ _ Ig E) as [_ Hc].
        destruct (Hc v dl' c (or_introl eq_refl)), (Hcv u eq_refl). congruence. }
      rewrite bool_decide_false in C2 by done. simpl in *. lia.
  - apply Hf. destruct o as [r|u]; simpl; [by apply Forall_delete|]. apply Forall_insert; [done|].
    pose proof (Forall_lookup_1 _ _ _ _ Ig E) as [Hg _]. split; [done|].
    intros v dl' c [?|?]; simplify_eq. by apply Hcv.
Qed.

Lemma monitor_exec_inv cf e :
  inv cf → event_ok e → exec cf e = None ∨ ∃ cf', exec cf e = Some (Done cf') ∧ inv cf'.
Proof.
  intros I He. pose proof I as [Iw Il If Ig Ih Is]. destruct e as [c|i now picks|i|i]; simpl in *.
  - right. eexists. split; [done|]. split; simpl; try done.
    + intros v. unfold no_lost, stolen_on in *. simpl. destruct (Il v) as [Hz|Hz]; [left|right]; rewrite countb_app; simpl; lia.
    + intros F v. rewrite countb_app, If by done. done.
    + apply Forall_app. split; [done|]. constructor; [|constructor]. split; [done|]. by intros ? ? ? [?|?].
  - destruct (threads cf !! i) as [p|] eqn:E; [|by left].
    pose proof (Forall_lookup_1 _ _ _ _ Ig E) as [Hg Hc]. destruct p as [c|c v dl|c v dl]; simpl in *.
    + destruct (law_start c now (mstate cf) Iw Hg) as (o & dl & st & ws & Es & So & Hcv). rewrite Es.
      by apply (finish_inv cf i (New c) dl o st ws picks I E).
    + by left.
    + destruct (law_iter c (mstate cf) Iw Hg) as (o & st & ws & Es & So & Hcv). rewrite Es.
      destruct (Hc v dl c (or_introl eq_refl)) as [Hv Hd]. rewrite Hv in So.
      apply (finish_inv cf i (Woken c v dl) dl o st ws picks I E); [done..|]. intros u Hu. split; [by apply Hcv|done].
  - destruct (threads cf !! i) as [[c|c v dl|c v dl]|] eqn:E; try (by left). right. eexists. split; [done|].
    assert (waits_on v (Waiting c v dl) = true) as Hw by (simpl; by rewrite bool_decide_true).
    assert (∀ u, countb (waits_on u) (<[i:=Woken c v dl]> (threads cf)) =
        (countb (waits_on u) (threads cf) - (if bool_decide (u = v) then 1 else 0))%nat ∧
      countb (woken_on u) (<[i:=Woken c v dl]> (threads cf)) =
        (countb (woken_on u) (threads cf) + (if bool_decide (u = v) then 1 else 0))%nat) as Hcnt.
    { intros u. exact (wake_counts v (threads cf) i _ u E Hw). }
    split; simpl; try done.
    + intros u. destruct (Hcnt u) as [C1 C2]. unfold no_lost, stolen_on in *. simpl. rewrite C1, C2.
      destruct (Il u) as [?|?]; [left|right]; lia.
    + intros F u. destruct (Hcnt u) as [C1 _]. rewrite C1, If by done. done.
    + apply Forall_insert; [done|].
      apply (wake_pc_ok (Waiting c v dl)), (Forall_lookup_1 _ _ _ _ Ig E).
  - destruct (threads cf !! i) as [[c|c v [dl|]|c v [dl|]]|] eqn:E; try (by left); right;
      (eexists; split; [done|]; split; simpl; try done).
    + intros u. pose proof (countb_delete (waits_on u) _ i _ E) as C1.
      pose proof (countb_delete (woken_on u) _ i _ E) as C2. simpl in *.
      destruct (Il u) as [?|?]; [left|right]; unfold stolen_on in *; simpl; lia.
    + intros F u. pose proof (countb_delete (waits_on u) _ i _ E) as C1. rewrite If in C1 by done. lia.
    + by apply Forall_delete.
    + by apply law_timeout.
    + destruct Is as (cs & ? & ? & ?). exists cs. split_and!; try done. by apply sublist_inserts_r.
    + intros u. pose proof (countb_delete (waits_on u) _ i _ E) as C1.
      pose proof (countb_delete (woken_on u) _ i _ E) as C2. simpl in *.
      destruct (Il u) as [?|?]; [left|right]; unfold stolen_on in *; simpl; lia.
    + intros F u. pose proof (countb_delete (waits_on u) _ i _ E) as C1. rewrite If in C1 by done. lia.
    + by apply Forall_delete.
    + by apply law_timeout.
    + destruct Is as (cs & ? & ? & ?). pose proof (Forall_lookup_1 _ _ _ _ Ig E) as [_ Hc].
      destruct (Hc v (Some dl) c (or_introl eq_refl)) as [_ Hd]. exists (cs ++ [c]).
      rewrite length_app, fmap_app. simpl. split_and!; [lia|apply Forall_app; auto|by apply sublist_app].
Qed.

Lemma monitor_inv st0 cf : m_wf st0 → m_hist [] st0 → reachable st0 cf → inv cf.
Proof.
  intros W H0 R. induction R as [|cf e cf' _ IH He E].
  - split; simpl; try done; [by left|by exists []].
  - destruct (monitor_exec_inv cf e IH He) as [E'|(c1 & E' & I)]; rewrite E' in E; [done|]. by injection E as <-.
Qed.

Fixpoint exec_all (cf : config) (es : list event) : option config :=
  match es with
  | [] => Some cf
  | e :: es => match exec cf e with Some (Done cf') => exec_all cf' es | _ => None end
  end.

Lemma exec_all_monitor st0 es : ∀ cf cf',
  reachable st0 cf → Forall event_ok es → exec_all cf es = Some cf' → reachable st0 cf'.
Proof.
  induction es as [|e es IH]; intros cf cf' R F E; simpl in E; [by simplify_eq|].
  apply Forall_cons_1 in F as [Fe F]. destruct (exec cf e) as [[c1| |]|] eqn:Ex; try done.
  eapply IH; [|done..]. by eapply mon_step.
Qed.

(** When nothing is on the way, no more waiting threads could proceed than signals
    were consumed by waits that timed out. *)
Lemma monitor_quiet cf v :
  inv cf → countb (woken_on v) (threads cf) = 0%nat → (0 < countb (waits_on v) (threads cf))%nat →
  m_avail v (mstate cf) ≤ Z.of_nat (stolen_on v cf) ∧ m_final (mstate cf) = false.
Proof.
  intros [_ Il If _ _ _] Hk Hw. split.
  - destruct (Il v); lia.
  - destruct (m_final (mstate cf)); [|done]. rewrite If in Hw by done. lia.
Qed.

(** No more signals are lost than calls with a deadline have timed out. *)
Lemma monitor_stolen cf v (f : call * ret → bool) : inv cf →
  (∀ c, m_timed c = true → f (c, m_timeout c) = true) → (stolen_on v cf ≤ countb f (history cf))%nat.
Proof.
  intros I Hf. destruct (inv_stolen _ I) as (cs & Hl & Hm & Hs).
  assert (stolen_on v cf ≤ length cs)%nat by (rewrite Hl; apply countb_le_length).
  assert (countb f ((λ c, (c, m_timeout c)) <$> cs) = length cs)%nat as Hc.
  { clear -Hm Hf. induction Hm as [|c cs Hc _ IH]; [done|]. rewrite fmap_cons. cbn [countb length]. rewrite (Hf c Hc), IH. done. }
  enough (∀ l l', sublist l l' → (countb f l ≤ countb f l')%nat) as Hsub by (specialize (Hsub _ _ Hs); lia).
  intros l l' Hll. induction Hll; simpl; lia.
Qed.

End MonitorMachine.
End MonitorMachine.
