(* ===== verification/PosixSync.v ===== *)
(** * The POSIX semaphore and queue

    [crates/osal-backend-posix/src/semaphore.rs] and [queue.rs] as monitors
    ([PosixMonitor]): the code of each operation from taking the mutex to a
    return or a wait, and the proofs that they keep the monitor's laws. *)

From S2P Require Import Prelude Api Buffers Runtime PosixSys PosixMonitor.
Import PosixTime (timespec).

(** ** [semaphore.rs] *)

Module PosixSemaphore.

Inductive call : Type := Acquire (timeout : Timeout.t) | Release.
Inductive cv : Type := Available.
#[global] Instance cv_eq_dec : EqDecision cv.
Proof. solve_decision. Defined.

Definition timed (timeout : Timeout.t) : bool := match timeout with Timeout.After _ => true | _ => false end.

Abbreviation St := CountingSemaphoreState.t.
Abbreviation result := (outcome cv (Result ())).

(** One round of the waiting loops. *)
Definition acquire_iter (st : St) : Run (result * St * list (wake_op cv)) :=
  '(ok, st') ← CountingSemaphoreState.try_acquire st;
  if (ok : bool) then Done (Return (Ok ()), st', []) else Done (WaitOn Available, st', []).

Section PosixSemaphore.
Context `{Arch}.

Definition acquire_start (timeout : Timeout.t) (now : timespec) (st : St)
    : Run (result * option timespec * St * list (wake_op cv)) :=
  '(ok, st1) ← CountingSemaphoreState.try_acquire st;
  if (ok : bool) then Done (Return (Ok ()), None, st1, [])
  else match timeout with
  | Timeout.NoWait => Done (Return (Err Error.Timeout), None, st1, [])
  | Timeout.After d =>
      if Duration.eqb d Duration.ZERO then Done (Return (Err Error.Timeout), None, st1, [])
      else match PosixTime.abs_deadline now d with
           | Err e => Done (Return (Err e), None, st1, [])
           | Ok deadline => '(o, st2, ws) ← acquire_iter st1; Done (o, Some deadline, st2, ws)
           end
  | Timeout.Forever => '(o, st2, ws) ← acquire_iter st1; Done (o, None, st2, ws)
  end.

Definition release (st : St) : Run (result * St * list (wake_op cv)) :=
  '(r, st') ← CountingSemaphoreState.release st;
  match r with
  | Ok _ => Done (Return (Ok ()), st', [Signal Available])
  | Err e => Done (Return (Err e), st', [])
  end.

#[global] Instance monitor : Monitor St call (Result ()) cv := {|
  m_start := λ c now st, match c with
    | Acquire timeout => acquire_start timeout now st
    | Release => '(o, st', ws) ← release st; Done (o, None, st', ws) end;
  m_iter := λ c st, match c with
    | Acquire _ => acquire_iter st
    | Release => release st end;
  m_timeout := λ _, Err Error.Timeout;
|}.

End PosixSemaphore.
End PosixSemaphore.

(** ** [queue.rs] *)

Module PosixQueue.

Inductive call : Type :=
| CSend (data : list u8) (timeout : Timeout.t)
| CRecv (buffer : list u8) (timeout : Timeout.t)
| CClose.
Definition timed (c : call) : bool :=
  match c with CSend _ (Timeout.After _) | CRecv _ (Timeout.After _) => true | _ => false end.
Inductive cv : Type := NotEmpty | NotFull.
#[global] Instance queue_cv_eq_dec : EqDecision cv.
Proof. solve_decision. Defined.

(** A result, and the caller's buffer after a receive. *)
Abbreviation ret := (Result () * list u8)%type.
Abbreviation result := (outcome cv ret).

Section PosixQueue.
Context `{Arch}.

Definition send_iter (data : list u8) (q : ByteQueue.t) : Run (result * ByteQueue.t * list (wake_op cv)) :=
  if ByteQueue.is_closed q then Done (Return (Err Error.QueueClosed, []), q, [])
  else
    '(r, q') ← ByteQueue.try_send q data;
    match r with
    | Ok _ => Done (Return (Ok (), []), q', [Signal NotEmpty])
    | Err Error.QueueFull => Done (WaitOn NotFull, q', [])
    | Err e => Done (Return (Err e, []), q', [])
    end.

Definition send_start (data : list u8) (timeout : Timeout.t) (now : timespec) (q : ByteQueue.t)
    : Run (result * option timespec * ByteQueue.t * list (wake_op cv)) :=
  match Validation.validate_send_message_size (ByteQueue.message_size q) (Z.of_nat (length data)) with
  | Err e => Done (Return (Err e, []), None, q, [])
  | Ok _ =>
      if ByteQueue.is_closed q then Done (Return (Err Error.QueueClosed, []), None, q, [])
      else match timeout with
      | Timeout.NoWait =>
          '(r, q') ← ByteQueue.try_send q data;
          Done (Return (r, []), None, q', if is_ok r then [Signal NotEmpty] else [])
      | Timeout.After d =>
          match PosixTime.abs_deadline now d with
          | Err e => Done (Return (Err e, []), None, q, [])
          | Ok deadline => '(o, q', ws) ← send_iter data q; Done (o, Some deadline, q', ws)
          end
      | Timeout.Forever => '(o, q', ws) ← send_iter data q; Done (o, None, q', ws)
      end
  end.

Definition recv_iter (buffer : list u8) (q : ByteQueue.t) : Run (result * ByteQueue.t * list (wake_op cv)) :=
  let is_closed := ByteQueue.is_closed q in
  let is_empty := ByteQueue.is_empty q in
  if is_closed && is_empty then Done (Return (Err Error.QueueClosed, buffer), q, [])
  else
    '(r, (q', buffer')) ← ByteQueue.try_recv q buffer;
    match r with
    | Ok _ => Done (Return (Ok (), buffer'), q', [Signal NotFull])
    | Err Error.QueueEmpty =>
        if is_closed then Done (Return (Err Error.QueueClosed, buffer'), q', [])
        else Done (WaitOn NotEmpty, q', [])
    | Err e => Done (Return (Err e, buffer'), q', [])
    end.

Definition recv_start (buffer : list u8) (timeout : Timeout.t) (now : timespec) (q : ByteQueue.t)
    : Run (result * option timespec * ByteQueue.t * list (wake_op cv)) :=
  match Validation.validate_recv_buffer_size (ByteQueue.message_size q) (Z.of_nat (length buffer)) with
  | Err e => Done (Return (Err e, buffer), None, q, [])
  | Ok _ =>
      match timeout with
      | Timeout.NoWait =>
          '(r, (q', buffer')) ← ByteQueue.try_recv q buffer;
          Done (Return (match r with Ok _ => Ok () | Err e => Err e end, buffer'), None, q',
                if is_ok r then [Signal NotFull] else [])
      | Timeout.After d =>
          match PosixTime.abs_deadline now d with
          | Err e => Done (Return (Err e, buffer), None, q, [])
          | Ok deadline => '(o, q', ws) ← recv_iter buffer q; Done (o, Some deadline, q', ws)
          end
      | Timeout.Forever => '(o, q', ws) ← recv_iter buffer q; Done (o, None, q', ws)
      end
  end.

Definition close (q : ByteQueue.t) : Run (result * ByteQueue.t * list (wake_op cv)) :=
  if ByteQueue.is_closed q then Done (Return (Ok (), []), q, [])
  else Done (Return (Ok (), []), ByteQueue.close q, [Broadcast NotEmpty; Broadcast NotFull]).

#[global] Instance monitor : Monitor ByteQueue.t call ret cv := {|
  m_start := λ c now q, match c with
    | CSend data timeout => send_start data timeout now q
    | CRecv buffer timeout => recv_start buffer timeout now q
    | CClose => '(o, q', ws) ← close q; Done (o, None, q', ws) end;
  m_iter := λ c q, match c with
    | CSend data _ => send_iter data q
    | CRecv buffer _ => recv_iter buffer q
    | CClose => close q end;
  m_timeout := λ c, match c with
    | CRecv buffer _ => (Err Error.Timeout, buffer)
    | _ => (Err Error.Timeout, []) end;
|}.

End PosixQueue.
End PosixQueue.

(** ** The semaphore keeps the laws *)

Module PosixSemaphoreFacts.
Import PosixSemaphore.
Section Facts.
Context `{Arch} (mx i0 : Z).

Definition released (e : call * Result ()) : bool :=
  match e with (Release, Ok _) => true | _ => false end.
Definition acquired (e : call * Result ()) : bool :=
  match e with (Acquire _, Ok _) => true | _ => false end.
(** An acquire with a deadline that timed out. *)
Definition expired (e : call * Result ()) : bool :=
  match e with (Acquire (Timeout.After _), Err Error.Timeout) => true | _ => false end.

(** The count is what was released and not acquired. *)
Definition conserved (h : list (call * Result ())) (st : St) : Prop :=
  CountingSemaphoreState.count st + Z.of_nat (countb acquired h) = i0 + Z.of_nat (countb released h).
Definition good_state (st : St) : Prop :=
  CountingSemaphoreState.wf st ∧ CountingSemaphoreState.max_count st = mx.

Abbreviation ok c own st o st' ws :=
  (section_ok (cv:=cv) (ret:=Result ()) good_state (λ _, CountingSemaphoreState.count) (λ _, false) conserved c own st o st' ws).

Lemma keep_ok c own st (e : Error.t) :
  own = None → good_state st → ok c own st (Return (Err e)) st [].
Proof.
  intros -> W. split; simpl; try done.
  - intros v. left. simpl. unfold signals. simpl. lia.
  - intros h Hh. unfold conserved in *. rewrite !countb_app. simpl. destruct c; simpl; lia.
Qed.

(** An attempt: it takes one, or there is none. *)
Lemma attempt_cases st : good_state st →
  (∃ st', CountingSemaphoreState.try_acquire st = Done (true, st') ∧
     ∀ timeout own, ok (Acquire timeout) own st (Return (Ok ())) st' []) ∨
  (CountingSemaphoreState.try_acquire st = Done (false, st) ∧ CountingSemaphoreState.count st = 0).
Proof.
  intros [W Hm]. rewrite CountingSemaphoreState.try_acquire_spec by done. pose proof W as [Wm Wc].
  case_if; bool_to_prop; [left|right; split; [done|lia]]. eexists. split; [done|].
  intros timeout own. split; simpl; try done.
  - split; [|done]. unfold CountingSemaphoreState.wf. simpl. lia.
  - intros v. left. unfold signals. simpl. case_bool_decide; lia.
  - intros h Hh. unfold conserved in *. rewrite !countb_app. simpl. lia.
Qed.

Lemma wait_ok timeout own st : good_state st → CountingSemaphoreState.count st = 0 →
  ok (Acquire timeout) own st (WaitOn Available) st [].
Proof.
  intros W H0. split; simpl; try done.
  - intros v. left. unfold signals. simpl. case_bool_decide; lia.
  - intros v _. split_and!; try done. lia.
  - intros h Hh. by rewrite app_nil_r.
Qed.

Lemma iter_ok timeout st : good_state st →
  ∃ o st' ws, acquire_iter st = Done (o, st', ws) ∧
    ∀ own, ok (Acquire timeout) own st o st' ws.
Proof.
  intros W. unfold acquire_iter.
  destruct (attempt_cases st W) as [(st' & -> & Hok)|[-> H0]]; simpl; eexists _, _, _; (split; [done|]).
  - intros own. apply Hok.
  - intros own. by apply wait_ok.
Qed.

Lemma start_ok timeout now st : good_state st →
  ∃ o dl st' ws, acquire_start timeout now st = Done (o, dl, st', ws) ∧
    ok (Acquire timeout) None st o st' ws ∧ (is_Some dl → timed timeout = true).
Proof.
  intros W. unfold acquire_start.
  destruct (attempt_cases st W) as [(st' & -> & Hok)|[-> H0]]; simpl.
  { eexists _, _, _, _. split; [done|]. split; [apply Hok|by intros [? ?]]. }
  destruct (iter_ok timeout st W) as (o & st2 & ws & Ei & Hi).
  destruct timeout as [|d|].
  - eexists _, _, _, _. split; [done|]. split; [by apply keep_ok|by intros [? ?]].
  - destruct (Duration.eqb d Duration.ZERO); [eexists _, _, _, _; split; [done|]; split; [by apply keep_ok|done]|].
    destruct (PosixTime.abs_deadline now d); [|eexists _, _, _, _; split; [done|]; split; [by apply keep_ok|done]].
    rewrite Ei. simpl. eexists _, _, _, _. split; [done|]. split; [apply Hi|done].
  - rewrite Ei. simpl. eexists _, _, _, _. split; [done|]. split; [apply Hi|by intros [? ?]].
Qed.

Lemma release_ok st : good_state st →
  ∃ r st' ws, release st = Done (Return r, st', ws) ∧ ok Release None st (Return r) st' ws.
Proof.
  intros [W Hm]. unfold release. rewrite CountingSemaphoreState.release_spec by done.
  pose proof W as [Wm Wc]. case_if; bool_to_prop; simpl; eexists _, _, _; (split; [done|]).
  - split; simpl; try done.
    + split; [|done]. unfold CountingSemaphoreState.wf. simpl. lia.
    + intros []. left. unfold signals. simpl. lia.
    + intros h Hh. unfold conserved in *. rewrite !countb_app. simpl. lia.
  - by apply keep_ok.
Qed.

#[global] Instance laws : MonitorLaws St call (Result ()) cv.
Proof.
  refine {| m_wf := good_state; m_good := λ _, True; m_avail := λ _, CountingSemaphoreState.count;
            m_cv := λ c, match c with Acquire _ => Some Available | Release => None end;
            m_timed := λ c, match c with Acquire timeout => timed timeout | Release => false end;
            m_final := λ _, false; m_hist := conserved |}.
  - intros [timeout|] now st W _; simpl.
    + destruct (start_ok timeout now st W) as (o & dl & st' & ws & E & Hok & Hd). eexists _, _, _, _.
      split; [done|]. split; [done|]. by intros [].
    + destruct (release_ok st W) as (r & st' & ws & -> & Hok). simpl. by eexists _, _, _, _.
  - intros [timeout|] st W _; simpl.
    + destruct (iter_ok timeout st W) as (o & st' & ws & E & Hok). eexists _, _, _.
      split; [done|]. split; [done|]. by intros [].
    + destruct (release_ok st W) as (r & st' & ws & -> & Hok). simpl. by eexists _, _, _.
  - intros c h st Hh. unfold conserved in *. rewrite !countb_app. simpl. destruct c; simpl; lia.
Defined.

End Facts.

(** C36: The POSIX counting semaphore under any interleaving of acquires with
    any timeouts, releases, spurious wake-ups and timeouts: no panic; the count
    is the initial count plus the successful releases minus the successful
    acquires and stays within [0, max_count].  A wait that ends with [ETIMEDOUT]
    may have consumed a signal, and the code does not look at the count again: when
    no woken thread is on its way and a thread waits, the count is at most the
    number of signals lost in this way, which is at most the number of acquires
    with a deadline that timed out.  So without such timeouts no wake-up is lost. *)
Theorem posix_semaphore_correct `{Arch} mx i st0 cf :
  in_uint 32 mx → in_uint 32 i → CountingSemaphoreState.new mx i = Ok st0 →
  MonitorMachine.reachable (MonitorLaws0 := laws mx i) st0 cf →
  (∀ e, MonitorMachine.event_ok (MonitorLaws0 := laws mx i) e →
     MonitorMachine.exec cf e = None ∨ ∃ cf', MonitorMachine.exec cf e = Some (Done cf')) ∧
  CountingSemaphoreState.count (MonitorMachine.mstate cf) =
    i + Z.of_nat (countb released (MonitorMachine.history cf))
      - Z.of_nat (countb acquired (MonitorMachine.history cf)) ∧
  0 ≤ CountingSemaphoreState.count (MonitorMachine.mstate cf) ≤ mx ∧
  (countb (MonitorMachine.woken_on Available) (MonitorMachine.threads cf) = 0%nat →
   (0 < countb (MonitorMachine.waits_on Available) (MonitorMachine.threads cf))%nat →
   CountingSemaphoreState.count (MonitorMachine.mstate cf) ≤ Z.of_nat (MonitorMachine.stolen_on Available cf)) ∧
  (MonitorMachine.stolen_on Available cf ≤ countb expired (MonitorMachine.history cf))%nat.
Proof.
  intros Hm Hi E R. destruct (CountingSemaphoreState.sem_new_ok mx i st0 Hm Hi E) as (W & Ec & Em).
  assert (MonitorMachine.inv (MonitorLaws0 := laws mx i) cf) as I.
  { apply (MonitorMachine.monitor_inv st0); [by split| |done]. unfold m_hist; simpl. unfold conserved. simpl. lia. }
  pose proof (MonitorMachine.inv_wf _ I) as [[_ Wc] Hmx]. rewrite Hmx in Wc.
  pose proof (MonitorMachine.inv_hist _ I) as Hh. simpl in Hh. unfold conserved in Hh. split_and!.
  - intros e He. destruct (MonitorMachine.monitor_exec_inv cf e I He) as [|(cf' & ? & _)]; eauto.
  - lia.
  - lia.
  - lia.
  - intros Hk Hw. by destruct (MonitorMachine.monitor_quiet cf Available I Hk Hw) as [Ha _].
  - apply (MonitorMachine.monitor_stolen cf Available expired I). by intros [[]|].
Qed.

End PosixSemaphoreFacts.

(** ** The queue keeps the laws *)

Module PosixQueueFacts.
Import PosixQueue QueueTrace FifoFacts.
Section Facts.
Context `{Arch} (f0 : Fifo.t).

Abbreviation abs := ByteQueueFacts.abs.

(** The entry a returned call leaves in the specification's run. *)
Definition entry (e : call * PosixQueue.ret) : list (op * QueueTrace.ret) :=
  match e with
  | (CSend x _, (r, _)) => if logged r then [(Send x, RSend r)] else []
  | (CRecv x _, (r, out)) =>
      if logged r
      then [(Recv x, RRecv (match r with Ok _ => Ok (Fifo.msg_len f0) | Err e => Err e end) out)] else []
  | (CClose, (r, _)) => if logged r then [(Close, RClose)] else []
  end.
Definition entries (h : list (call * PosixQueue.ret)) : list (op * QueueTrace.ret) := h ≫= entry.

Definition replays (h : list (call * PosixQueue.ret)) (q : ByteQueue.t) : Prop :=
  spec_run f0 (fst <$> entries h) = (snd <$> entries h, abs q).
Definition good_state (q : ByteQueue.t) : Prop :=
  ByteQueue.wf q ∧ Fifo.msg_len (abs q) = Fifo.msg_len f0.
Definition good_call (c : call) : Prop :=
  match c with
  | CSend x _ | CRecv x _ => Z.of_nat (length x) = Fifo.msg_len f0
  | CClose => True
  end.
Definition avail (v : cv) (q : ByteQueue.t) : Z :=
  match v with NotEmpty => used (abs q) | NotFull => Fifo.bound (abs q) - used (abs q) end.

Abbreviation ok c own q o q' ws :=
  (section_ok (cv:=cv) (ret:=PosixQueue.ret) good_state avail ByteQueue.is_closed replays c own q o q' ws).

Lemma entries_snoc h e : entries (h ++ [e]) = entries h ++ entry e.
Proof. unfold entries. rewrite bind_app, bind_singleton. done. Qed.

Lemma replays_snoc h q c r e q' :
  replays h q → entry (c, r) = [e] → spec_step (abs q) (fst e) = (snd e, abs q') →
  replays (h ++ [(c, r)]) q'.
Proof.
  intros Hh E Hs. unfold replays. rewrite (entries_snoc h (c, r)), E.
  destruct e. eapply hist_log; [exact Hh|exact Hs].
Qed.

Lemma replays_skip h q c r : replays h q → entry (c, r) = [] → replays (h ++ [(c, r)]) q.
Proof.
  intros Hh E. unfold replays. by rewrite (entries_snoc h (c, r)), E, app_nil_r.
Qed.

Lemma replays_abs h q q' : abs q' = abs q → replays h q → replays h q'.
Proof. unfold replays. by intros ->. Qed.

(** A section that leaves the content as it was, on an open or closed queue. *)
Lemma unchanged_ok c own q q' (r : PosixQueue.ret) :
  good_state q → ByteQueue.wf q' → abs q' = abs q →
  (own = None ∨ ByteQueue.is_closed q = true) →
  (entry (c, r) = [] ∨ ∃ e, entry (c, r) = [e] ∧ spec_step (abs q) (fst e) = (snd e, abs q)) →
  ok c own q (Return r) q' [].
Proof.
  intros [W Hm] W' Ea Hown He.
  assert (ByteQueue.is_closed q' = ByteQueue.is_closed q) as Ec by exact (f_equal Fifo.shut Ea).
  split; simpl; try done.
  - split; [done|]. by rewrite Ea.
  - intros v. destruct Hown as [->|Hc]; [left|by right; right]. unfold avail, signals. rewrite Ea. simpl.
    destruct v; lia.
  - by rewrite Ec.
  - rewrite Ec. by left.
  - intros h Hh. destruct He as [He|(e & He & Hs)].
    + apply (replays_abs _ q q' Ea). by apply replays_skip.
    + eapply replays_snoc; [done..|]. by rewrite Ea.
Qed.

Lemma waiting_ok c own q q' v :
  good_state q → ByteQueue.wf q' → abs q' = abs q → ByteQueue.is_closed q = false →
  avail v q = 0 → (∀ v', own = Some v' → v' = v) → ok c own q (WaitOn v) q' [].
Proof.
  intros [W Hm] W' Ea Hcl Hv Hown. pose proof (ByteQueueFacts.abs_wf q W) as [Hb _].
  assert (ByteQueue.is_closed q' = ByteQueue.is_closed q) as Ec by exact (f_equal Fifo.shut Ea).
  assert (∀ u, avail u q' = avail u q) as Hav by (intros u; unfold avail; by rewrite Ea).
  split; simpl; try done.
  - split; [done|]. by rewrite Ea.
  - intros u. left. rewrite Hav. unfold signals. simpl. case_bool_decide as E; [|lia].
    apply Hown in E as ->. lia.
  - by rewrite Ec.
  - rewrite Ec. by left.
  - intros u [= <-]. rewrite Ec. split_and!; try done; [rewrite Hav; lia|]. intros v'. rewrite Hav. lia.
  - intros h Hh. rewrite app_nil_r. by apply (replays_abs _ q q' Ea).
Qed.

(** A message goes in, or comes out. *)
Lemma sent_ok x timeout own q q' :
  good_state q → ByteQueue.wf q' → Fifo.shut (abs q) = false → used (abs q) < Fifo.bound (abs q) →
  Fifo.send (abs q) x = (Ok (), abs q') →
  abs q' = Fifo.mk (Fifo.bound (abs q)) (Fifo.msg_len (abs q)) (Fifo.items (abs q) ++ [x]) false →
  own ≠ Some NotEmpty → ok (CSend x timeout) own q (Return (Ok (), [])) q' [Signal NotEmpty].
Proof.
  intros [W Hm] W' Hsh Hroom Hs Ea Hown.
  assert (used (abs q') = used (abs q) + 1) as Eu by (rewrite Ea; unfold used; simpl; rewrite length_app; simpl; lia).
  assert (Fifo.bound (abs q') = Fifo.bound (abs q)) as Eb by (by rewrite Ea).
  split; try done.
  - split; [done|]. by rewrite Ea.
  - intros v. left. unfold avail, signals. rewrite Eu, Eb. simpl. destruct v; simpl.
    + rewrite bool_decide_false by done. unfold used in *. lia.
    + case_bool_decide; lia.
  - intros Hc. change (Fifo.shut (abs q) = true) in Hc. congruence.
  - intros Hc. change (Fifo.shut (abs q') = true) in Hc. by rewrite Ea in Hc.
  - intros h Hh. eapply replays_snoc; [done..|]. simpl. by rewrite Hs.
Qed.

Lemma received_ok x timeout own q q' m ms :
  good_state q → ByteQueue.wf q' → Fifo.items (abs q) = m :: ms →
  Fifo.recv (abs q) x = (Ok (Fifo.msg_len (abs q)), (abs q', m)) →
  abs q' = Fifo.mk (Fifo.bound (abs q)) (Fifo.msg_len (abs q)) ms (Fifo.shut (abs q)) →
  own ≠ Some NotFull → ok (CRecv x timeout) own q (Return (Ok (), m)) q' [Signal NotFull].
Proof.
  intros [W Hm] W' Hit Hr Ea Hown. pose proof (ByteQueueFacts.abs_wf q W) as [Hb _].
  assert (used (abs q') = used (abs q) - 1 ∧ 1 ≤ used (abs q)) as [Eu Hu]
    by (rewrite Ea; unfold used; rewrite Hit; simpl; lia).
  assert (Fifo.bound (abs q') = Fifo.bound (abs q)) as Eb by (by rewrite Ea).
  assert (ByteQueue.is_closed q' = ByteQueue.is_closed q) as Ec by exact (f_equal Fifo.shut Ea).
  split; try done.
  - split; [done|]. by rewrite Ea.
  - intros v. left. unfold avail, signals. rewrite Eu, Eb. simpl. destruct v; simpl.
    + case_bool_decide; lia.
    + rewrite bool_decide_false by done. unfold used in *. lia.
  - by rewrite Ec.
  - rewrite Ec. by left.
  - intros h Hh. eapply replays_snoc; [done..|]. simpl. rewrite Hr. by rewrite Hm.
Qed.

(** The buffer operations, by what the abstract queue says. *)
Lemma try_send_cases x q : good_state q → Z.of_nat (length x) = Fifo.msg_len f0 →
  ByteQueue.is_closed q = false →
  (∃ q', ByteQueue.try_send q x = Done (Err Error.QueueFull, q') ∧ ByteQueue.wf q' ∧ abs q' = abs q ∧
     avail NotFull q = 0 ∧ Fifo.send (abs q) x = (Err Error.QueueFull, abs q)) ∨
  (∃ q', ByteQueue.try_send q x = Done (Ok (), q') ∧ ∀ timeout own, own ≠ Some NotEmpty →
     ok (CSend x timeout) own q (Return (Ok (), [])) q' [Signal NotEmpty]).
Proof.
  intros [W Hm] Hx Hcl. destruct (ByteQueueFacts.try_send_refines q x W) as (q' & Et & W' & Ea).
  assert (Z.of_nat (length x) = Fifo.msg_len (abs q)) as Hx' by by rewrite Hm.
  destruct (fifo_send_cases (abs q) x (ByteQueueFacts.abs_wf q W) Hx')
    as [(Hsh & Hs)|[(Hsh & Hfull & Hs)|(Hsh & Hroom & Hs)]]; rewrite Hs in Et, Ea; simpl in Et, Ea.
  - by change (ByteQueue.is_closed q = true) in Hsh; rewrite Hcl in Hsh.
  - left. exists q'. unfold avail. split_and!; try done. lia.
  - right. exists q'. split; [done|]. intros timeout own Hown. apply sent_ok; try done. by rewrite Hs, Ea.
Qed.

Lemma closed_entry x timeout q : good_state q → Z.of_nat (length x) = Fifo.msg_len f0 →
  ByteQueue.is_closed q = true →
  ∃ e, entry (CSend x timeout, (Err Error.QueueClosed, [])) = [e] ∧
       spec_step (abs q) (fst e) = (snd e, abs q).
Proof.
  intros [W Hm] Hx Hcl. eexists. split; [done|]. unfold spec_step, fst, Fifo.send. rewrite (Hcl : Fifo.shut (abs q) = true), Hm. by zb.
Qed.

Lemma send_iter_ok x timeout q : good_state q → Z.of_nat (length x) = Fifo.msg_len f0 →
  ∃ o q' ws, send_iter x q = Done (o, q', ws) ∧
    (∀ own, own = None ∨ own = Some NotFull → ok (CSend x timeout) own q o q' ws) ∧
    ∀ v, o = WaitOn v → v = NotFull.
Proof.
  intros Wq Hx. unfold send_iter. destruct (ByteQueue.is_closed q) eqn:Hcl.
  - eexists _, _, _. split; [done|]. split; [|done]. intros own _.
    apply unchanged_ok; [done|apply Wq|done|by right|]. right. by apply closed_entry.
  - destruct (try_send_cases x q Wq Hx Hcl) as [(q' & -> & W' & Ea & Hav & Hs)|(q' & -> & Hok)]; simpl;
      eexists _, _, _; (split; [done|]).
    + split; [|by intros v [= <-]]. intros own Hown. apply waiting_ok; try done.
      intros v' Hv'. destruct Hown; congruence.
    + split; [|done]. intros own Hown. apply Hok. by destruct Hown as [-> | ->].
Qed.

Lemma send_start_ok x timeout now q : good_state q → Z.of_nat (length x) = Fifo.msg_len f0 →
  ∃ o dl q' ws, send_start x timeout now q = Done (o, dl, q', ws) ∧
    ok (CSend x timeout) None q o q' ws ∧
    ∀ v, o = WaitOn v → Some NotFull = Some v ∧ (is_Some dl → timed (CSend x timeout) = true).
Proof.
  intros Wq Hx. unfold send_start, Validation.validate_send_message_size.
  change (ByteQueue.message_size q) with (Fifo.msg_len (abs q)). rewrite (proj2 Wq). zb.
  destruct (ByteQueue.is_closed q) eqn:Hcl.
  { eexists _, _, _, _. split; [done|]. split; [|done].
    apply unchanged_ok; [done|apply Wq|done|by left|]. right. by apply closed_entry. }
  destruct (send_iter_ok x timeout q Wq Hx) as (o & q2 & ws & Ei & Hi & Hv).
  destruct timeout as [|d|].
  - destruct (try_send_cases x q Wq Hx Hcl) as [(q' & -> & W' & Ea & Hav & Hs)|(q' & -> & Hok)]; simpl;
      eexists _, _, _, _; (split; [done|]); (split; [|done]).
    + apply unchanged_ok; [done|done|done|by left|]. right. eexists. split; [done|]. simpl. by rewrite Hs.
    + by apply Hok.
  - destruct (PosixTime.abs_deadline now d) as [dl|e] eqn:Ed.
    + rewrite Ei. simpl. eexists _, _, _, _. split; [done|]. split; [apply Hi; by left|].
      intros v Ho. rewrite (Hv v Ho). split; [done|by try intros [? ?]].
    + eexists _, _, _, _. split; [done|]. split; [|done].
      apply unchanged_ok; [done|apply Wq|done|by left|]. left.
      by rewrite (PosixTime.abs_deadline_err now d e Ed).
  - rewrite Ei. simpl. eexists _, _, _, _. split; [done|]. split; [apply Hi; by left|].
    intros v Ho. rewrite (Hv v Ho). split; [done|by try intros [? ?]].
Qed.

Lemma try_recv_cases x q : good_state q → Z.of_nat (length x) = Fifo.msg_len f0 →
  (∃ q', ByteQueue.try_recv q x = Done (Err Error.QueueClosed, (q', x)) ∧ ByteQueue.wf q' ∧ abs q' = abs q ∧
     ByteQueue.is_closed q = true ∧ Fifo.recv (abs q) x = (Err Error.QueueClosed, (abs q, x))) ∨
  (∃ q', ByteQueue.try_recv q x = Done (Err Error.QueueEmpty, (q', x)) ∧ ByteQueue.wf q' ∧ abs q' = abs q ∧
     ByteQueue.is_closed q = false ∧ avail NotEmpty q = 0 ∧
     Fifo.recv (abs q) x = (Err Error.QueueEmpty, (abs q, x))) ∨
  (∃ n q' m, ByteQueue.try_recv q x = Done (Ok n, (q', m)) ∧ ∀ timeout own, own ≠ Some NotFull →
     ok (CRecv x timeout) own q (Return (Ok (), m)) q' [Signal NotFull]).
Proof.
  intros [W Hm] Hx. destruct (ByteQueueFacts.try_recv_refines q x W) as (q' & x' & Et & W' & Ea).
  assert (Z.of_nat (length x) = Fifo.msg_len (abs q)) as Hx' by by rewrite Hm.
  destruct (fifo_recv_cases (abs q) x Hx')
    as [(Hit & Hsh & Hs)|[(Hit & Hsh & Hs)|(m & ms & Hit & Hs)]]; rewrite Hs in Et, Ea; simpl in Et, Ea;
    apply pair_equal_spec in Ea as [Ea ->].
  - left. by exists q'.
  - right. left. exists q'. unfold avail, used. rewrite Hit. by split_and!.
  - right. right. eexists _, q', m. split; [exact Et|]. intros timeout own Hown.
    apply (received_ok _ _ _ _ _ m ms); try done. by rewrite Hs, Ea.
Qed.

Lemma closed_empty_entry x timeout q : good_state q → Z.of_nat (length x) = Fifo.msg_len f0 →
  Fifo.recv (abs q) x = (Err Error.QueueClosed, (abs q, x)) →
  ∃ e, entry (CRecv x timeout, (Err Error.QueueClosed, x)) = [e] ∧
       spec_step (abs q) (fst e) = (snd e, abs q).
Proof. intros _ _ Hs. eexists. split; [done|]. unfold spec_step, fst. by rewrite Hs. Qed.

Lemma recv_iter_ok x timeout q : good_state q → Z.of_nat (length x) = Fifo.msg_len f0 →
  ∃ o q' ws, recv_iter x q = Done (o, q', ws) ∧
    (∀ own, own = None ∨ own = Some NotEmpty → ok (CRecv x timeout) own q o q' ws) ∧
    ∀ v, o = WaitOn v → v = NotEmpty.
Proof.
  intros Wq Hx. unfold recv_iter.
  destruct (ByteQueue.is_closed q && ByteQueue.is_empty q) eqn:Hce.
  { apply andb_true_iff in Hce as [Hcl Hem]. eexists _, _, _. split; [done|]. split; [|done]. intros own _.
    apply unchanged_ok; [done|apply Wq|done|by right|]. right.
    assert (Fifo.items (abs q) = []) as Hit.
    { apply length_zero_iff_nil. simpl. rewrite ByteQueue.messages_length.
      unfold ByteQueue.is_empty in Hem. bool_to_prop. by rewrite Hem. }
    apply closed_empty_entry; [done..|]. unfold Fifo.recv. rewrite Hit, (proj2 Wq).
    rewrite (Hcl : Fifo.shut (abs q) = true). by zb. }
  destruct (try_recv_cases x q Wq Hx)
    as [(q' & -> & W' & Ea & Hcl & Hs)|[(q' & -> & W' & Ea & Hcl & Hav & Hs)|(n & q' & m & -> & Hok)]]; simpl.
  - eexists _, _, _. split; [done|]. split; [|done]. intros own _.
    apply unchanged_ok; [done|done|done|by right|]. right. by apply closed_empty_entry.
  - rewrite Hcl. eexists _, _, _. split; [done|]. split; [|by intros v [= <-]]. intros own Hown.
    apply waiting_ok; try done. intros v' Hv'. destruct Hown; congruence.
  - eexists _, _, _. split; [done|]. split; [|done]. intros own Hown. apply Hok. by destruct Hown as [-> | ->].
Qed.

Lemma recv_start_ok x timeout now q : good_state q → Z.of_nat (length x) = Fifo.msg_len f0 →
  ∃ o dl q' ws, recv_start x timeout now q = Done (o, dl, q', ws) ∧
    ok (CRecv x timeout) None q o q' ws ∧
    ∀ v, o = WaitOn v → Some NotEmpty = Some v ∧ (is_Some dl → timed (CRecv x timeout) = true).
Proof.
  intros Wq Hx. unfold recv_start, Validation.validate_recv_buffer_size.
  change (ByteQueue.message_size q) with (Fifo.msg_len (abs q)). rewrite (proj2 Wq). zb.
  destruct (recv_iter_ok x timeout q Wq Hx) as (o & q2 & ws & Ei & Hi & Hv).
  destruct timeout as [|d|].
  - destruct (try_recv_cases x q Wq Hx)
      as [(q' & -> & W' & Ea & Hcl & Hs)|[(q' & -> & W' & Ea & Hcl & Hav & Hs)|(n & q' & m & -> & Hok)]]; simpl;
      eexists _, _, _, _; (split; [done|]); (split; [|done]).
    + apply unchanged_ok; [done|done|done|by left|]. right. by apply closed_empty_entry.
    + apply unchanged_ok; [done|done|done|by left|]. right. eexists. split; [done|].
      unfold spec_step, fst. by rewrite Hs.
    + by apply Hok.
  - destruct (PosixTime.abs_deadline now d) as [dl|e] eqn:Ed.
    + rewrite Ei. simpl. eexists _, _, _, _. split; [done|]. split; [apply Hi; by left|].
      intros v Ho. rewrite (Hv v Ho). split; [done|by try intros [? ?]].
    + eexists _, _, _, _. split; [done|]. split; [|done].
      apply unchanged_ok; [done|apply Wq|done|by left|]. left.
      by rewrite (PosixTime.abs_deadline_err now d e Ed).
  - rewrite Ei. simpl. eexists _, _, _, _. split; [done|]. split; [apply Hi; by left|].
    intros v Ho. rewrite (Hv v Ho). split; [done|by try intros [? ?]].
Qed.

Lemma close_ok q : good_state q →
  ∃ r q' ws, close q = Done (Return r, q', ws) ∧ ok CClose None q (Return r) q' ws.
Proof.
  intros Wq. unfold close. destruct (ByteQueue.is_closed q) eqn:Hcl; eexists _, _, _; (split; [done|]).
  - apply unchanged_ok; [done|apply Wq|done|by right|]. right. eexists. split; [done|]. simpl.
    f_equal. unfold Fifo.close, ByteQueueFacts.abs. simpl. by rewrite <- Hcl.
  - destruct Wq as [W Hm]. destruct (ByteQueueFacts.close_refines q W) as [W' Ea].
    split; try done.
    + intros v. right. left. destruct v; set_solver.
    + intros _. right. intros v. destruct v; set_solver.
    + intros h Hh. eapply replays_snoc; [done..|]. simpl. by rewrite Ea.
Qed.

#[global] Instance queue_laws : MonitorLaws ByteQueue.t call PosixQueue.ret cv.
Proof.
  refine {| m_wf := good_state; m_good := good_call; m_avail := avail;
            m_cv := λ c, match c with
              | CSend _ _ => Some NotFull | CRecv _ _ => Some NotEmpty | CClose => None end;
            m_timed := timed; m_final := ByteQueue.is_closed; m_hist := replays |}.
  - intros [x timeout|x timeout|] now q W G.
    + by apply send_start_ok.
    + by apply recv_start_ok.
    + destruct (close_ok q W) as (r & q' & ws & E & Hok). simpl. rewrite E. simpl. by eexists _, _, _, _.
  - intros [x timeout|x timeout|] q W G.
    + destruct (send_iter_ok x timeout q W G) as (o & q' & ws & E & Hi & Hv). exists o, q', ws.
      split; [done|]. split; [apply Hi; by right|]. intros v Ho. by rewrite (Hv v Ho).
    + destruct (recv_iter_ok x timeout q W G) as (o & q' & ws & E & Hi & Hv). exists o, q', ws.
      split; [done|]. split; [apply Hi; by right|]. intros v Ho. by rewrite (Hv v Ho).
    + destruct (close_ok q W) as (r & q' & ws & E & Hok). simpl. rewrite E. by eexists _, _, _.
  - intros c h q Hh. apply replays_skip; [done|]. by destruct c.
Defined.

End Facts.

(** The calls of a program use the queue's message size; a call with another
    size returns [InvalidMessageSize] before it takes the lock. *)

Section Claims.
Context `{Arch}.
Abbreviation machine_inv f := (MonitorMachine.inv (MonitorLaws0 := queue_laws f)).

(** The configurations that threads calling a queue [q] can bring about. *)
Definition queue_reachable (q : ByteQueue.t) (cf : MonitorMachine.config) : Prop :=
  MonitorMachine.reachable (MonitorLaws0 := queue_laws (ByteQueueFacts.abs q)) q cf.

Lemma queue_machine_inv alloc c m q cf :
  0 ≤ c → 0 ≤ m → ByteQueue.new alloc c m = Ok q →
  queue_reachable q cf → machine_inv (ByteQueueFacts.abs q) cf.
Proof.
  intros Hc Hm E R. apply (MonitorMachine.monitor_inv q); [|done|done].
  split; [|done]. exact (ByteQueue.new_wf alloc c m q Hc Hm E).
Qed.

(** C5: The POSIX queue under any interleaving of sends, receives and closes
    with any timeouts, spurious wake-ups and timeouts: no panic; the calls that
    returned, with their results and received bytes, are a run of the abstract
    bounded FIFO queue whose final state is the content of the queue. *)
Theorem posix_queue_linearizable alloc c m q cf :
  0 ≤ c → 0 ≤ m → ByteQueue.new alloc c m = Ok q →
  queue_reachable q cf →
  (∀ e, MonitorMachine.event_ok (MonitorLaws0 := queue_laws (ByteQueueFacts.abs q)) e →
     MonitorMachine.exec cf e = None ∨ ∃ cf', MonitorMachine.exec cf e = Some (Done cf')) ∧
  let h := entries (ByteQueueFacts.abs q) (MonitorMachine.history cf) in
  spec_run (ByteQueueFacts.abs q) (fst <$> h) =
    (snd <$> h, ByteQueueFacts.abs (MonitorMachine.mstate cf)).
Proof.
  intros Hc Hm E R. pose proof (queue_machine_inv alloc c m q cf Hc Hm E R) as I. split.
  - intros e He. destruct (MonitorMachine.monitor_exec_inv cf e I He) as [|(cf' & ? & _)]; eauto.
  - exact (MonitorMachine.inv_hist _ I).
Qed.

(** A call with a deadline that timed out. *)
Definition expired (e : call * PosixQueue.ret) : bool :=
  timed (fst e) && match fst (snd e) with Err Error.Timeout => true | _ => false end.

(** C6: No lost wake-up on the POSIX queue but for timeouts.  A wait that ends with
    [ETIMEDOUT] may have consumed a signal, and the code does not look at the queue
    again.  When no woken thread is on its way and a thread waits on [not_empty],
    the queue is open and holds at most as many messages as such signals were
    lost; when one waits on [not_full], it is open and has at most as many free
    places.  At most as many signals are lost as calls with a deadline timed out, so
    without such timeouts a thread waits only on an empty or full queue.  After a
    close nobody waits, whatever timed out. *)
Theorem posix_queue_no_lost_wakeup alloc c m q cf :
  0 ≤ c → 0 ≤ m → ByteQueue.new alloc c m = Ok q →
  queue_reachable q cf →
  (countb (MonitorMachine.woken_on NotEmpty) (MonitorMachine.threads cf) = 0%nat →
   (0 < countb (MonitorMachine.waits_on NotEmpty) (MonitorMachine.threads cf))%nat →
   ByteQueue.len (MonitorMachine.mstate cf) ≤ Z.of_nat (MonitorMachine.stolen_on NotEmpty cf) ∧
   ByteQueue.is_closed (MonitorMachine.mstate cf) = false) ∧
  (countb (MonitorMachine.woken_on NotFull) (MonitorMachine.threads cf) = 0%nat →
   (0 < countb (MonitorMachine.waits_on NotFull) (MonitorMachine.threads cf))%nat →
   ByteQueue.capacity (MonitorMachine.mstate cf) - ByteQueue.len (MonitorMachine.mstate cf) ≤
     Z.of_nat (MonitorMachine.stolen_on NotFull cf) ∧
   ByteQueue.is_closed (MonitorMachine.mstate cf) = false) ∧
  (∀ v, (MonitorMachine.stolen_on v cf ≤ countb expired (MonitorMachine.history cf))%nat) ∧
  (ByteQueue.is_closed (MonitorMachine.mstate cf) = true →
   ∀ v, countb (MonitorMachine.waits_on v) (MonitorMachine.threads cf) = 0%nat).
Proof.
  intros Hc Hm E R. pose proof (queue_machine_inv alloc c m q cf Hc Hm E R) as I.
  pose proof (MonitorMachine.inv_wf _ I) as [W _]. split_and!.
  - intros Hk Hw. destruct (MonitorMachine.monitor_quiet cf NotEmpty I Hk Hw) as [Ha Hf].
    split; [|exact Hf]. simpl in Ha. unfold used in Ha. simpl in Ha.
    rewrite ByteQueue.messages_length in Ha. destruct W. lia.
  - intros Hk Hw. destruct (MonitorMachine.monitor_quiet cf NotFull I Hk Hw) as [Ha Hf].
    split; [|exact Hf]. simpl in Ha. unfold used in Ha. simpl in Ha.
    rewrite ByteQueue.messages_length in Ha. destruct W. lia.
  - intros v. apply (MonitorMachine.monitor_stolen cf v expired I). intros c' Hc'. unfold expired. simpl.
    rewrite (Hc' : timed c' = true). by destruct c'.
  - exact (MonitorMachine.inv_final _ I).
Qed.

End Claims.
End PosixQueueFacts.

(** ** Witnesses *)

Module PosixSyncWitness.
Import MonitorMachine.
#[local] Existing Instance arch64.

Definition t0 : timespec := PosixTime.mkTimespec 100 0.

(** Two threads acquire an empty semaphore, one release wakes the second. *)
Definition sem0 : CountingSemaphoreState.t := CountingSemaphoreState.mk 2 0.
Definition sem_events : list (event (call:=PosixSemaphore.call)) :=
  [Call (PosixSemaphore.Acquire Timeout.Forever); Step 0 t0 [];
   Call (PosixSemaphore.Acquire (Timeout.After (Duration.mk 1 0))); Step 1 t0 [];
   Call PosixSemaphore.Release; Step 2 t0 [1%nat]; Step 1 t0 []].
Definition sem_start : config (St:=PosixSemaphore.St) (call:=PosixSemaphore.call) (ret:=Result ()) (cv:=PosixSemaphore.cv) :=
  mkConfig sem0 [] [] [].
Definition sem_after : config (St:=PosixSemaphore.St) (call:=PosixSemaphore.call) (ret:=Result ()) (cv:=PosixSemaphore.cv) :=
  default sem_start (exec_all sem_start sem_events).

Lemma sem_after_reachable :
  reachable (MonitorLaws0 := PosixSemaphoreFacts.laws 2 0) sem0 sem_after.
Proof.
  eapply (exec_all_monitor _ sem_events); [apply mon_init|repeat constructor|vm_compute; reflexivity].
Qed.

(** A lost wake-up: one thread waits with a deadline, one without; the release wakes
    the first, whose wait ends with [ETIMEDOUT]; the other keeps waiting although
    the count is one and nobody is on the way. *)
Definition lost_events : list (event (call:=PosixSemaphore.call)) :=
  [Call (PosixSemaphore.Acquire Timeout.Forever); Step 0 t0 [];
   Call (PosixSemaphore.Acquire (Timeout.After (Duration.mk 1 0))); Step 1 t0 [];
   Call PosixSemaphore.Release; Step 2 t0 [1%nat]; Expire 1].
Lemma semaphore_signal_lost : ∃ cf,
  reachable (MonitorLaws0 := PosixSemaphoreFacts.laws 2 0) sem0 cf ∧
  CountingSemaphoreState.count (mstate cf) = 1 ∧
  threads cf = [Waiting (PosixSemaphore.Acquire Timeout.Forever) PosixSemaphore.Available None].
Proof.
  eexists (default sem_start (exec_all sem_start lost_events)). split; [|by vm_compute].
  eapply (exec_all_monitor _ lost_events); [apply mon_init|repeat constructor|vm_compute; reflexivity].
Qed.

Lemma posix_semaphore_correct_witness :
  CountingSemaphoreState.count (mstate sem_after) = 0 ∧
  countb PosixSemaphoreFacts.acquired (history sem_after) = 1%nat.
Proof.
  destruct (PosixSemaphoreFacts.posix_semaphore_correct 2 0 sem0 sem_after) as (_ & Hc & Hr & Hw & _).
  - by vm_compute.
  - by vm_compute.
  - reflexivity.
  - exact sem_after_reachable.
  - split; [|vm_compute; reflexivity]. assert (CountingSemaphoreState.count (mstate sem_after) ≤ 0) as H0; [|lia].
    apply Hw; vm_compute; [reflexivity|lia].
Defined.

(** A receiver waits, a send wakes it and it takes the message; then two sends,
    of which the second waits. *)
Definition queue0 : ByteQueue.t := ByteQueue.mk [Byte.x00] 1 1 0 0 0 false.
Abbreviation qconfig := (config (St:=ByteQueue.t) (call:=PosixQueue.call) (ret:=PosixQueue.ret) (cv:=PosixQueue.cv)).
Definition queue_start : qconfig := mkConfig queue0 [] [] [].
Definition queue_events : list (event (call:=PosixQueue.call)) :=
  [Call (PosixQueue.CRecv [Byte.x00] Timeout.Forever); Step 0 t0 [];
   Call (PosixQueue.CSend [Byte.x07] Timeout.NoWait); Step 1 t0 [0%nat]; Step 0 t0 [];
   Call (PosixQueue.CSend [Byte.x08] Timeout.NoWait); Step 0 t0 [];
   Call (PosixQueue.CSend [Byte.x09] Timeout.Forever); Step 0 t0 []].
Definition queue_after : qconfig := default queue_start (exec_all queue_start queue_events).

Lemma queue_after_reachable :
  reachable (MonitorLaws0 := PosixQueueFacts.queue_laws (ByteQueueFacts.abs queue0)) queue0 queue_after.
Proof.
  eapply (exec_all_monitor _ queue_events); [apply mon_init|repeat constructor|vm_compute; reflexivity].
Qed.

Lemma posix_queue_linearizable_witness :
  ByteQueue.new (λ _, true) 1 1 = Ok queue0 ∧
  ∃ f, QueueTrace.spec_run (ByteQueueFacts.abs queue0)
    [QueueTrace.Send [Byte.x07]; QueueTrace.Recv [Byte.x00]; QueueTrace.Send [Byte.x08]] =
    ([QueueTrace.RSend (Ok ()); QueueTrace.RRecv (Ok 1) [Byte.x07]; QueueTrace.RSend (Ok ())], f).
Proof.
  destruct (PosixQueueFacts.posix_queue_linearizable (λ _, true) 1 1 queue0 queue_after) as [_ Hh].
  - lia.
  - lia.
  - reflexivity.
  - exact queue_after_reachable.
  - split; [reflexivity|]. eexists. exact Hh.
Defined.

Lemma posix_queue_no_lost_wakeup_witness :
  ByteQueue.capacity (mstate queue_after) - ByteQueue.len (mstate queue_after) ≤ 0 ∧ ByteQueue.is_closed (mstate queue_after) = false.
Proof.
  destruct (PosixQueueFacts.posix_queue_no_lost_wakeup (λ _, true) 1 1 queue0 queue_after) as (_ & Hf & _).
  - lia.
  - lia.
  - reflexivity.
  - exact queue_after_reachable.
  - apply Hf; vm_compute; [reflexivity|lia].
Defined.

End PosixSyncWitness.
