(* ===== verification/TimerRegistry.v ===== *)
(** * The timer registry of the POSIX and FreeRTOS timer services

    Both backends keep their timers in the same structures and select and
    restore callbacks alike ([timer_service.rs] of [osal-backend-posix] and of
    [osal-backend-freertos]); only their locking, waiting and start-up differ.
    [TimerRegistry] has what they share, [TimerRegistryFacts] its theory. *)

From S2P Require Import Prelude Api Time.
Import Duration (as_nanos).

Module TimerRegistry.

(** The identity of a boxed callback. *)
Definition TimerCallback : Type := Z.

Record TimerEntry : Type := mkEntry {
  id : Z;
  state : TimerState.t;
  callback : option TimerCallback;
  deleted : bool;
}.

Record TimerServiceState : Type := mkState {
  timers : list TimerEntry;
  next_id : Z;
  stop_requested : bool;
}.

Definition new : TimerServiceState := mkState [] 1 false.

Definition set_timers (st : TimerServiceState) (l : list TimerEntry) : TimerServiceState :=
  mkState l (next_id st) (stop_requested st).
Definition set_state (e : TimerEntry) (s : TimerState.t) : TimerEntry :=
  mkEntry (id e) s (callback e) (deleted e).
Definition set_callback (e : TimerEntry) (c : option TimerCallback) : TimerEntry :=
  mkEntry (id e) (state e) c (deleted e).

Definition live (e : TimerEntry) : Prop := deleted e = false.
#[global] Instance live_dec e : Decision (live e).
Proof. unfold live. apply _. Defined.

(** [timers.retain(|e| !e.deleted)] *)
Definition retain (st : TimerServiceState) : TimerServiceState :=
  set_timers st (filter live (timers st)).

(** The scan for the earliest deadline. *)
Definition earlier (cur : option Duration.t) (e : TimerEntry) : option Duration.t :=
  match TimerState.deadline (state e) with
  | None => cur
  | Some d => match cur with
              | None => Some d
              | Some c => if Duration.ltb d c then Some d else cur
              end
  end.
Definition earliest (l : list TimerEntry) : option Duration.t := foldl earlier None l.

(** The iterator chain that selects a callback: index, deadline and id of the expired
    timers that can be called. *)
Definition candidate (now : Duration.t) (p : nat * TimerEntry) : option (nat * Duration.t * Z) :=
  let '(i, e) := p in
  if negb (deleted e) && bool_decide (is_Some (callback e)) then
    match TimerState.deadline (state e) with
    | Some d => if Duration.leb d now then Some (i, d, id e) else None
    | None => None
    end
  else None.
Definition candidates (now : Duration.t) (l : list TimerEntry) : list (nat * Duration.t * Z) :=
  omap (candidate now) (imap pair l).

(** [min_by_key(|(_, d, id)| (d, id))]: the first of least key. *)
Definition key_ltb (x y : nat * Duration.t * Z) : bool :=
  let '(_, d, i) := x in let '(_, d', i') := y in
  Duration.ltb d d' || (Duration.eqb d d' && (i <? i')).
Definition smaller (best : option (nat * Duration.t * Z)) (x : nat * Duration.t * Z)
    : option (nat * Duration.t * Z) :=
  match best with
  | None => Some x
  | Some y => if key_ltb x y then Some x else Some y
  end.
Definition min_by_key (l : list (nat * Duration.t * Z)) : option (nat * Duration.t * Z) :=
  foldl smaller None l.

(** [e.id == id && !e.deleted] *)
Definition matches (i : Z) (e : TimerEntry) : Prop := id e = i ∧ live e.
#[global] Instance matches_dec i e : Decision (matches i e).
Proof. unfold matches. apply _. Defined.

Definition find (i : Z) (st : TimerServiceState) : option (nat * TimerEntry) :=
  list_find (matches i) (timers st).

(** Put the callback back after the call. *)
Definition restore (i : Z) (cb : TimerCallback) (st : TimerServiceState) : TimerServiceState :=
  match find i st with
  | Some (k, e) =>
      if decide (callback e = None)
      then set_timers st (<[k:=set_callback e (Some cb)]> (timers st)) else st
  | None => st
  end.
(** *** Operations: result, state and whether the worker is woken *)

Definition effect (R : Type) : Type := Result R * TimerServiceState * bool.

(** [find(..)], an update of the entry that may fail, and then the wake-up. *)
Definition on_entry (wake : bool) (i : Z) (f : TimerEntry → Result () * TimerEntry)
    (st : TimerServiceState) : Run (effect ()) :=
  match find i st with
  | Some (k, e) =>
      match f e with
      | (Ok _, e') => Done (Ok (), set_timers st (<[k:=e']> (timers st)), wake)
      | (Err x, e') => Done (Err x, set_timers st (<[k:=e']> (timers st)), false)
      end
  | None => Done (Err Error.NotFound, st, false)
  end.

(** An update of the timer's automaton. *)
Definition on_state (wake : bool) (i : Z) (f : TimerState.t → Result () * TimerState.t)
    : TimerServiceState → Run (effect ()) :=
  on_entry wake i (λ e, let '(r, s) := f (state e) in (r, set_state e s)).

(** The entry that is deleted keeps its place until the next [retain]. *)
Definition delete_entry (i : Z) : TimerServiceState → Run (effect ()) :=
  on_entry true i (λ e, (Ok (), mkEntry (id e) (TimerState.stop (state e)) None true)).

End TimerRegistry.

(** ** Facts *)

Module TimerRegistryFacts.
Import TimerRegistry.

(** An entry in a service whose worker has taken the callback of [fl]. *)
Record entry_ok (n : Z) (fl : option Z) (e : TimerEntry) : Prop := {
  eo_id : 1 ≤ id e < n;
  eo_state : TimerState.wf (state e);
  eo_deleted : deleted e = true → TimerState.deadline (state e) = None;
  eo_callback : live e → (callback e = None ↔ fl = Some (id e));
}.

Record service_ok (fl : option Z) (st : TimerServiceState) : Prop := {
  so_next : 1 ≤ next_id st < 2 ^ 64;
  so_entries : Forall (entry_ok (next_id st) fl) (timers st);
  so_nodup : NoDup (id <$> timers st);
  so_flight : ∀ i, fl = Some i → i < next_id st;
}.

Definition live_ids (st : TimerServiceState) : list Z := id <$> filter live (timers st).

Lemma entry_lookup fl st i e : service_ok fl st → timers st !! i = Some e → entry_ok (next_id st) fl e.
Proof. intros W E. exact (Forall_lookup_1 _ _ _ _ (so_entries _ _ W) E). Qed.

Lemma service_new_ok : service_ok None new.
Proof. split; simpl; [lia|constructor|constructor|done]. Qed.

Lemma service_retain_ok fl st : service_ok fl st → service_ok fl (retain st).
Proof.
  intros [? Se ? ?]. split; simpl; try done.
  - apply Forall_forall. intros e [_ He]%list_elem_of_filter. by apply (proj1 (Forall_forall _ _) Se).
  - eapply sublist_NoDup; [done|]. apply fmap_sublist, sublist_filter.
Qed.

Lemma live_ids_retain st : live_ids (retain st) = live_ids st.
Proof. unfold live_ids, retain. simpl. by rewrite list_filter_filter_l by done. Qed.

(** Replacing an entry by one of the same identity. *)
Lemma insert_ids (l : list TimerEntry) (i : nat) (e e' : TimerEntry) : l !! i = Some e → id e' = id e →
  id <$> <[i:=e']> l = id <$> l.
Proof.
  intros E Hid. rewrite list_fmap_insert. apply list_insert_id. rewrite list_lookup_fmap, E. simpl. congruence.
Qed.

(** ... which may also change whose callback is in flight. *)
Lemma service_insert_ok fl fl' st k e e' :
  service_ok fl st → timers st !! k = Some e → id e' = id e → entry_ok (next_id st) fl' e' →
  (∀ i, i ≠ id e → fl = Some i ↔ fl' = Some i) →
  service_ok fl' (set_timers st (<[k:=e']> (timers st))).
Proof.
  intros W E Hid He Hf. pose proof W as [? Se Nd Sf]. split; simpl; try done.
  - apply Forall_lookup_2. intros j x [(<- & <- & _)|[Hne Hj]]%list_lookup_insert_Some; [done|].
    destruct (entry_lookup _ _ _ _ W Hj) as [? ? ? Hc]. split; try done. intros L.
    rewrite (Hc L). apply Hf. intros Heq. apply Hne.
    apply (NoDup_lookup (id <$> timers st) k j (id e)); [done|..]; rewrite list_lookup_fmap;
      [by rewrite E|rewrite Hj; simpl; congruence].
  - by rewrite (insert_ids _ _ e).
  - intros i ->. destruct (decide (i = id e)) as [->|Hne].
    + apply (eo_id _ _ _ (entry_lookup _ _ _ _ W E)).
    + apply Sf, Hf; done.
Qed.

Lemma live_ids_insert st i e e' :
  timers st !! i = Some e → id e' = id e → deleted e' = deleted e →
  live_ids (set_timers st (<[i:=e']> (timers st))) = live_ids st.
Proof.
  intros E Hid Hd. unfold live_ids. simpl.
  rewrite insert_take_drop by (by eapply lookup_lt_Some).
  rewrite <- (take_drop_middle _ _ _ E) at 3. rewrite !filter_app, !fmap_app. f_equal.
  rewrite !filter_cons. destruct (decide (live e)) as [L|L], (decide (live e')) as [L'|L'];
    unfold live in L, L'; try congruence; simpl; by rewrite ?Hid.
Qed.

Lemma live_ids_delete st i e e' :
  timers st !! i = Some e → live e → deleted e' = true →
  id e :: live_ids (set_timers st (<[i:=e']> (timers st))) ≡ₚ live_ids st.
Proof.
  intros E Hl Hd. unfold live_ids. simpl.
  rewrite insert_take_drop by (by eapply lookup_lt_Some).
  rewrite <- (take_drop_middle _ _ _ E) at 3. rewrite !filter_app, !fmap_app, !filter_cons.
  rewrite (decide_True _ _ Hl), decide_False by (unfold live; by rewrite Hd). simpl.
  apply Permutation_middle.
Qed.

Lemma live_ids_elem st i : i ∈ live_ids st ↔ ∃ k e, timers st !! k = Some e ∧ matches i e.
Proof.
  unfold live_ids. rewrite list_elem_of_fmap. split.
  - intros (e & -> & [Hl He]%list_elem_of_filter). apply list_elem_of_lookup in He as [k E].
    exists k, e. by split.
  - intros (k & e & E & <- & Hl). exists e. split; [done|]. apply list_elem_of_filter.
    split; [done|]. by eapply list_elem_of_lookup_2.
Qed.

(** Looking up a live timer. *)
Lemma find_spec i st :
  match find i st with
  | Some (k, e) => timers st !! k = Some e ∧ id e = i ∧ live e ∧ i ∈ live_ids st
  | None => i ∉ live_ids st
  end.
Proof.
  unfold find. destruct (list_find _ _) as [[k e]|] eqn:E.
  - apply list_find_Some in E as (E & [Hi Hl] & _). split_and!; try done.
    apply live_ids_elem. by exists k, e.
  - apply list_find_None in E. rewrite live_ids_elem. intros (k & e & Ek & Hm).
    exact (Forall_lookup_1 _ _ _ _ E Ek Hm).
Qed.

(** *** The earliest deadline and the best candidate *)

Lemma foldl_earlier_spec n fl l : ∀ cur,
  Forall (entry_ok n fl) l → (∀ c, cur = Some c → Duration.wf c) →
  match foldl earlier cur l with
  | None => cur = None ∧ Forall (λ e, TimerState.deadline (state e) = None) l
  | Some d => Duration.wf d ∧
      (∀ c, cur = Some c → as_nanos d ≤ as_nanos c) ∧
      Forall (λ e, ∀ x, TimerState.deadline (state e) = Some x → as_nanos d ≤ as_nanos x) l ∧
      (cur = Some d ∨ ∃ e, e ∈ l ∧ TimerState.deadline (state e) = Some d)
  end.
Proof.
  induction l as [|e l IH]; intros cur F Wc; simpl.
  { destruct cur as [c|]; [|done]. split; [by apply Wc|]. split; [|by auto]. by intros ? [= <-]. }
  apply Forall_cons_1 in F as [We F]. destruct (eo_state _ _ _ We) as (_ & _ & Wd).
  assert (∀ c, earlier cur e = Some c → Duration.wf c) as Wc'.
  { intros c. unfold earlier. destruct (TimerState.deadline (state e)) as [x|]; [|by apply Wc].
    destruct cur as [c'|]; [case_if|]; intros [= <-]; auto. }
  specialize (IH (earlier cur e) F Wc'). destruct (foldl earlier (earlier cur e) l) as [d|].
  - destruct IH as (Wdd & Hc & Hl & Hin). split; [done|]. unfold earlier in *.
    destruct (TimerState.deadline (state e)) as [x|] eqn:Ex.
    2:{ split; [done|]. split; [constructor; [congruence|done]|].
        destruct Hin as [?|(e' & ? & ?)]; [by left|]. right. exists e'. split; [by right|done]. }
    assert (Duration.wf x) as Wx by auto.
    destruct cur as [c|].
    + rewrite Duration.dur_ltb_nanos in * by auto. destruct (as_nanos x <? as_nanos c) eqn:El; bool_to_prop.
      * specialize (Hc _ eq_refl). split; [intros ? [= <-]; lia|]. split; [constructor; [|done]; rewrite Ex; intros ? [= <-]; lia|].
        right. destruct Hin as [[= ->]|(e' & ? & ?)]; [exists e|exists e']; (split; [by constructor|done]).
      * specialize (Hc _ eq_refl). split; [intros ? [= <-]; lia|]. split; [constructor; [|done]; rewrite Ex; intros ? [= <-]; lia|].
        destruct Hin as [?|(e' & ? & ?)]; [by left|]. right. exists e'. split; [by right|done].
    + specialize (Hc _ eq_refl). split; [done|]. split; [constructor; [|done]; rewrite Ex; by intros ? [= <-]|].
      right. destruct Hin as [[= ->]|(e' & ? & ?)]; [exists e|exists e']; (split; [by constructor|done]).
  - destruct IH as [Hn Hl]. unfold earlier in Hn.
    destruct (TimerState.deadline (state e)) as [x|] eqn:Ex; [destruct cur; [case_if|]; done|].
    split; [done|]. by constructor.
Qed.

Lemma earliest_spec fl st : service_ok fl st →
  match earliest (timers st) with
  | None => ∀ e, e ∈ timers st → TimerState.deadline (state e) = None
  | Some d => Duration.wf d ∧
      (∀ e x, e ∈ timers st → TimerState.deadline (state e) = Some x → as_nanos d ≤ as_nanos x) ∧
      ∃ e, e ∈ timers st ∧ TimerState.deadline (state e) = Some d
  end.
Proof.
  intros W. pose proof (foldl_earlier_spec (next_id st) fl (timers st) None (so_entries _ _ W)) as S.
  unfold earliest. destruct (foldl earlier None (timers st)) as [d|].
  - destruct S as (Wd & _ & F & Hin); [done|]. split; [done|]. rewrite Forall_forall in F.
    split; [naive_solver|]. destruct Hin; [done|done].
  - destruct S as [_ F]; [done|]. by rewrite Forall_forall in F.
Qed.

(** The order of [min_by_key] is lexicographic: a total preorder. *)
Lemma key_ltb_facts x y z :
  (key_ltb x y = true → key_ltb y x = false) ∧ key_ltb x x = false ∧
  (key_ltb y x = false → key_ltb z y = false → key_ltb z x = false).
Proof.
  destruct x as [[i [s n]] a], y as [[j [s' n']] b], z as [[k [s'' n'']] c].
  unfold key_ltb, Duration.ltb, Duration.eqb. simpl. rewrite <- !not_true_iff_false.
  repeat rewrite ?orb_true_iff, ?andb_true_iff, ?Z.ltb_lt, ?Z.eqb_eq. lia.
Qed.

Lemma foldl_smaller_spec l : ∀ best,
  match foldl smaller best l with
  | None => best = None ∧ l = []
  | Some x => (best = Some x ∨ x ∈ l) ∧ ∀ y, best = Some y ∨ y ∈ l → key_ltb y x = false
  end.
Proof.
  induction l as [|a l IH]; intros best; simpl.
  { destruct best as [x|]; [|done]. split; [by left|]. intros y [[= <-]|?%not_elem_of_nil]; [|done].
    exact (proj1 (proj2 (key_ltb_facts x x x))). }
  specialize (IH (smaller best a)). destruct (foldl smaller (smaller best a) l) as [x|].
  - destruct IH as [Hin Hmin]. unfold smaller in *. destruct best as [b|].
    + destruct (key_ltb a b) eqn:Eab.
      * split; [right; destruct Hin as [[= ->]|?]; by constructor|].
        intros y [[= <-]|[->|Hy]%elem_of_cons]; [|apply Hmin; by left|apply Hmin; by right].
        apply (proj2 (proj2 (key_ltb_facts x a b))); [apply Hmin; by left|].
        by apply (proj1 (key_ltb_facts a b b)).
      * split; [destruct Hin as [?|?]; [by left|right; by constructor]|].
        intros y [[= <-]|[->|Hy]%elem_of_cons]; [apply Hmin; by left| |apply Hmin; by right].
        apply (proj2 (proj2 (key_ltb_facts x b a))); [apply Hmin; by left|done].
    + split; [right; destruct Hin as [[= ->]|?]; by constructor|].
      intros y [?|[->|Hy]%elem_of_cons]; [done|apply Hmin; by left|apply Hmin; by right].
  - destruct IH as [Hs _]. unfold smaller in Hs. destruct best; [case_if|]; done.
Qed.

(** The timer can be called at [now]. *)
Definition due (now : Duration.t) (e : TimerEntry) : Prop :=
  live e ∧ is_Some (callback e) ∧ TimerState.expired (state e) now.

Lemma candidates_elem fl st now k d i : service_ok fl st → Duration.wf now →
  (k, d, i) ∈ candidates now (timers st) ↔
  ∃ e, timers st !! k = Some e ∧ id e = i ∧ TimerState.deadline (state e) = Some d ∧ due now e.
Proof.
  intros W Wn. unfold candidates. rewrite list_elem_of_omap. split.
  - intros ([k' e] & (k2 & e2 & [= -> ->] & E)%elem_of_lookup_imap & Hc). unfold candidate in Hc.
    destruct (deleted e2) eqn:Ed; [done|]. simpl in Hc. case_bool_decide as Hcb; [|done].
    destruct (TimerState.deadline (state e2)) as [d'|] eqn:Edl; [|done]. case_if; [|done]. simplify_eq.
    exists e2. do 3 (split; [done|]). split; [done|]. split; [done|]. exists d. split; [done|].
    destruct (eo_state _ _ _ (entry_lookup _ _ _ _ W E)) as (_ & _ & Wd).
    rewrite Duration.dur_leb_nanos in * by auto. by bool_to_prop.
  - intros (e & E & <- & Ed & Hl & Hc & d' & Ed' & Hle). exists (k, e). split.
    + by apply (elem_of_lookup_imap_2 pair).
    + unfold candidate. rewrite Hl, bool_decide_true, Ed by done. simplify_eq. simpl.
      destruct (eo_state _ _ _ (entry_lookup _ _ _ _ W E)) as (_ & _ & Wd).
      rewrite Duration.dur_leb_nanos by auto. by zb.
Qed.

Lemma key_ltb_le d d' x y k k' : Duration.wf d → Duration.wf d' → key_ltb (k, d, x) (k', d', y) = false →
  as_nanos d' < as_nanos d ∨ as_nanos d' = as_nanos d ∧ y ≤ x.
Proof.
  intros Wd Wd'. unfold key_ltb. rewrite Duration.dur_ltb_nanos by done. intros [Hl He]%orb_false_iff.
  bool_to_prop. destruct (decide (d = d')) as [->|Hne].
  - rewrite (proj2 (Duration.dur_eqb_eq d' d') eq_refl) in He. simpl in He. bool_to_prop. by right.
  - left. destruct (decide (as_nanos d = as_nanos d')) as [E|]; [|lia].
    by apply Duration.dur_as_nanos_inj in E.
Qed.

(** Armed timers. *)
Definition armed (st : TimerServiceState) (d : Duration.t) : Prop :=
  ∃ e, e ∈ timers st ∧ live e ∧ TimerState.deadline (state e) = Some d.

Lemma armed_retain st d : armed (retain st) d ↔ armed st d.
Proof.
  unfold armed, retain. simpl. split.
  - intros (e & [_ He]%list_elem_of_filter & ?). by exists e.
  - intros (e & He & Hl & ?). exists e. split; [|done]. by apply list_elem_of_filter.
Qed.

Lemma retain_elem st e : live e → e ∈ timers (retain st) ↔ e ∈ timers st.
Proof. intros L. simpl. rewrite list_elem_of_filter. naive_solver. Qed.

Lemma armed_live st d : armed st d → live_ids st ≠ [].
Proof.
  intros (e & He & Hl & _) Hnil. assert (id e ∈ live_ids st) as Hin.
  { apply list_elem_of_lookup in He as [k E]. apply live_ids_elem. by exists k, e. }
  rewrite Hnil in Hin. by apply elem_of_nil in Hin.
Qed.

(** Of a registry without a callback in flight, every live timer whose deadline
    has passed can be called. *)
Lemma live_due st e d now : service_ok None st → e ∈ timers st → live e →
  TimerState.deadline (state e) = Some d → as_nanos d ≤ as_nanos now → due now e.
Proof.
  intros W He Hl Ed Hle. split; [done|]. split; [|by exists d].
  apply list_elem_of_lookup in He as [j Ej]. destruct (callback e) eqn:Ec; [done|].
  by apply (eo_callback _ _ _ (entry_lookup _ _ _ _ W Ej) Hl) in Ec.
Qed.

(** *** Selecting, taking and restoring a callback *)

(** [e] is the timer to serve at [now]: due, and first by deadline and id among
    the live ones. *)
Record first_due (now : Duration.t) (st : TimerServiceState) (k : nat) (e : TimerEntry) : Prop := {
  fd_at : timers st !! k = Some e;
  fd_due : due now e;
  fd_first : ∀ d e2 d2, TimerState.deadline (state e) = Some d → e2 ∈ timers st → live e2 →
    TimerState.deadline (state e2) = Some d2 →
    as_nanos d < as_nanos d2 ∨ as_nanos d = as_nanos d2 ∧ id e ≤ id e2;
}.

Lemma select_spec st now : service_ok None st → Duration.wf now →
  match min_by_key (candidates now (timers st)) with
  | None => ∀ d, armed st d → as_nanos now < as_nanos d
  | Some (k, _, _) => ∃ e, first_due now st k e
  end.
Proof.
  intros W Wn. unfold min_by_key.
  pose proof (foldl_smaller_spec (candidates now (timers st)) None) as S.
  destruct (foldl smaller None (candidates now (timers st))) as [[[k d] i]|].
  - destruct S as [[?|Hin] Hmin]; [done|].
    apply (candidates_elem _ _ _ _ _ _ W Wn) in Hin as (e & E & Hi & Ed & D). exists e. split; try done.
    intros d' e2 d2 Ed' H2 L2 Ed2. assert (d' = d) as -> by congruence. subst i.
    destruct (decide (as_nanos d2 ≤ as_nanos now)) as [Hle|Hgt].
    2:{ destruct D as (_ & _ & x & Ex & Hx). simplify_eq. lia. }
    pose proof (live_due st e2 d2 now W H2 L2 Ed2 Hle) as D2.
    apply list_elem_of_lookup in H2 as [k2 E2]. apply (key_ltb_le d2 d _ _ k2 k).
    + destruct (eo_state _ _ _ (entry_lookup _ _ _ _ W E2)) as (_ & _ & Wd). auto.
    + destruct (eo_state _ _ _ (entry_lookup _ _ _ _ W E)) as (_ & _ & Wd). auto.
    + apply Hmin. right. apply (candidates_elem _ _ _ _ _ _ W Wn). by exists e2.
  - destruct S as [_ Hnil]. intros d (e & He & Hl & Ed).
    destruct (decide (as_nanos d ≤ as_nanos now)) as [Hle|]; [|lia].
    pose proof (live_due st e d now W He Hl Ed Hle) as D. apply list_elem_of_lookup in He as [k E].
    assert ((k, d, id e) ∈ candidates now (timers st)) as Hin
      by (apply (candidates_elem _ _ _ _ _ _ W Wn); by exists e).
    rewrite Hnil in Hin. by apply elem_of_nil in Hin.
Qed.

(** The registry once the callback of a due timer has been taken: the timer is
    advanced, its callback is in flight. *)
Record taken (now : Duration.t) (st : TimerServiceState) (i : Z) (cb : TimerCallback)
    (st' : TimerServiceState) : Prop := {
  tk_ok : service_ok (Some i) st';
  tk_live : live_ids st' = live_ids st;
  tk_stop : stop_requested st' = stop_requested st;
  tk_next : next_id st' = next_id st;
  tk_from : ∃ k e, first_due now st k e ∧ id e = i ∧ callback e = Some cb;
  tk_advanced : ∀ e' d', e' ∈ timers st' → id e' = i → TimerState.deadline (state e') = Some d' →
    as_nanos now < as_nanos d';
}.

Lemma take_taken st now k e : service_ok None st → Duration.wf now → first_due now st k e →
  ∃ s cb, TimerState.advance_on_expiry (state e) now = Done (true, s) ∧ callback e = Some cb ∧
    taken now st (id e) cb (set_timers st (<[k:=set_callback (set_state e s) None]> (timers st))).
Proof.
  intros W Wn F. pose proof F as [E D _]. pose proof (entry_lookup _ _ _ _ W E) as We.
  pose proof (eo_state _ _ _ We) as Ws.
  destruct (TimerState.advance_on_expiry_spec (state e) now Ws Wn) as (b & s & Ea & Ws' & _ & _ & Hb & _ & Hne).
  pose proof D as (Hl & [cb Ecb] & X). rewrite (proj2 Hb X) in Ea. exists s, cb. do 2 (split; [done|]).
  set (st' := set_timers _ _). assert (service_ok (Some (id e)) st') as W'.
  { apply (service_insert_ok None (Some (id e)) st k e); [done..| |naive_solver].
    split; simpl; [apply We|done| |done]. intros Hd. unfold live in Hl. congruence. }
  split; try done.
  - by apply (live_ids_insert st k e).
  - by exists k, e.
  - intros e' d' He' Hid Ed'. apply list_elem_of_lookup in He' as [j Ej].
    assert (j = k) as ->.
    { apply (NoDup_lookup (id <$> timers st') j k (id e)); [apply W'|by rewrite list_lookup_fmap, Ej, <- Hid|].
      subst st'. simpl. rewrite (insert_ids _ _ e) by done. by rewrite list_lookup_fmap, E. }
    subst st'. simpl in Ej. rewrite list_lookup_insert_eq in Ej by (by eapply lookup_lt_Some). simplify_eq.
    destruct (decide (as_nanos d' ≤ as_nanos now)); [|lia]. exfalso. apply Hne. by exists d'.
Qed.

(** Putting it back. *)
Lemma restore_spec st i cb : service_ok (Some i) st →
  let st' := restore i cb st in
  service_ok None st' ∧ live_ids st' = live_ids st ∧
  stop_requested st' = stop_requested st ∧ next_id st' = next_id st.
Proof.
  intros W. cbv zeta. unfold restore. pose proof (find_spec i st) as F.
  destruct (find i st) as [[k e]|].
  - destruct F as (E & Hi & Hl & _). pose proof (entry_lookup _ _ _ _ W E) as We.
    rewrite decide_True by (by apply (eo_callback _ _ _ We Hl); rewrite Hi). split_and!; [|by apply (live_ids_insert st k e)|done..].
    apply (service_insert_ok (Some i) None st k e); [done..| |naive_solver].
    destruct We. by split.
  - split_and!; try done. destruct W as [? Se ? ?]. split; try done.
    apply Forall_lookup_2. intros k e E. destruct (Forall_lookup_1 _ _ _ _ Se E) as [? ? ? Hc].
    split; try done. intros L. rewrite (Hc L). split; [|done]. intros [= ->]. exfalso. apply F.
    apply live_ids_elem. by exists k, e.
Qed.

(** *** The operations *)

(** Every operation keeps the registry well formed, and arms a timer only with a
    wake-up of the worker. *)
Record op_ok (fl : option Z) (st st' : TimerServiceState) (woke : bool) : Prop := {
  oo_ok : service_ok fl st';
  oo_stop : stop_requested st' = stop_requested st;
  oo_next : next_id st ≤ next_id st';
  oo_wake : woke = true ∨ ∀ d, armed st' d → armed st d;
}.

Lemma op_same fl st : service_ok fl st → op_ok fl st st false.
Proof. intros W. split; auto; lia. Qed.

(** A new entry. *)
Lemma push_ok fl st p m s cb : service_ok fl st → Duration.wf p → TimerState.new p m = Ok s →
  next_id st + 1 < 2 ^ 64 →
  let st' := mkState (timers st ++ [mkEntry (next_id st) s (Some cb) false]) (next_id st + 1) (stop_requested st) in
  op_ok fl st st' true ∧ live_ids st' = live_ids st ++ [next_id st] ∧ (next_id st ∉ live_ids st) ∧
  ∀ d, armed st' d → armed st d.
Proof.
  intros W Wp En Hn. pose proof W as [Sn Se Nd Sf].
  destruct (TimerState.timer_new_wf p m s Wp En) as [Ws Ds].
  assert (next_id st ∉ id <$> timers st) as Hfresh.
  { intros (e & He & Hin)%list_elem_of_fmap. apply list_elem_of_lookup in Hin as [k E].
    pose proof (eo_id _ _ _ (entry_lookup _ _ _ _ W E)). lia. }
  cbv zeta. split_and!.
  - split; simpl; [|done|lia|by left]. split; simpl; [lia| | |].
    + apply Forall_app. split.
      * eapply Forall_impl; [exact Se|]. intros e [? ? ? Hc]. split; [lia|done..].
      * constructor; [|constructor]. split; simpl; [lia|done|done|]. intros _. split; [done|].
        intros Hf. specialize (Sf _ Hf). lia.
    + rewrite fmap_app. simpl. apply NoDup_app. split; [done|]. split; [|apply NoDup_singleton].
      by intros x Hx ->%list_elem_of_singleton.
    + intros i Hi. specialize (Sf i Hi). lia.
  - unfold live_ids. simpl. by rewrite filter_app, fmap_app.
  - intros (e & He & Hin)%list_elem_of_fmap. apply Hfresh. apply list_elem_of_fmap. exists e. split; [done|].
    by apply list_elem_of_filter in Hin as [_ ?].
  - intros d (e & [He| ->%list_elem_of_singleton]%elem_of_app & L & Ed); [by exists e|]. simpl in Ed. congruence.
Qed.

(** The operations on one timer. *)
Lemma on_entry_spec wake fl st i f :
  service_ok fl st →
  (∀ e, live e → entry_ok (next_id st) fl e →
     id (snd (f e)) = id e ∧ entry_ok (next_id st) fl (snd (f e)) ∧
     (∀ x, fst (f e) = Err x → snd (f e) = e) ∧
     (wake = false → TimerState.deadline (state (snd (f e))) = TimerState.deadline (state e))) →
  ∃ r st' woke, on_entry wake i f st = Done (r, st', woke) ∧ op_ok fl st st' woke ∧
    (r = Err Error.NotFound ∧ st' = st ∧ (i ∉ live_ids st) ∨
     ∃ k e, timers st !! k = Some e ∧ id e = i ∧ live e ∧ i ∈ live_ids st ∧ r = fst (f e) ∧
            st' = set_timers st (<[k:=snd (f e)]> (timers st))).
Proof.
  intros W Hf. unfold on_entry. pose proof (find_spec i st) as F. destruct (find i st) as [[k e]|].
  2:{ eexists _, _, _. split; [done|]. split; [by apply op_same|]. by left. }
  destruct F as (E & Hi & Hl & Hin). pose proof (entry_lookup _ _ _ _ W E) as We.
  destruct (Hf e Hl We) as (Hid & We' & Hx & Hw).
  assert (service_ok fl (set_timers st (<[k:=snd (f e)]> (timers st)))) as W'
    by by apply (service_insert_ok fl fl st k e).
  destruct (f e) as [[[]|x] e'] eqn:Ef; simpl in *; (eexists _, _, _; split; [done|]); split.
  - split; simpl; [done|done|lia|]. destruct wake; [by left|right]. specialize (Hw eq_refl).
    intros d (x & Hx' & Lx & Ex). apply list_elem_of_lookup in Hx' as [j Ej].
    apply list_lookup_insert_Some in Ej as [(<- & <- & _)|[_ Ej]].
    + exists e. split; [by eapply list_elem_of_lookup_2|]. by rewrite <- Hw.
    + exists x. split; [by eapply list_elem_of_lookup_2|done].
  - right. exists k, e. rewrite Ef. by split_and!.
  - rewrite (Hx x eq_refl) in *. rewrite list_insert_id by done. destruct st. by apply op_same.
  - right. exists k, e. rewrite Ef. by split_and!.
Qed.

(** An update of the timer's automaton only. *)
Lemma state_update_ok n fl e s : live e → entry_ok n fl e → TimerState.wf s → entry_ok n fl (set_state e s).
Proof. intros Hl [? ? ? ?] Ws. split; simpl; try done. intros Hd. unfold live in Hl. congruence. Qed.

Lemma set_state_id e : set_state e (state e) = e.
Proof. by destruct e. Qed.

(** What an operation that keeps the timer returns. *)
Definition keeps_timer (fl : option Z) (st : TimerServiceState) (i : Z) (ok : Result () → Prop)
    (op : TimerServiceState → Run (effect ())) : Prop :=
  ∃ r st' woke, op st = Done (r, st', woke) ∧ op_ok fl st st' woke ∧ live_ids st' = live_ids st ∧
    ((i ∉ live_ids st) ∧ r = Err Error.NotFound ∨ i ∈ live_ids st ∧ ok r).

Lemma on_state_spec wake fl st i ok (f : TimerState.t → Result () * TimerState.t) :
  service_ok fl st →
  (∀ s, TimerState.wf s → TimerState.wf (snd (f s)) ∧ ok (fst (f s)) ∧ (∀ x, fst (f s) = Err x → snd (f s) = s) ∧
        (wake = false → TimerState.deadline (snd (f s)) = TimerState.deadline s)) →
  keeps_timer fl st i ok (on_state wake i f).
Proof.
  intros W Hf. unfold on_state, keeps_timer.
  destruct (on_entry_spec wake fl st i (λ e, let '(r, s) := f (state e) in (r, set_state e s)) W)
    as (r & st' & woke & E & O & D).
  - intros e Hl We. destruct (Hf (state e) (eo_state _ _ _ We)) as (W' & _ & Hx & Hw).
    destruct (f (state e)) as [r s]. simpl in *. split; [done|]. split; [by apply state_update_ok|]. split; [|done].
    intros x Hr. rewrite (Hx x Hr). apply set_state_id.
  - exists r, st', woke. split; [done|]. split; [done|].
    destruct D as [(-> & -> & Hn)|(k & e & Ek & Hi & Hl & Hin & -> & ->)]; [by auto|].
    pose proof (entry_lookup _ _ _ _ W Ek) as We. destruct (Hf (state e) (eo_state _ _ _ We)) as (_ & Hok & _).
    destruct (f (state e)) as [r s] eqn:Ef. simpl in *. split; [by apply (live_ids_insert st k e)|]. by right.
Qed.

(** Arming reports at most an unrepresentable deadline. *)
Definition armed_or_overflow (r : Result ()) : Prop := r = Ok () ∨ r = Err Error.Overflow.

Lemma on_start_spec fl st i now : service_ok fl st → Duration.wf now →
  keeps_timer fl st i armed_or_overflow (on_state true i (λ s, TimerState.start s now)).
Proof.
  intros W Wn. apply on_state_spec; [done|]. intros s Ws.
  pose proof (TimerState.timer_start_spec s now Ws Wn) as S. unfold armed_or_overflow.
  destruct (TimerState.start s now) as [[[]|e] s']; simpl; [naive_solver|]. destruct S as (-> & -> & _). auto.
Qed.

Lemma on_stop_spec fl st i : service_ok fl st →
  keeps_timer fl st i (λ r, r = Ok ()) (on_state true i (λ s, (Ok (), TimerState.stop s))).
Proof.
  intros W. apply on_state_spec; [done|]. intros s Ws. simpl. split; [by apply TimerState.timer_stop_wf|done].
Qed.

Lemma on_change_period_spec wake fl st i p : service_ok fl st → Duration.wf p → p ≠ Duration.ZERO →
  keeps_timer fl st i (λ r, r = Ok ()) (on_state wake i (λ s, TimerState.change_period s p)).
Proof.
  intros W Wp Hz. apply on_state_spec; [done|]. intros s Ws.
  pose proof (TimerState.timer_change_period_wf s p Ws Wp) as Wc. unfold TimerState.change_period in *.
  rewrite (proj2 (Duration.dur_eqb_neq _ _) Hz) in *. done.
Qed.

Lemma delete_entry_spec fl st i : service_ok fl st → i ∈ live_ids st →
  ∃ st' woke, delete_entry i st = Done (Ok (), st', woke) ∧ op_ok fl st st' woke ∧
            i :: live_ids st' ≡ₚ live_ids st.
Proof.
  intros W Hin. unfold delete_entry.
  destruct (on_entry_spec true fl st i (λ e, (Ok (), mkEntry (id e) (TimerState.stop (state e)) None true)) W)
    as (r & st' & woke & E & O & D).
  - intros e Hl [? ? ? ?]. split; [done|]. split; [|done]. split; simpl; try done. by apply TimerState.timer_stop_wf.
  - destruct D as [(_ & _ & Hn)|(k & e & Ek & Hi & Hl & _ & -> & ->)]; [done|]. simpl in *.
    eexists _, _. split; [exact E|]. split; [done|]. rewrite <- Hi. by apply live_ids_delete.
Qed.

End TimerRegistryFacts.
