(* ===== verification/PosixTimer.v ===== *)
(** * The timer service of the POSIX backend

    [crates/osal-backend-posix/src/timer_service.rs] and [timer_control.rs]:
    one round of the worker's loop, the two halves of [dispatch_one], the
    operations of the API, and the control block with its slot, generations and
    one-time initialisation.

    A section between lock and unlock is one function.  What it reads from the
    clock, and what [pthread_mutex_init], [TimerService::new] and the thread
    creation return, are arguments. *)

From S2P Require Import Prelude Api Time PosixSys TimerRegistry.
Import PosixTime (timespec, mkTimespec, tv_sec, tv_nsec).
Import Duration (as_nanos).

(** ** [timer_service.rs]: the service *)

Module PosixTimerService.
Export TimerRegistry.

(** How a round of [run] ends. *)
Inductive round : Type :=
| Leave                        (** [return] *)
| Wait                         (** [condvar.wait] *)
| WaitUntil (abs : timespec)   (** [condvar.timed_wait] *)
| Dispatch.                    (** [drop(guard); self.dispatch_one()] *)

Section Run.
Context `{Arch}.

(** [now] is the reading of [monotonic_now], [now2] the one inside
    [checked_abs_deadline]. *)
Definition run_round (now : Duration.t) (now2 : timespec) (st : TimerServiceState)
    : Run (round * TimerServiceState) :=
  if stop_requested st then Done (Leave, st)
  else
    let st := retain st in
    match earliest (timers st) with
    | None => Done (Wait, st)
    | Some deadline =>
        if Duration.leb deadline now then Done (Dispatch, st)
        else
          let timeout := Duration.saturating_sub deadline now in
          let slice := Duration.min timeout (Duration.from_secs 3600) in
          match PosixTime.abs_deadline now2 slice with
          | Ok abs => Done (WaitUntil abs, st)
          | Err _ => Panic "1-hour slice must fit in time_t"
          end
    end.

End Run.

(** The first locked block of [dispatch_one]: the callback to run, if any. *)
Definition dispatch_take (now : Duration.t) (st : TimerServiceState)
    : Run (option (Z * TimerCallback) * TimerServiceState) :=
  match min_by_key (candidates now (timers st)) with
  | None => Done (None, st)
  | Some (idx, _, _) =>
      e ← expect (timers st !! idx) "index out of bounds";
      '(due, s) ← TimerState.advance_on_expiry (state e) now;
      if negb due then Done (None, set_timers st (<[idx:=set_state e s]> (timers st)))
      else
        cb ← expect (callback e) "called Option::unwrap() on a None value";
        Done (Some (id e, cb),
              set_timers st (<[idx:=set_callback (set_state e s) None]> (timers st)))
  end.

(** The second locked block: put the callback back. *)
Definition dispatch_restore (i : Z) (cb : TimerCallback) (st : TimerServiceState) : TimerServiceState :=
  restore i cb st.

(** *** The API *)

Definition register (period : Duration.t) (mode : TimerMode.t) (cb : TimerCallback)
    (st : TimerServiceState) : Run (effect Z) :=
  match TimerState.new period mode with
  | Err _ => Done (Err Error.InvalidParameter, st, false)
  | Ok s =>
      let i := next_id st in
      match checked_add 64 i 1 with
      | None => Done (Err Error.Overflow, st, false)
      | Some next =>
          _ ← rassert (negb (i =? 0)) "timer ID 0 is reserved";
          Done (Ok i, mkState (timers st ++ [mkEntry i s (Some cb) false]) next (stop_requested st),
                true)
      end
  end.

Definition start (i : Z) (now : Duration.t) : TimerServiceState → Run (effect ()) :=
  on_state true i (λ s, TimerState.start s now).
Definition stop (i : Z) : TimerServiceState → Run (effect ()) :=
  on_state true i (λ s, (Ok (), TimerState.stop s)).
Definition reset (i : Z) (now : Duration.t) : TimerServiceState → Run (effect ()) :=
  on_state true i (λ s, TimerState.reset s now).
Definition change_period (i : Z) (p : Duration.t) : TimerServiceState → Run (effect ()) :=
  on_state true i (λ s, TimerState.change_period s p).
Definition deregister (i : Z) : TimerServiceState → Run (effect ()) := delete_entry i.

End PosixTimerService.

(** ** Facts about the service *)

Module PosixTimerFacts.
Import PosixTimerService.
Export TimerRegistryFacts.

(** What [dispatch_one] takes under its first lock. *)
Lemma dispatch_take_spec st now : service_ok None st → Duration.wf now →
  ∃ r st', dispatch_take now st = Done (r, st') ∧
  match r with
  | None => st' = st ∧ ∀ d, armed st d → as_nanos now < as_nanos d
  | Some (i, cb) => taken now st i cb st'
  end.
Proof.
  intros W Wn. unfold dispatch_take. pose proof (select_spec st now W Wn) as S.
  destruct (min_by_key _) as [[[k d] i]|]; [|by eexists None, st].
  destruct S as [e F]. destruct (take_taken st now k e W Wn F) as (s & cb & Ea & Ec & T).
  rewrite (fd_at _ _ _ _ F). simpl. rewrite Ea. simpl. rewrite Ec. simpl. eexists _, _. split; [done|]. exact T.
Qed.

Lemma register_spec fl st p m cb : service_ok fl st → Duration.wf p →
  ∃ r st' woke, register p m cb st = Done (r, st', woke) ∧ op_ok fl st st' woke ∧
  match r with
  | Ok i => i = next_id st ∧ live_ids st' = live_ids st ++ [i] ∧ (i ∉ live_ids st)
  | Err e => st' = st ∧ (e = Error.InvalidParameter ∧ p = Duration.ZERO ∨
                         e = Error.Overflow ∧ next_id st = uint_max 64)
  end.
Proof.
  intros W Wp. unfold register. destruct (TimerState.new p m) as [s|e] eqn:En.
  2:{ eexists _, _, _. split; [done|]. split; [by apply op_same|]. split; [done|]. left.
      unfold TimerState.new in En. case_if; [|done]. split; [done|]. by apply Duration.dur_eqb_eq. }
  pose proof (so_next _ _ W). destruct (checked_add 64 (next_id st) 1) as [nx|] eqn:Ec.
  2:{ eexists _, _, _. split; [done|]. split; [by apply op_same|]. split; [done|]. right.
      apply checked_add_None in Ec. unfold uint_max. split; [done|lia]. }
  apply checked_add_Some in Ec as [-> Ec]. rewrite (proj2 (Z.eqb_neq _ _)) by lia. simpl.
  eexists _, _, _. split; [done|]. destruct (push_ok fl st p m s cb W Wp En Ec) as (? & ? & ? & _). auto.
Qed.

(** *** A round of the worker *)

Section Round.
Context `{Arch}.

Lemma run_round_spec st now now2 :
  service_ok None st → Duration.wf now → PosixTime.valid now2 →
  PosixTime.nanos now2 + 3600 * PosixTime.NSEC ≤ PosixTime.TS_MAX →
  ∃ r st', run_round now now2 st = Done (r, st') ∧ service_ok None st' ∧
    live_ids st' = live_ids st ∧ stop_requested st' = stop_requested st ∧ next_id st' = next_id st ∧
    (∀ d, armed st' d ↔ armed st d) ∧ (∀ e, live e → e ∈ timers st' ↔ e ∈ timers st) ∧
  match r with
  | Leave => stop_requested st = true
  | Wait => stop_requested st = false ∧ ∀ d, ¬ armed st d
  | WaitUntil abs => stop_requested st = false ∧ PosixTime.valid abs ∧ ∀ d, armed st d →
      as_nanos now < as_nanos d ∧
      PosixTime.nanos abs ≤ as_nanos d + (PosixTime.nanos now2 - as_nanos now)
  | Dispatch => stop_requested st = false ∧ ∃ d, armed st d ∧ as_nanos d ≤ as_nanos now
  end.
Proof.
  intros W Wn V Hb. unfold run_round. destruct (stop_requested st) eqn:Es.
  { eexists Leave, st. split_and!; done. }
  pose proof (service_retain_ok _ _ W) as W'. pose proof (live_ids_retain st) as Hl.
  pose proof (earliest_spec _ _ W') as S.
  assert (∀ e, e ∈ timers (retain st) → live e) as Hlive by (intros e [? _]%list_elem_of_filter; done).
  destruct (earliest (timers (retain st))) as [d|].
  - destruct S as (Wd & Hmin & e & He & Ed).
    assert (∀ x, armed st x → as_nanos d ≤ as_nanos x) as Hall.
    { intros x (e' & He' & _ & Ex)%armed_retain. by eapply Hmin. }
    rewrite Duration.dur_leb_nanos by done. case_if; bool_to_prop.
    + eexists Dispatch, _. do 7 (split; [done || apply armed_retain || apply retain_elem|]). split; [done|].
      exists d. split; [|done]. apply armed_retain. exists e. auto.
    + set (sl := Duration.min (Duration.saturating_sub d now) (Duration.from_secs 3600)).
      assert (Duration.wf (Duration.saturating_sub d now)) as Wt by by apply Duration.dur_saturating_sub_wf.
      assert (Duration.wf (Duration.from_secs 3600)) as W3 by (split; simpl; unfold in_uint, Duration.NANOS_PER_SEC; lia).
      assert (Duration.wf sl) as Wsl by (unfold sl, Duration.min; case_if; done).
      assert (as_nanos sl = Z.min (as_nanos d - as_nanos now) (3600 * PosixTime.NSEC)) as Esl.
      { unfold sl. rewrite Duration.dur_min_nanos, Duration.dur_saturating_sub_nanos by done.
        unfold as_nanos at 3, PosixTime.NSEC. simpl. lia. }
      destruct (PosixTime.abs_deadline_spec now2 sl V Wsl) as [(t & -> & Vt & Et)|[_ Ho]]; [|lia].
      eexists (WaitUntil t), _. do 7 (split; [done || apply armed_retain || apply retain_elem|]). split; [done|]. split; [done|].
      intros x Hx. specialize (Hall x Hx). lia.
  - eexists Wait, _. do 7 (split; [done || apply armed_retain || apply retain_elem|]). split; [done|].
    intros x (e & He & _ & Ex)%armed_retain. rewrite S in Ex by done. done.
Qed.

(** A round that finds a due timer, and the take that follows it. *)
Lemma round_then_take st now now2 d :
  service_ok None st → Duration.wf now → PosixTime.valid now2 →
  PosixTime.nanos now2 + 3600 * PosixTime.NSEC ≤ PosixTime.TS_MAX →
  stop_requested st = false → armed st d → as_nanos d ≤ as_nanos now →
  ∃ st1 st2 i cb k e, run_round now now2 st = Done (Dispatch, st1) ∧
    dispatch_take now st1 = Done (Some (i, cb), st2) ∧ taken now st1 i cb st2 ∧
    first_due now st1 k e ∧ id e = i ∧ callback e = Some cb ∧
    (∀ e, live e → e ∈ timers st1 ↔ e ∈ timers st).
Proof.
  intros W Wn V Hb Hst Harm Hdue.
  destruct (run_round_spec st now now2 W Wn V Hb) as (r & st1 & Er & W1 & _ & Hst1 & _ & Ha & Hel & Hr).
  assert (r = Dispatch) as -> by (destruct r; [congruence|by destruct Hr as [_ Hr]; apply Hr in Harm| |done];
    destruct Hr as (_ & _ & Hr); apply Hr in Harm; lia).
  destruct (dispatch_take_spec st1 now W1 Wn) as (r2 & st2 & Et & Hr2). destruct r2 as [[i cb]|].
  - destruct (tk_from _ _ _ _ _ Hr2) as (k & e & F & Hi & Hc). exists st1, st2, i, cb, k, e. by split_and!.
  - destruct Hr2 as [_ Hno]. apply Ha, Hno in Harm. lia.
Qed.

End Round.

End PosixTimerFacts.

(** ** [timer_control.rs] and the service behind it *)

Module PosixTimerControl.
Import PosixTimerService.

(** Where the worker thread of a service is. *)
Inductive worker_pc : Type :=
| AtLock                              (** before the [lock_guard] of a round *)
| Blocked (deadline : option timespec) (** in [wait] or [timed_wait] *)
| AtDispatch                          (** before the first lock of [dispatch_one] *)
| InCallback (i : Z) (cb : TimerCallback)
| AtRestore (i : Z) (cb : TimerCallback) (** before the second lock *)
| Exited.

#[global] Instance worker_pc_eq_dec : EqDecision worker_pc.
Proof. solve_decision. Defined.

(** A [TimerService]: its protected state and the thread that runs it. *)
Record service : Type := mkService { sstate : TimerServiceState; worker : worker_pc }.

(** Services and threads are named by their position in [services]. *)
Inductive ServiceSlot : Type :=
| Stopped
| Running (svc : nat) (thread : nat) (generation : Z)
| Stopping (generation : Z).

Record TimerControlState : Type := mkControlState { slot : ServiceSlot; next_generation : Z }.

(** [ready]: the control mutex has been initialised ([READY]). *)
Record world : Type := mkWorld {
  ready : bool;
  control : TimerControlState;
  services : list service;
}.

Definition init : world := mkWorld false (mkControlState Stopped 1) [].

Definition set_slot (w : world) (s : ServiceSlot) : world :=
  mkWorld (ready w) (mkControlState s (next_generation (control w))) (services w).
Definition set_service (w : world) (k : nat) (sv : service) : world :=
  mkWorld (ready w) (control w) (<[k:=sv]> (services w)).

(** A signal or a broadcast wakes the worker when it waits. *)
Definition notify (woke : bool) (p : worker_pc) : worker_pc :=
  match woke, p with true, Blocked _ => AtLock | _, _ => p end.

(** [with_control]: [rc] is what [pthread_mutex_init] returns, if it is called. *)
Definition with_control {R} (rc : Z) (f : M world (Result R)) : M world (Result R) := λ w,
  if ready w then f w
  else if rc =? 0 then f (mkWorld true (control w) (services w))
  else Done (Err (Error.Internal "timer control mutex init failed"), w).

Definition with_service {R} (rc : Z) (f : TimerServiceState → Run (effect R)) : M world (Result R) :=
  with_control rc (λ w,
    match slot (control w) with
    | Running s _ _ =>
        sv ← expect (services w !! s) "unreachable: the slot owns the service";
        '(r, st, woke) ← f (sstate sv);
        Done (r, set_service w s (mkService st (notify woke (worker sv))))
    | Stopped => Done (Err Error.NotInitialized, w)
    | Stopping _ => Done (Err Error.Busy, w)
    end).

(** [initialize]: with the outcomes of [PosixMutex::new], [PosixCondvar::new]
    and [PosixThread::spawn]. *)
Definition initialize (rc : Z) (mutex condvar spawned : Result ()) : M world (Result ()) :=
  with_control rc (λ w,
    match slot (control w) with
    | Stopped =>
        let generation := next_generation (control w) in
        match checked_add 64 generation 1 with
        | None => Done (Err Error.Overflow, w)
        | Some next =>
            match mutex, condvar, spawned with
            | Err e, _, _ => Done (Err e, w)
            | _, Err e, _ => Done (Err e, w)
            | _, _, Err _ => Done (Err (Error.Internal "timer worker spawn failed"), w)
            | Ok _, Ok _, Ok _ =>
                let k := length (services w) in
                Done (Ok (), mkWorld (ready w) (mkControlState (Running k k generation) next)
                               (services w ++ [mkService new AtLock]))
            end
        end
    | Running _ _ _ => Done (Err Error.AlreadyInitialized, w)
    | Stopping _ => Done (Err Error.Busy, w)
    end).

(** Phase 1 of [shutdown]; [caller] is the worker thread that calls it from a
    callback, if it is one. *)
Definition shutdown_request (rc : Z) (caller : option nat) : M world (Result (nat * Z)) :=
  with_control rc (λ w,
    match slot (control w) with
    | Stopped => Done (Err Error.NotInitialized, w)
    | Stopping _ => Done (Err Error.Busy, w)
    | Running s t g =>
        if bool_decide (caller = Some t) then Done (Err Error.Busy, w)
        else
          sv ← expect (services w !! s) "unreachable: the slot owns the service";
          let st := retain (sstate sv) in
          match timers st with
          | _ :: _ => Done (Err Error.Busy, set_service w s (mkService st (worker sv)))
          | [] =>
              let st := mkState (timers st) (next_id st) true in
              let w := set_service w s (mkService st (notify true (worker sv))) in
              Done (Ok (t, g), set_slot w (Stopping g))
          end
    end).

(** Phase 3, after the join. *)
Definition shutdown_finish (rc : Z) (shut_gen : Z) : M world () := λ w,
  '(r, w) ← with_control rc (λ w,
    match slot (control w) with
    | Stopping g =>
        if g =? shut_gen then Done (Ok (), set_slot w Stopped)
        else Panic "timer shutdown generation invariant violated"
    | _ => Panic "timer shutdown generation invariant violated"
    end) w;
  match r with
  | Ok _ => Done ((), w)
  | Err _ => Panic "timer control unavailable after worker shutdown"
  end.

Definition is_running (rc : Z) : M world bool := λ w,
  '(r, w) ← with_control rc (λ w,
    Done (Ok (match slot (control w) with Running _ _ _ => true | _ => false end), w)) w;
  match r with
  | Ok b => Done (b, w)
  | Err _ => Panic "timer control unavailable during state query"
  end.

(** *** The worker thread: [run] and [dispatch_one], section by section

    [now] and [now2] are the readings of the clock.  A worker that waits or has
    left takes no step of its own. *)
Definition worker_step `{Arch} (now : Duration.t) (now2 : timespec) (sv : service)
    : option (Run service) :=
  match worker sv with
  | AtLock =>
      Some ('(r, st) ← run_round now now2 (sstate sv);
            Done (mkService st match r with
                               | Leave => Exited
                               | Wait => Blocked None
                               | WaitUntil abs => Blocked (Some abs)
                               | Dispatch => AtDispatch
                               end))
  | AtDispatch =>
      Some ('(r, st) ← dispatch_take now (sstate sv);
            Done (mkService st match r with
                               | Some (i, cb) => InCallback i cb
                               | None => AtLock
                               end))
  | InCallback i cb => Some (Done (mkService (sstate sv) (AtRestore i cb)))
  | AtRestore i cb => Some (Done (mkService (dispatch_restore i cb (sstate sv)) AtLock))
  | Blocked _ | Exited => None
  end.

End PosixTimerControl.

(** ** [ensure_init]: one thread initialises the control mutex *)

Module ControlInit.

Definition UNINITIALIZED : Z := 0.
Definition INITIALIZING : Z := 1.
Definition READY : Z := 2.

Definition init_failed : Error.t := Error.Internal "timer control mutex init failed".

(** Between the atomic accesses of [ensure_init]. *)
Inductive pc : Type :=
| AtLoad
| AtCas                (** read [UNINITIALIZED] *)
| AtInit               (** won the exchange *)
| AtStore (rc : Z)     (** [pthread_mutex_init] returned *)
| Returned (r : Result ()).

(** [inits] counts the successful calls of [pthread_mutex_init]. *)
Record config : Type := mkConfig { init_state : Z; inits : nat; threads : list pc }.

Definition with_thread (c : config) (i : nat) (p : pc) : config :=
  mkConfig (init_state c) (inits c) (<[i:=p]> (threads c)).

(** One access by thread [i]; [rc] is what [pthread_mutex_init] returns. *)
Definition step (c : config) (i : nat) (rc : Z) : option (Run config) :=
  match threads c !! i with
  | Some AtLoad =>
      Some (if init_state c =? READY then Done (with_thread c i (Returned (Ok ())))
            else if init_state c =? UNINITIALIZED then Done (with_thread c i AtCas)
            else if init_state c =? INITIALIZING then Done (with_thread c i AtLoad)
            else Panic "internal error: entered unreachable code")
  | Some AtCas =>
      Some (if init_state c =? UNINITIALIZED
            then Done (mkConfig INITIALIZING (inits c) (<[i:=AtInit]> (threads c)))
            else Done (with_thread c i AtLoad))
  | Some AtInit =>
      Some (Done (mkConfig (init_state c) (if rc =? 0 then S (inits c) else inits c)
                    (<[i:=AtStore rc]> (threads c))))
  | Some (AtStore rc) =>
      Some (Done (if rc =? 0
                  then mkConfig READY (inits c) (<[i:=Returned (Ok ())]> (threads c))
                  else mkConfig UNINITIALIZED (inits c)
                         (<[i:=Returned (Err init_failed)]> (threads c))))
  | _ => None
  end.

Inductive reachable (n : nat) : config → Prop :=
| ci_init : reachable n (mkConfig UNINITIALIZED 0 (replicate n AtLoad))
| ci_step c i rc c' : reachable n c → step c i rc = Some (Done c') → reachable n c'.

(** A thread that calls [pthread_mutex_init] or has just called it. *)
Definition initialising (p : pc) : bool := match p with AtInit | AtStore _ => true | _ => false end.
Definition initialised (p : pc) : bool := match p with AtStore rc => rc =? 0 | _ => false end.
Definition returned_ok (p : pc) : bool := match p with Returned (Ok _) => true | _ => false end.

Record inv (c : config) : Prop := {
  ci_state : init_state c = UNINITIALIZED ∧ countb initialising (threads c) = 0%nat ∧ inits c = 0%nat ∨
             init_state c = INITIALIZING ∧ countb initialising (threads c) = 1%nat ∧
               inits c = countb initialised (threads c) ∨
             init_state c = READY ∧ countb initialising (threads c) = 0%nat ∧ inits c = 1%nat;
  ci_ret : (0 < countb returned_ok (threads c))%nat → init_state c = READY;
}.

Lemma initialised_initialising p : initialised p = true → initialising p = true.
Proof. by destruct p. Qed.

(** A schedule: thread and native return code of each access. *)
Fixpoint run_steps (c : config) (es : list (nat * Z)) : option config :=
  match es with
  | [] => Some c
  | (i, rc) :: es => match step c i rc with Some (Done c') => run_steps c' es | _ => None end
  end.

Lemma run_steps_reachable n es : ∀ c c', reachable n c → run_steps c es = Some c' → reachable n c'.
Proof.
  induction es as [|[i rc] es IH]; intros c c' R E; simpl in E; [by simplify_eq|].
  destruct (step c i rc) as [[c1| |]|] eqn:Ex; try done. eapply IH; [|done]. by eapply ci_step.
Qed.

Ltac ci_lia := unfold UNINITIALIZED, INITIALIZING, READY in *; lia.

Lemma ensure_init_step c i rc : inv c → step c i rc = None ∨ ∃ c', step c i rc = Some (Done c') ∧ inv c'.
Proof.
  intros [Hs Hr]. unfold step. destruct (threads c !! i) as [p|] eqn:E; [|by left].
  pose proof (λ q, countb_insert initialising _ i p q E) as C1.
  pose proof (λ q, countb_insert initialised _ i p q E) as C2.
  pose proof (λ q, countb_insert returned_ok _ i p q E) as C3.
  pose proof (countb_mono initialised initialising (threads c) initialised_initialising) as Hle.
  pose proof (λ H, countb_pos initialising _ i p E H) as P1.
  pose proof (λ H, countb_pos initialised _ i p E H) as P2.
  unfold UNINITIALIZED, INITIALIZING, READY in *.
  destruct p as [| | |rc'|r]; [right..|by left]; cbn [initialising initialised returned_ok] in *.
  - specialize (C1 (Returned (Ok ()))) as C1r. specialize (C1 AtCas) as C1c. specialize (C1 AtLoad) as C1l.
    specialize (C2 (Returned (Ok ()))) as C2r. specialize (C2 AtCas) as C2c. specialize (C2 AtLoad) as C2l.
    specialize (C3 (Returned (Ok ()))) as C3r. specialize (C3 AtCas) as C3c. specialize (C3 AtLoad) as C3l.
    simpl in *. destruct Hs as [(Es & ? & ?)|[(Es & ? & ?)|(Es & ? & ?)]]; rewrite Es in *; simpl; eexists; (split; [done|]); split; simpl; ci_lia.
  - specialize (C1 AtInit) as C1i. specialize (C1 AtLoad) as C1l. specialize (C2 AtInit) as C2i.
    specialize (C2 AtLoad) as C2l. specialize (C3 AtInit) as C3i. specialize (C3 AtLoad) as C3l.
    simpl in *. destruct Hs as [(Es & ? & ?)|[(Es & ? & ?)|(Es & ? & ?)]]; rewrite Es in *; simpl; eexists; (split; [done|]); split; simpl; ci_lia.
  - eexists. split; [done|]. specialize (C1 (AtStore rc)). specialize (C2 (AtStore rc)). specialize (C3 (AtStore rc)).
    specialize (P1 eq_refl). simpl in *. destruct (rc =? 0) eqn:Er; split; simpl in *; ci_lia.
  - specialize (P1 eq_refl).
    specialize (C1 (Returned (Ok ()))) as C1r.
    specialize (C1 (Returned (Err init_failed))) as C1e.
    specialize (C2 (Returned (Ok ()))) as C2r.
    specialize (C2 (Returned (Err init_failed))) as C2e.
    specialize (C3 (Returned (Err init_failed))) as C3e.
    pose proof (countb_mono initialised initialising (<[i:=Returned (Err init_failed)]> (threads c)) initialised_initialising).
    clear C1 C2. simpl in *. destruct (rc' =? 0) eqn:Er; simpl in *; (eexists; split; [done|]); split; simpl in *; ci_lia.
Qed.

Lemma ensure_init_inv n c : reachable n c → inv c.
Proof.
  induction 1 as [|c i rc c' _ IH E].
  - assert (∀ f, f AtLoad = false → countb f (replicate n AtLoad) = 0%nat) as Hz.
    { intros f Hf. apply countb_zero, Forall_replicate. done. }
    split; simpl; rewrite ?Hz by done; [left; done|lia].
  - destruct (ensure_init_step c i rc IH) as [E'|(c1 & E' & I)]; rewrite E' in E; [done|]. by injection E as <-.
Qed.

(** However many threads race into [ensure_init] and however often the
    native initialisation fails, at most one thread at a time calls
    [pthread_mutex_init], it succeeds at most once, a thread that returns [Ok]
    finds the mutex initialised, and the unreachable branch is not reached. *)
Theorem timer_control_init_once n c : reachable n c →
  (countb initialising (threads c) ≤ 1)%nat ∧ (inits c ≤ 1)%nat ∧
  (∀ i r, threads c !! i = Some (Returned r) → r = Ok () → init_state c = READY ∧ inits c = 1%nat) ∧
  (∀ i rc, step c i rc = None ∨ ∃ c', step c i rc = Some (Done c')).
Proof.
  intros R. pose proof (ensure_init_inv n c R) as I. pose proof I as [Hs Hr].
  pose proof (countb_mono initialised initialising (threads c) initialised_initialising) as Hle.
  unfold READY, UNINITIALIZED, INITIALIZING in *.
  split; [lia|]. split; [lia|]. split.
  - intros i r E ->. pose proof (countb_pos returned_ok _ i _ E eq_refl). lia.
  - intros i rc. destruct (ensure_init_step c i rc I) as [?|(c' & ? & _)]; eauto.
Qed.

(** Two threads race; the winner's initialisation fails, the other one's
    succeeds. *)
Definition sample_race : list (nat * Z) :=
  (λ '(i, rc), (Z.to_nat i, rc)) <$>
  [(0, 0); (1, 0); (0, 0); (1, 0); (0, 12); (1, 0); (0, 0); (1, 0); (1, 0); (1, 0); (1, 0)].

Lemma timer_control_init_once_witness :
  ∃ c, run_steps (mkConfig UNINITIALIZED 0 (replicate 2 AtLoad)) sample_race = Some c ∧
       threads c = [Returned (Err init_failed); Returned (Ok ())] ∧ (inits c ≤ 1)%nat ∧ init_state c = READY.
Proof.
  set (c := mkConfig READY 1 [Returned (Err init_failed); Returned (Ok ())]).
  assert (run_steps (mkConfig UNINITIALIZED 0 (replicate 2 AtLoad)) sample_race = Some c) as E
    by (vm_compute; reflexivity).
  destruct (timer_control_init_once 2 c) as (_ & Hi & Hr & _).
  - exact (run_steps_reachable 2 _ _ _ (ci_init 2) E).
  - exists c. split; [exact E|]. split; [reflexivity|]. split; [exact Hi|].
    exact (proj1 (Hr 1%nat (Ok ()) eq_refl eq_refl)).
Defined.

End ControlInit.
