(* ===== verification/PosixTimerMachine.v ===== *)
(** * POSIX timers, their service and the runtime together

    [timer.rs] and [runtime.rs] of the POSIX backend over the service of
    [PosixTimer]: any number of threads start and stop the runtime, create,
    use, clone and drop timers, the callbacks do the same from the worker
    thread, and the worker runs between them.

    Each step is one locked section, one transition of the lifecycle word, or a
    wake-up.  A wait may end at any time (a signal, its deadline, or spuriously).
    [pthread_join] on the joinable worker succeeds once the worker has left. *)

From S2P Require Import Prelude Api Time Runtime PosixSys TimerRegistry PosixTimer.
Import PosixTime (timespec, mkTimespec, tv_sec, tv_nsec).
Import Duration (as_nanos).
Import RuntimeLifecycle (run_loop, acquire_body, lease_drop_body, begin_shutdown_body,
  begin_initialize, commit_initialize, drop_initialize, commit_shutdown, drop_shutdown, pack, MAX_COUNT).
Import PosixTimerService PosixTimerControl PosixTimerFacts.

(** ** [timer.rs] *)

Module PosixTimer.

Definition start (rc : Z) (i : Z) (now : Duration.t) : M world (Result ()) :=
  with_service rc (PosixTimerService.start i now).
Definition stop (rc : Z) (i : Z) : M world (Result ()) :=
  with_service rc (PosixTimerService.stop i).
Definition reset (rc : Z) (i : Z) (now : Duration.t) : M world (Result ()) :=
  with_service rc (PosixTimerService.reset i now).
Definition change_period (rc : Z) (i : Z) (new_period : Duration.t) : M world (Result ()) :=
  if Duration.eqb new_period Duration.ZERO then mret_ (Err Error.InvalidParameter)
  else with_service rc (PosixTimerService.change_period i new_period).

End PosixTimer.

(** ** The machine *)

Module TimerMachine.
Section TimerMachine.
Context `{Arch}.

(** A call of [runtime::initialize] or [runtime::shutdown] under way. *)
Inductive transition : Type :=
| TInit                          (** [begin_initialize] succeeded *)
| TInitEnd (r : Result ())         (** [timer_service::initialize] returned *)
| TShut (caller : option nat)      (** [begin_shutdown] succeeded *)
| TJoin (thread : nat) (g : Z)     (** phase 1 succeeded *)
| TJoined (g : Z)                  (** phase 2 succeeded *)
| TShutEnd (r : Result ()).        (** [timer_service::shutdown] returned *)

(** A constructor or a drop under way; each holds a lease. *)
Inductive pending : Type :=
| Registering (p : Duration.t) (m : TimerMode.t) (cb : TimerCallback)
| Deregistering (i : Z)
| Releasing.

(** [handles]: the live [PosixTimerHandleInner]s, with the number of further
    clones of each; [others]: the leases of other objects. *)
Record config : Type := mkConfig {
  life : Z;
  wld : world;
  clock : timespec;
  transitions : list transition;
  calls : list pending;
  handles : list (Z * nat);
  others : nat;
}.

Definition start_config (now : timespec) : config :=
  mkConfig RuntimeLifecycle.new init now [] [] [] 0.

Inductive timer_op : Type := Start | Stop | Reset | ChangePeriod (p : Duration.t).

Inductive event : Type :=
| Tick (now : timespec)
| Worker (k : nat) (now2 : timespec)
| Unblock (k : nat)
| BeginInitialize
| BeginShutdown (caller : option nat)
| Transition (i : nat) (rc : Z) (mutex condvar spawned : Result ())
| New (p : Duration.t) (m : TimerMode.t) (cb : TimerCallback)
| Pending (i : nat) (rc : Z)
| Op (h : nat) (rc : Z) (o : timer_op)
| Clone (h : nat)
| Drop (h : nat)
| AcquireOther
| ReleaseOther.

(** [monotonic_now] for a reading of the clock. *)
Definition duration_of (ts : timespec) : Run Duration.t :=
  Duration.new (tv_sec ts mod 2 ^ 64) (tv_nsec ts mod 2 ^ 32).

Definition set_wld (c : config) (w : world) : config :=
  mkConfig (life c) w (clock c) (transitions c) (calls c) (handles c) (others c).
Definition set_life (c : config) (l : Z) : config :=
  mkConfig l (wld c) (clock c) (transitions c) (calls c) (handles c) (others c).
Definition set_clock (c : config) (ts : timespec) : config :=
  mkConfig (life c) (wld c) ts (transitions c) (calls c) (handles c) (others c).
Definition set_transitions (c : config) (l : list transition) : config :=
  mkConfig (life c) (wld c) (clock c) l (calls c) (handles c) (others c).
Definition set_calls (c : config) (l : list pending) : config :=
  mkConfig (life c) (wld c) (clock c) (transitions c) l (handles c) (others c).
Definition set_handles (c : config) (l : list (Z * nat)) : config :=
  mkConfig (life c) (wld c) (clock c) (transitions c) (calls c) l (others c).
Definition set_others (c : config) (n : nat) : config :=
  mkConfig (life c) (wld c) (clock c) (transitions c) (calls c) (handles c) n.

(** [runtime.rs]: [initialize] and [shutdown] after their first step. *)
Definition transition_step (c : config) (i : nat) (rc : Z) (mutex condvar spawned : Result ())
    (t : transition) : option (Run config) :=
  let continue t' := set_transitions c (<[i:=t']> (transitions c)) in
  let return_ := set_transitions c (delete i (transitions c)) in
  match t with
  | TInit => Some ('(r, w) ← initialize rc mutex condvar spawned (wld c);
                   Done (set_wld (continue (TInitEnd r)) w))
  | TInitEnd (Ok _) => Some (l ← commit_initialize (life c); Done (set_life return_ l))
  | TInitEnd (Err _) => Some (l ← drop_initialize (life c); Done (set_life return_ l))
  | TShut caller => Some ('(r, w) ← shutdown_request rc caller (wld c);
                          Done (set_wld (continue match r with
                                                  | Ok (t, g) => TJoin t g
                                                  | Err e => TShutEnd (Err e)
                                                  end) w))
  | TJoin t g =>
      match services (wld c) !! t with
      | Some (mkService _ Exited) => Some (Done (continue (TJoined g)))
      | _ => None
      end
  | TJoined g => Some ('(_, w) ← shutdown_finish rc g (wld c);
                       Done (set_wld (continue (TShutEnd (Ok ()))) w))
  | TShutEnd (Ok _) => Some (l ← commit_shutdown (life c); Done (set_life return_ l))
  | TShutEnd (Err _) => Some (l ← drop_shutdown (life c); Done (set_life return_ l))
  end.

(** [timer.rs]: [new] after its lease, and the drop of the handle. *)
Definition pending_step (c : config) (i : nat) (rc : Z) (p : pending) : Run config :=
  match p with
  | Registering period m cb =>
      '(r, w) ← with_service rc (register period m cb) (wld c);
      Done (set_wld match r with
                    | Ok x => set_handles (set_calls c (delete i (calls c))) (handles c ++ [(x, 0%nat)])
                    | Err _ => set_calls c (<[i:=Releasing]> (calls c))
                    end w)
  | Deregistering x =>
      '(r, w) ← with_service rc (deregister x) (wld c);
      _ ← rassert (is_ok r) "live timer deregistration failed";
      Done (set_wld (set_calls c (<[i:=Releasing]> (calls c))) w)
  | Releasing =>
      '(_, l) ← run_loop lease_drop_body 0 (life c);
      Done (set_life (set_calls c (delete i (calls c))) l)
  end.

Definition op_run (rc : Z) (i : Z) (now : Duration.t) (o : timer_op) : M world (Result ()) :=
  match o with
  | Start => PosixTimer.start rc i now
  | Stop => PosixTimer.stop rc i
  | Reset => PosixTimer.reset rc i now
  | ChangePeriod p => PosixTimer.change_period rc i p
  end.

Definition exec (c : config) (e : event) : option (Run config) :=
  match e with
  | Tick now => Some (Done (set_clock c now))
  | Worker k now2 =>
      sv ← services (wld c) !! k;
      match duration_of (clock c) with
      | Done now =>
          r ← worker_step now now2 sv;
          Some (sv' ← r; Done (set_clock (set_wld c (set_service (wld c) k sv')) now2))
      | Panic s => Some (Panic s)
      | NoFuel => Some NoFuel
      end
  | Unblock k =>
      match services (wld c) !! k with
      | Some (mkService st (Blocked _)) =>
          Some (Done (set_wld c (set_service (wld c) k (mkService st AtLock))))
      | _ => None
      end
  | BeginInitialize =>
      Some ('(r, l) ← begin_initialize (life c);
            Done (set_transitions (set_life c l) (transitions c ++ if is_ok r then [TInit] else [])))
  | BeginShutdown caller =>
      Some ('(r, l) ← run_loop begin_shutdown_body 0 (life c);
            Done (set_transitions (set_life c l) (transitions c ++ if is_ok r then [TShut caller] else [])))
  | Transition i rc mutex condvar spawned =>
      t ← transitions c !! i; transition_step c i rc mutex condvar spawned t
  | New p m cb =>
      if Duration.eqb p Duration.ZERO then Some (Done c)
      else Some ('(r, l) ← run_loop acquire_body 0 (life c);
                 Done (set_calls (set_life c l) (calls c ++ if is_ok r then [Registering p m cb] else [])))
  | Pending i rc => p ← calls c !! i; Some (pending_step c i rc p)
  | Op h rc o =>
      '(x, _) ← handles c !! h;
      Some (now ← duration_of (clock c); '(_, w) ← op_run rc x now o (wld c); Done (set_wld c w))
  | Clone h =>
      '(x, n) ← handles c !! h; Some (Done (set_handles c (<[h:=(x, S n)]> (handles c))))
  | Drop h =>
      '(x, n) ← handles c !! h;
      match n with
      | S n => Some (Done (set_handles c (<[h:=(x, n)]> (handles c))))
      | O => Some (Done (set_calls (set_handles c (delete h (handles c))) (calls c ++ [Deregistering x])))
      end
  | AcquireOther =>
      Some ('(r, l) ← run_loop acquire_body 0 (life c);
            Done (set_others (set_life c l) (if is_ok r then S (others c) else others c)))
  | ReleaseOther =>
      match others c with
      | O => None
      | S n => Some ('(_, l) ← run_loop lease_drop_body 0 (life c); Done (set_others (set_life c l) n))
      end
  end.

(** *** Time

    A clock reading far enough from the end of [time_t] for the one-hour slice
    the worker waits at most. *)
Definition time_ok (ts : timespec) : Prop :=
  PosixTime.valid ts ∧ PosixTime.nanos ts + 3600 * PosixTime.NSEC ≤ PosixTime.TS_MAX.

Lemma duration_of_spec ts : PosixTime.valid ts →
  ∃ d, duration_of ts = Done d ∧ Duration.wf d ∧ as_nanos d = PosixTime.nanos ts.
Proof.
  intros [Hs Hn]. pose proof PosixTime.TIME_MAX_range. unfold PosixTime.NSEC, Duration.NANOS_PER_SEC in *.
  unfold duration_of. rewrite !Z.mod_small by lia. rewrite Duration.dur_new_small by (unfold Duration.NANOS_PER_SEC; lia).
  eexists. split; [done|]. split; [split; simpl; unfold in_uint, Duration.NANOS_PER_SEC; lia|done].
Qed.

(** The time between the two clock readings of a worker's round. *)
Context (gap : Z).

Definition event_ok (c : config) (e : event) : Prop :=
  match e with
  | Tick now => time_ok now ∧ PosixTime.nanos (clock c) ≤ PosixTime.nanos now
  | Worker _ now2 => time_ok now2 ∧
      PosixTime.nanos (clock c) ≤ PosixTime.nanos now2 ≤ PosixTime.nanos (clock c) + gap
  | BeginShutdown (Some k) => ∃ st i cb, services (wld c) !! k = Some (mkService st (InCallback i cb))
  | New p _ _ | Op _ _ (ChangePeriod p) => Duration.wf p
  | _ => True
  end.

Inductive reachable : config → Prop :=
| tm_init now : time_ok now → reachable (start_config now)
| tm_step c e c' : reachable c → event_ok c e → exec c e = Some (Done c') → reachable c'.

(** *** The invariant *)

Definition flight (p : worker_pc) : option Z :=
  match p with InCallback i _ | AtRestore i _ => Some i | _ => None end.

(** A waiting worker wakes up in time for every armed timer. *)
Definition sleeps (p : worker_pc) (st : TimerServiceState) : Prop :=
  match p with
  | Blocked o => stop_requested st = false ∧ ∀ d, armed st d →
      ∃ abs, o = Some abs ∧ PosixTime.nanos abs ≤ as_nanos d + gap
  | Exited => stop_requested st = true
  | _ => True
  end.

Record sv_ok (sv : service) : Prop := {
  sv_service : service_ok (flight (worker sv)) (sstate sv);
  sv_sleeps : sleeps (worker sv) (sstate sv);
  sv_stop : stop_requested (sstate sv) = true → live_ids (sstate sv) = [];
}.

(** The only service whose worker may be alive. *)
Definition active (w : world) (ts : list transition) : option nat :=
  match slot (control w) with
  | Running k _ _ => Some k
  | Stopping _ => match ts with [TJoin t _] => Some t | _ => None end
  | Stopped => None
  end.

(** The service is up and its live timers are those of [own]. *)
Definition up (own : list Z) (w : world) : Prop :=
  ∃ k g sv, slot (control w) = Running k k g ∧ services w !! k = Some sv ∧
    stop_requested (sstate sv) = false ∧ live_ids (sstate sv) ≡ₚ own.

Definition down (w : world) : Prop := slot (control w) = Stopped.

Definition phase_ok (st : RuntimeState.t) (ts : list transition) (own : list Z) (w : world) : Prop :=
  match st with
  | RuntimeState.Uninitialized => ts = [] ∧ down w
  | RuntimeState.Initializing =>
      ts = [TInit] ∧ down w ∨ ∃ r, ts = [TInitEnd r] ∧ if is_ok r then up own w else down w
  | RuntimeState.Running => ts = [] ∧ up own w
  | RuntimeState.ShuttingDown =>
      (∃ caller, ts = [TShut caller] ∧ up own w) ∨
      (∃ t g sv, ts = [TJoin t g] ∧ slot (control w) = Stopping g ∧ services w !! t = Some sv ∧
                 stop_requested (sstate sv) = true) ∨
      (∃ g, ts = [TJoined g] ∧ slot (control w) = Stopping g) ∨
      ∃ r, ts = [TShutEnd r] ∧ if is_ok r then down w else up own w
  end.

Definition dereg (p : pending) : option Z := match p with Deregistering i => Some i | _ => None end.
Definition owned (c : config) : list Z := (fst <$> handles c) ++ omap dereg (calls c).
Definition leases (c : config) : nat := (length (handles c) + length (calls c) + others c)%nat.

Definition call_ok (p : pending) : Prop :=
  match p with Registering period _ _ => Duration.wf period | _ => True end.

Definition life_ok (c : config) : Prop :=
  ∃ st n, life c = pack st n ∧ 0 ≤ n ≤ MAX_COUNT ∧ n = Z.of_nat (leases c) ∧
    (st ≠ RuntimeState.Running → n = 0) ∧ phase_ok st (transitions c) (owned c) (wld c).

Record inv (c : config) : Prop := {
  i_life : life_ok c;
  i_clock : time_ok (clock c);
  i_ready : slot (control (wld c)) ≠ Stopped → ready (wld c) = true;
  i_services : ∀ k sv, services (wld c) !! k = Some sv →
    sv_ok sv ∧ (worker sv ≠ Exited → active (wld c) (transitions c) = Some k);
  i_calls : Forall call_ok (calls c);
}.

Lemma timer_inv_init now : time_ok now → inv (start_config now).
Proof.
  intros T. split; simpl; try done. exists RuntimeState.Uninitialized, 0.
  pose proof RuntimeLifecycle.zero_le_MAX_COUNT. split_and!; try done; lia.
Qed.

(** *** Steps of the services *)

Lemma worker_step_ok now now2 sv :
  sv_ok sv → Duration.wf now → time_ok now2 →
  PosixTime.nanos now2 ≤ as_nanos now + gap →
  worker_step now now2 sv = None ∨
  ∃ sv', worker_step now now2 sv = Some (Done sv') ∧ sv_ok sv' ∧
    live_ids (sstate sv') = live_ids (sstate sv) ∧
    stop_requested (sstate sv') = stop_requested (sstate sv) ∧ worker sv ≠ Exited.
Proof.
  intros [W Sl St] Wn [V Hb] Hg. destruct sv as [st p]. unfold worker_step. simpl in *.
  destruct p as [|o| |i cb|i cb|]; try (by left); right; simpl in *.
  - destruct (run_round_spec st now now2 W Wn V Hb) as (r & st' & -> & W' & Hl & Hs & _ & Ha & _ & Hr).
    simpl. eexists. split; [done|]. split; [|done]. rewrite <- Hl, <- Hs in St.
    destruct r as [| |abs|]; split; simpl; try done; rewrite ?Hs.
    + done.
    + destruct Hr as [? Hn]. split; [done|]. intros d Hd. by apply Ha, Hn in Hd.
    + destruct Hr as (? & _ & Hn). split; [done|]. intros d Hd. exists abs. split; [done|].
      apply Ha, Hn in Hd. lia.
  - destruct (dispatch_take_spec st now W Wn) as (r & st' & -> & Hr). simpl. eexists. split; [done|].
    destruct r as [[i cb]|]; [|by destruct Hr as [-> _]]. destruct Hr as [W' Hl Hs _ _ _].
    split; [|done]. rewrite <- Hl, <- Hs in St. by split.
  - eexists. split; [done|]. by split.
  - destruct (restore_spec st i cb W) as (W' & Hl & Hs & _).
    eexists. split; [done|]. split; [|done]. rewrite <- Hl, <- Hs in St. by split.
Qed.

(** An operation on the service. *)
Lemma op_sv_ok sv st' woke :
  sv_ok sv → op_ok (flight (worker sv)) (sstate sv) st' woke → stop_requested (sstate sv) = false →
  sv_ok (mkService st' (notify woke (worker sv))).
Proof.
  intros [W Sl St] [Ok Os On Ow] Hs. destruct sv as [st p]. simpl in *.
  assert (flight (notify woke p) = flight p) as Ef by (by destruct woke, p).
  split; simpl; [by rewrite Ef| |congruence].
  destruct p as [|o| | | |]; try (by destruct woke); simpl in *.
  - destruct woke; simpl; [done|]. destruct Ow as [?|Ha]; [done|]. destruct Sl as [? Sl]. split; [congruence|]. auto.
  - congruence.
Qed.

(** *** Steps of the configuration *)

(** A service that keeps its live timers. *)
Lemma phase_set_service st ts own w k sv sv' :
  phase_ok st ts own w → services w !! k = Some sv →
  live_ids (sstate sv') = live_ids (sstate sv) →
  stop_requested (sstate sv') = stop_requested (sstate sv) →
  phase_ok st ts own (set_service w k sv').
Proof.
  intros P E El Es.
  assert (up own w → up own (set_service w k sv')) as Hup.
  { intros (k1 & g & s1 & Hs & E1 & Hst & Hl). destruct (decide (k = k1)) as [<-|Hne].
    - exists k, g, sv'. simplify_eq. split; [done|]. split; [|by rewrite Es, El].
      apply list_lookup_insert_eq. by eapply lookup_lt_Some.
    - exists k1, g, s1. split; [done|]. split; [|done]. simpl. by rewrite list_lookup_insert_ne. }
  destruct st; simpl in *.
  - done.
  - destruct P as [P|(r & -> & P)]; [by left|right]. exists r. split; [done|]. destruct (is_ok r); auto.
  - destruct P as [-> P]. auto.
  - destruct P as [(cl & -> & P)|[(t & g & s1 & -> & Hs & E1 & Hst)|[P|(r & -> & P)]]].
    + left. exists cl. auto.
    + right. left. destruct (decide (k = t)) as [<-|Hne].
      * exists k, g, sv'. simplify_eq. split_and!; try done; [|congruence].
        apply list_lookup_insert_eq. by eapply lookup_lt_Some.
      * exists t, g, s1. split_and!; try done. by rewrite list_lookup_insert_ne.
    + right. right. by left.
    + do 3 right. exists r. split; [done|]. destruct (is_ok r); auto.
Qed.

Lemma inv_set_service c k sv sv' :
  inv c → services (wld c) !! k = Some sv → sv_ok sv' →
  live_ids (sstate sv') = live_ids (sstate sv) →
  stop_requested (sstate sv') = stop_requested (sstate sv) →
  (worker sv' ≠ Exited → worker sv ≠ Exited) → inv (set_wld c (set_service (wld c) k sv')).
Proof.
  intros [(st & n & El & Hn & Hl & H0 & P) Ic Ir Is Iw] E W' Hli Hst Hx. split; simpl; try done.
  - exists st, n. do 4 (split; [done|]). by apply (phase_set_service _ _ _ _ k sv).
  - intros k' s' [(<- & <- & _)|[Hne E']]%list_lookup_insert_Some; [|by apply Is].
    split; [done|]. intros Hw. apply (Is k sv E). auto.
Qed.

(** An operation while the service is up. *)
Lemma with_service_up {R} rc own w (f : TimerServiceState → Run (effect R)) :
  up own w → ready w = true →
  ∃ k g sv, slot (control w) = Running k k g ∧ services w !! k = Some sv ∧
    stop_requested (sstate sv) = false ∧ live_ids (sstate sv) ≡ₚ own ∧
    ∀ r st' woke, f (sstate sv) = Done (r, st', woke) →
      with_service rc f w = Done (r, set_service w k (mkService st' (notify woke (worker sv)))).
Proof.
  intros (k & g & sv & Hs & E & Hst & Hl) Hr. exists k, g, sv. do 4 (split; [done|]).
  intros r st' woke Hf. unfold with_service, with_control. rewrite Hr, Hs, E. simpl. by rewrite Hf.
Qed.

(** The services after an operation on the one that is up. *)
Lemma services_after_op c k g sv st' woke :
  inv c → slot (control (wld c)) = Running k k g → services (wld c) !! k = Some sv →
  stop_requested (sstate sv) = false → op_ok (flight (worker sv)) (sstate sv) st' woke →
  ∀ k' s', services (set_service (wld c) k (mkService st' (notify woke (worker sv)))) !! k' = Some s' →
    sv_ok s' ∧ (worker s' ≠ Exited → active (wld c) (transitions c) = Some k').
Proof.
  intros I Hs E Hst O k' s'. simpl.
  intros [(<- & <- & _)|[Hne E']]%list_lookup_insert_Some; [|by apply I].
  destruct (i_services _ I k sv E) as [Wsv _]. split; [by apply op_sv_ok|]. intros _.
  unfold active. by rewrite Hs.
Qed.

(** While anything holds a lease the runtime is running. *)
Lemma leases_running c : inv c → (0 < leases c)%nat →
  life c = pack RuntimeState.Running (Z.of_nat (leases c)) ∧ Z.of_nat (leases c) ≤ MAX_COUNT ∧
  transitions c = [] ∧ up (owned c) (wld c) ∧ ready (wld c) = true.
Proof.
  intros [(st & n & El & Hn & Hl & H0 & P) _ Ir _ _] Hpos.
  destruct st; try (specialize (H0 ltac:(done)); lia). destruct P as [Ht U]. rewrite <- Hl.
  do 3 (split; [done || lia|]). split; [done|]. apply Ir.
  destruct U as (k & g & sv & -> & _). done.
Qed.

(** The lifecycle word. *)
Lemma acquire_life c : inv c →
  (∃ e, run_loop acquire_body 0 (life c) = Done (Err e, life c)) ∨
  (∃ n, n = Z.of_nat (leases c) ∧ life c = pack RuntimeState.Running n ∧ n < MAX_COUNT ∧
     run_loop acquire_body 0 (life c) = Done (Ok (), pack RuntimeState.Running (n + 1)) ∧
     transitions c = [] ∧ up (owned c) (wld c)).
Proof.
  intros [(st & n & El & Hn & Hl & H0 & P) _ _ _ _]. rewrite El.
  rewrite (RuntimeLifecycle.run_loop_spec _ _ _ _ (RuntimeLifecycle.acquire_body_spec st n Hn)).
  destruct st; try (left; by eexists). case_if; [|left; by eexists]. right. bool_to_prop.
  exists n. destruct P. by split_and!.
Qed.

Lemma release_life c : inv c → (0 < leases c)%nat →
  run_loop lease_drop_body 0 (life c) = Done (Ok (), pack RuntimeState.Running (Z.of_nat (leases c) - 1)).
Proof.
  intros I Hp. destruct (leases_running c I Hp) as (-> & Hm & _).
  assert (0 < Z.of_nat (leases c) ≤ MAX_COUNT) as Hn by lia.
  by rewrite (RuntimeLifecycle.run_loop_spec _ _ _ _ (RuntimeLifecycle.lease_drop_body_spec _ Hn)).
Qed.

(** The timers awaiting their deregistration. *)
Lemma dereg_delete l i p : l !! i = Some p →
  omap dereg l ≡ₚ option_list (dereg p) ++ omap dereg (delete i l) ∧
  omap dereg (<[i:=Releasing]> l) = omap dereg (delete i l) ∧ length l = S (length (delete i l)).
Proof.
  intros E. rewrite delete_take_drop, insert_take_drop by (by eapply lookup_lt_Some).
  split_and!.
  - rewrite <- (take_drop_middle _ _ _ E) at 1. rewrite !omap_app. simpl.
    destruct (dereg p); simpl; [|done]. symmetry. apply Permutation_middle.
  - rewrite !omap_app. done.
  - rewrite <- (take_drop_middle _ _ _ E) at 1. rewrite !length_app. simpl. lia.
Qed.

(** *** Starting and stopping the runtime *)

Lemma initialize_spec rc mutex condvar spawned w : down w →
  ∃ r w', initialize rc mutex condvar spawned w = Done (r, w') ∧
  match r with
  | Ok _ => ready w' = true ∧ services w' = services w ++ [mkService new AtLock] ∧
            ∃ g, slot (control w') = Running (length (services w)) (length (services w)) g
  | Err _ => services w' = services w ∧ down w'
  end.
Proof.
  intros D. unfold initialize, with_control. destruct w as [rd [sl ng] svs]. unfold down in *. simpl in *. subst sl.
  destruct rd; [|destruct (rc =? 0)]; simpl; [| |by eexists _, _];
    (destruct (checked_add 64 ng 1); [|by eexists _, _]);
    (destruct mutex as [[]|], condvar as [[]|], spawned as [[]|]; eexists _, _; (split; [done|]); simpl; eauto).
Qed.

(** With no live timer the request fails only for the worker itself. *)
Lemma shutdown_request_spec rc caller w : up [] w → ready w = true →
  ∃ k g sv, slot (control w) = Running k k g ∧ services w !! k = Some sv ∧
    stop_requested (sstate sv) = false ∧
    shutdown_request rc caller w = Done
      (if bool_decide (caller = Some k) then (Err Error.Busy, w)
       else (Ok (k, g), set_slot (set_service w k
               (mkService (mkState [] (next_id (sstate sv)) true) (notify true (worker sv)))) (Stopping g))).
Proof.
  intros (k & g & sv & Hs & E & Hst & Hl) Hr. exists k, g, sv. do 3 (split; [done|]).
  unfold shutdown_request, with_control. rewrite Hr, Hs, E. case_bool_decide; [done|]. simpl.
  assert (filter live (timers (sstate sv)) = []) as ->; [|done].
  apply Permutation_nil_r in Hl. by apply fmap_nil_inv in Hl.
Qed.

Lemma leases_none c : leases c = 0%nat → handles c = [] ∧ calls c = [] ∧ owned c = [].
Proof.
  unfold leases, owned. intros E. destruct (handles c), (calls c); simpl in *; done || lia.
Qed.

(** A service that is told to stop. *)
Lemma stopped_sv_ok sv : sv_ok sv → stop_requested (sstate sv) = false →
  sv_ok (mkService (mkState [] (next_id (sstate sv)) true) (notify true (worker sv))).
Proof.
  intros [W Sl St] Hs. assert (flight (notify true (worker sv)) = flight (worker sv)) as Ef by (by destruct (worker sv)).
  split; cbn [worker sstate]; [|by destruct (worker sv)|done]. rewrite Ef. destruct W as [? ? ? Hf].
  split; simpl; [done|constructor|constructor|done].
Qed.

(** One transition at a time. *)
Lemma transition_only c i t : inv c → transitions c !! i = Some t →
  i = 0%nat ∧ transitions c = [t] ∧ leases c = 0%nat ∧
  ∃ st, life c = pack st 0 ∧ st ≠ RuntimeState.Running ∧ phase_ok st [t] [] (wld c).
Proof.
  intros [(st & n & El & Hn & Hl & H0 & P) _ _ _ _] E.
  assert (transitions c = [t] ∧ i = 0%nat ∧ st ≠ RuntimeState.Running) as (Et & Hi & Hst).
  { destruct st; simpl in P.
    - destruct P as [P _]. by rewrite P in E.
    - destruct P as [[P _]|(r & P & _)]; rewrite P in E; apply list_lookup_singleton_Some in E as [? <-]; done.
    - destruct P as [P _]. by rewrite P in E.
    - destruct P as [(? & P & _)|[(? & ? & ? & P & _)|[(? & P & _)|(? & P & _)]]]; rewrite P in E;
        apply list_lookup_singleton_Some in E as [? <-]; done. }
  specialize (H0 Hst). assert (leases c = 0%nat) as Hz by lia. do 3 (split; [done|]). exists st.
  subst n. destruct (leases_none c Hz) as (_ & _ & Ho). rewrite Ho, Et, H0 in *. done.
Qed.

(** The configuration after a transition has moved on. *)
Lemma inv_transition c st l w ts :
  inv c → leases c = 0%nat → l = pack st 0 → phase_ok st ts [] w →
  (slot (control w) ≠ Stopped → ready w = true) →
  (∀ k sv, services w !! k = Some sv → sv_ok sv ∧ (worker sv ≠ Exited → active w ts = Some k)) →
  inv (set_life (set_wld (set_transitions c ts) w) l).
Proof.
  intros I Hz -> P Hr Hs. destruct (leases_none c Hz) as (Hh & Hc & Ho).
  split; simpl; [|apply I|done|done|by rewrite Hc]. exists st, 0. pose proof RuntimeLifecycle.zero_le_MAX_COUNT.
  unfold leases, owned in *. simpl. rewrite Ho. split_and!; done || lia.
Qed.

(** What a transition under way may do. *)
Definition moves (c : config) (r : option (Run config)) : Prop :=
  r = None ∨ ∃ c', r = Some (Done c') ∧ inv c'.

(** [initialize] after [begin_initialize]. *)
Lemma init_moves c rc mutex condvar spawned : inv c → leases c = 0%nat → transitions c = [TInit] →
  life c = pack RuntimeState.Initializing 0 → down (wld c) →
  moves c (transition_step c 0 rc mutex condvar spawned TInit).
Proof.
  intros I Hz Et El D. pose proof (i_services _ I) as Is. rewrite Et in Is. right. unfold transition_step.
  destruct (initialize_spec rc mutex condvar spawned (wld c) D) as (r & w' & -> & Hr). simpl. rewrite Et.
  eexists. split; [done|].
  apply (inv_transition c RuntimeState.Initializing (life c) w' [TInitEnd r]); [done|done|done|..].
  - right. exists r. split; [done|]. destruct r; simpl; [|apply Hr].
    destruct Hr as (_ & Hs & g & Hsl). exists (length (services (wld c))), g, (mkService new AtLock).
    split; [done|]. rewrite Hs. by rewrite list_lookup_middle.
  - destruct r; [by destruct Hr|]. destruct Hr as [_ D']. by rewrite D'.
  - intros k sv. destruct r as [[]|].
    + destruct Hr as (_ & -> & g & Hsl). unfold active. rewrite Hsl.
      intros [E'|[Hk E']]%lookup_app_Some.
      * destruct (Is k sv E') as [W Hw]. split; [done|]. unfold active in Hw. rewrite D in Hw. intros Hx. by specialize (Hw Hx).
      * apply list_lookup_singleton_Some in E' as [Hk' <-].
        replace (length (services (wld c))) with k by lia. split; [|done].
        split; [apply service_new_ok|done|done].
    + destruct Hr as [-> D']. intros E'. destruct (Is k sv E') as [W Hw]. split; [done|].
      unfold active in *. by rewrite D in Hw; rewrite D'.
Qed.

(** Phase 1 of [shutdown]. *)
Lemma request_moves c rc mutex condvar spawned cl : inv c → leases c = 0%nat → transitions c = [TShut cl] →
  life c = pack RuntimeState.ShuttingDown 0 → up [] (wld c) →
  moves c (transition_step c 0 rc mutex condvar spawned (TShut cl)).
Proof.
  intros I Hz Et El U. pose proof I as [_ _ Ir Is _]. rewrite Et in Is. right. unfold transition_step.
  assert (ready (wld c) = true) as Hr by (apply Ir; by destruct U as (? & ? & ? & -> & _)).
  destruct (shutdown_request_spec rc cl (wld c) U Hr) as (k & g & sv & Hs & Ek & Hsr & ->).
  destruct (Is k sv Ek) as [Wk _].
  case_bool_decide; simpl; rewrite Et; eexists; (split; [done|]).
  - apply (inv_transition c RuntimeState.ShuttingDown (life c) (wld c) [TShutEnd (Err Error.Busy)]); try done.
    do 3 right. by exists (Err Error.Busy).
  - set (sv' := mkService _ _). apply (inv_transition c RuntimeState.ShuttingDown (life c)
      (set_slot (set_service (wld c) k sv') (Stopping g)) [TJoin k g]); try done.
    + right. left. exists k, g, sv'. split; [done|]. split; [done|]. split; [|done]. simpl.
      apply list_lookup_insert_eq. by eapply lookup_lt_Some.
    + intros k' s'. simpl. intros [(<- & <- & _)|[Hne E']]%list_lookup_insert_Some.
      * split; [by apply stopped_sv_ok|done].
      * destruct (Is k' s' E') as [W Hw]. split; [done|]. unfold active in Hw. rewrite Hs in Hw.
        intros Hx. specialize (Hw Hx). congruence.
Qed.

(** Phase 2. *)
Lemma join_moves c rc mutex condvar spawned t g : inv c → leases c = 0%nat → transitions c = [TJoin t g] →
  life c = pack RuntimeState.ShuttingDown 0 → slot (control (wld c)) = Stopping g →
  moves c (transition_step c 0 rc mutex condvar spawned (TJoin t g)).
Proof.
  intros I Hz Et El Hs. pose proof I as [_ _ Ir Is _]. rewrite Et in Is. unfold transition_step.
  destruct (services (wld c) !! t) as [[st' p]|] eqn:Ek; [|by left]. destruct p; try (by left). right.
  rewrite Et. eexists. split; [done|].
  apply (inv_transition c RuntimeState.ShuttingDown (life c) (wld c) [TJoined g]); try done.
  - right. right. left. by exists g.
  - intros k' s' E'. destruct (Is k' s' E') as [W Hw]. split; [done|]. unfold active in *. rewrite Hs in *.
    intros Hx. specialize (Hw Hx). by simplify_eq.
Qed.

(** Phase 3. *)
Lemma finish_moves c rc mutex condvar spawned g : inv c → leases c = 0%nat → transitions c = [TJoined g] →
  life c = pack RuntimeState.ShuttingDown 0 → slot (control (wld c)) = Stopping g →
  moves c (transition_step c 0 rc mutex condvar spawned (TJoined g)).
Proof.
  intros I Hz Et El Hs. pose proof I as [_ _ Ir Is _]. rewrite Et in Is. right.
  unfold transition_step, shutdown_finish, with_control. rewrite Ir, Hs, Z.eqb_refl by (by rewrite Hs).
  simpl. rewrite Et. eexists. split; [done|].
  apply (inv_transition c RuntimeState.ShuttingDown (life c) (set_slot (wld c) Stopped) [TShutEnd (Ok ())]); try done.
  - do 3 right. by exists (Ok ()).
  - intros k' s' E'. destruct (Is k' s' E') as [W Hw]. split; [done|]. unfold active in *. rewrite Hs in Hw. done.
Qed.

Lemma timer_transition_inv c i rc mutex condvar spawned t :
  inv c → transitions c !! i = Some t → moves c (transition_step c i rc mutex condvar spawned t).
Proof.
  intros I E. pose proof I as [_ _ Ir Is _].
  destruct (transition_only c i t I E) as (-> & Et & Hz & st & El & Hst & P). rewrite Et in Is.
  destruct t as [|r|cl|t g|g|r]; destruct st; simpl in P; try (exfalso; naive_solver).
  - apply init_moves; naive_solver.
  - destruct P as [[[=] _]|(r' & [= <-] & P)]. right. unfold transition_step. rewrite Et, El.
    destruct r as [[]|e]; unfold commit_initialize, drop_initialize;
      rewrite RuntimeLifecycle.guarded_exchange_spec; simpl; eexists; (split; [done|]).
    + by apply (inv_transition c RuntimeState.Running _ (wld c) []).
    + by apply (inv_transition c RuntimeState.Uninitialized _ (wld c) []).
  - apply request_moves; naive_solver.
  - apply join_moves; naive_solver.
  - apply finish_moves; naive_solver.
  - destruct P as [(? & [=] & _)|[(? & ? & ? & [=] & _)|[(? & [=] & _)|(r' & [= <-] & P)]]].
    right. unfold transition_step. rewrite Et, El. destruct r as [[]|e]; unfold commit_shutdown, drop_shutdown;
      rewrite RuntimeLifecycle.guarded_exchange_spec; simpl; eexists; (split; [done|]).
    + by apply (inv_transition c RuntimeState.Uninitialized _ (wld c) []).
    + by apply (inv_transition c RuntimeState.Running _ (wld c) []).
Qed.

(** *** Timers *)

(** The configuration after a step of an object call while the runtime runs. *)
Lemma inv_objects c w cs hs o l :
  inv c → transitions c = [] → Forall call_ok cs →
  l = pack RuntimeState.Running (Z.of_nat (length hs + length cs + o)%nat) →
  Z.of_nat (length hs + length cs + o)%nat ≤ MAX_COUNT →
  up ((fst <$> hs) ++ omap dereg cs) w → ready w = true →
  (∀ k sv, services w !! k = Some sv → sv_ok sv ∧ (worker sv ≠ Exited → active w [] = Some k)) →
  inv (mkConfig l w (clock c) (transitions c) cs hs o).
Proof.
  intros I Et Fc -> Hm U Hr Hs. pose proof (i_clock _ I). split; simpl; rewrite ?Et; try done.
  exists RuntimeState.Running, (Z.of_nat (length hs + length cs + o)%nat).
  unfold leases, owned. simpl. split_and!; try done; lia.
Qed.

(** Changing which timers the live handles own. *)
Lemma up_perm own own' w : own ≡ₚ own' → up own w → up own' w.
Proof. intros E (k & g & sv & ? & ? & ? & L). exists k, g, sv. by rewrite <- E. Qed.

(** An operation on the service that is up moves [own] to [own']. *)
Lemma service_op {R} c own (own' : Result R → list Z) (ok : Result R → Prop) rc (f : TimerServiceState → Run (effect R)) :
  inv c → transitions c = [] → up own (wld c) → ready (wld c) = true →
  (∀ fl st, service_ok fl st → live_ids st ≡ₚ own →
     ∃ r st' woke, f st = Done (r, st', woke) ∧ op_ok fl st st' woke ∧ live_ids st' ≡ₚ own' r ∧ ok r) →
  ∃ r w, with_service rc f (wld c) = Done (r, w) ∧ ok r ∧ up (own' r) w ∧ ready w = true ∧
    ∀ k sv, services w !! k = Some sv → sv_ok sv ∧ (worker sv ≠ Exited → active w [] = Some k).
Proof.
  intros I Et U Hr Hf.
  destruct (with_service_up rc own (wld c) f U Hr) as (k & g & sv & Hs & E & Hst & Hl & Hrun).
  destruct (i_services _ I k sv E) as [[W _ _] _].
  destruct (Hf _ _ W Hl) as (r & st' & woke & Ef & O & Hl' & Hok). rewrite (Hrun _ _ _ Ef).
  eexists r, _. split; [done|]. split; [done|]. split; [|split; [done|]].
  - exists k, g, (mkService st' (notify woke (worker sv))). split; [done|].
    split; [simpl; apply list_lookup_insert_eq; by eapply lookup_lt_Some|]. simpl. split; [|done].
    rewrite (oo_stop _ _ _ _ O). done.
  - pose proof (services_after_op c k g sv st' woke I Hs E Hst O) as Ha. rewrite Et in Ha. exact Ha.
Qed.

Lemma pending_inv c i rc p : inv c → calls c !! i = Some p →
  ∃ c', pending_step c i rc p = Done c' ∧ inv c'.
Proof.
  intros I E. pose proof (dereg_delete _ _ _ E) as (Dp & Di & Dl). pose proof (i_calls _ I) as Fc.
  pose proof (Forall_lookup_1 _ _ _ _ Fc E) as Hwf. pose proof (Forall_delete _ _ i Fc) as Fd.
  assert (Forall call_ok (<[i:=Releasing]> (calls c))) as Fr by (by apply Forall_insert).
  assert (length (<[i:=Releasing]> (calls c)) = length (calls c)) as Dil by apply length_insert.
  assert (0 < leases c)%nat as Hpos by (unfold leases; lia).
  destruct (leases_running c I Hpos) as (El & Hm & Et & U & Hr). unfold leases in El, Hm.
  destruct p as [per m cb|x|]; unfold pending_step.
  - simpl in Dp, Hwf.
    destruct (service_op c (owned c) (λ r, match r with Ok x => x :: owned c | Err _ => owned c end) (λ _, True) rc
                (register per m cb) I Et U Hr) as (r & w & -> & _ & U' & Hr' & Hs').
    { intros fl st W Hl. destruct (register_spec fl st per m cb W Hwf) as (r & st' & woke & Ef & O & D).
      exists r, st', woke. split; [done|]. split; [done|]. destruct r.
      - destruct D as (_ & -> & _). rewrite Hl. split; [|done]. symmetry. apply Permutation_cons_append.
      - by destruct D as [-> _]. }
    simpl. destruct r as [x|e]; (eexists; split; [done|]).
    + apply (inv_objects c w (delete i (calls c)) (handles c ++ [(x, 0%nat)]) (others c) (life c)); try done.
      * rewrite El. do 2 f_equal. rewrite length_app. simpl. lia.
      * rewrite length_app. simpl. lia.
      * eapply up_perm; [|exact U']. unfold owned. rewrite fmap_app, Dp. simpl. rewrite <- app_assoc. simpl.
        by rewrite <- Permutation_middle.
    + apply (inv_objects c w (<[i:=Releasing]> (calls c)) (handles c) (others c) (life c)); try done; rewrite ?Dil; try done.
      eapply up_perm; [|exact U']. unfold owned. by rewrite Di, Dp.
  - simpl in Dp.
    assert (owned c ≡ₚ x :: (fst <$> handles c) ++ omap dereg (delete i (calls c))) as Ho.
    { unfold owned. rewrite Dp. by rewrite <- Permutation_middle. }
    destruct (service_op c (owned c) (λ _, (fst <$> handles c) ++ omap dereg (delete i (calls c)))
                (λ r, is_ok r = true) rc (deregister x) I Et U Hr) as (r & w & Ew & Hok & U' & Hr' & Hs').
    { intros fl st W Hl. destruct (delete_entry_spec fl st x W) as (st' & woke & Ef & O & D).
      - rewrite Hl, Ho. by left.
      - exists (Ok ()), st', woke. do 2 (split; [done|]). rewrite Hl, Ho in D.
        by apply Permutation_cons_inv in D. }
    rewrite Ew. simpl. rewrite Hok. simpl. eexists. split; [done|].
    apply (inv_objects c w (<[i:=Releasing]> (calls c)) (handles c) (others c) (life c)); try done; rewrite ?Dil; try done.
    by rewrite Di.
  - rewrite (release_life c I Hpos). simpl. eexists. split; [done|]. simpl in Dp.
    apply (inv_objects c (wld c) (delete i (calls c)) (handles c) (others c)); try done.
    + do 2 f_equal. unfold leases. lia.
    + lia.
    + eapply up_perm; [|exact U]. unfold owned. by rewrite Dp.
    + pose proof (i_services _ I) as Is. by rewrite Et in Is.
Qed.

Lemma op_inv c h rc x n o : inv c → handles c !! h = Some (x, n) →
  (∀ p, o = ChangePeriod p → Duration.wf p) →
  ∃ now r w, duration_of (clock c) = Done now ∧ op_run rc x now o (wld c) = Done (r, w) ∧ inv (set_wld c w) ∧
    match o with
    | Stop => r = Ok ()
    | ChangePeriod p => r = if Duration.eqb p Duration.ZERO then Err Error.InvalidParameter else Ok ()
    | _ => r = Ok () ∨ r = Err Error.Overflow
    end.
Proof.
  intros I E Hwf. destruct (duration_of_spec (clock c)) as (now & En & Wn & _); [apply I|].
  exists now. assert (0 < leases c)%nat as Hpos by (apply lookup_lt_Some in E; unfold leases; lia).
  destruct (leases_running c I Hpos) as (El & Hm & Et & U & Hr). unfold leases in El, Hm.
  assert (x ∈ owned c) as Hx.
  { apply elem_of_app. left. apply list_elem_of_fmap. exists (x, n). split; [done|]. by eapply list_elem_of_lookup_2. }
  assert (∀ (ok : Result () → Prop) f,
    (∀ fl st, service_ok fl st → keeps_timer fl st x ok f) →
    ∃ r w, with_service rc f (wld c) = Done (r, w) ∧ inv (set_wld c w) ∧ ok r) as Hgo.
  { intros ok f Hf.
    destruct (service_op c (owned c) (λ _, owned c) ok rc f I Et U Hr) as (r & w & Ew & Hok & U' & Hr' & Hs').
    { intros fl st W Hl. destruct (Hf fl st W) as (r & st' & woke & Ef & O & Hl' & D).
      exists r, st', woke. rewrite Hl'. split_and!; try done. destruct D as [[Hn _]|[_ ?]]; [|done].
      by rewrite Hl in Hn. }
    exists r, w. split; [done|]. split; [|done].
    apply (inv_objects c w (calls c) (handles c) (others c) (life c)); try done. apply I. }
  destruct o as [| | |p]; simpl.
  - destruct (Hgo _ _ (λ fl st W, on_start_spec fl st x now W Wn)) as (r & w & ? & ? & ?). by exists r, w.
  - destruct (Hgo _ _ (λ fl st W, on_stop_spec fl st x W)) as (r & w & ? & ? & ?). by exists r, w.
  - destruct (Hgo _ _ (λ fl st W, on_start_spec fl st x now W Wn)) as (r & w & ? & ? & ?). by exists r, w.
  - unfold PosixTimer.change_period. destruct (Duration.eqb p Duration.ZERO) eqn:Ez.
    + exists (Err Error.InvalidParameter), (wld c). split_and!; try done. by destruct c.
    + apply Duration.dur_eqb_neq in Ez.
      destruct (Hgo _ _ (λ fl st W, on_change_period_spec true fl st x p W (Hwf p eq_refl) Ez)) as (r & w & ? & ? & ?).
      by exists r, w.
Qed.

(** *** Every event *)

#[local] Arguments RuntimeLifecycle.run_loop : simpl never.

Lemma worker_inv c k now2 : inv c → event_ok c (Worker k now2) →
  exec c (Worker k now2) = None ∨ ∃ c', exec c (Worker k now2) = Some (Done c') ∧ inv c'.
Proof.
  intros I (T2 & Hle & Hgap). simpl. destruct (services (wld c) !! k) as [sv|] eqn:E; [|by left]. simpl.
  destruct (duration_of_spec (clock c)) as (now & -> & Wn & En); [apply I|].
  destruct (i_services _ I k sv E) as [Wsv Hact].
  destruct (worker_step_ok now now2 sv Wsv Wn T2) as [->|(sv' & -> & W' & Hl & Hs & Hx)]; [lia|by left|].
  right. simpl. eexists. split; [done|].
  pose proof (inv_set_service c k sv sv' I E W' Hl Hs (λ _, Hx)) as [Il _ Ir Is Iw]. by split.
Qed.

Lemma begin_inv c :
  inv c →
  (∃ r, begin_initialize (life c) = Done (r, if is_ok r then pack RuntimeState.Initializing 0 else life c) ∧
     inv (set_transitions (set_life c (if is_ok r then pack RuntimeState.Initializing 0 else life c))
            (transitions c ++ if is_ok r then [TInit] else []))) ∧
  (∀ caller, ∃ r, run_loop begin_shutdown_body 0 (life c) =
       Done (r, if is_ok r then pack RuntimeState.ShuttingDown 0 else life c) ∧
     inv (set_transitions (set_life c (if is_ok r then pack RuntimeState.ShuttingDown 0 else life c))
            (transitions c ++ if is_ok r then [TShut caller] else []))).
Proof.
  intros I. pose proof I as [(st & n & El & Hn & Hl & H0 & P) _ Ir Is _].
  assert (inv (set_transitions (set_life c (life c)) (transitions c ++ []))) as Hsame
    by (rewrite app_nil_r; by destruct c).
  split.
  - rewrite El, RuntimeLifecycle.begin_initialize_spec by done. rewrite <- El.
    destruct st; [|by eexists (Err _)..]. specialize (H0 ltac:(done)). subst n. rewrite H0.
    exists (Ok ()). split; [done|]. destruct P as [Et D]. rewrite Et in Is |- *.
    apply (inv_transition c RuntimeState.Initializing _ (wld c) [TInit]); try done; [lia|by left].
  - intros caller. rewrite El.
    rewrite (RuntimeLifecycle.run_loop_spec _ _ _ _ (RuntimeLifecycle.begin_shutdown_body_spec st n (proj1 Hn))).
    rewrite <- El. destruct st; try by eexists (Err _). destruct (n =? 0) eqn:Ez; [|by eexists (Err _)].
    bool_to_prop. exists (Ok ()). split; [done|]. destruct P as [Et U].
    assert (leases c = 0%nat) as Hz by lia. destruct (leases_none c Hz) as (_ & _ & Ho). rewrite Ho in U. rewrite Et in Is |- *.
    apply (inv_transition c RuntimeState.ShuttingDown _ (wld c) [TShut caller]); try done. left. by eexists.
Qed.

(** A lease taken by a call or by another object. *)
Lemma acquire_inv c cs o : inv c →
  Forall call_ok cs → omap dereg cs = omap dereg (calls c) →
  (length cs + o = S (length (calls c) + others c))%nat →
  ∃ r l, run_loop acquire_body 0 (life c) = Done (r, l) ∧
    if is_ok r then inv (mkConfig l (wld c) (clock c) (transitions c) cs (handles c) o) else l = life c.
Proof.
  intros I Fc Ec Hlen. destruct (acquire_life c I) as [[e ->]|(n & Hn & El & Hm & -> & Et & U)]; [by eexists _, _|].
  eexists _, _. split; [done|]. simpl. unfold leases in Hn.
  apply inv_objects; try done.
  - f_equal. lia.
  - lia.
  - eapply up_perm; [|exact U]. unfold owned. by rewrite Ec.
  - apply I. by destruct U as (k & g & sv & -> & _).
  - pose proof (i_services _ I) as Is. by rewrite Et in Is.
Qed.

(** Handles cloned or dropped. *)
Lemma handles_inv c cs hs : inv c → (0 < leases c)%nat → Forall call_ok cs →
  (length hs + length cs = length (handles c) + length (calls c))%nat →
  (fst <$> hs) ++ omap dereg cs ≡ₚ owned c →
  inv (mkConfig (life c) (wld c) (clock c) (transitions c) cs hs (others c)).
Proof.
  intros I Hp Fc Hlen Hp'. destruct (leases_running c I Hp) as (El & Hm & Et & U & Hr). unfold leases in El, Hm.
  apply inv_objects; try done.
  - rewrite El. do 2 f_equal. lia.
  - lia.
  - by eapply up_perm.
  - pose proof (i_services _ I) as Is. by rewrite Et in Is.
Qed.

Lemma timer_exec_inv c e : inv c → event_ok c e →
  exec c e = None ∨ ∃ c', exec c e = Some (Done c') ∧ inv c'.
Proof.
  intros I He. destruct e as [now|k now2|k| |cl|i rc mx cv sp|p m cb|i rc|h rc o|h|h| |].
  - right. eexists. split; [done|]. destruct I, He. by split.
  - by apply worker_inv.
  - simpl. destruct (services (wld c) !! k) as [[st p]|] eqn:E; [|by left]. destruct p; try by left. right.
    eexists. split; [done|]. destruct (i_services _ I k _ E) as [[W _ St] _].
    by apply (inv_set_service c k (mkService st (Blocked deadline)) (mkService st AtLock)).
  - right. destruct (proj1 (begin_inv c I)) as (r & E & I'). simpl. rewrite E. simpl. eauto.
  - right. destruct (proj2 (begin_inv c I) cl) as (r & E & I'). simpl. rewrite E. simpl. eauto.
  - simpl. destruct (transitions c !! i) as [t|] eqn:E; [|by left]. by apply timer_transition_inv.
  - right. simpl. case_if; [by eauto|].
    destruct (acquire_inv c (calls c ++ [Registering p m cb]) (others c) I) as (r & l & -> & Hr).
    + apply Forall_app. split; [apply I|by apply Forall_singleton].
    + rewrite omap_app. simpl. by rewrite app_nil_r.
    + rewrite length_app. simpl. lia.
    + simpl. eexists. split; [done|]. destruct r; simpl in *; [done|]. subst. rewrite app_nil_r. by destruct c.
  - simpl. destruct (calls c !! i) as [p|] eqn:E; [|by left]. right. simpl.
    destruct (pending_inv c i rc p I E) as (c' & -> & I'). eauto.
  - simpl. destruct (handles c !! h) as [[x n]|] eqn:E; [|by left]. right. simpl.
    destruct (op_inv c h rc x n o I E) as (now & r & w & -> & Ew & I' & _); [by intros p ->|].
    simpl. rewrite Ew. simpl. eauto.
  - simpl. destruct (handles c !! h) as [[x n]|] eqn:E; [|by left]. right. simpl. eexists. split; [done|].
    apply handles_inv; [done|apply lookup_lt_Some in E; unfold leases; lia|apply I|by rewrite length_insert|].
    unfold owned. rewrite list_fmap_insert, list_insert_id; [done|]. by rewrite list_lookup_fmap, E.
  - simpl. destruct (handles c !! h) as [[x n]|] eqn:E; [|by left]. right. simpl.
    assert (0 < leases c)%nat as Hp by (apply lookup_lt_Some in E; unfold leases; lia).
    destruct n as [|n]; (eexists; split; [done|]).
    + apply (handles_inv c (calls c ++ [Deregistering x]) (delete h (handles c))); [done|done| | |].
      * apply Forall_app. split; [apply I|by apply Forall_singleton].
      * rewrite length_app. pose proof (length_delete (handles c) h ltac:(by eexists)).
        apply lookup_lt_Some in E. simpl. lia.
      * unfold owned. rewrite omap_app. simpl. rewrite (delete_Permutation _ _ _ E) at 2. simpl.
        rewrite app_assoc. by rewrite <- Permutation_cons_append.
    + apply handles_inv; [done|done|apply I|by rewrite length_insert|].
      unfold owned. rewrite list_fmap_insert, list_insert_id; [done|]. by rewrite list_lookup_fmap, E.
  - right. simpl. destruct (acquire_inv c (calls c) (S (others c)) I) as (r & l & -> & Hr); [apply I|done|lia|].
    simpl. eexists. split; [done|]. destruct r; simpl in *; [done|]. subst. by destruct c.
  - simpl. destruct (others c) as [|n] eqn:E; [by left|]. right.
    assert (0 < leases c)%nat as Hp by (unfold leases; lia). rewrite (release_life c I Hp). simpl.
    eexists. split; [done|]. destruct (leases_running c I Hp) as (El & Hm & Et & U & Hr). unfold leases in El, Hm.
    apply (inv_objects c (wld c) (calls c) (handles c) n); try done; [apply I|..|pose proof (i_services _ I) as Is; by rewrite Et in Is].
    + simpl. f_equal. unfold leases. lia.
    + lia.
Qed.

Lemma timer_reachable_inv c : reachable c → inv c.
Proof.
  induction 1 as [now T|c e c' _ IH He E]; [by apply timer_inv_init|].
  destruct (timer_exec_inv c e IH He) as [E'|(c1 & E' & I)]; rewrite E' in E; [done|]. by injection E as <-.
Qed.

(** *** The worker alone *)

Fixpoint exec_all (c : config) (es : list event) : option config :=
  match es with
  | [] => Some c
  | e :: es => match exec c e with Some (Done c') => exec_all c' es | _ => None end
  end.

Lemma exec_all_app es1 es2 : ∀ c c1,
  exec_all c es1 = Some c1 → exec_all c (es1 ++ es2) = exec_all c1 es2.
Proof.
  induction es1 as [|e es1 IH]; intros c c1 E; simpl in *; [by simplify_eq|].
  destruct (exec c e) as [[c2| |]|]; try done. by apply IH.
Qed.

(** How far a worker that was told to stop is from leaving. *)
Definition rank (p : worker_pc) : nat :=
  match p with Blocked _ | Exited => 0 | AtLock => 1 | AtDispatch | AtRestore _ _ => 2 | InCallback _ _ => 3 end.

Lemma worker_drains now now2 sv :
  sv_ok sv → Duration.wf now → stop_requested (sstate sv) = true → worker sv ≠ Exited →
  ∃ sv', worker_step now now2 sv = Some (Done sv') ∧ (rank (worker sv') < rank (worker sv))%nat ∧
         (rank (worker sv') = 0%nat → worker sv' = Exited).
Proof.
  intros [W Sl St] Wn Hs Hx. destruct sv as [st p]. unfold worker_step. simpl in *. specialize (St Hs).
  destruct p as [|o| |i cb|i cb|]; simpl in *; try done.
  - unfold run_round. rewrite Hs. simpl. eexists. split; [done|]. simpl. split; [lia|done].
  - destruct Sl. congruence.
  - destruct (dispatch_take_spec st now W Wn) as (r & st' & -> & Hr). simpl.
    eexists. split; [done|]. destruct r as [[i cb]|]; simpl; [|split; [lia|done]].
    destruct (tk_from _ _ _ _ _ Hr) as (k & e & [E (L & _ & d & Ed & _) _] & _).
    exfalso. apply (armed_live st d); [|done]. exists e. split; [by eapply list_elem_of_lookup_2|done].
  - eexists. split; [done|]. simpl. split; [lia|done].
  - eexists. split; [done|]. simpl. split; [lia|done].
Qed.

Context (gap_pos : 0 ≤ gap).

Lemma worker_leaves n : ∀ c t sv,
  inv c → services (wld c) !! t = Some sv → stop_requested (sstate sv) = true →
  (rank (worker sv) ≤ n)%nat →
  ∃ m c' sv', (m ≤ n)%nat ∧ exec_all c (replicate m (Worker t (clock c))) = Some c' ∧ inv c' ∧
    services (wld c') !! t = Some sv' ∧ worker sv' = Exited ∧
    transitions c' = transitions c ∧ life c' = life c ∧ control (wld c') = control (wld c).
Proof.
  induction n as [|n IH]; intros c t sv I E Hs Hr;
    (destruct (i_services _ I t sv E) as [Wsv Hact]);
    (destruct (decide (worker sv = Exited)) as [Hx|Hx]; [by exists 0%nat, c, sv; split_and!; try done; lia|]).
  { destruct (duration_of_spec (clock c)) as (now & _ & Wn & _); [apply I|].
    destruct (worker_drains now (clock c) sv Wsv Wn Hs Hx) as (? & _ & ? & _). lia. }
  assert (event_ok c (Worker t (clock c))) as He by (split; [apply I|lia]).
  destruct (duration_of_spec (clock c)) as (now & En & Wn & Nn); [apply I|].
  destruct (worker_drains now (clock c) sv Wsv Wn Hs Hx) as (sv' & Ew & Hlt & _).
  destruct (worker_step_ok now (clock c) sv Wsv Wn) as [Ew'|(sv2 & Ew' & _ & _ & Hs2 & _)];
    [apply I|lia|congruence|]. rewrite Ew in Ew'. injection Ew' as <-.
  assert (exec c (Worker t (clock c)) = Some (Done (set_clock (set_wld c (set_service (wld c) t sv')) (clock c)))) as Ex.
  { simpl. rewrite E, En. simpl. by rewrite Ew. }
  destruct (timer_exec_inv c _ I He) as [Ex'|(c1 & Ex' & I1)]; rewrite Ex in Ex'; [done|]. injection Ex' as <-.
  destruct (IH _ t sv' I1) as (m & c' & s' & Hm & Ea & R).
  - simpl. apply list_lookup_insert_eq. by eapply lookup_lt_Some.
  - congruence.
  - lia.
  - exists (S m), c', s'. split; [lia|]. split; [|done]. cbn [replicate exec_all]. rewrite Ex. exact Ea.
Qed.

(** A run of admissible events. *)
Fixpoint runs (c : config) (es : list event) (c' : config) : Prop :=
  match es with
  | [] => c = c'
  | e :: es => event_ok c e ∧ match exec c e with Some (Done c1) => runs c1 es c' | _ => False end
  end.

Lemma runs_reachable es : ∀ c c', reachable c → runs c es c' → reachable c'.
Proof.
  induction es as [|e es IH]; intros c c' R H'; simpl in H'; [by subst|]. destruct H' as [He H'].
  destruct (exec c e) as [[c1| |]|] eqn:E; try done. eapply IH; [|done]. by eapply tm_step.
Qed.

(** *** Properties *)

(** C24: No interleaving of runtime starts and stops, timer constructions, uses,
    clones, drops and callbacks panics: the generation check, the deregistration
    assertion, the lifecycle assertions, the id and slice expectations hold.  At
    most one transition is under way and at most one worker is alive, also
    across restarts, and an operation through a live handle finds its timer:
    it succeeds, or reports only an unrepresentable deadline or a zero period. *)
Theorem posix_timers_safe c : reachable c →
  (∀ e, event_ok c e → exec c e = None ∨ ∃ c', exec c e = Some (Done c')) ∧
  (length (transitions c) ≤ 1)%nat ∧
  (∀ k k' sv sv', services (wld c) !! k = Some sv → services (wld c) !! k' = Some sv' →
     worker sv ≠ Exited → worker sv' ≠ Exited → k = k') ∧
  (∀ h x n rc o, handles c !! h = Some (x, n) → event_ok c (Op h rc o) →
     ∃ now r w, duration_of (clock c) = Done now ∧ op_run rc x now o (wld c) = Done (r, w) ∧
     match o with
     | Stop => r = Ok ()
     | ChangePeriod p => r = if Duration.eqb p Duration.ZERO then Err Error.InvalidParameter else Ok ()
     | _ => r = Ok () ∨ r = Err Error.Overflow
     end).
Proof.
  intros R. pose proof (timer_reachable_inv c R) as I. split_and!.
  - intros e He. destruct (timer_exec_inv c e I He) as [?|(c' & ? & _)]; eauto.
  - destruct (transitions c) as [|t l] eqn:Et; [simpl; lia|].
    destruct (transition_only c 0 t I) as (_ & Ht & _); [by rewrite Et|].
    rewrite Et in Ht. simplify_eq. simpl. lia.
  - intros k k' sv sv' E E' Hx Hx'. destruct (i_services _ I k sv E) as [_ A], (i_services _ I k' sv' E') as [_ A'].
    specialize (A Hx). specialize (A' Hx'). congruence.
  - intros h x n rc o E He. destruct (op_inv c h rc x n o I E) as (now & r & w & ? & ? & _ & ?); [by intros p ->|].
    by exists now, r, w.
Qed.

(** C25: No timer is forgotten while the worker waits.  Let [gap] bound the time
    between the two clock readings of a round ([monotonic_now] and the one inside
    [checked_abs_deadline]).  A waiting worker has not been told to stop, and if any
    timer is armed its wait ends at the latest [gap] after that timer's deadline.
    The delay is real: the wait is computed from the first reading and counted
    from the second. *)
Theorem posix_timer_wait_in_time c k st o : reachable c →
  services (wld c) !! k = Some (mkService st (Blocked o)) →
  stop_requested st = false ∧
  ∀ e d, e ∈ timers st → live e → TimerState.deadline (state e) = Some d →
    ∃ abs, o = Some abs ∧ PosixTime.nanos abs ≤ as_nanos d + gap.
Proof.
  intros R E. destruct (i_services _ (timer_reachable_inv c R) k _ E) as [[_ [Hs Ha] _] _].
  split; [done|]. intros e d He Hl Hd. apply Ha. by exists e.
Qed.

(** C11: A due timer is served, in order and never early.  When the worker
    starts a round and some timer is due, its next two steps call the callback
    of the timer that comes first by deadline and then by id among all live
    ones, which is then not due any more at that instant; and whatever happens
    between those steps, a callback is only called at or after its deadline. *)
Theorem posix_timer_dispatch c k st : reachable c →
  (∀ e d, services (wld c) !! k = Some (mkService st AtLock) → stop_requested st = false →
   e ∈ timers st → live e → TimerState.deadline (state e) = Some d →
   as_nanos d ≤ PosixTime.nanos (clock c) →
   ∃ c' st' i cb e1 d1, exec_all c [Worker k (clock c); Worker k (clock c)] = Some c' ∧
     services (wld c') !! k = Some (mkService st' (InCallback i cb)) ∧
     e1 ∈ timers st ∧ live e1 ∧ id e1 = i ∧ callback e1 = Some cb ∧
     TimerState.deadline (state e1) = Some d1 ∧
     (∀ e2 d2, e2 ∈ timers st → live e2 → TimerState.deadline (state e2) = Some d2 →
        as_nanos d1 < as_nanos d2 ∨ as_nanos d1 = as_nanos d2 ∧ i ≤ id e2) ∧
     (∀ e' d', e' ∈ timers st' → id e' = i → TimerState.deadline (state e') = Some d' →
        PosixTime.nanos (clock c) < as_nanos d')) ∧
  (∀ now2 c' st' i cb, services (wld c) !! k = Some (mkService st AtDispatch) →
   exec c (Worker k now2) = Some (Done c') →
   services (wld c') !! k = Some (mkService st' (InCallback i cb)) →
   ∃ e d, e ∈ timers st ∧ live e ∧ id e = i ∧ callback e = Some cb ∧
     TimerState.deadline (state e) = Some d ∧ as_nanos d ≤ PosixTime.nanos (clock c)).
Proof.
  intros R. pose proof (timer_reachable_inv c R) as I.
  destruct (duration_of_spec (clock c)) as (now & En & Wn & Nn); [apply I|]. rewrite <- Nn. split.
  - intros e d E Hst He Hl Ed Hdue. destruct (i_services _ I k _ E) as [[W _ _] _]. simpl in W.
    destruct (i_clock _ I) as [V Hb].
    destruct (round_then_take st now (clock c) d W Wn V Hb Hst) as (st1 & st2 & i & cb & j & e1 & Er & Et & T & F & Hi & Hc & Hel);
      [by exists e|done|]. pose proof F as [Ej (L1 & _ & d1 & Ed1 & _) Hfst].
    exists (set_clock (set_wld c (set_service (set_service (wld c) k (mkService st1 AtDispatch)) k
              (mkService st2 (InCallback i cb)))) (clock c)), st2, i, cb, e1, d1.
    split; [|split; [|split; [apply (Hel e1 L1); by eapply list_elem_of_lookup_2|do 4 (split; [done|])]]].
    + cbn [exec_all exec]. rewrite E, En. simpl. rewrite Er. simpl.
      rewrite list_lookup_insert_eq by (by eapply lookup_lt_Some). rewrite En. simpl. rewrite Et. done.
    + simpl. apply list_lookup_insert_eq. rewrite length_insert. by eapply lookup_lt_Some.
    + split; [|by apply T]. intros e2 d2 H2 L2 Ed2. rewrite <- Hi. apply (Hfst d1 e2 d2); [done| |done..].
      by apply (Hel e2 L2).
  - intros now2 c' st' i cb E Ex E'. destruct (i_services _ I k _ E) as [[W _ _] _]. simpl in W.
    destruct (dispatch_take_spec st now W Wn) as (r & st2 & Et & Hr).
    simpl in Ex. rewrite E, En in Ex. simpl in Ex. rewrite Et in Ex. simpl in Ex. simplify_eq. simpl in E'.
    rewrite list_lookup_insert_eq in E' by (by eapply lookup_lt_Some). destruct r as [[x y]|]; simplify_eq.
    destruct (tk_from _ _ _ _ _ Hr) as (j & e1 & [Ej (L & _ & d1 & Ed1 & Hx) _] & Hi & Hcb).
    exists e1, d1. split_and!; try done. by eapply list_elem_of_lookup_2.
Qed.

(** C33: Stopping the runtime completes: once the request has been accepted,
    three steps of the worker at most, whatever it was doing, and the rest of
    [shutdown] lead to a stopped service and an uninitialised runtime. *)
Theorem posix_timer_shutdown_completes c t g rc mx cv sp : reachable c → transitions c = [TJoin t g] →
  ∃ m c', (m ≤ 3)%nat ∧
    exec_all c (replicate m (Worker t (clock c)) ++ replicate 3 (Transition 0 rc mx cv sp)) = Some c' ∧
    life c' = pack RuntimeState.Uninitialized 0 ∧ slot (control (wld c')) = Stopped ∧ transitions c' = [].
Proof.
  intros R Et. pose proof (timer_reachable_inv c R) as I.
  destruct (transition_only c 0 (TJoin t g) I) as (_ & _ & Hz & st & El & Hst & P); [by rewrite Et|].
  destruct st; simpl in P; try naive_solver.
  destruct P as [(? & [=] & _)|[(? & ? & sv & [= <- <-] & Hs & E & Hstop)|[(? & [=] & _)|(? & [=] & _)]]].
  destruct (worker_leaves 3 c t sv I E Hstop) as (m & c1 & s1 & Hm & Ea & I1 & E1 & Hx & Et1 & El1 & Ec1);
    [destruct (worker sv); simpl; lia|].
  exists m. destruct s1 as [st1 p1]. simpl in Hx. subst p1.
  assert (ready (wld c1) = true) as Hrd by (apply I1; by rewrite Ec1, Hs).
  eexists. split; [done|]. split.
  - rewrite (exec_all_app _ _ _ _ Ea). cbn [replicate exec_all exec]. rewrite Et1, Et. simpl. rewrite E1. simpl. rewrite Et1, Et. simpl.
    unfold shutdown_finish, with_control. rewrite Hrd, Ec1, Hs, Z.eqb_refl. simpl. rewrite El1, El.
    unfold commit_shutdown. rewrite RuntimeLifecycle.guarded_exchange_spec. simpl. done.
  - done.
Qed.

End TimerMachine.
End TimerMachine.

(** ** Witnesses *)

Module TimerWitness.
Import TimerMachine.

#[local] Existing Instance arch64.

Definition t0 : timespec := mkTimespec 100 0.
Definition t1 : timespec := mkTimespec 100 500.
Definition t2 : timespec := mkTimespec 101 0.

(** The runtime is started, one timer of 100 ms is created and armed, and the
    worker goes to sleep. *)
Definition boot : list event :=
  [BeginInitialize; Transition 0 0 (Ok ()) (Ok ()) (Ok ()); Transition 0 0 (Ok ()) (Ok ()) (Ok ());
   New (Duration.from_millis 100) TimerMode.Periodic 7; Pending 0 0; Op 0 0 Start].
Definition asleep : list event := boot ++ [Worker 0 t1].

Definition final (es : list event) : config := default (start_config t0) (exec_all (start_config t0) es).

Ltac run_ok := vm_compute; repeat (match goal with |- _ ∧ _ => split end); try reflexivity; try discriminate; try exact I.

Lemma start_reachable : reachable 1000 (start_config t0).
Proof. apply tm_init. run_ok. Qed.

Lemma reach_by es : runs 1000 (start_config t0) es (final es) → reachable 1000 (final es).
Proof. apply runs_reachable, start_reachable. Qed.

Lemma posix_timers_safe_witness :
  ∃ now r w, duration_of (clock (final asleep)) = Done now ∧
    op_run 0 1 now Stop (wld (final asleep)) = Done (r, w) ∧ r = Ok ().
Proof.
  destruct (posix_timers_safe 1000 (final asleep)) as (_ & _ & _ & Hop).
  - apply reach_by. run_ok.
  - destruct (Hop 0%nat 1 0%nat 0 Stop) as (now & r & w & E1 & E2 & E3); [vm_compute; reflexivity|exact I|].
    exists now, r, w. auto.
Defined.

(** The worker sleeps until the deadline, 100.1 s, plus the 500 ns between its
    two readings of the clock. *)
Lemma posix_timer_wait_in_time_witness :
  ∃ st abs, services (wld (final asleep)) !! 0%nat = Some (mkService st (Blocked (Some abs))) ∧
    abs = mkTimespec 100 100000500 ∧ stop_requested st = false.
Proof.
  eexists _, _. split; [vm_compute; reflexivity|]. split; [reflexivity|].
  eapply (posix_timer_wait_in_time 1000 (final asleep) 0).
  - apply reach_by. run_ok.
  - vm_compute. reflexivity.
Defined.

(** The clock reaches 101 s and the wait ends: the timer is served. *)
Definition woken : list event := asleep ++ [Tick t2; Unblock 0].

Definition due_entry : TimerEntry :=
  mkEntry 1 (TimerState.mk TimerMode.Periodic (Duration.from_millis 100) (Some (Duration.mk 100 100000000))) (Some 7) false.
Definition due_state : TimerServiceState := mkState [due_entry] 2 false.

Lemma posix_timer_dispatch_witness :
  ∃ c' st' i cb, exec_all (final woken) [Worker 0 t2; Worker 0 t2] = Some c' ∧
    services (wld c') !! 0%nat = Some (mkService st' (InCallback i cb)) ∧ i = 1 ∧ cb = 7.
Proof.
  destruct (posix_timer_dispatch 1000 (final woken) 0 due_state) as [Hd _].
  - apply reach_by. run_ok.
  - destruct (Hd due_entry (Duration.mk 100 100000000)) as (c' & st' & i & cb & e1 & d1 & E & E' & He & _ & Hi & Hcb & _).
    + vm_compute. reflexivity.
    + reflexivity.
    + left.
    + reflexivity.
    + reflexivity.
    + vm_compute. discriminate.
    + exists c', st', i, cb. apply list_elem_of_singleton in He. subst e1. simpl in Hi, Hcb.
      split; [exact E|]. split; [exact E'|]. split; congruence.
Defined.

(** The timer is dropped and the runtime stopped while the worker sleeps. *)
Definition stopping : list event :=
  asleep ++ [Drop 0; Pending 0 0; Pending 0 0; BeginShutdown None; Transition 0 0 (Ok ()) (Ok ()) (Ok ())].

Lemma posix_timer_shutdown_completes_witness :
  ∃ m c', (m ≤ 3)%nat ∧
    exec_all (final stopping) (replicate m (Worker 0 t1) ++ replicate 3 (Transition 0 0 (Ok ()) (Ok ()) (Ok ()))) = Some c' ∧
    slot (control (wld c')) = Stopped.
Proof.
  destruct (posix_timer_shutdown_completes 1000 ltac:(lia) (final stopping) 0 1 0 (Ok ()) (Ok ()) (Ok ()))
    as (m & c' & Hm & E & _ & Hs & _).
  - apply reach_by. run_ok.
  - vm_compute. reflexivity.
  - exists m, c'. auto.
Defined.

End TimerWitness.
