(* ===== verification/FreeRtosTimer.v ===== *)
(** * FreeRTOS timers and their service

    [crates/osal-backend-freertos/src/timer_service.rs], [timer_control.rs] and
    [timer.rs].

    [FreeRtosTimerService] has the functions of the registry (on the structures of
    [TimerRegistry]) and [FreeRtosTimerControl] the service with its native objects
    and reference count, the slot, the worker, and the steps of every call.  A
    section under the registry mutex or the slot's spin lock is one step; the
    clock, the scheduler state and the outcome of allocations are arguments. *)

From S2P Require Import Prelude Api Time Runtime Kernel Wait TimerRegistry FreeRtosRuntime FreeRtosTask.
Import Duration (as_nanos).

(** ** The registry *)

Module FreeRtosTimerService.
Export TimerRegistry.

Inductive ServiceAction : Type :=
| Dispatch (i : Z) (cb : TimerCallback)
| WaitUntil (deadline : Duration.t)
| WaitForever
| Rescan
| Stop.

(** The locked section of a round of [run]. *)
Definition scan (now : Duration.t) (st : TimerServiceState) : Run (ServiceAction * TimerServiceState) :=
  let st := retain st in
  if stop_requested st then Done (Stop, st)
  else
    match min_by_key (candidates now (timers st)) with
    | Some (idx, _, _) =>
        e ← expect (timers st !! idx) "index out of bounds";
        '(due, s) ← TimerState.advance_on_expiry (state e) now;
        if due : bool then
          cb ← expect (callback e) "callback missing";
          Done (Dispatch (id e) cb, set_timers st (<[idx:=set_callback (set_state e s) None]> (timers st)))
        else Done (Rescan, set_timers st (<[idx:=set_state e s]> (timers st)))
    | None =>
        Done (match earliest (filter live (timers st)) with
              | Some d => WaitUntil d
              | None => WaitForever
              end, st)
    end.

(** The locked section of [dispatch_one]: the callback to drop, if the timer is gone. *)
Definition dispatch_restore (i : Z) (cb : TimerCallback) (st : TimerServiceState)
    : option TimerCallback * TimerServiceState :=
  match find i st with
  | Some (k, e) =>
      if decide (callback e = None)
      then (None, set_timers st (<[k:=set_callback e (Some cb)]> (timers st)))
      else (Some cb, st)
  | None => (Some cb, st)
  end.

(** [reserve]: whether [try_reserve] succeeds. *)
Definition register (reserve : bool) (period : Duration.t) (mode : TimerMode.t) (cb : TimerCallback)
    (st : TimerServiceState) : Run (effect Z) :=
  match TimerState.new period mode with
  | Err e => Done (Err e, st, false)
  | Ok s =>
      if negb reserve then Done (Err Error.OutOfMemory, st, false)
      else
        let i := next_id st in
        match checked_add 64 i 1 with
        | None => Done (Err Error.Overflow, st, false)
        | Some next =>
            Done (Ok i, mkState (timers st ++ [mkEntry i s (Some cb) false]) next (stop_requested st), true)
        end
  end.

Definition start (i : Z) (now : Duration.t) : TimerServiceState → Run (effect ()) :=
  on_state true i (λ s, TimerState.start s now).
Definition stop (i : Z) : TimerServiceState → Run (effect ()) :=
  on_state true i (λ s, (Ok (), TimerState.stop s)).
Definition reset (i : Z) (now : Duration.t) : TimerServiceState → Run (effect ()) :=
  on_state true i (λ s, TimerState.reset s now).
(** [change_period] does not wake the worker. *)
Definition change_period (i : Z) (p : Duration.t) : TimerServiceState → Run (effect ()) :=
  on_state false i (λ s, TimerState.change_period s p).
(** [deregister]; the callback is dropped by the caller, after the lock. *)
Definition deregister (i : Z) : TimerServiceState → Run (effect ()) := delete_entry i.

(** The locked section of [shutdown]: [None] when timers are left. *)
Definition request_stop (st : TimerServiceState) : bool * TimerServiceState :=
  let st := retain st in
  match timers st with
  | _ :: _ => (false, st)
  | [] => (true, mkState (timers st) (next_id st) true)
  end.

End FreeRtosTimerService.

(** ** Facts about the registry *)

Module FreeRtosTimerFacts.
Import FreeRtosTimerService.
Export TimerRegistryFacts.

Lemma frt_scan_spec st now : service_ok None st → Duration.wf now →
  ∃ a st', scan now st = Done (a, st') ∧ live_ids st' = live_ids st ∧
    stop_requested st' = stop_requested st ∧
  match a with
  | Stop => stop_requested st = true ∧ service_ok None st'
  | Dispatch i cb => stop_requested st = false ∧ taken now (retain st) i cb st'
  | WaitUntil x => stop_requested st = false ∧ service_ok None st' ∧ Duration.wf x ∧ as_nanos now < as_nanos x ∧
      st' = retain st ∧ ∀ d, armed st' d → as_nanos x ≤ as_nanos d
  | WaitForever => stop_requested st = false ∧ service_ok None st' ∧ st' = retain st ∧ ∀ d, ¬ armed st' d
  | Rescan => False
  end.
Proof.
  intros W Wn. unfold scan. pose proof (service_retain_ok _ _ W) as W'. pose proof (live_ids_retain st) as Hl.
  cbn zeta. change (stop_requested (retain st)) with (stop_requested st).
  destruct (stop_requested st) eqn:Es; [by eexists Stop, _|].
  pose proof (select_spec (retain st) now W' Wn) as S.
  destruct (min_by_key _) as [[[k d] i]|].
  - destruct S as [e F]. destruct (take_taken _ now k e W' Wn F) as (s & cb & Ea & Ec & T).
    rewrite (fd_at _ _ _ _ F). cbn [expect mbind Run_bind]. rewrite Ea. cbn [mbind Run_bind]. rewrite Ec.
    eexists (Dispatch _ _), _. split; [done|]. destruct T. split_and!; try done. congruence.
  - assert (filter live (timers (retain st)) = timers (retain st)) as Ef by (simpl; by rewrite list_filter_filter_l).
    rewrite Ef. pose proof (earliest_spec _ _ W') as E. destruct (earliest (timers (retain st))) as [x|].
    + destruct E as (Wx & Hmin & e & He & Ed). eexists (WaitUntil x), _. split; [done|].
      assert (armed (retain st) x) as Ax.
      { exists e. split_and!; try done. by apply list_elem_of_filter in He as [? _]. }
      split_and!; try done; [by apply S|].
      intros d (e' & He' & _ & Ed'). by eapply Hmin.
    + eexists WaitForever, _. split; [done|]. split_and!; try done. intros d (e & He & _ & Ed).
      rewrite E in Ed by done. done.
Qed.

Lemma dispatch_restore_eq i cb st : snd (dispatch_restore i cb st) = restore i cb st.
Proof. unfold dispatch_restore, restore. destruct (find i st) as [[k e]|]; [|done]. by case_decide. Qed.

Lemma frt_register_spec fl st reserve p m cb : service_ok fl st → Duration.wf p →
  ∃ r st' woke, register reserve p m cb st = Done (r, st', woke) ∧ op_ok fl st st' woke ∧
    (∀ d, armed st' d → armed st d) ∧
  match r with
  | Ok i => live_ids st' = live_ids st ++ [i] ∧ (i ∉ live_ids st)
  | Err _ => st' = st
  end.
Proof.
  intros W Wp. unfold register. destruct (TimerState.new p m) as [s|e] eqn:En.
  2:{ eexists _, _, _. split; [done|]. split; [by apply op_same|]. done. }
  destruct reserve; simpl; [|by eexists _, _, _; split; [|split; [by apply op_same|]]].
  destruct (checked_add 64 (next_id st) 1) as [nx|] eqn:Ec; [|by eexists _, _, _; split; [|split; [by apply op_same|]]].
  apply checked_add_Some in Ec as [-> Ec].
  eexists _, _, _. split; [done|]. destruct (push_ok fl st p m s cb W Wp En Ec) as (? & ? & ? & ?). auto.
Qed.

Lemma request_stop_spec fl st : service_ok fl st →
  let '(ok, st') := request_stop st in
  service_ok fl st' ∧ live_ids st' = live_ids st ∧ (∀ d, armed st' d → armed st d) ∧
  if ok then live_ids st = [] ∧ stop_requested st' = true else live_ids st ≠ [] ∧ stop_requested st' = stop_requested st.
Proof.
  intros W. unfold request_stop. pose proof (service_retain_ok _ _ W) as W'. pose proof (live_ids_retain st) as Hl.
  destruct (timers (retain st)) as [|e l] eqn:Et.
  - assert (live_ids st = []) as H0 by (rewrite <- Hl; unfold live_ids; by rewrite Et).
    destruct W' as [? Se ? ?]. rewrite Et in *. split_and!; try done.
    intros d (e & He & _). simpl in He. by apply not_elem_of_nil in He.
  - split_and!; try done; [intros d; apply armed_retain|]. intros H0. rewrite H0 in Hl. unfold live_ids in Hl.
    assert (live e) as L.
    { assert (e ∈ timers (retain st)) as He by (rewrite Et; by left). by apply list_elem_of_filter in He as [? _]. }
    rewrite Et, filter_cons, decide_True in Hl by done. done.
Qed.

End FreeRtosTimerFacts.

(** ** The waits of the worker *)

Module FreeRtosTimerWait.
Section FreeRtosTimerWait.
Context {K : Type} `{Kernel K} (caps : option Sys.Capabilities) (take : Z → K → Sys.TakeStatus * K).

Definition wait_ticks (remaining_ticks : Result Z) : Z :=
  let chunk :=
    match remaining_ticks with
    | Ok t => if t =? 0 then 0 else Z.min t (Z.max 0 (max_finite_delay_ticks - 1))
    | Err Error.Overflow => Z.max 0 (max_finite_delay_ticks - 1)
    | Err _ => 0
    end in
  Z.min (Z.min (chunk + 1) (2 ^ 128 - 1)) (2 ^ 64 - 1).

Fixpoint wait_until_deadline (fuel : nat) (deadline : Duration.t) : M K () :=
  match fuel with
  | O => λ _, NoFuel
  | S fuel =>
      now <- FreeRtosClock.now caps ;;
      if Duration.leb deadline now then mret_ ()
      else
        let remaining := Duration.saturating_sub deadline now in
        c <- mrun (expect caps "capabilities missing") ;;
        s <- Wait.call_take take (wait_ticks (TickTime.duration_to_ticks_ceil remaining (Sys.tick_rate_hz c))) ;;
        match s with
        | Sys.Acquired => mret_ ()
        | Sys.TakeTimeout => wait_until_deadline fuel deadline
        | Sys.TakeInvalid => mpanic "wake sem invalid"
        end
  end.

Fixpoint wait_forever (fuel : nat) : M K () :=
  match fuel with
  | O => λ _, NoFuel
  | S fuel =>
      budget <- mrun (uadd 64 max_finite_delay_ticks 1) ;;
      s <- Wait.call_take take budget ;;
      match s with
      | Sys.Acquired => mret_ ()
      | Sys.TakeTimeout => wait_forever fuel
      | Sys.TakeInvalid => mpanic "wake sem invalid"
      end
  end.

End FreeRtosTimerWait.

Section Facts.
Context {K : Type} `{KernelLaws K}.

(** The budget of a wait is a finite one the kernel accepts, one tick more than
    what is left or the longest there is. *)
Lemma wait_ticks_spec t : 1 ≤ t →
  wait_ticks (Ok t) = Z.min t (max_finite_delay_ticks - 1) + 1 ∧ 2 ≤ wait_ticks (Ok t) ≤ max_finite_delay_ticks.
Proof.
  intros Ht. pose proof WaitFacts.max_finite_range. unfold wait_ticks.
  rewrite (proj2 (Z.eqb_neq t 0)) by lia. lia.
Qed.

(** The worker's wait for the next deadline ends, and never before its time: it
    returns when the wake semaphore was taken, or with the clock at or past the
    deadline.  One iteration per tick up to the deadline is enough. *)
Theorem freertos_worker_wait take deadline k :
  take_ok take → Duration.wf deadline → WaitFacts.patient take deadline → running k → in_life k →
  ∀ fuel, Z.max 0 (WaitFacts.goal_ticks deadline - time k / period) < Z.of_nat fuel →
  ∃ k', wait_until_deadline (Some kernel_capabilities) take fuel deadline k = Done ((), k') ∧
    (WaitFacts.took take k' ∨ as_nanos deadline ≤ WaitFacts.clock_at k').
Proof.
  intros T Wd Hpat Hr Hl fuel. revert k Hr Hl.
  induction fuel as [|fuel IH]; intros k Hr Hl Hf; [lia|]. simpl.
  destruct (WaitFacts.now_spec k Hl) as (d & k2 & En & Wn & Nd & Hle & Hr2 & L2). specialize (Hr2 Hr).
  rewrite (mbind_done _ _ _ _ _ En). rewrite Duration.dur_leb_nanos by done.
  destruct (as_nanos deadline <=? as_nanos d) eqn:Eld; bool_to_prop.
  { exists k2. split; [done|]. right. lia. }
  destruct (WaitFacts.ticks_left deadline d k2 Wd Wn Nd Eld) as (p & Ep & Hp1 & _ & Hlt).
  rewrite (mbind_done _ _ k2 kernel_capabilities k2) by done. fold WaitFacts.rate. rewrite Ep.
  destruct (wait_ticks_spec p Hp1) as [_ Hn]. set (n := wait_ticks (Ok p)) in *.
  pose proof (take_valid _ T n k2) as V. pose proof (take_time _ T n k2) as T1.
  pose proof (take_running _ T n k2 Hr2) as R1. pose proof (take_timeout _ T n k2 ltac:(lia)) as To.
  pose proof (Hpat n k2 ltac:(lia) L2 Hlt) as L3.
  destruct (take n k2) as [s k3] eqn:E1. simpl in V, T1, R1, To, L3.
  rewrite (mbind_done _ _ k2 s k3) by (unfold Wait.call_take; by rewrite E1). destruct s; [| |done].
  - exists k3. split; [done|]. left. by exists n, k2.
  - specialize (To eq_refl). assert (time k / period ≤ time k2 / period) by (by apply WaitFacts.ticks_mono).
    apply IH; [done|done|lia].
Qed.

End Facts.

Lemma freertos_worker_wait_witness :
  ∃ k', wait_until_deadline (Some kernel_capabilities) (VirtualKernel.take_at_u 9) 20 (Duration.mk 0 7000000) 5
          = Done ((), k') ∧
    (WaitFacts.took (VirtualKernel.take_at_u 9) k' ∨ 7000000 ≤ WaitFacts.clock_at k').
Proof.
  apply (freertos_worker_wait (VirtualKernel.take_at_u 9) (Duration.mk 0 7000000) 5).
  - apply VirtualKernel.take_at_ok. lia.
  - split; vm_compute; split; congruence.
  - apply WaitFacts.sample_patient; [lia|vm_compute; congruence].
  - exact I.
  - simpl. lia.
  - vm_compute. reflexivity.
Defined.

End FreeRtosTimerWait.

(** ** The service, its slot and its worker *)

(** A binary semaphore and an event group of the kernel, one object each. *)
Class NativeWake (B : Type) := {
  wake_created : B;
  osal_freertos_wake_give : B → Z * B;
  osal_freertos_wake_take : Z → B → Z * B;
}.
Class NativeWakeLaws (B : Type) `{NativeWake B} := {
  available : B → bool;
  law_wake_created : available wake_created = false;
  law_wake_give : ∀ b, let '(raw, b') := osal_freertos_wake_give b in
    (raw = Sys.GIVE_OK ∨ raw = Sys.GIVE_FULL) ∧ available b' = true;
  law_wake_take : ∀ n b, let '(raw, b') := osal_freertos_wake_take n b in
    raw = (if available b then Sys.TAKE_ACQUIRED else Sys.TAKE_TIMEOUT) ∧ available b' = false;
}.
Class NativeDone (E : Type) := {
  done_created : E;
  osal_freertos_done_set : Z → E → Z * E;
  osal_freertos_done_wait : Z → Z → E → Z * E;
}.
Class NativeDoneLaws (E : Type) `{NativeDone E} := {
  bits_of : E → Z;
  law_done_created : bits_of done_created = 0;
  law_done_set : ∀ bits e, let '(raw, e') := osal_freertos_done_set bits e in
    raw = SysTask.EVENT_GROUP_OK ∧ bits_of e' = Z.lor (bits_of e) bits;
  law_done_wait : ∀ bits n e, let '(raw, e') := osal_freertos_done_wait bits n e in
    raw = (if Z.land (bits_of e) bits =? bits then SysTask.EVENT_GROUP_OK else SysTask.EVENT_GROUP_TIMEOUT) ∧
    bits_of e' = bits_of e;
}.

(** The registry mutex.  [held]: a task that was preempted in its section has it; a
    take that may wait then waits for the end of that section. *)
Class RegistryLock := {
  longest_delay : Z;   (** [sys::max_finite_delay_ticks()] *)
  osal_freertos_registry_take : bool → Z → Z;
  osal_freertos_registry_give : Z;
}.
Class RegistryLockLaws `{RegistryLock} := {
  law_longest_delay : 0 ≤ longest_delay < 2 ^ 64 - 1;
  law_registry_take : ∀ held n, 0 ≤ n →
    osal_freertos_registry_take held n = if held && (n =? 0) then Sys.TAKE_TIMEOUT else Sys.TAKE_ACQUIRED;
  law_registry_give : osal_freertos_registry_give = Sys.GIVE_OK;
}.

Module FreeRtosTimerControl.
Import FreeRtosTimerService.
Section FreeRtosTimerControl.
Context `{Arch} {B E : Type} `{NativeWake B} `{NativeDone E} `{RegistryLock}.

Definition WORKER_COMPLETED_BIT : Z := 1.

(** The worker task of a service, by its next step. *)
Inductive worker_pc : Type :=
| NoTask
| WScan
| WWait (deadline : option Duration.t)
| WCall (i : Z) (cb : TimerCallback)
| WRestore (i : Z) (cb : TimerCallback)
| WDropCallback (cb : TimerCallback)
| WSetBits | WDropArc | WDelete | WDeleted.

(** [TimerService], with its [Arc] strong count and its worker. *)
Record TimerService : Type := mkService {
  registry_mutex : bool;
  wake_sem : option B;
  completion_eg : option E;
  registry : TimerServiceState;
  strong : nat;
  worker : worker_pc;
}.

Definition set_registry (sv : TimerService) (st : TimerServiceState) : TimerService :=
  mkService (registry_mutex sv) (wake_sem sv) (completion_eg sv) st (strong sv) (worker sv).
Definition set_wake (sv : TimerService) (b : B) : TimerService :=
  mkService (registry_mutex sv) (Some b) (completion_eg sv) (registry sv) (strong sv) (worker sv).
Definition set_strong (sv : TimerService) (n : nat) : TimerService :=
  mkService (registry_mutex sv) (wake_sem sv) (completion_eg sv) (registry sv) n (worker sv).
Definition set_worker (sv : TimerService) (p : worker_pc) : TimerService :=
  mkService (registry_mutex sv) (wake_sem sv) (completion_eg sv) (registry sv) (strong sv) p.

(** Services and their workers are named by position. *)
Inductive ServiceSlot : Type :=
| Stopped
| Running (service : nat) (has_worker : bool)
| Stopping (service : nat).

(** [natives]: the native objects created and not deleted. *)
Record world : Type := mkWorld {
  slot : ServiceSlot;
  services : list TimerService;
  natives : nat;
}.

Definition init : world := mkWorld Stopped [] 0.
Definition set_slot (w : world) (s : ServiceSlot) : world := mkWorld s (services w) (natives w).
Definition set_service (w : world) (k : nat) (sv : TimerService) : world :=
  mkWorld (slot w) (<[k:=sv]> (services w)) (natives w).

(** *** The service *)

(** [TimerService::new]; the flags say which native creations succeed. *)
Definition service_new (mutex sem group : bool) (natives : nat) : Result TimerService * nat :=
  if negb mutex then (Err Error.OutOfMemory, natives)
  else if negb sem then (Err Error.OutOfMemory, pred (S natives))
  else if negb group then (Err Error.OutOfMemory, pred (pred (S (S natives))))
  else (Ok (mkService true (Some wake_created) (Some done_created) TimerRegistry.new 1 NoTask),
        S (S (S natives))).

(** A use of a service through an [Arc]. *)
Definition deref (w : world) (k : nat) : Run TimerService :=
  sv ← expect (services w !! k) "dangling Arc";
  _ ← rassert (negb (Nat.eqb (strong sv) 0)) "service used after free";
  Done sv.

(** [with_lock] around [f], in a scheduler state and with the mutex held by a
    preempted task or not: a suspended scheduler does not allow to wait. *)
Definition with_lock {R} (sched : Sys.SchedulerState) (held : bool) (sv : TimerService)
    (f : TimerServiceState → Run (R * TimerServiceState)) : Run (R * TimerService) :=
  _ ← rassert (registry_mutex sv) "registry mutex missing";
  timeout ← match sched with Sys.Suspended => Done 0 | _ => uadd 64 longest_delay 1 end;
  _ ← rassert (bool_decide (Sys.take_from_raw (osal_freertos_registry_take held timeout) = Sys.Acquired)) "registry mutex dead";
  '(r, st) ← f (registry sv);
  _ ← rassert (bool_decide (Sys.give_from_raw osal_freertos_registry_give = Sys.GiveOk)) "registry mutex unlock failed";
  Done (r, set_registry sv st).

(** [FreeRtosClock::now] at time [now]. *)
Definition clock_now (caps : option Sys.Capabilities) (now : Duration.t) : Run Duration.t :=
  _ ← expect caps "FreeRtosClock::now requires osal::initialize() to be called first"; Done now.

Definition signal_wake (sv : TimerService) : Run TimerService :=
  b ← expect (wake_sem sv) "wake sem missing";
  let '(raw, b') := osal_freertos_wake_give b in
  match Sys.give_from_raw raw with
  | Sys.GiveOk | Sys.GiveFull => Done (set_wake sv b')
  | Sys.GiveInvalid => Panic "wake semaphore invalid"
  end.

(** [delete_resources] deletes what is still there. *)
Definition held (sv : TimerService) : nat :=
  (length (option_list (completion_eg sv)) + length (option_list (wake_sem sv)) + Nat.b2n (registry_mutex sv))%nat.

(** [Arc::clone] and [Arc::drop], the last of which deletes the native objects. *)
Definition arc_clone (w : world) (k : nat) : Run world :=
  sv ← deref w k; Done (set_service w k (set_strong sv (S (strong sv)))).
Definition arc_drop (w : world) (k : nat) : Run world :=
  sv ← deref w k;
  match pred (strong sv) with
  | O => Done (mkWorld (slot w)
                 (<[k:=mkService false None None (registry sv) 0 (worker sv)]> (services w))
                 (natives w - held sv))
  | n => Done (set_service w k (set_strong sv n))
  end.

(** *** Start and stop of the service *)

Definition initialize (mutex sem group : bool) (w : world) : Result () * world :=
  match slot w with
  | Stopped =>
      match service_new mutex sem group (natives w) with
      | (Ok sv, n) => (Ok (), mkWorld (Running (length (services w)) false) (services w ++ [sv]) n)
      | (Err e, n) => (Err e, mkWorld (slot w) (services w) n)
      end
  | Running _ _ => (Err Error.AlreadyInitialized, w)
  | Stopping _ => (Err Error.Busy, w)
  end.

(** [shutdown], by its next step; [caller] is the service whose worker calls it. *)
Inductive stop_pc : Type :=
| SdPreflight (caller : option nat)
| SdScheduler (caller : option nat)
| SdRequest (caller : option nat)
| SdWait (service : nat)
| SdDrop (service : nat)
| SdFinish
| SdReturn (r : Result ()).

Definition scheduler_result (st : Sys.SchedulerState) : Result () :=
  match st with
  | Sys.Running => Ok ()
  | Sys.NotStarted => Err Error.NotInitialized
  | Sys.Suspended => Err Error.Busy
  | Sys.UnknownState _ => Err (Error.Internal "unknown scheduler state")
  end.

(** Phase 1, under the slot's lock. *)
Definition shutdown_request (sched : Sys.SchedulerState) (held : bool) (caller : option nat) (w : world) : Run (Result (bool * nat) * world) :=
  match slot w with
  | Stopped => Done (Err Error.NotInitialized, w)
  | Stopping _ => Done (Err Error.Busy, w)
  | Running s has_worker =>
      if has_worker && bool_decide (caller = Some s) then Done (Err Error.Busy, w)
      else
        w ← arc_clone w s;
        sv ← deref w s;
        '(ok, sv) ← with_lock sched held sv (λ st, Done (request_stop st));
        if ok : bool then
          sv ← signal_wake sv;
          w ← arc_clone (set_service w s sv) s;
          w ← arc_drop (set_slot w (Stopping s)) s;
          Done (Ok (has_worker, s), w)
        else
          w ← arc_drop (set_service w s sv) s;
          Done (Err Error.Busy, w)
  end.

(** The final slot transition, with the drop of the slot's own [Arc]. *)
Definition shutdown_finish (w : world) : Run world :=
  match slot w with
  | Stopping s => arc_drop (set_slot w Stopped) s
  | _ => Panic "timer shutdown slot invariant violated"
  end.

Definition stop_step (sched : Sys.SchedulerState) (held : bool) (ticks : Z) (p : stop_pc) (w : world)
    : option (Run (stop_pc * world)) :=
  match p with
  | SdPreflight caller => Some (Done
      (match slot w with
       | Running _ true => SdScheduler caller
       | Running _ false | Stopped => SdRequest caller
       | Stopping _ => SdReturn (Err Error.Busy)
       end, w))
  | SdScheduler caller => Some (Done
      (match scheduler_result sched with Ok _ => SdRequest caller | Err e => SdReturn (Err e) end, w))
  | SdRequest caller =>
      Some ('(r, w) ← shutdown_request sched held caller w;
            Done (match r with
                  | Ok (true, s) => SdWait s
                  | Ok (false, s) => SdDrop s
                  | Err e => SdReturn (Err e)
                  end, w))
  | SdWait s =>
      Some (sv ← deref w s;
            e ← expect (completion_eg sv) "completion EG missing";
            let '(raw, e') := osal_freertos_done_wait WORKER_COMPLETED_BIT ticks e in
            let w := set_service w s (mkService (registry_mutex sv) (wake_sem sv) (Some e')
                                        (registry sv) (strong sv) (worker sv)) in
            match SysTask.wait_from_raw raw with
            | SysTask.WaitOk => Done (SdDrop s, w)
            | SysTask.WaitTimeout => Done (SdWait s, w)
            | SysTask.WaitInvalid => Panic "live timer completion EventGroup became invalid"
            end)
  | SdDrop s => Some (w ← arc_drop w s; Done (SdFinish, w))
  | SdFinish => Some (w ← shutdown_finish w; Done (SdReturn (Ok ()), w))
  | SdReturn _ => None
  end.

(** *** The worker *)

(** [ensure_worker]; [created] says whether the task creation succeeds. *)
Definition ensure_worker (sched : Sys.SchedulerState) (caps : option Sys.Capabilities) (created : bool)
    (w : world) : Run (Result () * world) :=
  match slot w with
  | Running s has_worker =>
      match scheduler_result sched with
      | Err e => Done (Err e, w)
      | Ok _ =>
          if has_worker then Done (Ok (), w)
          else
            match caps with
            | None => Done (Err Error.NotInitialized, w)
            | Some caps =>
                match TaskConfig.stack_bytes_to_words 4096 (Sys.stack_word_size caps)
                        (Sys.minimal_stack_depth_words caps) (Sys.max_stack_depth_words caps) with
                | Err e => Done (Err e, w)
                | Ok _ =>
                    w ← arc_clone w s;
                    if created then
                      sv ← deref w s;
                      Done (Ok (), mkWorld (Running s true) (<[s:=set_worker sv WScan]> (services w)) (natives w))
                    else
                      w ← arc_drop w s;
                      Done (Err Error.OutOfMemory, w)
                end
            end
      end
  | Stopped => Done (Err Error.NotInitialized, w)
  | Stopping _ => Done (Err Error.Busy, w)
  end.

(** A native take of the wake semaphore. *)
Definition take_wake (ticks : Z) (sv : TimerService) : Run (bool * TimerService) :=
  b ← expect (wake_sem sv) "wake sem missing";
  let '(raw, b') := osal_freertos_wake_take ticks b in
  match Sys.take_from_raw raw with
  | Sys.Acquired => Done (true, set_wake sv b')
  | Sys.TakeTimeout => Done (false, set_wake sv b')
  | Sys.TakeInvalid => Panic "wake sem invalid"
  end.

(** [run], [dispatch_one], [wait_until_deadline], [wait_forever] and the end of
    [timer_worker], at time [now]; [ticks] is the budget of a native take. *)
Definition worker_step (caps : option Sys.Capabilities) (sched : Sys.SchedulerState) (held : bool)
    (now : Duration.t) (ticks : Z) (k : nat) (w : world) : option (Run world) :=
  match services w !! k with
  | None => None
  | Some sv =>
      let continue sv p := Done (set_service w k (set_worker sv p)) in
      match worker sv with
      | NoTask | WDeleted => None
      | WScan =>
          Some (sv ← deref w k;
                '(a, sv) ← with_lock sched held sv (λ st,   (* the clock is read after the test for the stop *)
                  if stop_requested st then scan now st else (now ← clock_now caps now; scan now st));
                continue sv match a with
                            | Dispatch i cb => WCall i cb
                            | WaitUntil d => WWait (Some d)
                            | WaitForever => WWait None
                            | Rescan => WScan
                            | Stop => WSetBits
                            end)
      | WWait deadline =>
          Some (over ← match deadline with
                       | Some d => now ← clock_now caps now; Done (Duration.leb d now)
                       | None => Done false
                       end;
                if over : bool then continue sv WScan
                else
                  _ ← match deadline with
                      | Some _ => _ ← expect caps "capabilities missing"; Done ()
                      | None => Done ()
                      end;
                  sv ← deref w k;
                  '(acquired, sv) ← take_wake ticks sv;
                  continue sv (if acquired : bool then WScan else WWait deadline))
      | WCall i cb => Some (continue sv (WRestore i cb))
      | WRestore i cb =>
          Some (sv ← deref w k;
                '(r, sv) ← with_lock sched held sv (λ st, Done (dispatch_restore i cb st));
                continue sv match r with None => WScan | Some cb => WDropCallback cb end)
      | WDropCallback _ => Some (continue sv WScan)
      | WSetBits =>
          Some (sv ← deref w k;
                e ← expect (completion_eg sv) "completion EG missing";
                let '(status, e') := osal_freertos_done_set WORKER_COMPLETED_BIT e in
                _ ← rassert (status =? SysTask.EVENT_GROUP_OK) "completion EG invalid";
                continue (mkService (registry_mutex sv) (wake_sem sv) (Some e') (registry sv) (strong sv)
                            (worker sv)) WDropArc)
      | WDropArc =>
          Some (w ← arc_drop w k;
                sv ← expect (services w !! k) "dangling Arc";
                Done (set_service w k (set_worker sv WDelete)))
      | WDelete => Some (continue sv WDeleted)
      end
  end.

(** *** Calls on timers *)

(** [with_registry] up to the registry lock: the service's [Arc]. *)
Definition extract (w : world) : Run (Result nat * world) :=
  match slot w with
  | Running s _ => w ← arc_clone w s; Done (Ok s, w)
  | Stopped => Done (Err Error.NotInitialized, w)
  | Stopping _ => Done (Err Error.Busy, w)
  end.

Inductive call_kind : Type :=
| KRegister (p : Duration.t) (m : TimerMode.t) (cb : TimerCallback)
| KStart | KStop | KReset | KChangePeriod (p : Duration.t)
| KDeregister.

(** What a call does under the registry lock: its result, the registry, and
    whether it signals the worker. *)
Definition call_section (caps : option Sys.Capabilities) (kind : call_kind) (i : Z) (now : Duration.t) (reserve : bool)
    (st : TimerServiceState) : Run (effect Z) :=
  let unit_ (m : Run (effect ())) : Run (effect Z) :=
    '(r, st, woke) ← m; Done (match r with Ok _ => Ok 0 | Err e => Err e end, st, woke) in
  match kind with
  | KRegister p m cb => register reserve p m cb st
  | KStart => unit_ (now ← clock_now caps now; start i now st)
  | KStop => unit_ (stop i st)
  | KReset => unit_ (now ← clock_now caps now; reset i now st)
  | KChangePeriod p => unit_ (change_period i p st)
  | KDeregister => unit_ (deregister i st)
  end.

(** The locked part of [with_registry]. *)
Definition locked (sched : Sys.SchedulerState) (held : bool) (f : TimerServiceState → Run (effect Z)) (k : nat) (w : world) : Run (Result Z * world) :=
  sv ← deref w k;
  '(x, sv) ← with_lock sched held sv (λ st, '(r, st', woke) ← f st; Done ((r, woke), st'));
  let '(r, woke) := x in
  sv ← (if woke : bool then signal_wake sv else Done sv);
  Done (r, set_service w k sv).

(** A call, by its next step. *)
Inductive call_pc : Type :=
| CEnsure | CExtract | CLocked (s : nat) | CDrop (s : nat) (r : Result Z) | CRelease.
Record call : Type := mkCall { kind : call_kind; cid : Z; cpc : call_pc }.

(** *** Taking the registry mutex *)

(** Nobody waits for it with the scheduler suspended. *)
Definition lockable (sched : Sys.SchedulerState) (held : bool) : Prop := sched = Sys.Suspended → held = false.

Context `{!RegistryLockLaws}.

Lemma with_lock_ok {R} sched held sv (f : TimerServiceState → Run (R * TimerServiceState)) :
  lockable sched held → registry_mutex sv = true →
  with_lock sched held sv f = '(r, st) ← f (registry sv); Done (r, set_registry sv st).
Proof.
  intros Hl Hm. unfold with_lock. rewrite Hm. simpl. pose proof law_longest_delay.
  assert (∃ n, match sched with Sys.Suspended => Done 0 | _ => uadd 64 longest_delay 1 end = Done n ∧
    osal_freertos_registry_take held n = Sys.TAKE_ACQUIRED) as (n & -> & Ht).
  { destruct (decide (sched = Sys.Suspended)) as [->|Hne].
    - exists 0. split; [done|]. by rewrite law_registry_take, (Hl eq_refl).
    - exists (longest_delay + 1). split; [rewrite uadd_ok by lia; by destruct sched|].
      rewrite law_registry_take by lia. rewrite (proj2 (Z.eqb_neq _ _)) by lia. by rewrite andb_false_r. }
  simpl. rewrite Ht, law_registry_give. simpl. by destruct (f (registry sv)) as [[]| |].
Qed.

(** Otherwise the assertion fails. *)
Lemma with_lock_dead {R} sv (f : TimerServiceState → Run (R * TimerServiceState)) :
  registry_mutex sv = true → with_lock Sys.Suspended true sv f = Panic "registry mutex dead".
Proof. intros Hm. unfold with_lock. rewrite Hm. simpl. by rewrite law_registry_take. Qed.

End FreeRtosTimerControl.
End FreeRtosTimerControl.
