(* ===== verification/FreeRtosTimerMachine.v ===== *)
(** * FreeRTOS timers, their service and the runtime together

    Any number of tasks start and stop the runtime, create, use, clone and drop
    timers, the callbacks do the same from the worker, and the worker runs between
    them.  A step is one section under a lock, one transition of the lifecycle
    word, one change of a reference count or one kernel call; a blocking kernel
    call is a step at the moment it returns.

    A section under the registry mutex is one step, so no two of them overlap.
    Whether the scheduler is suspended when a task comes to take the mutex, and
    whether a preempted task has it then, are arguments of the step: it waits, or
    takes it at once.  With both the code panics ([with_lock_dead]); [event_ok]
    leaves that case out. *)

From S2P Require Import Prelude Api Time Runtime Kernel TimerRegistry FreeRtosRuntime FreeRtosTask FreeRtosTimer.
Import Duration (as_nanos).
Import FreeRtosTimerService FreeRtosTimerControl FreeRtosTimerFacts.

Module FreeRtosTimerMachine.
Section FreeRtosTimerMachine.
Context `{Arch} {B E : Type} `{NativeWake B} `{!NativeWakeLaws B} `{NativeDone E} `{!NativeDoneLaws E}.
Context `{RL : RegistryLock} `{RLL : !RegistryLockLaws}.
Context (probed : Sys.Capabilities).

Abbreviation world := (FreeRtosTimerControl.world (B:=B) (E:=E)).
Abbreviation TimerService := (FreeRtosTimerControl.TimerService (B:=B) (E:=E)).

(** [handles]: the live [FreeRtosTimerHandleInner]s with the number of further
    clones of each; [others]: the leases of other objects; [results]: the results
    of the calls on timers. *)
Record config : Type := mkConfig {
  runtime : FreeRtosRuntime.t;
  wld : world;
  clock : Duration.t;
  stops : list stop_pc;
  calls : list call;
  handles : list (Z * nat);
  others : nat;
  results : list (call_kind * Result Z);
}.

Definition start_config (now : Duration.t) : config := mkConfig FreeRtosRuntime.new init now [] [] [] 0 [].

Definition set_runtime (c : config) r := mkConfig r (wld c) (clock c) (stops c) (calls c) (handles c) (others c) (results c).
Definition set_wld (c : config) w := mkConfig (runtime c) w (clock c) (stops c) (calls c) (handles c) (others c) (results c).
Definition set_clock (c : config) t := mkConfig (runtime c) (wld c) t (stops c) (calls c) (handles c) (others c) (results c).
Definition set_stops (c : config) l := mkConfig (runtime c) (wld c) (clock c) l (calls c) (handles c) (others c) (results c).
Definition set_calls (c : config) l := mkConfig (runtime c) (wld c) (clock c) (stops c) l (handles c) (others c) (results c).
Definition set_handles (c : config) l := mkConfig (runtime c) (wld c) (clock c) (stops c) (calls c) l (others c) (results c).
Definition set_others (c : config) n := mkConfig (runtime c) (wld c) (clock c) (stops c) (calls c) (handles c) n (results c).
Definition add_result (c : config) k r := mkConfig (runtime c) (wld c) (clock c) (stops c) (calls c) (handles c) (others c) (results c ++ [(k, r)]).

(** *** The calls *)

(** Constructor and drop hold a lease. *)
Definition holds (x : call) : bool := match kind x with KRegister _ _ _ | KDeregister => true | _ => false end.

(** A call that returns: [timer.rs] makes a handle of a new timer, gives the
    lease back when there is none, and asserts that a drop finds its timer. *)
Definition call_return (c : config) (i : nat) (x : call) (r : Result Z) : Run config :=
  let c := add_result c (kind x) r in
  match kind x, r with
  | KRegister _ _ _, Ok id => Done (set_handles (set_calls c (delete i (calls c))) (handles c ++ [(id, 0%nat)]))
  | KRegister _ _ _, Err _ => Done (set_calls c (<[i:=mkCall (kind x) (cid x) CRelease]> (calls c)))
  | KDeregister, r =>
      _ ← rassert (is_ok r) "live timer deregistration failed";
      Done (set_calls c (<[i:=mkCall (kind x) (cid x) CRelease]> (calls c)))
  | _, _ => Done (set_calls c (delete i (calls c)))
  end.

Definition call_step (c : config) (i : nat) (sched : Sys.SchedulerState) (held created reserve : bool) (x : call)
    : Run config :=
  let continue c p := Done (set_calls c (<[i:=mkCall (kind x) (cid x) p]> (calls c))) in
  match cpc x with
  | CEnsure =>
      '(r, w) ← ensure_worker sched (FreeRtosRuntime.capabilities (runtime c)) created (wld c);
      let c := set_wld c w in
      match r with Ok _ => continue c CExtract | Err e => call_return c i x (Err e) end
  | CExtract =>
      '(r, w) ← extract (wld c);
      let c := set_wld c w in
      match r with Ok s => continue c (CLocked s) | Err e => call_return c i x (Err e) end
  | CLocked s =>
      '(r, w) ← locked sched held (call_section (FreeRtosRuntime.capabilities (runtime c)) (kind x) (cid x) (clock c) reserve) s (wld c);
      continue (set_wld c w) (CDrop s r)
  | CDrop s r => w ← arc_drop (wld c) s; call_return (set_wld c w) i x r
  | CRelease =>
      r ← FreeRtosRuntime.lease_drop (runtime c);
      Done (set_calls (set_runtime c r) (delete i (calls c)))
  end.

(** A call on a timer that borrows its handle. *)
Inductive timer_op : Type := Start | StopTimer | Reset | ChangePeriod (p : Duration.t).
Definition op_call (o : timer_op) (id : Z) : option call :=
  match o with
  | Start => Some (mkCall KStart id CEnsure)
  | StopTimer => Some (mkCall KStop id CExtract)
  | Reset => Some (mkCall KReset id CEnsure)
  | ChangePeriod p =>
      if Duration.eqb p Duration.ZERO then None else Some (mkCall (KChangePeriod p) id CExtract)
  end.
Definition borrows (id : Z) (x : call) : bool := negb (holds x) && (cid x =? id).

(** *** Events *)

Inductive event : Type :=
| Tick (now : Duration.t)
| Worker (k : nat) (sched : Sys.SchedulerState) (held : bool) (ticks : Z)
| InitBegin
| InitTimer (i : nat) (mutex sem group : bool)
| ShutBegin (caller : option nat)
| StopStep (j : nat) (sched : Sys.SchedulerState) (held : bool) (ticks : Z)
| StopDone (i j : nat)
| TransitionStep (i : nat)
| New (p : Duration.t) (m : TimerMode.t) (cb : TimerCallback)
| Op (h : nat) (o : timer_op)
| CallStep (i : nat) (sched : Sys.SchedulerState) (held created reserve : bool)
| Clone (h : nat)
| Drop (h : nat)
| AcquireOther
| ReleaseOther.

Definition exec (c : config) (e : event) : option (Run config) :=
  match e with
  | Tick now => Some (Done (set_clock c now))
  | Worker k sched held ticks =>
      r ← worker_step (FreeRtosRuntime.capabilities (runtime c)) sched held (clock c) ticks k (wld c);
      Some (w ← r; Done (set_wld c w))
  | InitBegin => Some ('(_, r) ← FreeRtosRuntime.initialize_begin (runtime c); Done (set_runtime c r))
  | InitTimer i mutex sem group =>
      if decide (FreeRtosRuntime.transitions (runtime c) !! i = Some FreeRtosRuntime.InitTimer) then
        let '(res, w) := initialize mutex sem group (wld c) in
        r ← FreeRtosRuntime.timer_returned i res (runtime c); Some (Done (set_runtime (set_wld c w) r))
      else None
  | ShutBegin caller =>
      Some ('(res, r) ← FreeRtosRuntime.shutdown_begin (runtime c);
            Done (set_stops (set_runtime c r) (stops c ++ if is_ok res then [SdPreflight caller] else [])))
  | StopStep j sched held ticks =>
      p ← stops c !! j; m ← stop_step sched held ticks p (wld c);
      Some ('(p', w) ← m; Done (set_stops (set_wld c w) (<[j:=p']> (stops c))))
  | StopDone i j =>
      match FreeRtosRuntime.transitions (runtime c) !! i, stops c !! j with
      | Some FreeRtosRuntime.ShutTimer, Some (SdReturn res) =>
          r ← FreeRtosRuntime.timer_returned i res (runtime c);
          Some (Done (set_stops (set_runtime c r) (delete j (stops c))))
      | _, _ => None
      end
  | TransitionStep i =>
      m ← FreeRtosRuntime.transition_step probed i (runtime c); Some (r ← m; Done (set_runtime c r))
  | New p m cb =>
      if Duration.eqb p Duration.ZERO then Some (Done c)
      else Some ('(res, r) ← FreeRtosRuntime.acquire_object (runtime c);
                 Done (set_calls (set_runtime c r)
                   (calls c ++ if is_ok res then [mkCall (KRegister p m cb) 0 CExtract] else [])))
  | Op h o =>
      '(id, _) ← handles c !! h;
      Some (Done (set_calls c (calls c ++ match op_call o id with Some x => [x] | None => [] end)))
  | CallStep i sched held created reserve => x ← calls c !! i; Some (call_step c i sched held created reserve x)
  | Clone h => '(id, n) ← handles c !! h; Some (Done (set_handles c (<[h:=(id, S n)]> (handles c))))
  | Drop h =>
      '(id, n) ← handles c !! h;
      match n with
      | S n => Some (Done (set_handles c (<[h:=(id, n)]> (handles c))))
      | O => if existsb (borrows id) (calls c) then None
             else Some (Done (set_calls (set_handles c (delete h (handles c)))
                                (calls c ++ [mkCall KDeregister id CExtract])))
      end
  | AcquireOther =>
      Some ('(res, r) ← FreeRtosRuntime.acquire_object (runtime c);
            Done (set_others (set_runtime c r) (if is_ok res then S (others c) else others c)))
  | ReleaseOther =>
      match others c with
      | O => None
      | S n => Some (r ← FreeRtosRuntime.lease_drop (runtime c); Done (set_others (set_runtime c r) n))
      end
  end.

(** The clock moves forward, a shutdown from a worker comes from its callback, and
    nobody takes the registry mutex with the scheduler suspended while a preempted
    task has it. *)
Definition event_ok (c : config) (e : event) : Prop :=
  match e with
  | Tick now => Duration.wf now ∧ as_nanos (clock c) ≤ as_nanos now
  | ShutBegin (Some k) => ∃ sv i cb, services (wld c) !! k = Some sv ∧ worker sv = WCall i cb
  | New p _ _ | Op _ (ChangePeriod p) => Duration.wf p
  | Worker _ sched held _ | StopStep _ sched held _ | CallStep _ sched held _ _ => lockable sched held
  | _ => True
  end.

Inductive reachable : config → Prop :=
| ft_init now : Duration.wf now → reachable (start_config now)
| ft_step c e c' : reachable c → event_ok c e → exec c e = Some (Done c') → reachable c'.

(** *** The invariant *)

Definition flight (p : worker_pc) : option Z :=
  match p with WCall i _ | WRestore i _ => Some i | _ => None end.
Definition past (p : worker_pc) : bool :=
  match p with WDropArc | WDelete | WDeleted => true | _ => false end.
(** A worker that no longer touches the registry. *)
Definition retired (p : worker_pc) : Prop := p = NoTask ∨ past p = true.
Lemma retired_dec p : retired p ∨ ¬ retired p.
Proof. unfold retired. destruct p; simpl; auto; right; by intros [?|?]. Qed.

Definition alive (sv : TimerService) : bool := negb (Nat.eqb (strong sv) 0).

Record sv_ok (sv : TimerService) : Prop := {
  sv_registry : service_ok (flight (worker sv)) (registry sv);
  sv_natives : if alive sv then registry_mutex sv = true ∧ is_Some (wake_sem sv) ∧ is_Some (completion_eg sv)
               else registry_mutex sv = false ∧ wake_sem sv = None ∧ completion_eg sv = None;
  sv_bits : ∀ e, completion_eg sv = Some e → bits_of e = if past (worker sv) then WORKER_COMPLETED_BIT else 0;
  sv_sleeps : ∀ dl b, worker sv = WWait dl → wake_sem sv = Some b → available b = false →
    stop_requested (registry sv) = false ∧
    ∀ d, armed (registry sv) d → ∃ x, dl = Some x ∧ as_nanos x ≤ as_nanos d;
  sv_deadline : ∀ x, worker sv = WWait (Some x) → Duration.wf x;
  sv_idle : worker sv = NoTask → ∀ d, ¬ armed (registry sv) d;
  sv_stop : stop_requested (registry sv) = true → live_ids (registry sv) = [];
  sv_over : worker sv = WSetBits ∨ past (worker sv) = true → stop_requested (registry sv) = true;
}.

(** References to service [k]. *)
Definition worker_ref (p : worker_pc) : nat := match p with NoTask | WDelete | WDeleted => 0 | _ => 1 end.
Definition slot_ref (s : ServiceSlot) (k : nat) : nat :=
  match s with Running s _ | Stopping s => Nat.b2n (Nat.eqb s k) | Stopped => 0 end.
Definition call_ref (k : nat) (x : call) : bool :=
  match cpc x with CLocked s | CDrop s _ => Nat.eqb s k | _ => false end.
Definition stop_ref (k : nat) (p : stop_pc) : bool :=
  match p with SdWait s | SdDrop s => Nat.eqb s k | _ => false end.
Definition refs (c : config) (k : nat) (p : worker_pc) : nat :=
  (slot_ref (slot (wld c)) k + countb (call_ref k) (calls c) + countb (stop_ref k) (stops c) + worker_ref p)%nat.

(** The timers some handle or call stands for. *)
Definition call_owned (x : call) : option Z :=
  match kind x, cpc x with
  | KDeregister, (CExtract | CLocked _) => Some (cid x)
  | KRegister _ _ _, CDrop _ (Ok i) => Some i
  | _, _ => None
  end.
Definition ids (c : config) : list Z := fst <$> handles c.
Definition owned (c : config) : list Z := ids c ++ omap call_owned (calls c).
Definition leases (c : config) : nat := (length (handles c) + countb holds (calls c) + others c)%nat.

(** The service of the slot, where it is up or stopping. *)
Definition up (own : list Z) (w : world) : Prop :=
  ∃ s hw sv, slot w = Running s hw ∧ services w !! s = Some sv ∧ stop_requested (registry sv) = false ∧
    (hw = true ↔ worker sv ≠ NoTask) ∧ live_ids (registry sv) ≡ₚ own.
Definition halting (s : nat) (P : worker_pc → Prop) (w : world) : Prop :=
  ∃ sv, slot w = Stopping s ∧ services w !! s = Some sv ∧ stop_requested (registry sv) = true ∧ P (worker sv).

Definition stop_ok (own : list Z) (w : world) (p : stop_pc) : Prop :=
  match p with
  | SdPreflight _ | SdScheduler _ | SdRequest _ | SdReturn (Err _) => up own w
  | SdWait s => halting s (λ p, p ≠ NoTask) w
  | SdDrop s => halting s retired w
  | SdFinish => ∃ s, halting s retired w
  | SdReturn (Ok _) => slot w = Stopped
  end.

Definition phase_ok (c : config) : Prop :=
  match FreeRtosRuntime.transitions (runtime c) with
  | [] => stops c = [] ∧
      match FreeRtosRuntime.caps (runtime c) with None => slot (wld c) = Stopped | Some _ => up (owned c) (wld c) end
  | [FreeRtosRuntime.ShutTimer] => ∃ p, stops c = [p] ∧ stop_ok (owned c) (wld c) p
  | [FreeRtosRuntime.InitTimer] | [FreeRtosRuntime.InitAbort]
  | [FreeRtosRuntime.ShutCaps] | [FreeRtosRuntime.ShutCommit] => stops c = [] ∧ slot (wld c) = Stopped
  | [_] => stops c = [] ∧ up (owned c) (wld c)
  | _ => False
  end.

Definition call_ok (ids : list Z) (s : ServiceSlot) (x : call) : Prop :=
  match kind x with
  | KRegister p _ _ => Duration.wf p
  | KDeregister => ∀ k r, cpc x = CDrop k r → is_ok r = true
  | KChangePeriod p => cid x ∈ ids ∧ Duration.wf p ∧ p ≠ Duration.ZERO
  | KStart | KReset => cid x ∈ ids ∧ (cpc x ≠ CEnsure → ∃ k, s = Running k true)
  | KStop => cid x ∈ ids
  end ∧
  match cpc x with
  | CEnsure => kind x = KStart ∨ kind x = KReset
  | CExtract => True
  | CLocked k => ∃ hw, s = Running k hw
  | CDrop k r => (∃ hw, s = Running k hw) ∧ r ≠ Err Error.NotFound
  | CRelease => holds x = true
  end.

Record inv (c : config) : Prop := {
  i_rt : FreeRtosRuntime.ok probed (leases c) (runtime c);
  i_clock : Duration.wf (clock c);
  i_phase : phase_ok c;
  i_services : ∀ k sv, services (wld c) !! k = Some sv →
    sv_ok sv ∧ strong sv = refs c k (worker sv) ∧ (slot_ref (slot (wld c)) k = 0%nat → retired (worker sv));
  i_caps : ∀ k sv, services (wld c) !! k = Some sv → ¬ retired (worker sv) →
    FreeRtosRuntime.caps (runtime c) = Some probed;
  i_natives : natives (wld c) = (3 * countb alive (services (wld c)))%nat;
  i_calls : ∀ i x, calls c !! i = Some x → call_ok (ids c) (slot (wld c)) x;
  i_results : ∀ i k r, results c !! i = Some (k, r) → r ≠ Err Error.NotFound;
}.

Lemma frt_timer_inv_init now : Duration.wf now → inv (start_config now).
Proof. intros W. split; simpl; try done. apply FreeRtosRuntime.new_ok. Qed.

(** *** One service changes *)

Lemma inv_update c c' k sv sv' :
  inv c → services (wld c) !! k = Some sv → services (wld c') = <[k:=sv']> (services (wld c)) →
  sv_ok sv' → strong sv' = refs c' k (worker sv') →
  (slot_ref (slot (wld c')) k = 0%nat → retired (worker sv')) →
  (∀ k' s', k' ≠ k → services (wld c) !! k' = Some s' →
     refs c' k' (worker s') = refs c k' (worker s') ∧ slot_ref (slot (wld c')) k' = slot_ref (slot (wld c)) k') →
  (natives (wld c') + 3 * Nat.b2n (alive sv) = natives (wld c) + 3 * Nat.b2n (alive sv'))%nat →
  FreeRtosRuntime.ok probed (leases c') (runtime c') → Duration.wf (clock c') → phase_ok c' →
  (∀ i x, calls c' !! i = Some x → call_ok (ids c') (slot (wld c')) x) →
  (∀ i k r, results c' !! i = Some (k, r) → r ≠ Err Error.NotFound) →
  runtime c' = runtime c →
  (retired (worker sv) → retired (worker sv') ∨ FreeRtosRuntime.caps (runtime c) = Some probed) → inv c'.
Proof.
  intros I E1 Es W Hs Hr Ho Hn Hrt Hc Hp Hx Hrs Hrun Hcap. split; try done.
  - intros k' s'. rewrite Es. intros [(<- & <- & _)|[Hne E']]%list_lookup_insert_Some; [done|].
    destruct (Ho k' s' ltac:(done) E') as [Hf Hsl]. rewrite Hf, Hsl. by apply (i_services _ I).
  - intros k' s'. rewrite Es, Hrun. intros [(<- & <- & _)|[Hne E']]%list_lookup_insert_Some Hnr.
    + destruct (retired_dec (worker sv)) as [Hd|Hd]; [by destruct (Hcap Hd)|by apply (i_caps _ I k sv)].
    + by apply (i_caps _ I k' s').
  - rewrite Es. pose proof (countb_insert alive _ k sv sv' E1). pose proof (i_natives _ I). lia.
Qed.

(** A change of the slot's service that keeps what the phase is about. *)
Lemma stop_ok_service own w k sv sv' n p :
  stop_ok own w p → services w !! k = Some sv →
  live_ids (registry sv') = live_ids (registry sv) →
  stop_requested (registry sv') = stop_requested (registry sv) →
  (worker sv' = NoTask ↔ worker sv = NoTask) → (retired (worker sv) → retired (worker sv')) →
  stop_ok own (mkWorld (slot w) (<[k:=sv']> (services w)) n) p.
Proof.
  intros P E1 Hl Hs Hw Hr. pose proof (lookup_lt_Some _ _ _ E1) as Hlt.
  assert (∀ own, up own w → up own (mkWorld (slot w) (<[k:=sv']> (services w)) n)) as Hup.
  { intros own' (s & hw & sv0 & Hsl & E0 & Hst & Hhw & Hli). destruct (decide (k = s)) as [<-|Hne].
    - simplify_eq. exists k, hw, sv'. simpl. rewrite list_lookup_insert_eq by done. rewrite Hs, Hl, Hhw, Hw. done.
    - exists s, hw, sv0. simpl. by rewrite list_lookup_insert_ne. }
  assert (∀ s (P : worker_pc → Prop), (P (worker sv) → P (worker sv')) → halting s P w →
            halting s P (mkWorld (slot w) (<[k:=sv']> (services w)) n)) as Hhalt.
  { intros s Q HQ (sv0 & Hsl & E0 & Hst & Hq). destruct (decide (k = s)) as [<-|Hne].
    - simplify_eq. exists sv'. simpl. rewrite list_lookup_insert_eq by done. rewrite Hs. auto.
    - exists sv0. simpl. by rewrite list_lookup_insert_ne. }
  destruct p as [| | |s|s| |[]]; simpl in *; auto.
  - apply Hhalt; [|done]. by rewrite Hw.
  - destruct P as [s P]. exists s. auto.
Qed.

Lemma phase_service c k sv sv' n :
  phase_ok c → services (wld c) !! k = Some sv →
  live_ids (registry sv') = live_ids (registry sv) →
  stop_requested (registry sv') = stop_requested (registry sv) →
  (worker sv' = NoTask ↔ worker sv = NoTask) → (retired (worker sv) → retired (worker sv')) →
  phase_ok (set_wld c (mkWorld (slot (wld c)) (<[k:=sv']> (services (wld c))) n)).
Proof.
  intros P E1 Hl Hs Hw Hr. unfold phase_ok in *. simpl.
  change (owned (set_wld c _)) with (owned c).
  pose proof (λ p P, stop_ok_service (owned c) (wld c) k sv sv' n p P E1 Hl Hs Hw Hr) as Hst.
  destruct (FreeRtosRuntime.transitions (runtime c)) as [|x [|? ?]]; [|destruct x|]; try done.
  - destruct P as [? P]. split; [done|]. destruct (FreeRtosRuntime.caps (runtime c)); [|done].
    exact (Hst (SdPreflight None) P).
  - destruct P as [? P]. split; [done|]. exact (Hst (SdPreflight None) P).
  - destruct P as [? P]. split; [done|]. exact (Hst (SdPreflight None) P).
  - destruct P as (p & ? & P). exists p. auto.
  - destruct P as [? P]. split; [done|]. exact (Hst (SdPreflight None) P).
Qed.

(** ... and its references. *)
Lemma inv_service c k sv sv' :
  inv c → services (wld c) !! k = Some sv → sv_ok sv' → strong sv' = strong sv →
  worker_ref (worker sv') = worker_ref (worker sv) →
  live_ids (registry sv') = live_ids (registry sv) →
  stop_requested (registry sv') = stop_requested (registry sv) →
  (worker sv' = NoTask ↔ worker sv = NoTask) → (retired (worker sv) → retired (worker sv')) →
  inv (set_wld c (set_service (wld c) k sv')).
Proof.
  intros I E1 W Hs Hw Hl Hst Hn Hr. destruct (i_services _ I _ _ E1) as (_ & Hst1 & Hr1).
  assert (alive sv' = alive sv) as Ha by (unfold alive; by rewrite Hs).
  apply (inv_update c _ k sv sv' I E1); simpl; try done.
  - rewrite Hs, Hst1. unfold refs. simpl. by rewrite Hw.
  - auto.
  - rewrite Ha. lia.
  - apply (i_rt _ I).
  - apply (i_clock _ I).
  - by apply (phase_service c k sv); [apply (i_phase _ I)|..].
  - apply (i_calls _ I).
  - apply (i_results _ I).
  - auto.
Qed.

(** *** Access through references *)

Lemma deref_ok c k sv : inv c → services (wld c) !! k = Some sv → (0 < refs c k (worker sv))%nat →
  deref (wld c) k = Done sv ∧ alive sv = true ∧ registry_mutex sv = true ∧
  (∃ b, wake_sem sv = Some b) ∧ ∃ e, completion_eg sv = Some e.
Proof.
  intros I E1 Hr. destruct (i_services _ I _ _ E1) as (W & Hs & _).
  assert (alive sv = true) as Ha by (unfold alive; destruct (strong sv); [lia|done]).
  unfold deref. rewrite E1. simpl. change (negb (Nat.eqb (strong sv) 0)) with (alive sv). rewrite Ha.
  pose proof (sv_natives _ W) as Hn. rewrite Ha in Hn. destruct Hn as (? & [b ?] & [e ?]). eauto 10.
Qed.

Lemma signal_wake_ok (sv : TimerService) b : wake_sem sv = Some b →
  ∃ b', signal_wake sv = Done (set_wake sv b') ∧ available b' = true.
Proof.
  intros E1. unfold signal_wake. rewrite E1. simpl. pose proof (law_wake_give b) as Hg.
  destruct (osal_freertos_wake_give b) as [raw b']. destruct Hg as [[->| ->] Ha]; simpl; eauto.
Qed.

Lemma take_wake_ok ticks (sv : TimerService) b : wake_sem sv = Some b →
  ∃ b', take_wake ticks sv = Done (available b, set_wake sv b') ∧ available b' = false.
Proof.
  intros E1. unfold take_wake. rewrite E1. simpl. pose proof (law_wake_take ticks b) as Hg.
  destruct (osal_freertos_wake_take ticks b) as [raw b']. destruct Hg as [-> Ha].
  destruct (available b); simpl; eauto.
Qed.

(** *** The worker *)

Lemma scan_ok sv now : sv_ok sv → Duration.wf now → worker sv = WScan → alive sv = true →
  ∃ a st, scan now (registry sv) = Done (a, st) ∧
  let p := match a with Dispatch i cb => WCall i cb | WaitUntil d => WWait (Some d) | WaitForever => WWait None
                   | Rescan => WScan | FreeRtosTimerService.Stop => WSetBits end in
  sv_ok (set_worker (set_registry sv st) p) ∧ live_ids st = live_ids (registry sv) ∧
  stop_requested st = stop_requested (registry sv) ∧ worker_ref p = 1%nat ∧ p ≠ NoTask ∧ past p = false.
Proof.
  intros [Wr Wn Wb _ _ _ Ws _] Hnow Ep Ha. rewrite Ep in *. simpl in *.
  destruct (frt_scan_spec (registry sv) now Wr Hnow) as (a & st & -> & Hl & Hs & Ha'). exists a, st.
  split; [done|]. rewrite Hl, Hs.
  assert (∀ p, service_ok (flight p) st → past p = false →
    (∀ dl, p = WWait dl → stop_requested st = false ∧
       ∀ d, armed st d → ∃ x, dl = Some x ∧ as_nanos x ≤ as_nanos d) →
    (∀ x, p = WWait (Some x) → Duration.wf x) → p ≠ NoTask → (p = WSetBits → stop_requested st = true) →
    sv_ok (set_worker (set_registry sv st) p)) as Hok.
  { intros p Hf Hp Hsl Hwx Hnt Hset. split; simpl; try done.
    - intros e Ee. rewrite (Wb e Ee). by rewrite Hp.
    - intros dl b Edl _ _. auto.
    - rewrite Hs, Hl. done.
    - intros [?|?]; [auto|congruence]. }
  destruct a as [i cb|x| | |]; simpl in *; [| | |done|]; (split; [|done]).
  - destruct Ha' as [Hst T]. apply Hok; try done. apply T.
  - destruct Ha' as (Hst & W' & Wx & _ & _ & Hmin). apply Hok; try done.
    + intros dl [= <-]. split; [congruence|]. intros d Hd. eauto.
    + by intros y [= <-].
  - destruct Ha' as (Hst & W' & _ & Hno). apply Hok; try done. intros dl [= <-]. split; [congruence|].
    intros d Hd. by destruct (Hno d).
  - destruct Ha' as (Hst & W'). apply Hok; try done. intros _. congruence.
Qed.

(** The worker that only moves on. *)
Lemma sv_goto sv p : sv_ok sv → flight p = flight (worker sv) → past p = past (worker sv) →
  (∀ dl, p ≠ WWait dl) → p ≠ NoTask → (p = WSetBits → stop_requested (registry sv) = true) → sv_ok (set_worker sv p).
Proof.
  intros [] Hf Hp Hw Hn Hs. split; simpl; try done; rewrite ?Hf, ?Hp; try done.
  - intros dl b Edl. by destruct (Hw dl).
  - intros x Ex. by destruct (Hw (Some x)).
  - intros [?|?]; auto.
Qed.

(** A worker that may still look at the clock finds the capabilities. *)
Lemma worker_caps c k sv : inv c → services (wld c) !! k = Some sv → worker_ref (worker sv) = 1%nat →
  past (worker sv) = false → FreeRtosRuntime.capabilities (runtime c) = Some probed.
Proof. intros I E1 Hw Hp. apply (i_caps _ I k sv E1). intros [Hn|?]; [by rewrite Hn in Hw|congruence]. Qed.

Lemma scan_clock now st :
  (if stop_requested st then scan now st else (now ← clock_now (Some probed) now; scan now st)) = scan now st.
Proof. by destruct (stop_requested st). Qed.

Lemma match_option_const {A R} (o : option A) (r : R) : match o with Some _ => r | None => r end = r.
Proof. by destruct o. Qed.

Lemma worker_wait_inv c k sv dl sched held ticks : inv c → services (wld c) !! k = Some sv → worker sv = WWait dl →
  ∃ w, worker_step (FreeRtosRuntime.capabilities (runtime c)) sched held (clock c) ticks k (wld c) = Some (Done w) ∧ inv (set_wld c w).
Proof.
  intros I E1 Ep. unfold worker_step. rewrite E1, Ep. destruct (i_services _ I _ _ E1) as (W & _ & _).
  rewrite (worker_caps c k sv I E1) by (by rewrite Ep).
  destruct (match dl with Some d => _ | None => Done false end) as [over| |] eqn:Eov; [|by destruct dl..]. simpl.
  destruct over.
  { eexists. split; [done|]. apply (inv_service c k sv); try done; rewrite ?Ep; simpl; try done.
    - apply sv_goto; rewrite ?Ep; done.
    - by intros [?|?]. }
  destruct (deref_ok c k sv I E1) as (-> & Ha & Hm & (b & Eb) & _); [unfold refs; rewrite Ep; simpl; lia|].
  rewrite (match_option_const dl).
  simpl. destruct (take_wake_ok ticks sv b Eb) as (b' & -> & Hb'). simpl. eexists. split; [done|].
  pose proof (sv_natives _ W) as Hn. rewrite Ha in Hn. destruct Hn as (_ & _ & He).
  apply (inv_service c k sv); try done; destruct (available b) eqn:Eav; rewrite ?Ep; simpl; try done;
    try (by intros [?|?]).
  - destruct W. split; simpl; try done; rewrite ?Ep in *; try done; [|by intros [?|?]].
    change (alive (set_worker _ _)) with (alive sv). by rewrite Ha.
  - destruct W. split; simpl; try done; rewrite ?Ep in *; try done.
    + change (alive (set_worker _ _)) with (alive sv). by rewrite Ha.
    + intros dl' b2 [= <-] _ _. by apply (sv_sleeps0 dl b).
Qed.

(** A service after one of its references is dropped, with its worker at [p]. *)
Definition dropped (sv : TimerService) (p : worker_pc) : TimerService :=
  match pred (strong sv) with
  | O => mkService false None None (registry sv) 0 p
  | n => set_worker (set_strong sv n) p
  end.
Definition natives_after (w : world) (sv : TimerService) : nat :=
  match pred (strong sv) with O => (natives w - held sv)%nat | _ => natives w end.

Lemma arc_drop_eq w k sv : deref w k = Done sv →
  arc_drop w k = Done (mkWorld (slot w) (<[k:=dropped sv (worker sv)]> (services w)) (natives_after w sv)).
Proof.
  intros E1. unfold arc_drop, dropped, natives_after. rewrite E1. simpl.
  destruct (strong sv) as [|[|n]]; simpl; try done.
Qed.

Lemma frt_dropped_ok sv p : sv_ok sv → sv_ok (set_worker sv p) → sv_ok (dropped sv p).
Proof.
  intros W [W1 W2 W3 W4 W5 W6 W7 W8]. unfold dropped. simpl in *.
  destruct (strong sv) as [|[|n]] eqn:Es; simpl; split; simpl; try done.
  change (alive _) with true. change (alive (set_worker sv p)) with (alive sv) in W2. unfold alive in W2.
  by rewrite Es in W2.
Qed.

Lemma dropped_fields sv p : worker (dropped sv p) = p ∧ registry (dropped sv p) = registry sv ∧
  strong (dropped sv p) = pred (strong sv).
Proof. unfold dropped. by destruct (strong sv) as [|[|n]] eqn:Es; simpl; rewrite ?Es. Qed.

Lemma natives_dropped c k sv p : inv c → services (wld c) !! k = Some sv → alive sv = true →
  (natives_after (wld c) sv + 3 * Nat.b2n (alive sv) = natives (wld c) + 3 * Nat.b2n (alive (dropped sv p)))%nat.
Proof.
  intros I E1 Ha. destruct (i_services _ I _ _ E1) as (W & _ & _). pose proof (sv_natives _ W) as Hn.
  rewrite Ha in Hn. destruct Hn as (Hm & [b Hb] & [e He]).
  pose proof (i_natives _ I). pose proof (countb_pos alive _ _ _ E1 Ha).
  unfold natives_after, dropped, held. rewrite Hm, Hb, He, Ha. unfold alive in Ha.
  destruct (strong sv) as [|[|n]]; simpl in *; [done|lia|lia].
Qed.

Lemma worker_drop_inv c k sv sched held ticks : inv c → services (wld c) !! k = Some sv → worker sv = WDropArc →
  ∃ w, worker_step (FreeRtosRuntime.capabilities (runtime c)) sched held (clock c) ticks k (wld c) = Some (Done w) ∧ inv (set_wld c w).
Proof.
  intros I E1 Ep. unfold worker_step. rewrite E1, Ep. destruct (i_services _ I _ _ E1) as (W & Hs & Hr).
  destruct (deref_ok c k sv I E1) as (Ed & Ha & _); [unfold refs; rewrite Ep; simpl; lia|].
  rewrite (arc_drop_eq _ _ _ Ed). simpl. rewrite list_lookup_insert_eq by (by eapply lookup_lt_Some). simpl.
  eexists. split; [done|]. unfold set_service. simpl. rewrite list_insert_insert_eq.
  assert (set_worker (dropped sv (worker sv)) WDelete = dropped sv WDelete) as ->
    by (unfold dropped; by destruct (pred (strong sv))).
  destruct (dropped_fields sv WDelete) as (Hw & Hg & Hst).
  apply (inv_update c _ k sv (dropped sv WDelete) I E1); simpl; try done; rewrite ?Hw, ?Hg, ?Hst.
  - apply frt_dropped_ok; [done|]. destruct W. rewrite Ep in *. split; try done. intros _. apply sv_over0. by right.
  - rewrite Hs. unfold refs. simpl. rewrite Ep. simpl. lia.
  - intros _. by right.
  - by apply (natives_dropped c k).
  - apply (i_rt _ I).
  - apply (i_clock _ I).
  - apply (phase_service c k sv); rewrite ?Hw, ?Hg, ?Ep; try done; [apply (i_phase _ I)|]. intros _. by right.
  - apply (i_calls _ I).
  - apply (i_results _ I).
  - intros _. left. by right.
Qed.

Lemma worker_registry_inv c k sv sched held ticks : inv c → lockable sched held → services (wld c) !! k = Some sv →
  (worker sv = WScan ∨ (∃ i cb, worker sv = WRestore i cb) ∨ worker sv = WSetBits) →
  ∃ w, worker_step (FreeRtosRuntime.capabilities (runtime c)) sched held (clock c) ticks k (wld c) = Some (Done w) ∧ inv (set_wld c w).
Proof.
  intros I L E1 Hp. unfold worker_step. rewrite E1. destruct (i_services _ I _ _ E1) as (W & _ & _).
  destruct (deref_ok c k sv I E1) as (Ed & Ha & Hm & Hb & e & Ee).
  { unfold refs. destruct Hp as [-> |[(i & cb & ->)| ->]]; simpl; lia. }
  rewrite Ed. destruct Hp as [Ep|[(i & cb & Ep)|Ep]]; rewrite Ep; simpl.
  - rewrite with_lock_ok by done. rewrite (worker_caps c k sv I E1), scan_clock by (by rewrite Ep). simpl.
    destruct (scan_ok sv (clock c) W (i_clock _ I) Ep Ha) as (a & st & -> & W' & Hl & Hs & Hw & Hn & Hpast).
    simpl. eexists. split; [done|]. apply (inv_service c k sv); try done; simpl; rewrite ?Ep; try done.
    by intros [?|?].
  - rewrite with_lock_ok by done. simpl. pose proof (dispatch_restore_eq i cb (registry sv)) as Er.
    pose proof (sv_registry _ W) as Wr. rewrite Ep in Wr. simpl in Wr.
    destruct (restore_spec (registry sv) i cb Wr) as (Wr' & Hl & Hst & _). rewrite <- Er in *.
    destruct (dispatch_restore i cb (registry sv)) as [o st]. simpl in *. eexists. split; [done|].
    assert (∀ p, p = WScan ∨ (∃ cb, p = WDropCallback cb) →
      inv (set_wld c (set_service (wld c) k (set_worker (set_registry sv st) p)))) as Hinv; [|destruct o; eauto].
    intros p Hp. apply (inv_service c k sv); try done; simpl; rewrite ?Ep.
    + destruct W. rewrite Ep in *. destruct Hp as [->|[cb' ->]]; split; simpl; try done; rewrite ?Hl, ?Hst; try done;
        by intros [?|?].
    + by destruct Hp as [->|[cb' ->]].
    + by destruct Hp as [->|[cb' ->]].
    + by intros [?|?].
  - rewrite Ee. simpl. pose proof (law_done_set WORKER_COMPLETED_BIT e) as Hd.
    destruct (osal_freertos_done_set WORKER_COMPLETED_BIT e) as [raw e']. destruct Hd as [-> Hbits].
    simpl. eexists. split; [done|]. pose proof (sv_bits _ W e Ee) as Hb0. rewrite Ep in Hb0. simpl in Hb0.
    apply (inv_service c k sv); try done; simpl; rewrite ?Ep; try done; [|by right].
    destruct W. rewrite Ep in *. split; simpl; try done.
    + change (alive _) with (alive sv). rewrite Ha in *. destruct sv_natives0 as (? & ? & ?). by split_and!.
    + intros e2 [= <-]. rewrite Hbits, Hb0. done.
    + intros _. apply sv_over0. by left.
Qed.

Lemma worker_step_inv c k sched held ticks r : inv c → lockable sched held → worker_step (FreeRtosRuntime.capabilities (runtime c)) sched held (clock c) ticks k (wld c) = Some r →
  ∃ w, r = Done w ∧ inv (set_wld c w).
Proof.
  intros I L Er. destruct (services (wld c) !! k) as [sv|] eqn:E1; [|unfold worker_step in Er; by rewrite E1 in Er].
  destruct (i_services _ I _ _ E1) as (W & _ & _).
  assert (∀ p, flight p = flight (worker sv) → past p = past (worker sv) → (∀ dl, p ≠ WWait dl) → p ≠ NoTask →
            p ≠ WSetBits → worker sv ≠ NoTask → worker_ref p = worker_ref (worker sv) →
            inv (set_wld c (set_service (wld c) k (set_worker sv p)))) as Hgo.
  { intros p H1' H2 H3 H4 H5 H6 H7. apply (inv_service c k sv); try done; simpl.
    - by apply sv_goto.
    - intros [?|Hp]; [done|]. right. congruence. }
  destruct (worker sv) as [| |dl|i cb|i cb|cb| | | |] eqn:Ep.
  - unfold worker_step in Er. by rewrite E1, Ep in Er.
  - destruct (worker_registry_inv c k sv sched held ticks I L E1) as (w & Ew & Iw); [auto|]. rewrite Ew in Er. simplify_eq. eauto.
  - destruct (worker_wait_inv c k sv dl sched held ticks I E1 Ep) as (w & Ew & Iw). rewrite Ew in Er. simplify_eq. eauto.
  - unfold worker_step in Er. rewrite E1, Ep in Er. simplify_eq. eexists. split; [done|]. by apply Hgo.
  - destruct (worker_registry_inv c k sv sched held ticks I L E1) as (w & Ew & Iw); [eauto|]. rewrite Ew in Er. simplify_eq. eauto.
  - unfold worker_step in Er. rewrite E1, Ep in Er. simplify_eq. eexists. split; [done|]. by apply Hgo.
  - destruct (worker_registry_inv c k sv sched held ticks I L E1) as (w & Ew & Iw); [auto|]. rewrite Ew in Er. simplify_eq. eauto.
  - destruct (worker_drop_inv c k sv sched held ticks I E1 Ep) as (w & Ew & Iw). rewrite Ew in Er. simplify_eq. eauto.
  - unfold worker_step in Er. rewrite E1, Ep in Er. simplify_eq. eexists. split; [done|]. by apply Hgo.
  - unfold worker_step in Er. by rewrite E1, Ep in Er.
Qed.

(** *** Calls *)

Definition in_next {A} (f : A → bool) (o : option A) : nat := match o with Some y => Nat.b2n (f y) | None => 0 end.

Lemma countb_update {A} (f : A → bool) (l : list A) i x o : l !! i = Some x →
  (countb f (TaskMachine.update i o l) + Nat.b2n (f x) = countb f l + in_next f o)%nat.
Proof.
  intros E1. destruct o as [y|]; simpl; [by apply countb_insert|].
  pose proof (countb_delete f l i x E1). lia.
Qed.

(** While a call is under way the runtime and the service are up. *)
Lemma lease_up c n : inv c → leases c = S n →
  FreeRtosRuntime.transitions (runtime c) = [] ∧ FreeRtosRuntime.caps (runtime c) = Some probed ∧
  stops c = [] ∧ up (owned c) (wld c).
Proof.
  intros I Hl. pose proof (i_rt _ I) as O. rewrite Hl in O. destruct (FreeRtosRuntime.ok_lease _ _ _ O) as (_ & Et & Ec).
  pose proof (i_phase _ I) as P. unfold phase_ok in P. rewrite Et, Ec in P. by destruct P.
Qed.

Lemma call_lease c i x : inv c → calls c !! i = Some x → ∃ n, leases c = S n.
Proof.
  intros I Ex. destruct (i_calls _ I _ _ Ex) as [Hk _].
  assert (holds x = true ∨ cid x ∈ ids c) as [Hh|Hin].
  { unfold holds. destruct (kind x); auto; right; tauto. }
  - pose proof (countb_pos holds _ _ _ Ex Hh). exists (pred (leases c)). unfold leases. lia.
  - unfold ids in Hin. destruct (handles c) eqn:Eh; [by apply not_elem_of_nil in Hin|].
    exists (pred (leases c)). unfold leases. rewrite Eh. simpl. lia.
Qed.

Lemma call_up c i x : inv c → calls c !! i = Some x →
  FreeRtosRuntime.transitions (runtime c) = [] ∧ FreeRtosRuntime.caps (runtime c) = Some probed ∧
  stops c = [] ∧ up (owned c) (wld c).
Proof. intros I Ex. destruct (call_lease c i x I Ex) as [n Hl]. by eapply lease_up. Qed.

Lemma call_ok_mono l l' s hw hw' x : (∀ z, z ∈ l → z ∈ l') → (hw = true → hw' = true) →
  call_ok l (Running s hw) x → call_ok l' (Running s hw') x.
Proof.
  intros Hl Hh [Hk Hp]. split.
  - destruct (kind x); try done; try (destruct Hk; split; auto; fail); auto.
    all: destruct Hk as [? Hk]; split; [auto|]; intros Hne; destruct (Hk Hne) as [k [= -> ->]]; eexists; by rewrite Hh.
  - destruct (cpc x); try done.
    + destruct Hp as [h [= -> ->]]. by eexists.
    + destruct Hp as [[h [= -> ->]] ?]. split; [by eexists|done].
Qed.

(** The call at [i] goes on as [o] and the service of the slot becomes [sv']. *)
Lemma inv_call c i x o s hw sv hw' sv' hs rs :
  inv c → calls c !! i = Some x → slot (wld c) = Running s hw → services (wld c) !! s = Some sv →
  let c' := mkConfig (runtime c) (mkWorld (Running s hw') (<[s:=sv']> (services (wld c))) (natives (wld c)))
              (clock c) (stops c) (TaskMachine.update i o (calls c)) hs (others c) rs in
  sv_ok sv' → alive sv' = true →
  (strong sv' + Nat.b2n (call_ref s x) + worker_ref (worker sv) =
     strong sv + in_next (call_ref s) o + worker_ref (worker sv'))%nat →
  (∀ k, k ≠ s → call_ref k x = false ∧ in_next (call_ref k) o = 0%nat) →
  stop_requested (registry sv') = false → (hw' = true ↔ worker sv' ≠ NoTask) →
  live_ids (registry sv') ≡ₚ (fst <$> hs) ++ omap call_owned (TaskMachine.update i o (calls c)) →
  (length hs + countb holds (TaskMachine.update i o (calls c)) + others c)%nat = leases c →
  (∀ y, o = Some y → call_ok (fst <$> hs) (Running s hw') y) →
  (hw = true → hw' = true) → (∀ z, z ∈ ids c → z ∈ fst <$> hs) →
  (∀ i k r, rs !! i = Some (k, r) → r ≠ Err Error.NotFound) → inv c'.
Proof.
  intros I Ex Esl Es c' W Ha Hst Href Hstop Hhw Hown Hle Ho Hmono Hids Hrs.
  destruct (call_up c i x I Ex) as (Et & Ec & Estop & _).
  destruct (i_services _ I _ _ Es) as (_ & Hs & _).
  assert (alive sv = true) as Ha0.
  { unfold alive. rewrite Hs. unfold refs. rewrite Esl. simpl. by rewrite Nat.eqb_refl. }
  pose proof (λ f, countb_update f (calls c) i x o Ex) as Hc.
  apply (inv_update c c' s sv sv' I Es); try done.
  - unfold refs in *. simpl. rewrite Esl in Hs. simpl in Hs. specialize (Hc (call_ref s)). lia.
  - simpl. by rewrite Nat.eqb_refl.
  - intros k s' Hne Ek. unfold refs. simpl. rewrite Esl. simpl. split; [|done].
    destruct (Href k Hne) as [H1' H2]. specialize (Hc (call_ref k)). rewrite H1', H2 in Hc. simpl in Hc. lia.
  - simpl. by rewrite Ha, Ha0.
  - unfold leases at 1. simpl. rewrite Hle. apply (i_rt _ I).
  - apply (i_clock _ I).
  - unfold phase_ok. subst c'. simpl. rewrite Et, Ec. split; [done|]. exists s, hw', sv'. simpl.
    rewrite list_lookup_insert_eq by (by eapply lookup_lt_Some). done.
  - intros j y Hy. apply TaskMachine.update_elem in Hy as [Hy|[j' Hy]]; [by apply Ho|].
    apply (call_ok_mono (ids c) _ s hw hw'); try done. rewrite <- Esl. by apply (i_calls _ I j').
  - by right.
Qed.

Lemma owned_update c i x o (hs : list (Z * nat)) : calls c !! i = Some x →
  ∃ W, owned c ≡ₚ ids c ++ option_list (call_owned x) ++ W ∧
    (fst <$> hs) ++ omap call_owned (TaskMachine.update i o (calls c)) ≡ₚ
      (fst <$> hs) ++ option_list (o ≫= call_owned) ++ W.
Proof.
  intros Ex. destruct (TaskMachine.update_perm (calls c) i x o Ex) as (l & P & P').
  exists (omap call_owned l). unfold owned. split.
  - rewrite P. csimpl. by destruct (call_owned x).
  - by rewrite P', omap_app, TaskMachine.omap_option_list.
Qed.

Lemma owned_same c i x o : calls c !! i = Some x → o ≫= call_owned = call_owned x →
  ids c ++ omap call_owned (TaskMachine.update i o (calls c)) ≡ₚ owned c.
Proof. intros Ex Eo. destruct (owned_update c i x o (handles c) Ex) as (W & -> & ->). by rewrite Eo. Qed.

Lemma leases_same c i x o : calls c !! i = Some x → in_next holds o = Nat.b2n (holds x) →
  (length (handles c) + countb holds (TaskMachine.update i o (calls c)) + others c)%nat = leases c.
Proof. intros Ex Eo. pose proof (countb_update holds _ i x o Ex). unfold leases. lia. Qed.

Lemma arc_clone_eq (w : world) k sv : deref w k = Done sv →
  arc_clone w k = Done (set_service w k (set_strong sv (S (strong sv)))).
Proof. intros E1. unfold arc_clone. by rewrite E1. Qed.

Lemma set_strong_ok sv n : sv_ok sv → alive sv = true → n ≠ 0%nat → sv_ok (set_strong sv n).
Proof.
  intros [] Ha Hn. split; simpl; try done. rewrite Ha in *. destruct n; done.
Qed.

(** The service of the slot as a call finds it. *)
Lemma call_service c i x : inv c → calls c !! i = Some x →
  ∃ s hw sv, slot (wld c) = Running s hw ∧ services (wld c) !! s = Some sv ∧ deref (wld c) s = Done sv ∧
    sv_ok sv ∧ alive sv = true ∧ registry_mutex sv = true ∧ (∃ b, wake_sem sv = Some b) ∧
    stop_requested (registry sv) = false ∧ (hw = true ↔ worker sv ≠ NoTask) ∧ live_ids (registry sv) ≡ₚ owned c.
Proof.
  intros I Ex. destruct (call_up c i x I Ex) as (_ & _ & _ & s & hw & sv & Esl & Es & Hst & Hhw & Hl).
  destruct (deref_ok c s sv I Es) as (Ed & Ha & Hm & Hb & _).
  { unfold refs. rewrite Esl. simpl. rewrite Nat.eqb_refl. simpl. lia. }
  exists s, hw, sv. destruct (i_services _ I _ _ Es) as (W & _). by split_and!.
Qed.

Lemma call_refs_ne c i x s hw : inv c → calls c !! i = Some x → slot (wld c) = Running s hw →
  ∀ k, k ≠ s → call_ref k x = false.
Proof.
  intros I Ex Esl k Hne. destruct (i_calls _ I _ _ Ex) as [_ Hp]. unfold call_ref.
  destruct (cpc x); try done; [destruct Hp as [h Hp]|destruct Hp as [[h Hp] _]]; apply Nat.eqb_neq; congruence.
Qed.

Lemma call_extract_inv c i x sched held created reserve : inv c → calls c !! i = Some x → cpc x = CExtract →
  ∃ c', call_step c i sched held created reserve x = Done c' ∧ inv c'.
Proof.
  intros I Ex Ep. destruct (call_service c i x I Ex) as (s & hw & sv & Esl & Es & Ed & W & Ha & Hm & Hb & Hst & Hhw & Hl).
  unfold call_step. rewrite Ep. unfold extract. rewrite Esl, (arc_clone_eq _ _ _ Ed). simpl.
  eexists. split; [done|]. destruct (i_calls _ I _ _ Ex) as [Hk _]. rewrite Ep in Hk.
  unfold set_service, set_wld, set_calls. simpl. rewrite Esl.
  apply (inv_call c i x (Some (mkCall (kind x) (cid x) (CLocked s))) s hw sv hw); try done; simpl.
  - by apply set_strong_ok.
  - unfold call_ref. simpl. rewrite Ep, Nat.eqb_refl. simpl. lia.
  - intros k Hne. split; [by eapply call_refs_ne|]. unfold call_ref. simpl.
    by rewrite (proj2 (Nat.eqb_neq s k)).
  - rewrite Hl. symmetry. apply (owned_same c i x (Some _)); [done|]. unfold call_owned. simpl. by rewrite Ep.
  - by apply (leases_same c i x (Some _)).
  - intros y [= <-]. split; simpl; [|by eexists].
    destruct (kind x); try done; rewrite <- Esl; (split; [apply Hk|]; intros _; by apply Hk).
  - apply (i_results _ I).
Qed.

Lemma world_same (w : world) s hw sv : slot w = Running s hw → services w !! s = Some sv →
  mkWorld (Running s hw) (<[s:=sv]> (services w)) (natives w) = w.
Proof. intros Es E1. rewrite list_insert_id by done. destruct w. simpl in *. by subst. Qed.

Lemma results_add c k r : inv c → r ≠ Err Error.NotFound →
  ∀ i k' r', (results c ++ [(k, r)]) !! i = Some (k', r') → r' ≠ Err Error.NotFound.
Proof.
  intros I Hr i k' r' [E1|[_ E1]]%lookup_app_Some; [by eapply (i_results _ I)|].
  destruct (i - _)%nat as [|[|?]]; by simplify_eq/=.
Qed.

(** A call that leaves the world alone and returns or goes on. *)
Lemma inv_call_quiet c i x o rs : inv c → calls c !! i = Some x →
  (∀ k, call_ref k x = false ∧ in_next (call_ref k) o = 0%nat) →
  o ≫= call_owned = call_owned x → in_next holds o = Nat.b2n (holds x) →
  (∀ y, o = Some y → call_ok (ids c) (slot (wld c)) y) →
  (∀ i k r, rs !! i = Some (k, r) → r ≠ Err Error.NotFound) →
  inv (mkConfig (runtime c) (wld c) (clock c) (stops c) (TaskMachine.update i o (calls c)) (handles c) (others c) rs).
Proof.
  intros I Ex Href How Hho Hok Hrs.
  destruct (call_service c i x I Ex) as (s & hw & sv & Esl & Es & Ed & W & Ha & Hm & Hb & Hst & Hhw & Hl).
  pose proof (inv_call c i x o s hw sv hw sv (handles c) rs I Ex Esl Es) as Hi. cbv zeta in Hi.
  rewrite (world_same _ _ _ _ Esl Es) in Hi. apply Hi; try done.
  - destruct (Href s) as [-> ->]. simpl. lia.
  - rewrite Hl. symmetry. by apply (owned_same c i x).
  - by apply (leases_same c i x).
  - by rewrite <- Esl.
Qed.

Lemma scheduler_err st e : scheduler_result st = Err e → (Err e : Result Z) ≠ Err Error.NotFound.
Proof. destruct st; simpl; intros; by simplify_eq. Qed.

Lemma stack_err bytes ws lo hi e : TaskConfig.stack_bytes_to_words bytes ws lo hi = Err e →
  (Err e : Result Z) ≠ Err Error.NotFound.
Proof.
  unfold TaskConfig.stack_bytes_to_words, checked_add. repeat case_if; simpl; intros; simplify_eq; try done.
  all: case_if; by simplify_eq.
Qed.

(** [start] or [reset] gives up before it has taken a reference. *)
Lemma ensure_err_inv c i x e : inv c → calls c !! i = Some x → cpc x = CEnsure →
  (Err e : Result Z) ≠ Err Error.NotFound → ∃ c', call_return c i x (Err e) = Done c' ∧ inv c'.
Proof.
  intros I Ex Ep He. destruct (i_calls _ I _ _ Ex) as [Hk Hp]. rewrite Ep in Hp.
  assert (call_return c i x (Err e) = Done (mkConfig (runtime c) (wld c) (clock c) (stops c) (delete i (calls c))
            (handles c) (others c) (results c ++ [(kind x, Err e)]))) as ->.
  { unfold call_return. by destruct Hp as [-> | ->]. }
  eexists. split; [done|].
  apply (inv_call_quiet c i x None); try done.
  - intros k. unfold call_ref. by rewrite Ep.
  - unfold call_owned. by destruct Hp as [-> | ->].
  - unfold holds. by destruct Hp as [-> | ->].
  - by apply results_add.
Qed.

(** The worker starts. *)
Lemma ensure_new_inv c i x s sv : inv c → calls c !! i = Some x → cpc x = CEnsure →
  slot (wld c) = Running s false → services (wld c) !! s = Some sv →
  inv (set_calls (set_wld c (mkWorld (Running s true)
         (<[s:=set_worker (set_strong sv (S (strong sv))) WScan]> (services (wld c))) (natives (wld c))))
         (<[i:=mkCall (kind x) (cid x) CExtract]> (calls c))).
Proof.
  intros I Ex Ep Esl Es. destruct (call_service c i x I Ex) as (s' & hw & sv' & Esl' & Es' & Ed & W & Ha & Hm & Hb & Hst & Hhw & Hl).
  rewrite Esl in Esl'. simplify_eq. destruct (i_calls _ I _ _ Ex) as [Hk Hp]. rewrite Ep in Hp.
  assert (worker sv = NoTask) as Hw.
  { by destruct (worker sv) eqn:Ew; [|discriminate (proj2 Hhw ltac:(done))..]. }
  apply (inv_call c i x (Some (mkCall (kind x) (cid x) CExtract)) s' false sv true); try done; simpl.
  - pose proof (set_strong_ok sv (S (strong sv)) W Ha ltac:(done)) as W'. destruct W'. simpl in *. rewrite Hw in *.
    split; simpl; try done. by intros [?|?].
  - unfold call_ref. simpl. rewrite Ep, Hw. simpl. lia.
  - intros k Hne. unfold call_ref. simpl. by rewrite Ep.
  - rewrite Hl. symmetry. apply (owned_same c i x (Some _)); [done|]. unfold call_owned. simpl.
    by destruct Hp as [-> | ->].
  - by apply (leases_same c i x (Some _)).
  - intros y [= <-]. split; simpl; [|done]. destruct Hp as [Hp|Hp]; rewrite Hp in *;
      (split; [apply Hk|]; intros _; by eexists).
  - apply (i_results _ I).
Qed.

Lemma call_ensure_inv c i x sched held created reserve : inv c → calls c !! i = Some x → cpc x = CEnsure →
  ∃ c', call_step c i sched held created reserve x = Done c' ∧ inv c'.
Proof.
  intros I Ex Ep. destruct (call_service c i x I Ex) as (s & hw & sv & Esl & Es & Ed & W & Ha & Hm & Hb & Hst & Hhw & Hl).
  destruct (i_calls _ I _ _ Ex) as [Hk Hp]. rewrite Ep in Hp.
  assert (∀ e, (Err e : Result Z) ≠ Err Error.NotFound → ∃ c', call_return (set_wld c (wld c)) i x (Err e) = Done c' ∧ inv c')
    as Herr by (intros e He; destruct c; by apply ensure_err_inv).
  unfold call_step. rewrite Ep. unfold ensure_worker. rewrite Esl.
  destruct (scheduler_result sched) as [[]|e] eqn:Esc; [|by apply Herr, (scheduler_err sched)].
  destruct hw; simpl.
  { eexists. split; [done|]. apply (inv_call_quiet c i x (Some (mkCall (kind x) (cid x) CExtract))); try done.
    - intros k. unfold call_ref. by rewrite Ep.
    - unfold call_owned. simpl. by destruct Hp as [-> | ->].
    - intros y [= <-]. split; simpl; [|done]. destruct Hp as [Hp|Hp]; rewrite Hp in *;
        (split; [apply Hk|]; intros _; rewrite Esl; by eexists).
    - apply (i_results _ I). }
  destruct (call_up c i x I Ex) as (_ & Ec & _). unfold FreeRtosRuntime.capabilities. rewrite Ec.
  destruct (TaskConfig.stack_bytes_to_words _ _ _ _) as [n|e] eqn:Esw; [|by eapply Herr, stack_err].
  rewrite (arc_clone_eq _ _ _ Ed). simpl. pose proof (lookup_lt_Some _ _ _ Es) as Hlt. destruct created.
  - unfold deref. simpl. rewrite list_lookup_insert_eq by done. simpl. eexists. split; [done|].
    rewrite list_insert_insert_eq. by apply ensure_new_inv.
  - unfold arc_drop, deref. simpl. rewrite list_lookup_insert_eq by done. simpl.
    assert (strong sv ≠ 0%nat) as Hz by (unfold alive in Ha; by destruct (strong sv)).
    destruct (strong sv) as [|n'] eqn:Estr; [done|]. simpl. unfold set_service. simpl. rewrite list_insert_insert_eq.
    replace (set_strong (set_strong sv (S (S n'))) (S n')) with sv by (destruct sv; simpl in *; by subst).
    rewrite list_insert_id by done. replace (mkWorld (slot (wld c)) (services (wld c)) (natives (wld c))) with (wld c) by (by destruct (wld c)).
    by apply Herr.
Qed.

(** What a section leaves armed. *)
Lemma on_entry_armed wake i f st r st' woke : on_entry wake i f st = Done (r, st', woke) →
  (∀ e d, live (snd (f e)) → TimerState.deadline (state (snd (f e))) = Some d →
     live e ∧ TimerState.deadline (state e) = Some d) →
  ∀ d, armed st' d → armed st d.
Proof.
  unfold on_entry. pose proof (find_spec i st) as F. destruct (find i st) as [[k e]|]; [|by intros [= _ <- _]].
  destruct F as (E1 & _). intros Hon Hf d (y & Hy & L & Ed).
  assert (st' = set_timers st (<[k:=snd (f e)]> (timers st))) as -> by (destruct (f e) as [[]]; by simplify_eq).
  apply list_elem_of_lookup in Hy as [j Ej].
  apply list_lookup_insert_Some in Ej as [(<- & <- & _)|[_ Ej]].
  - destruct (Hf _ _ L Ed). exists e. split; [by eapply list_elem_of_lookup_2|done].
  - exists y. split; [by eapply list_elem_of_lookup_2|done].
Qed.

(** The result of a section, its effect on the registry and on the timers. *)
Definition section_ok (x : call) (fl : option Z) (st st' : TimerServiceState) (woke : bool)
    (r : Result Z) : Prop :=
  op_ok fl st st' woke ∧ r ≠ Err Error.NotFound ∧ (kind x = KDeregister → is_ok r = true) ∧
  (kind x = KStart ∨ kind x = KReset ∨ ∀ d, armed st' d → armed st d) ∧
  match kind x, r with
  | KRegister _ _ _, Ok i => live_ids st' = live_ids st ++ [i]
  | KDeregister, _ => cid x :: live_ids st' ≡ₚ live_ids st
  | _, _ => live_ids st' = live_ids st
  end.

Lemma keeps_section x fl st (m : TimerServiceState → Run (effect ())) ok :
  keeps_timer fl st (cid x) ok m → cid x ∈ live_ids st → (∀ r, ok r → r ≠ Err Error.NotFound) →
  (kind x = KStart ∨ kind x = KReset ∨ ∀ r st' woke, m st = Done (r, st', woke) → ∀ d, armed st' d → armed st d) →
  (kind x = KStart ∨ kind x = KReset ∨ kind x = KStop ∨ ∃ p, kind x = KChangePeriod p) →
  ∃ r st' woke, ('(r, st, woke) ← m st; Done (match r with Ok _ => Ok 0 | Err e => Err e end : Result Z, st, woke)) =
    Done (r, st', woke) ∧ section_ok x fl st st' woke r.
Proof.
  intros (r & st' & woke & Em & O & Hl & Hr) Hin Hok Harm Hk. rewrite Em. simpl.
  destruct Hr as [[? _]|[_ Hr]]; [done|]. specialize (Hok r Hr). eexists _, _, _. split; [done|].
  assert (kind x ≠ KDeregister ∧ ∀ p m cb, kind x ≠ KRegister p m cb) as [Hd Hreg]
    by (destruct Hk as [->|[->|[->|[p ->]]]]; done).
  split; [done|]. split; [destruct r as [[]|e]; congruence|].
  split; [done|]. split; [naive_solver|].
  destruct (kind x); try done. by destruct (Hreg p m0 cb).
Qed.

Lemma section_spec x fl st l s now reserve : service_ok fl st → Duration.wf now → call_ok l s x →
  (∀ z, z ∈ l ∨ call_owned x = Some z → z ∈ live_ids st) → (∃ k, cpc x = CLocked k) →
  ∃ r st' woke, call_section (Some probed) (kind x) (cid x) now reserve st = Done (r, st', woke) ∧
    section_ok x fl st st' woke r.
Proof.
  intros W Wn [Hk _] Hin [k0 Ep]. unfold call_section.
  assert (∀ r : Result (), armed_or_overflow r → r ≠ Err Error.NotFound) as Hao
    by (intros r [->| ->]; done).
  assert (∀ r : Result (), r = Ok () → r ≠ Err Error.NotFound) as Hok by (intros r ->; done).
  destruct (kind x) eqn:Ekd.
  - destruct (frt_register_spec fl st reserve p m cb W Hk) as (r & st' & woke & Er & O & Ha & Hr).
    exists r, st', woke. split; [done|]. split; [done|]. rewrite Ekd.
    assert (r ≠ Err Error.NotFound) as Hnf.
    { unfold register, TimerState.new in Er. repeat case_match; simplify_eq/=; done. }
    split; [done|]. split; [done|]. split; [auto|]. destruct r; [apply Hr|by rewrite Hr].
  - eapply keeps_section; [apply (on_start_spec fl st (cid x) now W Wn)|..]; eauto; apply Hin; left; apply Hk.
  - eapply keeps_section; [apply (on_stop_spec fl st (cid x) W)|..]; eauto 6.
    right. right. intros r st' woke Em. by apply (on_entry_armed _ _ _ _ _ _ _ Em).
  - eapply keeps_section; [apply (on_start_spec fl st (cid x) now W Wn)|..]; eauto 6; apply Hin; left; apply Hk.
  - destruct Hk as (Hi & Wp & Hz).
    eapply keeps_section; [apply (on_change_period_spec false fl st (cid x) p W Wp Hz)|..]; eauto 6.
    right. right. intros r st' woke Em. apply (on_entry_armed _ _ _ _ _ _ _ Em). intros e d. unfold TimerState.change_period. by case_if.
  - destruct (delete_entry_spec fl st (cid x) W) as (st' & woke & Ed & O & Hl).
    { apply Hin. right. unfold call_owned. by rewrite Ekd, Ep. }
    unfold deregister. rewrite Ed. simpl. eexists _, _, _. split; [done|]. split; [done|]. rewrite Ekd.
    split_and!; try done. right. right. by apply (on_entry_armed _ _ _ _ _ _ _ Ed).
Qed.

(** The service after a section. *)
Lemma sv_section x sv st' woke r b b' : sv_ok sv → alive sv = true → wake_sem sv = Some b →
  stop_requested (registry sv) = false →
  section_ok x (flight (worker sv)) (registry sv) st' woke r →
  (kind x = KStart ∨ kind x = KReset → worker sv ≠ NoTask) → available b' = true →
  sv_ok (if woke then set_wake (set_registry sv st') b' else set_registry sv st').
Proof.
  intros [W1 W2 W3 W4 W5 W6 W7 W8] Ha Hb Hst (O & _ & _ & Harm & _) Hk Hb'. rewrite Ha in W2.
  assert (worker sv = NoTask → ∀ d, ¬ armed st' d) as Hidle.
  { intros Hn d Hd. destruct Harm as [Hx|[Hx|Harm]]; [by destruct Hk; auto|by destruct Hk; auto|].
    by apply (W6 Hn d), Harm. }
  pose proof (oo_stop _ _ _ _ O) as Hs.
  destruct woke; split; simpl; try done; try apply O; try (intros; congruence).
  - change (alive _) with (alive sv). rewrite Ha. destruct W2 as (? & ? & ?). by split_and!.
  - intros Hp. rewrite Hs. auto.
  - change (alive _) with (alive sv). by rewrite Ha.
  - intros dl b0 Ew Eb Hav. destruct (W4 dl b0 Ew Eb Hav) as [? Hd]. split; [congruence|]. intros d Had. apply Hd.
    destruct (oo_wake _ _ _ _ O) as [?|Hsub]; [done|]. auto.
  - intros Hp. rewrite Hs. auto.
Qed.

Lemma locked_eq sched held (sv : TimerService) w k (f : TimerServiceState → Run (effect Z)) r st' woke b : lockable sched held →
  deref w k = Done sv → registry_mutex sv = true → wake_sem sv = Some b → f (registry sv) = Done (r, st', woke) →
  ∃ b', available b' = true ∧
    locked sched held f k w = Done (r, set_service w k (if woke then set_wake (set_registry sv st') b' else set_registry sv st')).
Proof.
  intros L Ed Hm Hb Hf. destruct (signal_wake_ok (set_registry sv st') b Hb) as (b' & Hs & Hb').
  exists b'. split; [done|]. unfold locked. rewrite Ed. simpl. rewrite with_lock_ok by done. rewrite Hf. simpl.
  destruct woke; [by rewrite Hs|done].
Qed.

Lemma section_owned c i x s r st st' fl woke : inv c → calls c !! i = Some x → cpc x = CLocked s →
  section_ok x fl st st' woke r → live_ids st ≡ₚ owned c →
  live_ids st' ≡ₚ ids c ++ omap call_owned (TaskMachine.update i (Some (mkCall (kind x) (cid x) (CDrop s r))) (calls c)).
Proof.
  intros I Ex Ep (_ & _ & _ & _ & Hl) Ho.
  destruct (owned_update c i x (Some (mkCall (kind x) (cid x) (CDrop s r))) (handles c) Ex) as (W & Pc & Pu).
  unfold ids at 1. rewrite Pu. rewrite Pc in Ho. unfold call_owned in *. simpl. rewrite Ep in *.
  destruct (kind x); simpl in *; try (by rewrite Hl, Ho).
  - destruct r as [z|e]; rewrite Hl, Ho; simpl; [|done]. unfold ids. simpl. solve_Permutation.
  - rewrite Ho in Hl. unfold ids in *. simpl in Hl.
    apply (Permutation_cons_inv (a:=cid x)). rewrite Hl. solve_Permutation.
Qed.

Lemma call_locked_inv c i x s sched held created reserve : inv c → lockable sched held → calls c !! i = Some x → cpc x = CLocked s →
  ∃ c', call_step c i sched held created reserve x = Done c' ∧ inv c'.
Proof.
  intros I L Ex Ep. destruct (call_service c i x I Ex) as (s' & hw & sv & Esl & Es & Ed & W & Ha & Hm & (b & Hb) & Hst & Hhw & Hl).
  pose proof (i_calls _ I _ _ Ex) as Hok. pose proof Hok as [Hk Hp]. rewrite Ep in Hp. destruct Hp as [hw0 Hp].
  rewrite Esl in Hp. simplify_eq.
  destruct (section_spec x (flight (worker sv)) (registry sv) (ids c) _ (clock c) reserve (sv_registry _ W) (i_clock _ I) Hok)
    as (r & st' & woke & Er & Hsec); [|by eexists|].
  { intros z Hz. rewrite Hl. unfold owned. apply elem_of_app. destruct Hz as [?|Hz]; [by left|right].
    apply list_elem_of_omap. exists x. split; [by eapply list_elem_of_lookup_2|done]. }
  unfold call_step. rewrite Ep. destruct (call_up c i x I Ex) as (_ & Ecap & _).
  unfold FreeRtosRuntime.capabilities. rewrite Ecap.
  destruct (locked_eq sched held sv (wld c) s _ r st' woke b L Ed Hm Hb Er) as (b' & Hb' & ->). simpl.
  eexists. split; [done|]. unfold set_calls, set_wld, set_service. simpl. rewrite Esl.
  set (sv' := if woke then _ else _).
  assert (registry sv' = st' ∧ strong sv' = strong sv ∧ worker sv' = worker sv) as (Er' & Es' & Ew')
    by (subst sv'; by destruct woke).
  pose proof Hsec as (O & Hnf & Hdok & _).
  assert (worker sv ≠ NoTask ∨ hw0 = false) as Hwk by (destruct hw0; [left; by apply Hhw|by right]).
  apply (inv_call c i x (Some (mkCall (kind x) (cid x) (CDrop s r))) s hw0 sv hw0); try done; rewrite ?Er', ?Es', ?Ew'; simpl; try done.
  - eapply sv_section; try done. intros [Hx|Hx]; rewrite Hx in Hk; destruct Hk as [_ Hk];
      destruct (Hk ltac:(by rewrite Ep)) as [k0 Hk0]; rewrite Esl in Hk0; simplify_eq; by apply Hhw.
  - unfold alive. by rewrite Es'.
  - unfold call_ref. simpl. rewrite Ep. lia.
  - intros k Hne. split; [by eapply call_refs_ne|]. unfold call_ref. simpl. by rewrite (proj2 (Nat.eqb_neq s k)).
  - rewrite (oo_stop _ _ _ _ O). done.
  - by eapply section_owned.
  - by apply (leases_same c i x (Some _)).
  - intros y [= <-]. split; simpl; [|split; [by eexists|done]].
    destruct (kind x) eqn:Ekd; try done.
    + split; [apply Hk|]. intros _. rewrite <- Esl. apply Hk. by rewrite Ep.
    + split; [apply Hk|]. intros _. rewrite <- Esl. apply Hk. by rewrite Ep.
    + intros k0 r0 [= -> ->]. by apply Hdok.
  - apply (i_results _ I).
Qed.

(** What a call becomes when it returns, and the handles then. *)
Definition after_return (x : call) (r : Result Z) : option call :=
  match kind x, r with
  | KRegister _ _ _, Err _ | KDeregister, _ => Some (mkCall (kind x) (cid x) CRelease)
  | _, _ => None
  end.
Definition new_handle (x : call) (r : Result Z) : list (Z * nat) :=
  match kind x, r with KRegister _ _ _, Ok i => [(i, 0%nat)] | _, _ => [] end.

Lemma call_return_eq c i x r : (kind x = KDeregister → is_ok r = true) →
  call_return c i x r = Done (mkConfig (runtime c) (wld c) (clock c) (stops c)
    (TaskMachine.update i (after_return x r) (calls c)) (handles c ++ new_handle x r) (others c)
    (results c ++ [(kind x, r)])).
Proof.
  intros Hd. unfold call_return, after_return, new_handle.
  destruct (kind x) eqn:Ek; rewrite ?app_nil_r; try done; [|by rewrite (Hd eq_refl)].
  by destruct r; simpl; rewrite ?app_nil_r.
Qed.

Lemma call_drop_inv c i x s r sched held created reserve : inv c → calls c !! i = Some x → cpc x = CDrop s r →
  ∃ c', call_step c i sched held created reserve x = Done c' ∧ inv c'.
Proof.
  intros I Ex Ep. destruct (call_service c i x I Ex) as (s' & hw & sv & Esl & Es & Ed & W & Ha & Hm & Hb & Hst & Hhw & Hl).
  pose proof (i_calls _ I _ _ Ex) as [Hk Hp]. rewrite Ep in Hp. destruct Hp as [[hw0 Hp] Hnf].
  rewrite Esl in Hp. simplify_eq. destruct (i_services _ I _ _ Es) as (_ & Hs & _).
  assert (call_ref s x = true) as Hcr by (unfold call_ref; rewrite Ep; apply Nat.eqb_refl).
  pose proof (countb_pos (call_ref s) _ _ _ Ex Hcr) as Hpos.
  assert (∃ n, strong sv = S (S n)) as [n Hn].
  { exists (pred (pred (strong sv))). unfold refs in Hs. rewrite Esl in Hs. simpl in Hs. rewrite Nat.eqb_refl in Hs. simpl in Hs. lia. }
  unfold call_step. rewrite Ep, (arc_drop_eq _ _ _ Ed). unfold dropped, natives_after. rewrite Hn. simpl.
  rewrite call_return_eq.
  2: { intros Hx. rewrite Hx in Hk. by apply (Hk s r). }
  eexists. split; [done|]. simpl. rewrite Esl.
  destruct (owned_update c i x (after_return x r) (handles c ++ new_handle x r) Ex) as (V & Pc & Pu).
  pose proof (countb_update holds _ i x (after_return x r) Ex) as Hh.
  apply (inv_call c i x (after_return x r) s hw0 sv hw0 (set_worker (set_strong sv (S n)) (worker sv))); try done; simpl.
  - pose proof (set_strong_ok sv (S n) W Ha ltac:(done)) as []. by split.
  - rewrite Hcr, Hn. assert (in_next (call_ref s) (after_return x r) = 0%nat) as ->; [|simpl; lia].
    unfold after_return. by destruct (kind x), r.
  - intros k Hne. split; [by eapply call_refs_ne|]. unfold after_return. by destruct (kind x), r.
  - rewrite Hl, Pc, Pu, fmap_app. unfold ids, call_owned, after_return, new_handle. rewrite Ep.
    destruct (kind x), r; simpl; rewrite ?app_nil_r; try done; solve_Permutation.
  - unfold leases. rewrite length_app. unfold holds in Hh at 2. unfold after_return, new_handle, holds in *.
    destruct (kind x), r; simpl in *; lia.
  - intros y Hy. unfold after_return in Hy. rewrite fmap_app. destruct (kind x) eqn:Ek, r; simplify_eq/=; (split; simpl; [|done]);
      done.
  - intros z Hz. rewrite fmap_app. apply elem_of_app. by left.
  - by apply results_add.
Qed.

(** Nothing but the calls, the handles and the leases changes. *)
Lemma inv_plain c r l hs n :
  inv c → FreeRtosRuntime.transitions r = FreeRtosRuntime.transitions (runtime c) →
  FreeRtosRuntime.caps r = FreeRtosRuntime.caps (runtime c) →
  FreeRtosRuntime.ok probed (length hs + countb holds l + n) r →
  (∀ k, countb (call_ref k) l = countb (call_ref k) (calls c)) →
  (fst <$> hs) ++ omap call_owned l ≡ₚ owned c →
  (∀ i x, l !! i = Some x → call_ok (fst <$> hs) (slot (wld c)) x) →
  inv (mkConfig r (wld c) (clock c) (stops c) l hs n (results c)).
Proof.
  intros [Irt Icl Iph Isv Icap Ina Ica Ire] Et Ec Hr Hrefs Ho Hc. split; try done.
  - unfold phase_ok in *. simpl. rewrite Et, Ec.
    assert (∀ w, up (owned c) w → up (owned (mkConfig r (wld c) (clock c) (stops c) l hs n (results c))) w) as Hup.
    { intros w (s & hw & sv & H1' & H2 & H3 & H4 & H5). exists s, hw, sv. split_and!; try done; try apply H4.
      rewrite H5. symmetry. exact Ho. }
    destruct (FreeRtosRuntime.transitions (runtime c)) as [|x [|? ?]]; [|destruct x|]; try done.
    + destruct Iph as [? P]. split; [done|]. destruct (FreeRtosRuntime.caps (runtime c)); auto.
    + destruct Iph as [? P]. auto.
    + destruct Iph as [? P]. auto.
    + destruct Iph as (p & ? & P). exists p. split; [done|]. destruct p as [| | | | | |[]]; simpl in *; auto.
    + destruct Iph as [? P]. auto.
  - intros k sv E1. destruct (Isv k sv E1) as (W & Hs & Hrr). split_and!; try done.
    rewrite Hs. unfold refs. simpl. by rewrite Hrefs.
  - simpl. rewrite Ec. exact Icap.
Qed.

Lemma call_release_inv c i x sched held created reserve : inv c → calls c !! i = Some x → cpc x = CRelease →
  ∃ c', call_step c i sched held created reserve x = Done c' ∧ inv c'.
Proof.
  intros I Ex Ep. destruct (i_calls _ I _ _ Ex) as [_ Hp]. rewrite Ep in Hp. unfold call_step. rewrite Ep.
  pose proof (countb_delete holds _ _ _ Ex) as Hc. rewrite Hp in Hc. simpl in Hc. pose proof (i_rt _ I) as O.
  unfold leases in O.
  replace (length (handles c) + countb holds (calls c) + others c)%nat
    with (S (length (handles c) + countb holds (delete i (calls c)) + others c)) in O by lia.
  destruct (FreeRtosRuntime.lease_drop_spec _ _ _ O) as (r & -> & Or & Hcaps & Htr). simpl.
  eexists. split; [done|]. apply (inv_plain c r (delete i (calls c)) (handles c) (others c)); try done.
  - intros k. pose proof (countb_delete (call_ref k) _ _ _ Ex) as Hk. unfold call_ref in Hk at 2. rewrite Ep in Hk.
    simpl in Hk. lia.
  - apply (owned_same c i x None); [done|]. unfold call_owned. rewrite Ep. by destruct (kind x).
  - intros j y [j' Hy]%TaskMachine.lookup_delete_inv. by apply (i_calls _ I j').
Qed.

Lemma call_step_inv c i x sched held created reserve : inv c → lockable sched held → calls c !! i = Some x →
  ∃ c', call_step c i sched held created reserve x = Done c' ∧ inv c'.
Proof.
  intros I L Ex. destruct (cpc x) eqn:Ep;
    [by apply call_ensure_inv|by apply call_extract_inv|by eapply call_locked_inv|by eapply call_drop_inv|by apply call_release_inv].
Qed.

(** *** Shutdown *)

Lemma no_lease c : inv c → leases c = 0%nat → calls c = [] ∧ handles c = [] ∧ owned c = [].
Proof.
  intros I Hl. assert (calls c = []) as Hc.
  { destruct (calls c) as [|x l] eqn:Ec; [done|]. assert (calls c !! 0%nat = Some x) as Ex by (by rewrite Ec).
    destruct (call_lease c 0 x I Ex) as [n Hn]. congruence. }
  assert (handles c = []) as Hh by (unfold leases in Hl; destruct (handles c); simpl in Hl; [done|lia]).
  unfold owned, ids. by rewrite Hc, Hh.
Qed.

Lemma stop_state c j p : inv c → stops c !! j = Some p →
  j = 0%nat ∧ stops c = [p] ∧ FreeRtosRuntime.transitions (runtime c) = [FreeRtosRuntime.ShutTimer] ∧
  calls c = [] ∧ handles c = [] ∧ leases c = 0%nat ∧ stop_ok [] (wld c) p.
Proof.
  intros I Ej. pose proof (i_phase _ I) as P. unfold phase_ok in P.
  assert (∃ q, FreeRtosRuntime.transitions (runtime c) = [FreeRtosRuntime.ShutTimer] ∧ stops c = [q] ∧ stop_ok (owned c) (wld c) q)
    as (q & Et & Es & Hq).
  { destruct (FreeRtosRuntime.transitions (runtime c)) as [|x [|? ?]]; [|destruct x|destruct x]; try done;
      try (destruct P as [Es _]; by rewrite Es, lookup_nil in Ej). destruct P as (q & ? & ?). eauto. }
  rewrite Es in Ej. destruct j as [|[|j]]; simplify_eq/=.
  assert (FreeRtosRuntime.transitions (runtime c) !! 0%nat = Some FreeRtosRuntime.ShutTimer) as E0 by (by rewrite Et).
  destruct (FreeRtosRuntime.ok_transition _ _ _ _ _ (i_rt _ I) E0) as (Hz & _).
  destruct (no_lease c I Hz) as (? & ? & Ho). rewrite Ho in Hq. by split_and!.
Qed.

(** The configuration after a step of [shutdown] on the world. *)
Lemma inv_stop c p p' w k sv sv' :
  inv c → stops c = [p] → FreeRtosRuntime.transitions (runtime c) = [FreeRtosRuntime.ShutTimer] →
  calls c = [] → handles c = [] → services (wld c) !! k = Some sv → services w = <[k:=sv']> (services (wld c)) →
  sv_ok sv' → (∀ k', k' ≠ k → slot_ref (slot w) k' = slot_ref (slot (wld c)) k' ∧ stop_ref k' p = false ∧ stop_ref k' p' = false) →
  strong sv' = (slot_ref (slot w) k + Nat.b2n (stop_ref k p') + worker_ref (worker sv'))%nat →
  (slot_ref (slot w) k = 0%nat → retired (worker sv')) →
  (natives w + 3 * Nat.b2n (alive sv) = natives (wld c) + 3 * Nat.b2n (alive sv'))%nat →
  stop_ok [] w p' → inv (set_stops (set_wld c w) [p']).
Proof.
  intros I Es Et Ec Eh E1 Ew W Ho Hs Hr Hn Hp.
  apply (inv_update c _ k sv sv' I E1); try done; simpl.
  - rewrite Hs. unfold refs. simpl. rewrite Ec. simpl. lia.
  - intros k' s' Hne E'. destruct (Ho k' Hne) as (H1' & H2 & H3). unfold refs. simpl. rewrite Es, H1'. simpl.
    by rewrite H2, H3.
  - apply (i_rt _ I).
  - apply (i_clock _ I).
  - unfold phase_ok. simpl. rewrite Et. exists p'. split; [done|]. unfold owned, ids. simpl. by rewrite Ec, Eh.
  - rewrite Ec. intros i x Hx. by rewrite lookup_nil in Hx.
  - apply (i_results _ I).
  - intros _. right. assert (FreeRtosRuntime.transitions (runtime c) !! 0%nat = Some FreeRtosRuntime.ShutTimer) as E0 by (by rewrite Et).
    by destruct (FreeRtosRuntime.ok_transition _ _ _ _ _ (i_rt _ I) E0) as (_ & _ & _ & _ & ->).
Qed.

Lemma stop_service c k p : inv c → stops c = [p] →
  (∀ sv, services (wld c) !! k = Some sv → (0 < slot_ref (slot (wld c)) k + Nat.b2n (stop_ref k p))%nat →
     deref (wld c) k = Done sv ∧ sv_ok sv ∧ alive sv = true ∧ registry_mutex sv = true ∧
     (∃ b, wake_sem sv = Some b) ∧ ∃ e, completion_eg sv = Some e).
Proof.
  intros I Es sv E1 Hpos. destruct (deref_ok c k sv I E1) as (? & ? & ? & ? & ?).
  { unfold refs. rewrite Es. simpl. lia. }
  destruct (i_services _ I _ _ E1) as (W & _). by split_and!.
Qed.

Lemma stop_quiet_inv c p p' : inv c → stops c = [p] → calls c = [] → handles c = [] →
  FreeRtosRuntime.transitions (runtime c) = [FreeRtosRuntime.ShutTimer] →
  (∀ k, stop_ref k p = false ∧ stop_ref k p' = false) → up [] (wld c) → stop_ok [] (wld c) p' →
  inv (set_stops (set_wld c (wld c)) [p']).
Proof.
  intros I Es Ec Eh Et Hr (s & hw & sv & Esl & E1 & Hst & Hhw & Hl) Hp.
  destruct (i_services _ I _ _ E1) as (W & Hs & Hret).
  apply (inv_stop c p p' (wld c) s sv sv); try done.
  - by rewrite list_insert_id.
  - rewrite Hs. unfold refs. rewrite Ec, Es. simpl. destruct (Hr s) as [-> ->]. simpl. lia.
Qed.

(** Phase 1 succeeds: nothing is left in the registry. *)
Lemma shutdown_request_inv c sched held caller : inv c → lockable sched held → stops c = [SdRequest caller] → calls c = [] → handles c = [] →
  FreeRtosRuntime.transitions (runtime c) = [FreeRtosRuntime.ShutTimer] → up [] (wld c) →
  (∃ e, shutdown_request sched held caller (wld c) = Done (Err e, wld c)) ∨
  ∃ hw s w, shutdown_request sched held caller (wld c) = Done (Ok (hw, s), w) ∧
    inv (set_stops (set_wld c w) [if hw : bool then SdWait s else SdDrop s]).
Proof.
  intros I L Es Ec Eh Et (s & hw & sv & Esl & E1 & Hst & Hhw & Hl). unfold shutdown_request. rewrite Esl.
  destruct (hw && bool_decide (caller = Some s)); [left; by eexists|]. right.
  destruct (stop_service c s _ I Es sv E1) as (Ed & W & Ha & Hm & (b & Hb) & _).
  { rewrite Esl. simpl. rewrite Nat.eqb_refl. simpl. lia. }
  destruct (i_services _ I _ _ E1) as (_ & Hs & _). unfold refs in Hs. rewrite Esl, Ec, Es in Hs. simpl in Hs.
  rewrite Nat.eqb_refl in Hs. simpl in Hs. pose proof (lookup_lt_Some _ _ _ E1) as Hlt.
  rewrite (arc_clone_eq _ _ _ Ed). simpl. unfold deref. simpl. rewrite list_lookup_insert_eq by done. simpl.
  rewrite with_lock_ok by done. simpl.
  pose proof (request_stop_spec _ _ (sv_registry _ W)) as Hq.
  destruct (request_stop (registry sv)) as [ok st]. destruct Hq as (Wr & Hli & Harm & Hok).
  apply Permutation_nil_r in Hl. destruct ok; [|by destruct Hok]. destruct Hok as [_ Hreq]. simpl.
  destruct (signal_wake_ok (set_registry (set_strong sv (S (strong sv))) st) b Hb) as (b' & -> & Hb'). simpl.
  unfold arc_clone, arc_drop, deref. simpl. rewrite !list_lookup_insert_eq by (rewrite ?length_insert; done). simpl.
  rewrite !list_lookup_insert_eq by (rewrite ?length_insert; done). simpl.
  eexists hw, s, _. split; [done|].
  unfold set_service, set_slot. simpl. rewrite !list_insert_insert_eq.
  set (sv' := set_strong _ _). assert (worker sv' = worker sv ∧ strong sv' = S (strong sv) ∧ registry sv' = st ∧
    registry_mutex sv' = true ∧ wake_sem sv' = Some b' ∧ completion_eg sv' = completion_eg sv) as (V1 & V2 & V3 & V4 & V5 & V6) by done.
  clearbody sv'.
  assert (alive sv' = true) as Ha' by (unfold alive; by rewrite V2).
  apply (inv_stop c (SdRequest caller) _ _ s sv sv'); try done.
  - destruct W. split; rewrite ?V1, ?V2, ?V3, ?V4, ?V5, ?V6, ?Ha'; try done.
    + rewrite Ha in *. destruct sv_natives0 as (? & ? & ?). by split_and!.
    + intros dl b0 _ [= <-]. congruence.
    + intros Hn d Hd. by apply (sv_idle0 Hn d), Harm.
    + intros _. by rewrite Hli.
  - simpl. rewrite Esl. intros k' Hne. simpl. assert (Nat.eqb s k' = false) as En by (by apply Nat.eqb_neq).
    split_and!; try done. by destruct hw.
  - simpl. rewrite V1, V2, Nat.eqb_refl, Hs. destruct hw; simpl; rewrite Nat.eqb_refl; simpl; lia.
  - simpl. by rewrite Nat.eqb_refl.
  - simpl. rewrite Ha, Ha'. done.
  - destruct hw; (exists sv'; simpl; rewrite list_lookup_insert_eq by done; rewrite V3, V1; split_and!; try done).
    + by apply Hhw.
    + left. by destruct (worker sv); [|discriminate (proj2 Hhw ltac:(done))..].
Qed.

Lemma shutdown_wait_inv c s sched held ticks : inv c → stops c = [SdWait s] → calls c = [] → handles c = [] →
  FreeRtosRuntime.transitions (runtime c) = [FreeRtosRuntime.ShutTimer] → halting s (λ p, p ≠ NoTask) (wld c) →
  ∃ p' w, stop_step sched held ticks (SdWait s) (wld c) = Some (Done (p', w)) ∧ inv (set_stops (set_wld c w) [p']) ∧
    (∀ sv, services (wld c) !! s = Some sv → past (worker sv) = true → p' = SdDrop s).
Proof.
  intros I Es Ec Eh Et (sv & Esl & E1 & Hst & Hn). unfold stop_step.
  destruct (stop_service c s _ I Es sv E1) as (Ed & W & Ha & Hm & Hb & e & He).
  { rewrite Esl. simpl. rewrite Nat.eqb_refl. simpl. lia. }
  rewrite Ed. simpl. rewrite He. simpl. pose proof (law_done_wait WORKER_COMPLETED_BIT ticks e) as Hw.
  destruct (osal_freertos_done_wait _ _ _) as [raw e']. destruct Hw as [-> Hbits].
  pose proof (sv_bits _ W e He) as Hb0. destruct (i_services _ I _ _ E1) as (_ & Hs & _). unfold refs in Hs.
  rewrite Esl, Ec, Es in Hs. simpl in Hs. rewrite Nat.eqb_refl in Hs. simpl in Hs.
  pose proof (lookup_lt_Some _ _ _ E1) as Hlt.
  set (sv' := mkService _ _ _ _ _ _).
  assert (sv_ok sv') as W'.
  { destruct W. split; simpl; try done.
    - change (alive sv') with (alive sv). rewrite Ha in *. destruct sv_natives0 as (? & ? & ?). by split_and!.
    - intros e2 [= <-]. by rewrite Hbits. }
  assert (∀ p', p' = SdWait s ∨ p' = SdDrop s ∧ past (worker sv) = true →
            inv (set_stops (set_wld c (set_service (wld c) s sv')) [p'])) as Hinv.
  { intros p' Hp'. apply (inv_stop c (SdWait s) p' _ s sv sv'); try done; simpl; rewrite ?Esl; simpl.
    - intros k' Hne. assert (Nat.eqb s k' = false) as En by (by apply Nat.eqb_neq). rewrite En.
      destruct Hp' as [->|[-> _]]; done.
    - rewrite Nat.eqb_refl, Hs. destruct Hp' as [->|[-> _]]; simpl; rewrite Nat.eqb_refl; simpl; lia.
    - by rewrite Nat.eqb_refl.
    - destruct Hp' as [->|[-> Hpast]]; (exists sv'; simpl; rewrite list_lookup_insert_eq by done; split_and!; try done).
      by right. }
  rewrite Hb0. destruct (past (worker sv)) eqn:Epast; simpl.
  - eexists _, _. split; [done|]. split; [apply Hinv; auto|done].
  - eexists _, _. split; [done|]. split; [apply Hinv; auto|]. intros sv0 E0 Hp0. simplify_eq. congruence.
Qed.

Lemma shutdown_drop_inv c s : inv c → stops c = [SdDrop s] → calls c = [] → handles c = [] →
  FreeRtosRuntime.transitions (runtime c) = [FreeRtosRuntime.ShutTimer] → halting s retired (wld c) →
  ∃ w, arc_drop (wld c) s = Done w ∧ inv (set_stops (set_wld c w) [SdFinish]).
Proof.
  intros I Es Ec Eh Et (sv & Esl & E1 & Hst & Hn).
  destruct (stop_service c s _ I Es sv E1) as (Ed & W & Ha & _).
  { rewrite Esl. simpl. rewrite Nat.eqb_refl. simpl. lia. }
  destruct (i_services _ I _ _ E1) as (_ & Hs & _). unfold refs in Hs.
  rewrite Esl, Ec, Es in Hs. simpl in Hs. rewrite Nat.eqb_refl in Hs. simpl in Hs.
  rewrite (arc_drop_eq _ _ _ Ed). eexists. split; [done|].
  destruct (dropped_fields sv (worker sv)) as (Hw & Hg & Hd).
  apply (inv_stop c (SdDrop s) SdFinish _ s sv (dropped sv (worker sv))); try done; simpl; rewrite ?Esl; simpl.
  - apply frt_dropped_ok; [done|]. by destruct sv.
  - intros k' Hne. assert (Nat.eqb s k' = false) as En by (by apply Nat.eqb_neq). by rewrite En.
  - rewrite Hd, Hs, Hw, Nat.eqb_refl. simpl. lia.
  - by rewrite Nat.eqb_refl.
  - by apply (natives_dropped c s).
  - exists s, (dropped sv (worker sv)). simpl. rewrite list_lookup_insert_eq by (by eapply lookup_lt_Some).
    by rewrite Hg, Hw.
Qed.

Lemma shutdown_finish_inv c s : inv c → stops c = [SdFinish] → calls c = [] → handles c = [] →
  FreeRtosRuntime.transitions (runtime c) = [FreeRtosRuntime.ShutTimer] → halting s retired (wld c) →
  ∃ w, shutdown_finish (wld c) = Done w ∧ inv (set_stops (set_wld c w) [SdReturn (Ok ())]) ∧
    slot w = Stopped.
Proof.
  intros I Es Ec Eh Et (sv & Esl & E1 & Hst & Hn). unfold shutdown_finish. rewrite Esl.
  destruct (stop_service c s _ I Es sv E1) as (Ed & W & Ha & _).
  { rewrite Esl. simpl. rewrite Nat.eqb_refl. simpl. lia. }
  destruct (i_services _ I _ _ E1) as (_ & Hs & _). unfold refs in Hs.
  rewrite Esl, Ec, Es in Hs. simpl in Hs. rewrite Nat.eqb_refl in Hs. simpl in Hs.
  rewrite (arc_drop_eq (set_slot (wld c) Stopped) s sv) by exact Ed. eexists. split; [done|]. split; [|done].
  destruct (dropped_fields sv (worker sv)) as (Hw & Hg & Hd).
  apply (inv_stop c SdFinish _ _ s sv (dropped sv (worker sv))); try done; simpl; rewrite ?Esl; simpl.
  - apply frt_dropped_ok; [done|]. by destruct sv.
  - intros k' Hne. assert (Nat.eqb s k' = false) as En by (by apply Nat.eqb_neq). by rewrite En.
  - rewrite Hd, Hs, Hw. simpl. lia.
  - intros _. by rewrite Hw.
  - by apply (natives_dropped c s).
Qed.

Lemma stop_step_inv c j p sched held ticks m : inv c → lockable sched held → stops c !! j = Some p → stop_step sched held ticks p (wld c) = Some m →
  ∃ p' w, m = Done (p', w) ∧ inv (set_stops (set_wld c w) (<[j:=p']> (stops c))).
Proof.
  intros I L Ej Em. destruct (stop_state c j p I Ej) as (-> & Es & Et & Ec & Eh & _ & Hok). rewrite Es. simpl.
  assert (∀ q q', p = q → (∀ k, stop_ref k q = false ∧ stop_ref k q' = false) → up [] (wld c) → stop_ok [] (wld c) q' →
    inv (set_stops (set_wld c (wld c)) [q'])) as Hq by (intros q q' <- ? ? ?; by apply (stop_quiet_inv c p q')).
  destruct p as [caller|caller|caller|s|s| |r]; simpl in Em, Hok.
  - simplify_eq. eexists _, _. split; [done|]. apply (Hq (SdPreflight caller)); try done.
    + intros k. by destruct (slot (wld c)) as [|? []|].
    + pose proof Hok as (s & hw & sv & -> & _). by destruct hw.
  - simplify_eq. eexists _, _. split; [done|]. apply (Hq (SdScheduler caller)); try done.
    + intros k. by destruct (scheduler_result sched).
    + by destruct (scheduler_result sched).
  - simplify_eq. destruct (shutdown_request_inv c sched held caller I L Es Ec Eh Et Hok) as [[e ->]|(hw & s & w & -> & I')]; simpl.
    + eexists _, _. split; [done|]. by apply (Hq (SdRequest caller)).
    + eexists _, _. split; [done|]. by destruct hw.
  - destruct (shutdown_wait_inv c s sched held ticks I Es Ec Eh Et Hok) as (p' & w & Ew & I' & _). simpl in Ew.
    rewrite Ew in Em. simplify_eq. eauto.
  - simplify_eq. destruct (shutdown_drop_inv c s I Es Ec Eh Et Hok) as (w & -> & I'). simpl. eauto.
  - simplify_eq. destruct Hok as [s Hok]. destruct (shutdown_finish_inv c s I Es Ec Eh Et Hok) as (w & -> & I' & _). simpl. eauto.
  - done.
Qed.

(** *** Start of the service *)

Lemma initialize_inv c i mutex sem group res w r : inv c →
  FreeRtosRuntime.transitions (runtime c) !! i = Some FreeRtosRuntime.InitTimer →
  initialize mutex sem group (wld c) = (res, w) → FreeRtosRuntime.timer_returned i res (runtime c) = Some r →
  inv (set_runtime (set_wld c w) r).
Proof.
  intros I Ei Einit Er. destruct (FreeRtosRuntime.timer_returned_spec _ _ _ _ _ _ (i_rt _ I) Er) as (Hz & _ & Or & Hcaps & Htr).
  destruct (FreeRtosRuntime.ok_transition _ _ _ _ _ (i_rt _ I) Ei) as (_ & _ & Et & _).
  destruct Htr as [[_ Htr]|[Ht _]]; [|congruence]. destruct (no_lease c I Hz) as (Ec & Eh & Eo).
  pose proof (i_phase _ I) as P. unfold phase_ok in P. rewrite Et in P. destruct P as [Es Esl].
  unfold initialize in Einit. rewrite Esl in Einit. unfold service_new in Einit.
  destruct mutex; simpl in Einit; [destruct sem; simpl in Einit; [destruct group; simpl in Einit|]|];
    simplify_eq; simpl in Htr.
  2,3,4: assert (mkWorld Stopped (services (wld c)) (natives (wld c)) = wld c) as ->
    by (rewrite <- Esl; by destruct (wld c)).
  2,3,4: split; [exact Or|apply (i_clock _ I)| |apply (i_services _ I)|simpl; rewrite Hcaps; apply (i_caps _ I)|apply (i_natives _ I)|apply (i_calls _ I)
                |apply (i_results _ I)]; unfold phase_ok; simpl; rewrite Htr; done.
  split; simpl; [exact Or|apply (i_clock _ I)| | | | | |apply (i_results _ I)].
  - unfold phase_ok. simpl. rewrite Htr. split; [done|]. change (owned _) with (owned c). rewrite Eo.
    eexists _, _, _. split; [done|]. split; [by apply list_lookup_middle|]. done.
  - intros k sv [E1|[Hle E1]]%lookup_app_Some.
    + destruct (i_services _ I _ _ E1) as (W & Hs & Hr). split; [done|]. unfold refs in *. rewrite Esl in *. simpl in *.
      assert (Nat.eqb (length (services (wld c))) k = false) as -> by (apply Nat.eqb_neq; apply lookup_lt_Some in E1; lia).
      by split.
    + destruct (k - length (services (wld c)))%nat eqn:Ek; simplify_eq/=.
      assert (k = length (services (wld c))) as -> by lia. split_and!.
      * split; simpl; try done; [apply service_new_ok|by intros e [= <-]; apply law_done_created| |by intros [?|?]].
        by intros _ d (e & He%not_elem_of_nil & _).
      * unfold refs. simpl. rewrite Nat.eqb_refl, Ec, Es. done.
      * by rewrite Nat.eqb_refl.
  - rewrite Hcaps. intros k sv [E1|[_ E1]]%lookup_app_Some Hr; [by eapply (i_caps _ I)|].
    destruct (k - length (services (wld c)))%nat; simplify_eq/=. destruct Hr. by left.
  - rewrite countb_app. simpl. pose proof (i_natives _ I). lia.
  - rewrite Ec. intros j x Hx. by rewrite lookup_nil in Hx.
Qed.

(** *** Start and stop of the runtime *)

Lemma frt_inv_transition c r l : inv c → FreeRtosRuntime.ok probed (leases c) r →
  (∀ k, countb (stop_ref k) l = countb (stop_ref k) (stops c)) →
  (FreeRtosRuntime.caps r = FreeRtosRuntime.caps (runtime c) ∨ FreeRtosRuntime.caps r = Some probed ∨ slot (wld c) = Stopped) →
  phase_ok (set_stops (set_runtime c r) l) → inv (set_stops (set_runtime c r) l).
Proof.
  intros [Irt Icl Iph Isv Icap Ina Ica Ire] Hr Hl Hc Hp. split; try done.
  - intros k sv E1. destruct (Isv k sv E1) as (W & Hs & Hrr). split_and!; try done.
    rewrite Hs. unfold refs. simpl. by rewrite Hl.
  - simpl. intros k sv E1 Hn. destruct (Isv k sv E1) as (_ & _ & Hrr).
    destruct Hc as [->|[?|Hsl]]; [by eapply Icap|done|]. rewrite Hsl in Hrr. by destruct Hn; auto.
Qed.

Lemma set_runtime_id c : set_runtime c (runtime c) = c.
Proof. by destruct c. Qed.
Lemma set_stops_id c r : set_stops (set_runtime c r) (stops c) = set_runtime c r.
Proof. by destruct c. Qed.

Lemma frt_begin_inv c e r : inv c → exec c e = Some r →
  match e with InitBegin | ShutBegin _ => True | _ => False end → ∃ c', r = Done c' ∧ inv c'.
Proof.
  intros I E1 He. pose proof (i_phase _ I) as P. unfold phase_ok in P. destruct e as [| | | |caller| | | | | | | | | |]; try done; simpl in E1; simplify_eq.
  - destruct (FreeRtosRuntime.initialize_begin_spec _ _ _ (i_rt _ I)) as [[e ->]|(r & -> & Hz & Et & Ec & Et' & Ec' & Or)]; simpl.
    { eexists. split; [done|]. by rewrite set_runtime_id. }
    eexists. split; [done|]. rewrite <- set_stops_id. apply frt_inv_transition; try done; [by rewrite Hz|left; congruence|].
    unfold phase_ok. simpl. rewrite Et'. by rewrite Et, Ec in P.
  - destruct (FreeRtosRuntime.shutdown_begin_spec _ _ _ (i_rt _ I)) as [[e ->]|(r & -> & Hz & Et & Ec & Et' & Ec' & Or)]; simpl.
    { eexists. split; [done|]. by rewrite app_nil_r, set_stops_id, set_runtime_id. }
    rewrite Et, Ec in P. destruct P as [Es P]. eexists. split; [done|]. apply frt_inv_transition; try done.
    + by rewrite Hz.
    + intros k. rewrite Es. done.
    + left. congruence.
    + unfold phase_ok. simpl. rewrite Et', Es. by eexists.
Qed.

Lemma stop_done_inv c i j r : inv c → exec c (StopDone i j) = Some r → ∃ c', r = Done c' ∧ inv c'.
Proof.
  intros I E1. simpl in E1. destruct (FreeRtosRuntime.transitions (runtime c) !! i) as [[]|] eqn:Ei; try done.
  destruct (stops c !! j) as [[| | | | | |res]|] eqn:Ej; try done.
  destruct (stop_state c j _ I Ej) as (-> & Es & Et & Ec & Eh & Hz & Hok).
  destruct (FreeRtosRuntime.timer_returned i res (runtime c)) as [r'|] eqn:Er; simplify_eq/=.
  destruct (FreeRtosRuntime.timer_returned_spec _ _ _ _ _ _ (i_rt _ I) Er) as (_ & _ & Or & Hcaps & Htr).
  eexists. split; [done|]. apply frt_inv_transition; try done; [by intros k; rewrite Es|by left|].
  unfold phase_ok. simpl. destruct Htr as [[? _]|[_ ->]]; [congruence|]. rewrite Es. simpl.
  assert (owned (set_stops (set_runtime c r') (delete 0%nat [SdReturn res])) = []) as Eo
    by (unfold owned, ids; simpl; by rewrite Ec, Eh).
  destruct res as [[]|e]; simpl in *; split; try done. by rewrite Eo.
Qed.

Lemma frt_transition_inv c i r : inv c → exec c (TransitionStep i) = Some r → ∃ c', r = Done c' ∧ inv c'.
Proof.
  intros I E1. simpl in E1. destruct (FreeRtosRuntime.transition_step probed i (runtime c)) as [m|] eqn:Em; simplify_eq/=.
  destruct (FreeRtosRuntime.transition_step_spec _ _ _ _ _ (i_rt _ I) Em) as (r' & x & -> & Or & Hz & -> & Et & Hi & Hs & Hx).
  assert (FreeRtosRuntime.transitions (runtime c) !! 0%nat = Some x) as E0 by (by rewrite Et).
  destruct (FreeRtosRuntime.ok_transition _ _ _ _ _ (i_rt _ I) E0) as (_ & _ & _ & _ & Hcaps).
  pose proof (i_phase _ I) as P. unfold phase_ok in P. rewrite Et in P.
  simpl. eexists. split; [done|]. rewrite <- set_stops_id. apply frt_inv_transition; try done.
  { destruct x; destruct Hx as [_ Hx]; destruct P; auto. }
  unfold phase_ok. simpl.
  destruct x; try done; simpl in Hcaps; destruct Hx as [-> Hc]; rewrite ?Hc, ?Hcaps; done.
Qed.

(** *** Handles *)

Lemma omap_app1 {A C} (f : A → option C) (l : list A) x : omap f (l ++ [x]) = omap f l ++ option_list (f x).
Proof. rewrite omap_app. csimpl. by destruct (f x). Qed.

Lemma calls_snoc c l s x : (∀ i y, calls c !! i = Some y → call_ok l s y) → call_ok l s x →
  ∀ i y, (calls c ++ [x]) !! i = Some y → call_ok l s y.
Proof.
  intros Hc Hx i y [E1|[_ E1]]%lookup_app_Some; [eauto|]. by destruct (i - _)%nat as [|[|?]]; simplify_eq/=.
Qed.

Lemma new_inv c p m cb r : inv c → Duration.wf p → exec c (New p m cb) = Some r → ∃ c', r = Done c' ∧ inv c'.
Proof.
  intros I Wp E1. simpl in E1. destruct (Duration.eqb p Duration.ZERO); simplify_eq; [by eexists|].
  destruct (FreeRtosRuntime.acquire_object_spec _ _ _ (i_rt _ I)) as [->|[->|(r & -> & Or & Hc & Ht)]]; simpl.
  1,2: eexists; split; [done|]; rewrite app_nil_r; by destruct c.
  eexists. split; [done|]. apply (inv_plain c r (calls c ++ [_]) (handles c) (others c)); try done.
  - rewrite countb_app. simpl. unfold leases in Or.
    by replace (length (handles c) + (countb holds (calls c) + 1) + others c)%nat
      with (S (length (handles c) + countb holds (calls c) + others c)) by lia.
  - intros k. rewrite countb_app. simpl. lia.
  - by rewrite omap_app1, app_nil_r.
  - apply calls_snoc; [apply (i_calls _ I)|]. by split.
Qed.

Lemma frt_op_inv c h o r : inv c → event_ok c (Op h o) → exec c (Op h o) = Some r → ∃ c', r = Done c' ∧ inv c'.
Proof.
  intros I Hev E1. simpl in E1. destruct (handles c !! h) as [[id n]|] eqn:Eh; simplify_eq/=. eexists. split; [done|].
  assert (id ∈ ids c) as Hin by (apply list_elem_of_fmap; exists (id, n); split; [done|by eapply list_elem_of_lookup_2]).
  destruct (op_call o id) as [x|] eqn:Eo; [|rewrite app_nil_r; by destruct c].
  assert (holds x = false ∧ (∀ k, call_ref k x = false) ∧ call_owned x = None ∧ call_ok (ids c) (slot (wld c)) x)
    as (Hh & Hr & How & Hok).
  { destruct o as [| | |p]; simpl in Eo; [..|destruct (Duration.eqb p Duration.ZERO) eqn:Ez]; simplify_eq/=; split_and!; try done;
      split; simpl; auto; split; auto; [done|done|]. split; [done|]. by apply Duration.dur_eqb_neq. }
  apply (inv_plain c (runtime c) (calls c ++ [x]) (handles c) (others c)); try done.
  - rewrite countb_app. simpl. rewrite Hh. simpl. rewrite Nat.add_0_r. apply (i_rt _ I).
  - intros k. rewrite countb_app. simpl. rewrite Hr. simpl. lia.
  - by rewrite omap_app1, How, app_nil_r.
  - apply calls_snoc; [apply (i_calls _ I)|done].
Qed.

Lemma handle_ids c h id n m : handles c !! h = Some (id, n) → fst <$> <[h:=(id, m)]> (handles c) = ids c.
Proof.
  intros E1. unfold ids. rewrite list_fmap_insert. apply list_insert_id. by rewrite list_lookup_fmap, E1.
Qed.

Lemma inv_clones c h id n m : inv c → handles c !! h = Some (id, n) → inv (set_handles c (<[h:=(id, m)]> (handles c))).
Proof.
  intros I E1. apply (inv_plain c (runtime c) (calls c) (<[h:=(id, m)]> (handles c)) (others c)); try done.
  - rewrite length_insert. apply (i_rt _ I).
  - by rewrite (handle_ids _ _ _ n).
  - rewrite (handle_ids _ _ _ n) by done. apply (i_calls _ I).
Qed.

Lemma drop_last_inv c h id n : inv c → handles c !! h = Some (id, n) → existsb (borrows id) (calls c) = false →
  inv (set_calls (set_handles c (delete h (handles c))) (calls c ++ [mkCall KDeregister id CExtract])).
Proof.
  intros I E1 Hb. pose proof (TaskMachine.update_perm (handles c) h _ None E1) as (l & P & P'). simpl in P'.
  apply (inv_plain c (runtime c) (calls c ++ [_]) (delete h (handles c)) (others c)); try done.
  - rewrite countb_app. simpl. pose proof (i_rt _ I) as O. unfold leases in O. rewrite P in O. rewrite P'. simpl in O.
    by replace (length l + (countb holds (calls c) + 1) + others c)%nat with (S (length l + countb holds (calls c) + others c)) by lia.
  - intros k. rewrite countb_app. simpl. lia.
  - rewrite omap_app1. unfold owned, ids. rewrite P', P. simpl. solve_Permutation.
  - apply calls_snoc; [|by split].
    intros i x Hx. pose proof (i_calls _ I _ _ Hx) as [Hk Hp]. split; [|done].
    assert (holds x = false → cid x ∈ ids c → cid x ∈ fst <$> delete h (handles c)) as Hin.
    { intros Hh Hi. unfold ids in Hi. rewrite P in Hi. rewrite P'. simpl in Hi. apply elem_of_cons in Hi as [Hi|]; [|done].
      assert (existsb (borrows id) (calls c) = true); [|congruence]. apply existsb_exists. exists x.
      split; [apply list_elem_of_In; by eapply list_elem_of_lookup_2|]. unfold borrows. rewrite Hh, Hi. apply Z.eqb_refl. }
    unfold holds in Hin. destruct (kind x); try done; try (destruct Hk; split; auto; fail); auto.
Qed.

Lemma frt_others_inv c e r : inv c → e = AcquireOther ∨ e = ReleaseOther → exec c e = Some r → ∃ c', r = Done c' ∧ inv c'.
Proof.
  intros I [->| ->] E1; simpl in E1; pose proof (i_rt _ I) as O; unfold leases in O.
  - simplify_eq. destruct (FreeRtosRuntime.acquire_object_spec _ _ _ O) as [->|[->|(r & -> & Or & Hc & Ht)]]; simpl.
    1,2: eexists; split; [done|]; by destruct c.
    eexists. split; [done|]. apply (inv_plain c r (calls c) (handles c) (S (others c))); try done; [|apply (i_calls _ I)].
    by rewrite Nat.add_succ_r.
  - destruct (others c) as [|n]; [done|]. simplify_eq. rewrite Nat.add_succ_r in O.
    destruct (FreeRtosRuntime.lease_drop_spec _ _ _ O) as (r & -> & Or & Hc & Ht). simpl.
    eexists. split; [done|]. apply (inv_plain c r (calls c) (handles c) n); try done. apply (i_calls _ I).
Qed.

Lemma frt_timer_exec_inv c e r : inv c → event_ok c e → exec c e = Some r → ∃ c', r = Done c' ∧ inv c'.
Proof.
  intros I He Er. destruct e as [now|k sched held ticks| |i mutex sem group|caller|j sched held ticks|i j|i|p m cb|h o|i sched held created reserve|h|h| |].
  - simpl in Er. simplify_eq. eexists. split; [done|]. destruct I. destruct He. by split.
  - simpl in Er. destruct (worker_step (FreeRtosRuntime.capabilities (runtime c)) sched held (clock c) ticks k (wld c)) as [m|] eqn:Em; simplify_eq/=.
    destruct (worker_step_inv c k sched held ticks m I He Em) as (w & -> & I'). eauto.
  - by apply (frt_begin_inv c InitBegin).
  - simpl in Er. case_decide as Ei; [|done]. destruct (initialize mutex sem group (wld c)) as [res w] eqn:Ew.
    destruct (FreeRtosRuntime.timer_returned i res (runtime c)) as [r'|] eqn:Et; simplify_eq/=.
    eexists. split; [done|]. by eapply initialize_inv.
  - by apply (frt_begin_inv c (ShutBegin caller)).
  - simpl in Er. destruct (stops c !! j) as [p|] eqn:Ej; simplify_eq/=.
    destruct (stop_step sched held ticks p (wld c)) as [m|] eqn:Em; simplify_eq/=.
    destruct (stop_step_inv c j p sched held ticks m I He Ej Em) as (p' & w & -> & I'). simpl. eauto.
  - by eapply stop_done_inv.
  - by eapply frt_transition_inv.
  - by eapply new_inv.
  - by eapply frt_op_inv.
  - simpl in Er. destruct (calls c !! i) as [x|] eqn:Ex; simplify_eq/=. by apply call_step_inv.
  - simpl in Er. destruct (handles c !! h) as [[id n]|] eqn:Eh; simplify_eq/=. eexists. split; [done|]. by eapply inv_clones.
  - simpl in Er. destruct (handles c !! h) as [[id [|n]]|] eqn:Eh; simplify_eq/=.
    + destruct (existsb (borrows id) (calls c)) eqn:Eb; simplify_eq/=. eexists. split; [done|]. by eapply drop_last_inv.
    + eexists. split; [done|]. by eapply inv_clones.
  - by apply (frt_others_inv c AcquireOther); auto.
  - by apply (frt_others_inv c ReleaseOther); auto.
Qed.

Lemma frt_timer_reachable_inv c : reachable c → inv c.
Proof.
  induction 1 as [now W|c e c' R I He Ex]; [by apply frt_timer_inv_init|].
  by destruct (frt_timer_exec_inv c e _ I He Ex) as (c2 & [= <-] & I').
Qed.

(** *** Runs *)

Fixpoint runs (c : config) (es : list event) (c' : config) : Prop :=
  match es with
  | [] => c = c'
  | e :: es => event_ok c e ∧ match exec c e with Some (Done c1) => runs c1 es c' | _ => False end
  end.

Lemma frt_runs_reachable es : ∀ c c', reachable c → runs c es c' → reachable c'.
Proof.
  induction es as [|e es IH]; intros c c' R H'; simpl in H'; [by subst|]. destruct H' as [He H'].
  destruct (exec c e) as [[c1| |]|] eqn:E1; try done. eapply IH; [|done]. by eapply ft_step.
Qed.

Lemma runs_app es es' : ∀ c c1 c2, runs c es c1 → runs c1 es' c2 → runs c (es ++ es') c2.
Proof.
  induction es as [|e es IH]; intros c c1 c2 H1' H2; simpl in *; [by subst|]. destruct H1' as [He H1'].
  split; [done|]. destruct (exec c e) as [[]|]; try done. eauto.
Qed.

(** How far a worker that was told to stop is from its completion bit. *)
Definition rank (p : worker_pc) : nat :=
  match p with
  | WCall _ _ => 5 | WRestore _ _ => 4 | WDropCallback _ | WWait _ => 3 | WScan => 2 | WSetBits => 1
  | NoTask | WDropArc | WDelete | WDeleted => 0
  end.

Lemma worker_drains_step c k sv sched held ticks : inv c → lockable sched held → services (wld c) !! k = Some sv →
  stop_requested (registry sv) = true → rank (worker sv) ≠ 0%nat →
  ∃ sv', worker_step (FreeRtosRuntime.capabilities (runtime c)) sched held (clock c) ticks k (wld c) = Some (Done (set_service (wld c) k sv')) ∧
    stop_requested (registry sv') = true ∧ (rank (worker sv') < rank (worker sv))%nat ∧ worker sv' ≠ NoTask.
Proof.
  intros I L E1 Hs Hr. destruct (i_services _ I _ _ E1) as (W & _ & _). unfold worker_step. rewrite E1.
  destruct (deref_ok c k sv I E1) as (Ed & Ha & Hm & [b Hb] & e & Ee).
  { unfold refs. destruct (worker sv); simpl in *; try done; lia. }
  destruct (worker sv) as [| |dl|i cb|i cb|cb| | | |] eqn:Ep; try done; rewrite ?Ed; simpl.
  - rewrite with_lock_ok by done. rewrite Hs. unfold scan. cbn zeta. change (stop_requested (retain _)) with (stop_requested (registry sv)). rewrite Hs. simpl.
    eexists. split; [done|]. simpl. auto with lia.
  - rewrite (worker_caps c k sv I E1) by (by rewrite Ep).
    destruct (match dl with Some d => _ | None => Done false end) as [[]| |] eqn:Eov; [| |by destruct dl..]; simpl.
    + eexists. split; [done|]. simpl. auto with lia.
    + rewrite match_option_const. simpl. destruct (take_wake_ok ticks sv b Hb) as (b' & -> & _). simpl.
      destruct (available b) eqn:Eb; [eexists; split; [done|]; simpl; auto with lia|].
      destruct (sv_sleeps _ W dl b Ep Hb Eb) as [? _]. congruence.
  - eexists. split; [done|]. simpl. auto with lia.
  - rewrite with_lock_ok by done. simpl.
    pose proof (dispatch_restore_eq i cb (registry sv)) as Er. pose proof (sv_registry _ W) as Wr. rewrite Ep in Wr.
    destruct (restore_spec (registry sv) i cb Wr) as (_ & _ & Hst & _). rewrite <- Er in Hst.
    destruct (dispatch_restore i cb (registry sv)) as [o st]. simpl in *. eexists. split; [done|]. simpl.
    rewrite Hst. destruct o; simpl; auto with lia.
  - eexists. split; [done|]. simpl. auto with lia.
  - rewrite Ee. simpl. pose proof (law_done_set WORKER_COMPLETED_BIT e) as Hd.
    destruct (osal_freertos_done_set WORKER_COMPLETED_BIT e) as [raw e']. destruct Hd as [-> _].
    simpl. eexists. split; [done|]. simpl. auto with lia.
Qed.

Lemma worker_completes n sched held ticks k : lockable sched held → ∀ c sv, inv c → services (wld c) !! k = Some sv →
  stop_requested (registry sv) = true → worker sv ≠ NoTask → (rank (worker sv) ≤ n)%nat →
  ∃ m w sv', (m ≤ n)%nat ∧ runs c (replicate m (Worker k sched held ticks)) (set_wld c w) ∧ inv (set_wld c w) ∧
    slot w = slot (wld c) ∧ services w !! k = Some sv' ∧ past (worker sv') = true ∧ stop_requested (registry sv') = true.
Proof.
  intros L.
  assert (∀ c sv, inv c → services (wld c) !! k = Some sv → stop_requested (registry sv) = true → worker sv ≠ NoTask →
    rank (worker sv) = 0%nat → ∃ m w sv', (m ≤ 0)%nat ∧ runs c (replicate m (Worker k sched held ticks)) (set_wld c w) ∧ inv (set_wld c w) ∧
    slot w = slot (wld c) ∧ services w !! k = Some sv' ∧ past (worker sv') = true ∧ stop_requested (registry sv') = true) as Hzero.
  { intros c sv I E1 Hs Hn Hr. exists 0%nat, (wld c), sv.
    assert (set_wld c (wld c) = c) as -> by (by destruct c). split_and!; try done. by destruct (worker sv). }
  induction n as [|n IH]; intros c sv I E1 Hs Hn Hr.
  { apply (Hzero c sv); try done. lia. }
  destruct (decide (rank (worker sv) = 0%nat)) as [Hz|Hz].
  { destruct (Hzero c sv I E1 Hs Hn Hz) as (m & w & sv' & Hm & R). exists m, w, sv'. split; [lia|done]. }
  destruct (worker_drains_step c k sv sched held ticks I L E1 Hs Hz) as (sv1 & Ew & Hs1 & Hr1 & Hn1).
  destruct (worker_step_inv c k sched held ticks _ I L Ew) as (w1 & [= <-] & I1).
  destruct (IH _ sv1 I1) as (m & w & sv' & Hm & R & I2 & Hsl & E2 & Hp & Hst); try done.
  { simpl. apply list_lookup_insert_eq. by eapply lookup_lt_Some. }
  { lia. }
  exists (S m), w, sv'. split; [lia|]. split; [|done].
  cbn [replicate runs exec event_ok]. split; [done|]. rewrite Ew. exact R.
Qed.


(** The rest of [shutdown] once the worker has set its completion bit. *)
Lemma stop_drop_runs c s sched held ticks : inv c → lockable sched held → stops c !! 0%nat = Some (SdDrop s) →
  ∃ w, runs c [StopStep 0 sched held ticks; StopStep 0 sched held ticks] (set_stops (set_wld c w) [SdReturn (Ok ())]) ∧
    slot w = Stopped.
Proof.
  intros I L Ej. destruct (stop_state c 0 _ I Ej) as (_ & Es & Et & Ec & Eh & _ & Hok). simpl in Hok.
  destruct (shutdown_drop_inv c s I Es Ec Eh Et Hok) as (w1 & Ew1 & I1).
  destruct (stop_state _ 0 SdFinish I1 eq_refl) as (_ & _ & _ & _ & _ & _ & s' & Hok').
  destruct (shutdown_finish_inv _ s' I1 eq_refl Ec Eh Et Hok') as (w2 & Ew2 & I2 & Hsl).
  exists w2. split; [|done]. cbn [runs exec event_ok]. rewrite Es. simpl. rewrite Ew1. simpl.
  simpl in Ew2. rewrite Ew2. done.
Qed.

Lemma stop_return_runs c : inv c → stops c !! 0%nat = Some (SdReturn (Ok ())) →
  ∃ r, runs c [StopDone 0 0; TransitionStep 0; TransitionStep 0] (set_stops (set_runtime c r) []) ∧
    r = FreeRtosRuntime.new.
Proof.
  intros I Ej. destruct (stop_state c 0 _ I Ej) as (_ & Es & Et & _).
  assert (FreeRtosRuntime.transitions (runtime c) !! 0%nat = Some FreeRtosRuntime.ShutTimer) as E0 by (by rewrite Et).
  destruct (FreeRtosRuntime.ok_transition _ _ _ _ _ (i_rt _ I) E0) as (_ & _ & _ & El & _).
  eexists. split; [|done]. cbn [runs exec event_ok]. unfold FreeRtosRuntime.timer_returned. rewrite Et, Es. simpl.
  rewrite El. unfold RuntimeLifecycle.commit_shutdown. simpl. rewrite RuntimeLifecycle.guarded_exchange_spec. simpl.
  split_and!; try done.
Qed.

Lemma stop_wait_runs c s sched held ticks : inv c → lockable sched held → stops c !! 0%nat = Some (SdWait s) →
  (∃ sv, services (wld c) !! s = Some sv ∧ past (worker sv) = true) →
  ∃ w, runs c [StopStep 0 sched held ticks] (set_stops (set_wld c w) [SdDrop s]) ∧ inv (set_stops (set_wld c w) [SdDrop s]).
Proof.
  intros I L Ej (sv & E1 & Hp). destruct (stop_state c 0 _ I Ej) as (_ & Es & Et & Ec & Eh & _ & Hok).
  destruct (shutdown_wait_inv c s sched held ticks I Es Ec Eh Et Hok) as (p' & w & Ew & I1 & Hd).
  rewrite (Hd sv E1 Hp) in *. exists w. split; [|done]. cbn [runs exec event_ok]. split; [done|]. rewrite Es.
  simpl in Ew. injection Ew as Ew. simpl. rewrite Ew. done.
Qed.


(** *** Properties *)

(** C26: No interleaving of runtime starts and stops, timer constructions, uses,
    clones, drops and callbacks panics: no service is used after its last
    reference, the slot and lifecycle assertions hold, the drop of a live timer
    finds it.  At most one worker is still to touch its registry, also across
    restarts; a call never reports an unknown timer; and the native objects are
    three per referenced service, so none is left after a stop whose worker is
    gone.  The only condition on the tasks is that none takes the registry mutex
    with the scheduler suspended while a preempted task has it. *)
Theorem freertos_timers_safe c : reachable c →
  (∀ e, event_ok c e → exec c e = None ∨ ∃ c', exec c e = Some (Done c')) ∧
  (∀ k k' sv sv', services (wld c) !! k = Some sv → services (wld c) !! k' = Some sv' →
     ¬ retired (worker sv) → ¬ retired (worker sv') → k = k') ∧
  (∀ i kd r, results c !! i = Some (kd, r) → r ≠ Err Error.NotFound) ∧
  natives (wld c) = (3 * countb alive (services (wld c)))%nat ∧
  (slot (wld c) = Stopped → stops c = [] → calls c = [] →
   (∀ k sv, services (wld c) !! k = Some sv → worker_ref (worker sv) = 0%nat) → natives (wld c) = 0%nat).
Proof.
  intros R. pose proof (frt_timer_reachable_inv c R) as I. split_and!.
  - intros e He. destruct (exec c e) as [r|] eqn:Er; [|by left]. right.
    destruct (frt_timer_exec_inv c e r I He Er) as (c' & -> & _). eauto.
  - intros k k' sv sv' E1 E2 N1 N2. destruct (i_services _ I _ _ E1) as (_ & _ & A1), (i_services _ I _ _ E2) as (_ & _ & A2).
    destruct (slot (wld c)) as [|s hw|s]; simpl in *; [by destruct N1; auto|..];
      destruct (Nat.eqb_spec s k), (Nat.eqb_spec s k'); simpl in *; subst; try done; naive_solver.
  - intros i kd r. apply (i_results _ I).
  - apply (i_natives _ I).
  - intros Hs Ht Hc Hw. rewrite (i_natives _ I).
    enough (countb alive (services (wld c)) = 0%nat) by lia. apply countb_zero, Forall_lookup. intros k sv E1.
    destruct (i_services _ I _ _ E1) as (_ & Hst & _). unfold alive. rewrite Hst. unfold refs. rewrite Hs, Ht, Hc, (Hw k sv E1). done.
Qed.


(** C28: Stopping the runtime completes: once the request has been accepted, five
    steps of the worker at most, whatever it was doing and whatever the budgets of
    its waits, and the rest of [shutdown] lead to a stopped service and an
    uninitialised runtime with no lease and no cached capability. *)
Theorem freertos_timer_shutdown_completes c s sched held ticks : lockable sched held → reachable c → stops c = [SdWait s] →
  ∃ m c', (m ≤ 5)%nat ∧
    runs c (replicate m (Worker s sched held ticks) ++ replicate 3 (StopStep 0 sched held ticks)
            ++ [StopDone 0 0; TransitionStep 0; TransitionStep 0]) c' ∧
    runtime c' = FreeRtosRuntime.new ∧ slot (wld c') = Stopped ∧ stops c' = [] ∧ calls c' = [] ∧ handles c' = [].
Proof.
  intros L R Es. pose proof (frt_timer_reachable_inv c R) as I.
  assert (stops c !! 0%nat = Some (SdWait s)) as Ej by (by rewrite Es).
  destruct (stop_state c 0 _ I Ej) as (_ & _ & Et & Ec & Eh & _ & sv & Esl & E1 & Hst & Hn).
  destruct (worker_completes 5 sched held ticks s L c sv I E1 Hst Hn) as (m & w & sv' & Hm & R1 & I1 & Hsl & E2 & Hp & Hst');
    [destruct (worker sv); simpl; lia|].
  destruct (stop_wait_runs _ s sched held ticks I1 L Ej) as (w2 & R2 & I2); [by exists sv'|].
  destruct (stop_drop_runs _ s sched held ticks I2 L eq_refl) as (w3 & R3 & Hsl3).
  assert (reachable (set_stops (set_wld (set_stops (set_wld (set_wld c w) w2) [SdDrop s]) w3) [SdReturn (Ok ())])) as R4.
  { eapply frt_runs_reachable; [|exact R3]. eapply frt_runs_reachable; [|exact R2].
    by eapply frt_runs_reachable; [|exact R1]. }
  destruct (stop_return_runs _ (frt_timer_reachable_inv _ R4) eq_refl) as (r & R5 & Hr).
  exists m. eexists. split; [done|]. split.
  - eapply runs_app; [exact R1|]. change (replicate 3 ?x) with ([x] ++ [x; x]). rewrite <- app_assoc.
    eapply runs_app; [exact R2|]. eapply runs_app; [exact R3|exact R5].
  - by split_and!.
Qed.


End FreeRtosTimerMachine.
End FreeRtosTimerMachine.

(** ** Witnesses *)

Module FreeRtosTimerWitness.
Import FreeRtosTimerMachine.

#[local] Existing Instance arch64.

(** A binary semaphore as its token, an event group as its bits. *)
#[local] Instance wake_bool : NativeWake bool := {|
  wake_created := false;
  osal_freertos_wake_give b := (if b then Sys.GIVE_FULL else Sys.GIVE_OK, true);
  osal_freertos_wake_take _ b := (if b then Sys.TAKE_ACQUIRED else Sys.TAKE_TIMEOUT, false);
|}.
#[local] Program Instance wake_bool_laws : NativeWakeLaws bool := {| available := λ b, b |}.
Next Obligation. done. Qed.
Next Obligation. intros []; simpl; auto. Qed.
Next Obligation. done. Qed.
#[local] Instance done_bits : NativeDone Z := {|
  done_created := 0;
  osal_freertos_done_set bits e := (SysTask.EVENT_GROUP_OK, Z.lor e bits);
  osal_freertos_done_wait bits _ e :=
    (if Z.land e bits =? bits then SysTask.EVENT_GROUP_OK else SysTask.EVENT_GROUP_TIMEOUT, e);
|}.
#[local] Program Instance done_bits_laws : NativeDoneLaws Z := {| bits_of := λ e, e |}.
Next Obligation. done. Qed.
Next Obligation. done. Qed.
Next Obligation. done. Qed.

#[local] Instance registry_lock : RegistryLock := {|
  longest_delay := 2 ^ 32 - 2;
  osal_freertos_registry_take held n := if held && (n =? 0) then Sys.TAKE_TIMEOUT else Sys.TAKE_ACQUIRED;
  osal_freertos_registry_give := Sys.GIVE_OK;
|}.
#[local] Instance registry_lock_laws : RegistryLockLaws.
Proof. split; done. Qed.

Definition caps : Sys.Capabilities := Sys.capabilities VirtualKernel.raw_caps.
Definition s0 : config (B:=bool) (E:=Z) := start_config (Duration.mk 100 0).

Fixpoint final (c : config (B:=bool) (E:=Z)) (es : list event) : config :=
  match es with
  | [] => c
  | e :: es => match exec caps c e with Some (Done c) => final c es | _ => c end
  end.

Definition call_steps (n : nat) : list event := replicate n (CallStep 0 Sys.Running true true true).

(** The runtime starts, a timer of 100 ms is created and armed, the worker sleeps. *)
Definition boot : list event :=
  [InitBegin; InitTimer 0 true true true; TransitionStep 0; TransitionStep 0;
   New (Duration.from_millis 100) TimerMode.Periodic 7] ++ call_steps 3 ++
  [Op 0 Start] ++ call_steps 4.
Definition asleep : list event := boot ++ [Worker 0 Sys.Running true 10; Worker 0 Sys.Running true 10; Worker 0 Sys.Running true 10].
(** The deadline passes. *)
Definition woken : list event := asleep ++ [Tick (Duration.mk 101 0); Worker 0 Sys.Running true 10].
(** The timer is dropped and the runtime stopped while the worker sleeps. *)
Definition stopping : list event :=
  asleep ++ [Drop 0] ++ call_steps 4 ++
  [ShutBegin None; StopStep 0 Sys.Running true 10; StopStep 0 Sys.Running true 10; StopStep 0 Sys.Running true 10].

Ltac run_ok := vm_compute; repeat (match goal with |- _ ∧ _ => split end); try reflexivity; try discriminate; try exact I.

Lemma final_reachable es : runs caps s0 es (final s0 es) → reachable caps (final s0 es).
Proof. apply frt_runs_reachable. apply ft_init. run_ok. Qed.

Definition entry : TimerEntry :=
  mkEntry 1 (TimerState.mk TimerMode.Periodic (Duration.from_millis 100) (Some (Duration.mk 100 100000000))) (Some 7) false.

Lemma freertos_timers_safe_witness :
  natives (wld (final s0 asleep)) = 3%nat ∧ results (final s0 asleep) = [(KRegister (Duration.from_millis 100) TimerMode.Periodic 7, Ok 1); (KStart, Ok 0)].
Proof.
  destruct (freertos_timers_safe caps (final s0 asleep)) as (_ & _ & _ & Hn & _); [apply final_reachable; run_ok|].
  split; [rewrite Hn; vm_compute; reflexivity|vm_compute; reflexivity].
Defined.


Lemma freertos_timer_shutdown_completes_witness :
  ∃ m c', (m ≤ 5)%nat ∧
    runs caps (final s0 stopping) (replicate m (Worker 0 Sys.Running true 10) ++ replicate 3 (StopStep 0 Sys.Running true 10)
       ++ [StopDone 0 0; TransitionStep 0; TransitionStep 0]) c' ∧ slot (wld c') = Stopped.
Proof.
  destruct (freertos_timer_shutdown_completes caps (final s0 stopping) 0 Sys.Running true 10) as (m & c' & Hm & R & _ & Hs & _).
  - discriminate.
  - apply final_reachable. run_ok.
  - vm_compute. reflexivity.
  - exists m, c'. auto.
Defined.


End FreeRtosTimerWitness.
