(* ===== verification/PosixTask.v ===== *)
(** * POSIX tasks

    [crates/osal-backend-posix/src/task.rs], [sys/task.rs], [sys/tls.rs] and, around
    them, [runtime.rs].

    [TlsSlot] is the lazily created key, access by access.  [PosixRuntime] is the
    lifecycle word with the calls of [initialize] and [shutdown] under way.
    [PosixTask] has a task with the thread that runs it, the call of [spawn] that
    makes it and the calls of [join] on it, each by its next step; a section under
    the task's mutex is one step, a wait on its condition variable begins with the
    section that finds nothing to do and ends with a broadcast, a spurious wake-up
    or a time-out.  What the C library answers is an argument. *)

From S2P Require Import Prelude Api Buffers Runtime FreeRtosTask.
Import RuntimeLifecycle (run_loop, acquire_body, lease_drop_body, begin_shutdown_body,
  begin_initialize, commit_initialize, drop_initialize, commit_shutdown, drop_shutdown, pack, MAX_COUNT).

(** ** [sys/tls.rs]: one key, created on first use *)

Module TlsSlot.

Definition UNINITIALIZED : Z := 0.
Definition INITIALIZING : Z := 1.
Definition READY : Z := 2.

Definition create_failed : Error.t := Error.Internal "pthread_key_create failed".
Definition attempt_failed : Error.t := Error.Internal "pthread TLS initialisation was attempted but failed".

(** Between the accesses of [get_or_init]. *)
Inductive pc : Type :=
| AtLoad
| AtCas
| AtCreate
| AtWrite (key : Z)
| AtReady (key : Z)
| AtRollback
| AtSpin
| AtRead
| Returned (r : Result Z).

(** [state] and [key] of the slot; [keys]: the keys created so far. *)
Record config : Type := mkConfig { state : Z; key : option Z; keys : list Z; threads : list pc }.

Definition with_thread (c : config) (i : nat) (p : pc) : config :=
  mkConfig (state c) (key c) (keys c) (<[i:=p]> (threads c)).

(** One access by thread [i]; [created] is what [pthread_key_create] makes. *)
Definition step (c : config) (i : nat) (created : option Z) : option (Run config) :=
  let continue p := Done (with_thread c i p) in
  match threads c !! i with
  | Some AtLoad => Some (continue (if state c =? READY then AtRead else AtCas))
  | Some AtRead =>
      Some (k ← expect (key c) "TLS key read before it was written"; continue (Returned (Ok k)))
  | Some AtCas =>
      Some (if state c =? UNINITIALIZED
            then Done (mkConfig INITIALIZING (key c) (keys c) (<[i:=AtCreate]> (threads c)))
            else continue AtSpin)
  | Some AtCreate =>
      Some (match created with
            | Some k => Done (mkConfig (state c) (key c) (keys c ++ [k]) (<[i:=AtWrite k]> (threads c)))
            | None => continue AtRollback
            end)
  | Some (AtWrite k) => Some (Done (mkConfig (state c) (Some k) (keys c) (<[i:=AtReady k]> (threads c))))
  | Some (AtReady k) => Some (Done (mkConfig READY (key c) (keys c) (<[i:=Returned (Ok k)]> (threads c))))
  | Some AtRollback =>
      Some (Done (mkConfig UNINITIALIZED (key c) (keys c) (<[i:=Returned (Err create_failed)]> (threads c))))
  | Some AtSpin =>
      Some (continue (if state c =? READY then AtRead
                      else if state c =? UNINITIALIZED then Returned (Err attempt_failed)
                      else AtSpin))
  | _ => None
  end.

(** [get] *)
Definition get (c : config) : option (Run Z) :=
  if state c =? READY then Some (expect (key c) "TLS key read before it was written") else None.

Inductive reachable (n : nat) : config → Prop :=
| ts_init : reachable n (mkConfig UNINITIALIZED None [] (replicate n AtLoad))
| ts_step c i created c' : reachable n c → step c i created = Some (Done c') → reachable n c'.

(** The thread that creates the key. *)
Definition creating (p : pc) : bool :=
  match p with AtCreate | AtWrite _ | AtReady _ | AtRollback => true | _ => false end.
Definition creator_ok (c : config) (p : pc) : Prop :=
  match p with AtWrite k => keys c = [k] | AtReady k => keys c = [k] ∧ key c = Some k | _ => keys c = [] end.

(** Nobody creates the key but, perhaps, thread [o]. *)
Definition only (o : option nat) (c : config) : Prop :=
  ∀ j q, threads c !! j = Some q → creating q = true → Some j = o.

Definition phase_ok (c : config) : Prop :=
  state c = UNINITIALIZED ∧ keys c = [] ∧ only None c ∨
  state c = READY ∧ (∃ k, key c = Some k ∧ keys c = [k]) ∧ only None c ∨
  state c = INITIALIZING ∧ ∃ i p, threads c !! i = Some p ∧ creating p = true ∧ only (Some i) c ∧ creator_ok c p.

Definition pc_ok (c : config) (p : pc) : Prop :=
  match p with
  | AtRead => state c = READY
  | Returned (Ok k) => state c = READY ∧ key c = Some k
  | _ => True
  end.

Record inv (c : config) : Prop := {
  ts_phase : phase_ok c;
  ts_threads : ∀ i p, threads c !! i = Some p → pc_ok c p;
}.

(** A step of thread [i] to [p']: what is left to show. *)
Lemma inv_thread c c' i p p' : inv c → threads c !! i = Some p → threads c' = <[i:=p']> (threads c) →
  phase_ok c' → pc_ok c' p' → (state c = READY → state c' = READY ∧ key c' = key c) → inv c'.
Proof.
  intros [_ Ht] E Et Hp Hp' Hk. split; [done|]. intros j q. rewrite Et.
  intros [(<- & <- & _)|[_ Eq]]%list_lookup_insert_Some; [done|]. specialize (Ht j q Eq).
  destruct q as [| | | | | | | |[]]; simpl in *; try done; [tauto|]. destruct Ht as [Hs ?].
  destruct (Hk Hs). split; congruence.
Qed.

Lemma only_insert o o' c c' i p p' : only o c → threads c !! i = Some p → threads c' = <[i:=p']> (threads c) →
  (creating p' = true → o' = Some i) → (o = o' ∨ o = Some i ∨ o = None) → only o' c'.
Proof.
  intros H0 E Et Hc Ho j q. rewrite Et.
  intros [(<- & <- & _)|[Hne Eq]]%list_lookup_insert_Some Hq; [by rewrite (Hc Hq)|].
  specialize (H0 j q Eq Hq). destruct Ho as [->|[->| ->]]; congruence.
Qed.

(** A step of a thread that does not touch the slot. *)
Lemma inv_quiet c i p p' : inv c → threads c !! i = Some p → creating p = false → creating p' = false →
  pc_ok (with_thread c i p') p' → inv (with_thread c i p').
Proof.
  intros I E Hp Hp' Hok. pose proof (lookup_lt_Some _ _ _ E) as Hlt.
  apply (inv_thread c _ i p p'); try done. pose proof (ts_phase _ I) as P. unfold phase_ok in *. simpl.
  destruct P as [(Es & Ek & Ho)|[(Es & Ek & Ho)|(Es & j & q & Eq & Hq & Ho & Hc)]].
  - left. split_and!; try done. apply (only_insert None None c _ i p p'); auto; congruence.
  - right. left. split_and!; try done. apply (only_insert None None c _ i p p'); auto; congruence.
  - right. right. split; [done|]. exists j, q. rewrite list_lookup_insert_ne by congruence.
    split_and!; try done. apply (only_insert (Some j) (Some j) c _ i p p'); auto; congruence.
Qed.

(** A step of the creator. *)
Lemma creator_state c i p : inv c → threads c !! i = Some p → creating p = true →
  state c = INITIALIZING ∧ only (Some i) c ∧ creator_ok c p.
Proof.
  intros I E Hp. destruct (ts_phase _ I) as [(_ & _ & Ho)|[(_ & _ & Ho)|(Es & j & q & Eq & Hq & Ho & Hc)]].
  1,2: by specialize (Ho i p E Hp).
  specialize (Ho i p E Hp) as Ej. simplify_eq. by split_and!.
Qed.

Lemma tls_step_inv c i created : inv c → step c i created = None ∨ ∃ c', step c i created = Some (Done c') ∧ inv c'.
Proof.
  intros I. unfold step. destruct (threads c !! i) as [p|] eqn:E; [|by left].
  pose proof (ts_threads _ I i p E) as Hok. pose proof (lookup_lt_Some _ _ _ E) as Hlt.
  destruct (creating p) eqn:Hc.
  { destruct (creator_state c i p I E Hc) as (Es & Ho & Hk).
    assert (∀ c' p', threads c' = <[i:=p']> (threads c) → pc_ok c' p' →
      (if creating p' then state c' = INITIALIZING ∧ creator_ok c' p'
       else state c' = UNINITIALIZED ∧ keys c' = [] ∨ state c' = READY ∧ ∃ k, key c' = Some k ∧ keys c' = [k]) → inv c') as Hgo.
    { intros c' p' Et Hp' Hst. apply (inv_thread c c' i p p'); try done; [|by rewrite Es].
      unfold phase_ok. destruct (creating p') eqn:Hc'.
      - right. right. destruct Hst. split; [done|]. exists i, p'. rewrite Et, list_lookup_insert_eq by done.
        split_and!; try done. apply (only_insert (Some i) (Some i) c _ i p p'); auto.
      - assert (only None c') by (apply (only_insert (Some i) None c _ i p p'); auto; congruence).
        destruct Hst as [[]|[]]; [left|right; left]; done. }
    right. destruct p as [| | |k|k| | | |]; try done.
    - destruct created as [k|]; (eexists; split; [done|]);
        [apply (Hgo _ (AtWrite k))|apply (Hgo _ AtRollback)]; try done; simpl in *. by rewrite Hk.
    - eexists. split; [done|]. by apply (Hgo _ (AtReady k)).
    - eexists. split; [done|]. destruct Hk. apply (Hgo _ (Returned (Ok k))); simpl; try done. right. eauto.
    - eexists. split; [done|]. apply (Hgo _ (Returned (Err create_failed))); simpl; try done. by left. }
  destruct p as [| | |k|k| | | |r]; try done; [right..|by left].
  - eexists. split; [done|]. apply (inv_quiet c i AtLoad); try done; destruct (state c =? READY) eqn:Er; try done.
    simpl. by apply Z.eqb_eq in Er.
  - destruct (state c =? UNINITIALIZED) eqn:Eu; (eexists; split; [done|]); [|by apply (inv_quiet c i AtCas)].
    apply Z.eqb_eq in Eu. apply (inv_thread c _ i AtCas AtCreate); try done; [|by rewrite Eu].
    destruct (ts_phase _ I) as [(_ & Ek & Ho)|[(Er & _)|(Er & _)]]; [|by rewrite Eu in Er..].
    right. right. split; [done|]. exists i, AtCreate. simpl. rewrite list_lookup_insert_eq by done. split_and!; try done.
    apply (only_insert None (Some i) c _ i AtCas AtCreate); auto.
  - eexists. split; [done|]. destruct (state c =? READY) eqn:Er; [|destruct (state c =? UNINITIALIZED)];
      apply (inv_quiet c i AtSpin); try done. simpl. by apply Z.eqb_eq in Er.
  - simpl in Hok. destruct (ts_phase _ I) as [(Er & _)|[(_ & (k & Ek & _) & _)|(Er & _)]]; [by rewrite Hok in Er| |by rewrite Hok in Er].
    rewrite Ek. eexists. split; [done|]. by apply (inv_quiet c i AtRead).
Qed.

Lemma tls_reachable_inv n c : reachable n c → inv c.
Proof.
  induction 1 as [|c i created c' _ I E].
  - split.
    + left. split_and!; try done. intros j q [-> _]%lookup_replicate Hq. done.
    + intros j q [-> _]%lookup_replicate. done.
  - destruct (tls_step_inv c i created I) as [E'|(c1 & E' & I')]; rewrite E' in E; [done|]. by injection E as <-.
Qed.

(** However many threads race into [get_or_init] and however often the creation
    fails, at most one key is ever created, everyone who gets a key gets that one,
    and the key is read only after it was written. *)
Theorem tls_key_once n c : reachable n c →
  (length (keys c) ≤ 1)%nat ∧
  (∀ i k, threads c !! i = Some (Returned (Ok k)) → keys c = [k] ∧ get c = Some (Done k)) ∧
  (∀ i created, step c i created = None ∨ ∃ c', step c i created = Some (Done c')) ∧
  get c ≠ Some (Panic "TLS key read before it was written").
Proof.
  intros R. pose proof (tls_reachable_inv n c R) as I. pose proof (ts_phase _ I) as P. split_and!.
  - destruct P as [(_ & -> & _)|[(_ & (k & _ & ->) & _)|(_ & i & p & _ & Hc & _ & Hk)]]; simpl; try lia.
    destruct p; simpl in Hk; destruct_and?; simplify_eq; repeat match goal with E : keys _ = _ |- _ => rewrite E; clear E end; simpl; lia.
  - intros i k E. destruct (ts_threads _ I _ _ E) as [Es Ek]. unfold get. rewrite Es, Ek. simpl. split; [|done].
    destruct P as [(Er & _)|[(_ & (k' & Ek' & ->) & _)|(Er & _)]]; [by rewrite Es in Er| |by rewrite Es in Er]. congruence.
  - intros i created. destruct (tls_step_inv c i created I) as [?|(c' & ? & _)]; eauto.
  - unfold get. destruct (state c =? READY) eqn:Er; [|done]. apply Z.eqb_eq in Er.
    destruct P as [(Er' & _)|[(_ & (k & -> & _) & _)|(Er' & _)]]; [by rewrite Er in Er'|done|by rewrite Er in Er'].
Qed.

Fixpoint run_steps (c : config) (es : list (nat * option Z)) : option config :=
  match es with
  | [] => Some c
  | (i, k) :: es => match step c i k with Some (Done c') => run_steps c' es | _ => None end
  end.

Lemma tls_steps_reachable n es : ∀ c c', reachable n c → run_steps c es = Some c' → reachable n c'.
Proof.
  induction es as [|[i k] es IH]; intros c c' R E; simpl in E; [by simplify_eq|].
  destruct (step c i k) as [[c1| |]|] eqn:Ex; try done. eapply IH; [|done]. by eapply ts_step.
Qed.

(** Two threads race; the first creates the key 5. *)
Lemma tls_key_once_witness :
  ∃ c, reachable 2 c ∧ threads c = [Returned (Ok 5); Returned (Ok 5)] ∧ get c = Some (Done 5).
Proof.
  exists (mkConfig READY (Some 5) [5] [Returned (Ok 5); Returned (Ok 5)]).
  assert (reachable 2 (mkConfig READY (Some 5) [5] [Returned (Ok 5); Returned (Ok 5)])) as R.
  { apply (tls_steps_reachable 2 [(0%nat, None); (1%nat, None); (0%nat, None); (1%nat, None); (0%nat, Some 5);
      (1%nat, None); (0%nat, None); (0%nat, None); (1%nat, None); (1%nat, None)] _ _ (ts_init 2)). vm_compute. reflexivity. }
  split; [exact R|]. split; [reflexivity|].
  destruct (tls_key_once 2 _ R) as (_ & Hg & _). apply (Hg 1%nat). reflexivity.
Defined.

End TlsSlot.

(** ** [runtime.rs], with the timer service as a parameter *)

Module PosixRuntime.
Section PosixRuntime.
Context `{Arch}.

(** The lifecycle word and the calls under way: [true] is [initialize]. *)
Record t : Type := mk { life : Z; transitions : list bool }.

Definition new : t := mk RuntimeLifecycle.new [].

(** [RUNTIME.begin_initialize()?] and [RUNTIME.begin_shutdown()?] *)
Definition initialize_begin (r : t) : Run (Result () * t) :=
  '(res, w) ← begin_initialize (life r);
  Done (res, mk w (transitions r ++ if is_ok res then [true] else [])).
Definition shutdown_begin (r : t) : Run (Result () * t) :=
  '(res, w) ← run_loop begin_shutdown_body 0 (life r);
  Done (res, mk w (transitions r ++ if is_ok res then [false] else [])).

(** The timer service returns [res]: commit, or drop of the transition guard. *)
Definition transition_end (i : nat) (res : Result ()) (r : t) : option (Run t) :=
  init ← transitions r !! i;
  let f := match init, is_ok res with
           | true, true => commit_initialize
           | true, false => drop_initialize
           | false, true => commit_shutdown
           | false, false => drop_shutdown
           end in
  Some (w ← f (life r); Done (mk w (delete i (transitions r)))).

Definition acquire_object (r : t) : Run (Result () * t) :=
  '(res, w) ← run_loop acquire_body 0 (life r); Done (res, mk w (transitions r)).
Definition lease_drop (r : t) : Run t :=
  '(_, w) ← run_loop lease_drop_body 0 (life r); Done (mk w (transitions r)).
Definition state (r : t) : Run RuntimeState.t := RuntimeLifecycle.state (life r).

(** With [n] leases. *)
Definition ok (n : nat) (r : t) : Prop :=
  ∃ st, life r = pack st (Z.of_nat n) ∧ Z.of_nat n ≤ MAX_COUNT ∧ (st ≠ RuntimeState.Running → n = 0%nat) ∧
    transitions r = match st with
                    | RuntimeState.Initializing => [true]
                    | RuntimeState.ShuttingDown => [false]
                    | _ => []
                    end.

Lemma prt_new_ok : ok 0 new.
Proof.
  pose proof RuntimeLifecycle.zero_le_MAX_COUNT.
  exists RuntimeState.Uninitialized. split_and!; try done; lia.
Qed.

Lemma prt_bound n r : ok n r → Z.of_nat n < 2 ^ usize_bits.
Proof.
  intros (st & _ & Hn & _). pose proof RuntimeLifecycle.MAX_COUNT_eq as E. unfold uint_max in E.
  pose proof RuntimeLifecycle.zero_le_MAX_COUNT. lia.
Qed.

#[local] Arguments run_loop : simpl never.

Lemma prt_acquire n r : ok n r →
  (∃ e, acquire_object r = Done (Err e, r)) ∨ ∃ r', acquire_object r = Done (Ok (), r') ∧ ok (S n) r'.
Proof.
  intros (st & El & Hn & H0 & P). unfold acquire_object.
  assert (mk (life r) (transitions r) = r) as Er by (by destruct r).
  assert (0 ≤ Z.of_nat n ≤ MAX_COUNT) as Hr by lia.
  rewrite (RuntimeLifecycle.run_loop_spec _ _ _ _
    (eq_trans (f_equal acquire_body El) (RuntimeLifecycle.acquire_body_spec st _ Hr))).
  destruct st; simpl; rewrite ?Er; eauto. destruct (_ <? _) eqn:Hc; simpl; rewrite ?Er; [|by eauto].
  bool_to_prop. right. eexists. split; [done|].
  exists RuntimeState.Running. simpl. split; [f_equal; lia|]. split; [lia|]. by split.
Qed.

Lemma prt_lease_drop n r : ok (S n) r → ∃ r', lease_drop r = Done r' ∧ ok n r'.
Proof.
  intros (st & El & Hn & H0 & P).
  destruct (decide (st = RuntimeState.Running)) as [->|Hne]; [|by apply H0 in Hne].
  unfold lease_drop. assert (0 < Z.of_nat (S n) ≤ MAX_COUNT) as Hr by lia.
  rewrite (RuntimeLifecycle.run_loop_spec _ _ _ _
    (eq_trans (f_equal lease_drop_body El) (RuntimeLifecycle.lease_drop_body_spec _ Hr))).
  simpl. eexists. split; [done|]. exists RuntimeState.Running. simpl. split; [f_equal; lia|]. split; [lia|]. by split.
Qed.

Lemma prt_initialize n r : ok n r → ∃ res r', initialize_begin r = Done (res, r') ∧ ok n r'.
Proof.
  intros (st & El & Hn & H0 & P). unfold initialize_begin.
  rewrite El, RuntimeLifecycle.begin_initialize_spec, <- El by lia. pose proof RuntimeLifecycle.zero_le_MAX_COUNT.
  destruct st; simpl; [rewrite (H0 ltac:(done)) in *|..]; (eexists _, _; split; [done|]); rewrite ?app_nil_r.
  - exists RuntimeState.Initializing. simpl. rewrite P. split_and!; try done; lia.
  - exists RuntimeState.Initializing. by split_and!.
  - exists RuntimeState.Running. by split_and!.
  - exists RuntimeState.ShuttingDown. by split_and!.
Qed.

Lemma prt_shutdown n r : ok n r → ∃ res r', shutdown_begin r = Done (res, r') ∧ ok n r'.
Proof.
  intros (st & El & Hn & H0 & P). unfold shutdown_begin. pose proof RuntimeLifecycle.zero_le_MAX_COUNT.
  rewrite (RuntimeLifecycle.run_loop_spec _ _ _ _
    (eq_trans (f_equal begin_shutdown_body El) (RuntimeLifecycle.begin_shutdown_body_spec st _ (Nat2Z.is_nonneg n)))).
  destruct st; simpl; try (destruct (_ =? 0) eqn:En; simpl); (eexists _, _; split; [done|]); rewrite ?app_nil_r.
  - exists RuntimeState.Uninitialized. by split_and!.
  - exists RuntimeState.Initializing. by split_and!.
  - bool_to_prop. assert (n = 0%nat) as -> by lia. exists RuntimeState.ShuttingDown. rewrite P. split_and!; try done; lia.
  - exists RuntimeState.Running. by split_and!.
  - exists RuntimeState.ShuttingDown. by split_and!.
Qed.

Lemma prt_transition n r i res m : ok n r → transition_end i res r = Some m → ∃ r', m = Done r' ∧ ok n r'.
Proof.
  intros (st & El & Hn & H0 & P) E. unfold transition_end in E. rewrite P in E.
  pose proof RuntimeLifecycle.zero_le_MAX_COUNT.
  assert (i = 0%nat) as -> by (destruct st, i as [|i]; done).
  destruct st; simplify_eq/=; rewrite (H0 ltac:(done)) in *; rewrite El;
    destruct (is_ok res); unfold commit_initialize, drop_initialize, commit_shutdown, drop_shutdown;
    rewrite RuntimeLifecycle.guarded_exchange_spec; simpl; (eexists; split; [done|]).
  - exists RuntimeState.Running. split_and!; done || lia.
  - exists RuntimeState.Uninitialized. split_and!; done || lia.
  - exists RuntimeState.Uninitialized. split_and!; done || lia.
  - exists RuntimeState.Running. split_and!; done || lia.
Qed.

End PosixRuntime.
End PosixRuntime.

(** ** Tasks *)

Module PosixTask.
Section PosixTask.
Context `{Arch}.

(** [JoinState] and [StartupState] *)
Inductive JoinState : Type :=
| Running
| Finished (code : ExitCode.t)
| Joining (code : ExitCode.t)
| Joined (code : ExitCode.t).
Inductive StartupState : Type := Pending | Ready | Failed (e : Error.t).

(** The state of a native thread, apart from its progress. *)
Inductive native_thread : Type := NoThread | Joinable | JoinedThread | Detached.
#[global] Instance native_thread_eq_dec : EqDecision native_thread.
Proof. solve_decision. Defined.

(** [task_trampoline], by its next step. *)
Inductive trampoline_pc : Type :=
| TNone                      (** the thread does not exist *)
| TEnter                     (** [CurrentGuard::enter] *)
| TPublish (r : Result ())   (** [publish_startup] *)
| TTakeEntry | TEntry
| TDropToken                 (** [start.live_token.take()] after the entry *)
| TFinish | TBroadcast
| TRestoreTls | TDropContext (** the fields of the guard *)
| TFailed                    (** [start.live_token.take()] after a failed start *)
| TDropStart | TExit | TExited.
#[global] Instance trampoline_pc_eq_dec : EqDecision trampoline_pc.
Proof. solve_decision. Defined.

(** [spawn] from the moment the task exists, by its next step. *)
Inductive spawner_pc : Type :=
| SpThread (stack_size : Z)
| SpDropStart (e : Error.t) | SpDropToken (e : Error.t)
| SpStore
| SpWait                     (** [wait_startup] with the mutex *)
| SpBlocked                  (** ... in its wait *)
| SpJoinChild (e : Error.t)
| SpDropInner (e : Error.t)
| SpReturned.

(** [join_inner] and [do_pthread_join], by their next step. *)
Inductive join_pc : Type :=
| JNoWait | JDeadline | JLoop | JBlocked | JPthread | JPublish (r : Result ()).
Record join_call : Type := mkJoin { timeout : Timeout.t; jpc : join_pc }.
Definition set_jpc (x : join_call) (p : join_pc) : join_call := mkJoin (timeout x) p.

(** [PosixTaskInner] with its [Arc] count (its [thread] says whether the stored
    handle still has its [pthread_t]), the native thread, the payload [TaskStart],
    the thread's TLS value (a task by its number), the call of [spawn], the number
    of [PosixTask] handles and the calls of [join] on them. *)
Record task : Type := mkTask {
  handle : TaskHandle.t;
  priority : Z;
  thread : option bool;
  join_state : JoinState;
  startup : StartupState;
  strong : nat;
  native : native_thread;
  tpc : trampoline_pc;
  entry : bool;
  live_token : bool;
  tls : option nat;
  spc : spawner_pc;
  handles : nat;
  joins : list join_call;
}.

Definition set_thread (t : task) (x : option bool) : task :=
  mkTask (handle t) (priority t) x (join_state t) (startup t) (strong t) (native t) (tpc t) (entry t) (live_token t) (tls t) (spc t) (handles t) (joins t).
Definition set_join_state (t : task) (x : JoinState) : task :=
  mkTask (handle t) (priority t) (thread t) x (startup t) (strong t) (native t) (tpc t) (entry t) (live_token t) (tls t) (spc t) (handles t) (joins t).
Definition set_startup (t : task) (x : StartupState) : task :=
  mkTask (handle t) (priority t) (thread t) (join_state t) x (strong t) (native t) (tpc t) (entry t) (live_token t) (tls t) (spc t) (handles t) (joins t).
Definition set_strong (t : task) (x : nat) : task :=
  mkTask (handle t) (priority t) (thread t) (join_state t) (startup t) x (native t) (tpc t) (entry t) (live_token t) (tls t) (spc t) (handles t) (joins t).
Definition set_native (t : task) (x : native_thread) : task :=
  mkTask (handle t) (priority t) (thread t) (join_state t) (startup t) (strong t) x (tpc t) (entry t) (live_token t) (tls t) (spc t) (handles t) (joins t).
Definition goto (t : task) (x : trampoline_pc) : task :=
  mkTask (handle t) (priority t) (thread t) (join_state t) (startup t) (strong t) (native t) x (entry t) (live_token t) (tls t) (spc t) (handles t) (joins t).
Definition set_entry (t : task) (x : bool) : task :=
  mkTask (handle t) (priority t) (thread t) (join_state t) (startup t) (strong t) (native t) (tpc t) x (live_token t) (tls t) (spc t) (handles t) (joins t).
Definition set_token (t : task) (x : bool) : task :=
  mkTask (handle t) (priority t) (thread t) (join_state t) (startup t) (strong t) (native t) (tpc t) (entry t) x (tls t) (spc t) (handles t) (joins t).
Definition set_tls (t : task) (x : option nat) : task :=
  mkTask (handle t) (priority t) (thread t) (join_state t) (startup t) (strong t) (native t) (tpc t) (entry t) (live_token t) x (spc t) (handles t) (joins t).
Definition set_spc (t : task) (x : spawner_pc) : task :=
  mkTask (handle t) (priority t) (thread t) (join_state t) (startup t) (strong t) (native t) (tpc t) (entry t) (live_token t) (tls t) x (handles t) (joins t).
Definition set_handles (t : task) (x : nat) : task :=
  mkTask (handle t) (priority t) (thread t) (join_state t) (startup t) (strong t) (native t) (tpc t) (entry t) (live_token t) (tls t) (spc t) x (joins t).
Definition set_joins (t : task) (x : list join_call) : task :=
  mkTask (handle t) (priority t) (thread t) (join_state t) (startup t) (strong t) (native t) (tpc t) (entry t) (live_token t) (tls t) (spc t) (handles t) x.

(** The lifecycle, [LIVE_COUNT], and the mutexes and condition variables that
    exist. *)
Record shared : Type := mkShared { runtime : PosixRuntime.t; live_count : Z; natives : nat }.

Definition access (t : task) : Run () := rassert (negb (Nat.eqb (strong t) 0)) "task used after free".

(** [condvar.broadcast()] *)
Definition wake (x : join_call) : join_call :=
  match jpc x with JBlocked => set_jpc x JLoop | _ => x end.
Definition broadcast (t : task) : task :=
  set_spc (set_joins t (wake <$> joins t)) match spc t with SpBlocked => SpWait | p => p end.

(** The drop of the stored thread handle, with [Drop for PosixThread]. *)
Definition drop_thread (t : task) : Run task :=
  match thread t with
  | Some true =>
      _ ← rassert (bool_decide (native t = Joinable)) "pthread_detach on owned handle failed";
      Done (set_native (set_thread t None) Detached)
  | _ => Done (set_thread t None)
  end.

(** The drop of an [Arc<PosixTaskInner>]. *)
Definition arc_drop (t : task) (s : shared) : Run (task * shared) :=
  _ ← access t;
  match pred (strong t) with
  | O =>
      t ← drop_thread t;
      r ← PosixRuntime.lease_drop (runtime s);
      Done (set_strong t 0, mkShared r (live_count s) (natives s - 2))
  | n => Done (set_strong t n, s)
  end.

(** [PosixThread::try_join]: blocks until the thread has exited.  Joining a thread
    that is not joinable is undefined. *)
Definition try_join (rc : Z) (t : task) : option (Run (Result () * task)) :=
  match thread t with
  | Some true =>
      if decide (tpc t = TExited) then
        Some (_ ← rassert (bool_decide (native t = Joinable)) "pthread_join of a thread that is not joinable";
              if rc =? 0 then Done (Ok (), set_native (set_thread t (Some false)) JoinedThread)
              else Done (Err (Error.Internal "pthread_join failed"), t))
      else None
  | _ => Some (Done (Err (Error.Internal "already joined"), t))
  end.

(** [PosixThread::spawn]: the stack size asked for. *)
Definition thread_spawn (stack_min stack_size rc_init rc_stack rc_create : Z) : Result Z :=
  let stack := if stack_size <? stack_min then stack_min else stack_size in
  if negb (rc_init =? 0) then Err (Error.Internal "pthread_attr_init failed")
  else if negb (rc_stack =? 0) then Err Error.InvalidParameter
  else if negb (rc_create =? 0) then Err Error.OutOfMemory
  else Ok stack.

(** [live_token.take()], [Drop for LiveTaskToken] *)
Definition drop_token (t : task) (s : shared) : task * shared :=
  if live_token t
  then (set_token t false, mkShared (runtime s) (wrapping_sub usize_bits (live_count s) 1) (natives s))
  else (t, s).

(** [key] is what [get_or_init] returns and [rc] what [pthread_setspecific]
    returns to task number [k]. *)
Definition trampoline_step (key : Result ()) (rc : Z) (k : nat) (t : task) (s : shared)
    : option (Run (task * shared)) :=
  let continue t p := Done (goto t p, s) in
  match tpc t with
  | TNone | TExited => None
  | TEnter =>
      Some (_ ← access t;
            match key with
            | Ok _ => if rc =? 0 then continue (set_tls (set_strong t (S (strong t))) (Some k)) (TPublish (Ok ()))
                      else continue t (TPublish (Err Error.OutOfMemory))
            | Err e => continue t (TPublish (Err e))
            end)
  | TPublish r =>
      Some (_ ← access t;
            match r with
            | Ok _ => continue (broadcast (set_startup t Ready)) TTakeEntry
            | Err e => continue (broadcast (set_startup t (Failed e))) TFailed
            end)
  | TTakeEntry => Some (continue (set_entry t false) (if entry t then TEntry else TDropToken))
  | TEntry => Some (continue t TDropToken)
  | TDropToken => Some (let '(t, s) := drop_token t s in Done (goto t TFinish, s))
  | TFinish => Some (_ ← access t; continue (set_join_state t (Finished ExitCode.SUCCESS)) TBroadcast)
  | TBroadcast => Some (_ ← access t; continue (broadcast t) TRestoreTls)
  | TRestoreTls => Some (continue (set_tls t None) TDropContext)
  | TDropContext => Some ('(t, s) ← arc_drop t s; Done (goto t TDropStart, s))
  | TFailed => Some (let '(t, s) := drop_token t s in Done (goto t TDropStart, s))
  | TDropStart => Some ('(t, s) ← arc_drop t s; Done (goto t TExit, s))
  | TExit => Some (continue t TExited)
  end.

(** [rcs]: what the attribute calls and [pthread_create] return; [rc]: what
    [pthread_join] returns.  The last component is what [spawn] returns. *)
Definition spawner_step (stack_min : Z) (rcs : Z * Z * Z) (rc : Z) (t : task) (s : shared)
    : option (Run (task * shared * option (Result ()))) :=
  let continue t p := Done (set_spc t p, s, None) in
  match spc t with
  | SpThread stack_size =>
      let '(rc_init, rc_stack, rc_create) := rcs in
      Some (match thread_spawn stack_min stack_size rc_init rc_stack rc_create with
            | Ok _ => continue (goto (set_native t Joinable) TEnter) SpStore
            | Err e => continue t (SpDropStart e)
            end)
  | SpDropStart e => Some ('(t, s) ← arc_drop t s; Done (set_spc t (SpDropToken e), s, None))
  | SpDropToken e => Some (let '(t, s) := drop_token t s in Done (set_spc t (SpDropInner e), s, None))
  | SpStore => Some (_ ← access t; continue (set_thread t (Some true)) SpWait)
  | SpWait =>
      Some (_ ← access t;
            match startup t with
            | Pending => continue t SpBlocked
            | Ready => Done (set_spc (set_handles t (S (handles t))) SpReturned, s, Some (Ok ()))
            | Failed e => continue t (SpJoinChild e)
            end)
  | SpBlocked => Some (continue t SpWait)
  | SpJoinChild e =>
      match thread t with
      | None => Some (Panic "failed task startup must retain its pthread handle")
      | Some _ =>
          m ← try_join rc t;
          Some ('(r, t) ← m;
                _ ← rassert (is_ok r) "failed task startup pthread must be joinable";
                continue (set_thread t None) (SpDropInner e))
      end
  | SpDropInner e => Some ('(t, s) ← arc_drop t s; Done (set_spc t SpReturned, s, Some (Err e)))
  | SpReturned => None
  end.

(** The exit code [do_pthread_join] finds. *)
Definition join_code (j : JoinState) : ExitCode.t :=
  match j with Finished c | Joining c | Joined c => c | Running => ExitCode.SUCCESS end.

(** [dl]: whether there is a deadline; [timed_out]: whether the wait ends by its
    deadline; [rc]: what [pthread_join] returns. *)
Definition join_step (dl : Result ()) (timed_out : bool) (rc : Z) (j : nat) (x : join_call) (t : task)
    : option (Run (task * option (Result ExitCode.t))) :=
  let continue t p := Done (set_joins t (<[j:=set_jpc x p]> (joins t)), None) in
  let return_ t r := Done (set_joins t (delete j (joins t)), Some r) in
  match jpc x with
  | JNoWait =>
      Some (_ ← access t;
            match join_state t with
            | Joined c | Finished c => return_ t (Ok c)
            | _ => return_ t (Err Error.Timeout)
            end)
  | JDeadline => Some (match dl with Ok _ => continue t JLoop | Err e => return_ t (Err e) end)
  | JLoop =>
      Some (_ ← access t;
            match join_state t with
            | Joined c => return_ t (Ok c)
            | Finished c => continue (set_join_state t (Joining c)) JPthread
            | Joining _ | Running => continue t JBlocked
            end)
  | JBlocked =>
      if timed_out then
        match timeout x with Timeout.After _ => Some (return_ t (Err Error.Timeout)) | _ => None end
      else Some (continue t JLoop)
  | JPthread =>
      match thread t with
      | None => Some (_ ← access t; continue t (JPublish (Ok ())))
      | Some _ => m ← try_join rc t; Some (_ ← access t; '(r, t) ← m; continue t (JPublish r))
      end
  | JPublish (Ok _) =>
      Some (_ ← access t;
            t ← drop_thread t;
            let code := join_code (join_state t) in
            return_ (broadcast (set_join_state t (Joined code))) (Ok code))
  | JPublish (Err e) =>
      Some (_ ← access t;
            return_ (broadcast (set_join_state t (Finished (join_code (join_state t))))) (Err e))
  end.

(** [join_inner] after the self-join guard. *)
Definition join_begin (tmo : Timeout.t) : join_call :=
  mkJoin tmo match tmo with
             | Timeout.NoWait => JNoWait
             | Timeout.After _ => JDeadline
             | Timeout.Forever => JLoop
             end.

(** *** The builder and the first part of [spawn] *)

Record PosixTaskBuilder : Type := mkBuilder { name : list u8; stack_size : Z; prio : Z }.
Definition builder_new : PosixTaskBuilder := mkBuilder [] 4096 1.
Definition builder_name (b : PosixTaskBuilder) (n : list u8) : PosixTaskBuilder := mkBuilder n (stack_size b) (prio b).
Definition builder_stack_size (b : PosixTaskBuilder) (n : Z) : PosixTaskBuilder := mkBuilder (name b) n (prio b).
Definition builder_priority (b : PosixTaskBuilder) (p : Z) : PosixTaskBuilder := mkBuilder (name b) (stack_size b) p.

(** [allocate_task_handle] reads as that of the FreeRTOS backend. *)
Definition allocate_task_handle : Z → Result TaskHandle.t * Z := TaskConfig.allocate_task_handle.

Inductive spawn_pc : Type :=
| SpTls (b : PosixTaskBuilder)
| SpMutex (b : PosixTaskBuilder)
| SpCondvar (b : PosixTaskBuilder)
| SpHandle (b : PosixTaskBuilder)
| SpInner (b : PosixTaskBuilder) (h : TaskHandle.t)
| SpFail (e : Error.t) (made : nat).    (** an error with [made] native objects to drop *)

(** A call of [get_or_init] as one step ([TlsSlot] has its accesses). *)
Definition get_or_init (ready : bool) (created : Result ()) : Result () * bool :=
  if ready then (Ok (), true) else (created, is_ok created).

(** [Arc::new], [LiveTaskToken::register] *)
Definition new_task (b : PosixTaskBuilder) (h : TaskHandle.t) : task :=
  mkTask h (prio b) None Running Pending 2 NoThread TNone true true None (SpThread (stack_size b)) 0 [].

Record config : Type := mkConfig {
  sh : shared;
  tls_ready : bool;
  next_handle : Z;
  spawns : list spawn_pc;
  tasks : list task;
  others : nat;
  results : list (nat * Timeout.t * Result ExitCode.t);
  spawned : list (Result nat);
}.

Definition set_sh (c : config) s := mkConfig s (tls_ready c) (next_handle c) (spawns c) (tasks c) (others c) (results c) (spawned c).
Definition set_spawns (c : config) l := mkConfig (sh c) (tls_ready c) (next_handle c) l (tasks c) (others c) (results c) (spawned c).
Definition set_task (c : config) k t := mkConfig (sh c) (tls_ready c) (next_handle c) (spawns c) (<[k:=t]> (tasks c)) (others c) (results c) (spawned c).
Definition set_others (c : config) n := mkConfig (sh c) (tls_ready c) (next_handle c) (spawns c) (tasks c) n (results c) (spawned c).
Definition add_result (c : config) r := mkConfig (sh c) (tls_ready c) (next_handle c) (spawns c) (tasks c) (others c) (results c ++ [r]) (spawned c).
Definition add_spawned (c : config) r := mkConfig (sh c) (tls_ready c) (next_handle c) (spawns c) (tasks c) (others c) (results c) (spawned c ++ [r]).
Definition set_runtime (s : shared) r := mkShared r (live_count s) (natives s).
Definition set_natives (s : shared) n := mkShared (runtime s) (live_count s) n.

(** [spawn] up to the lease. *)
Definition spawn_start (c : config) (b : PosixTaskBuilder) : Run config :=
  match Validation.validate_task_config (name b) (stack_size b) with
  | Err e => Done (add_spawned c (Err e))
  | Ok _ =>
      '(res, r) ← PosixRuntime.acquire_object (runtime (sh c));
      match res with
      | Err e => Done (add_spawned c (Err e))
      | Ok _ => Done (set_spawns (set_sh c (set_runtime (sh c) r)) (spawns c ++ [SpTls b]))
      end
  end.

(** The next step of [spawn] number [i]; [made] is what the C library answers. *)
Definition spawn_step (c : config) (i : nat) (p : spawn_pc) (made : Result ()) : Run config :=
  let continue c p := set_spawns c (<[i:=p]> (spawns c)) in
  let native n := set_sh c (set_natives (sh c) n) in
  match p with
  | SpTls b =>
      let '(r, ready) := get_or_init (tls_ready c) made in
      let c := mkConfig (sh c) ready (next_handle c) (spawns c) (tasks c) (others c) (results c) (spawned c) in
      Done (continue c match r with Ok _ => SpMutex b | Err e => SpFail e 0 end)
  | SpMutex b =>
      Done match made with
           | Ok _ => continue (native (S (natives (sh c)))) (SpCondvar b)
           | Err e => continue c (SpFail e 0)
           end
  | SpCondvar b =>
      Done match made with
           | Ok _ => continue (native (S (natives (sh c)))) (SpHandle b)
           | Err e => continue c (SpFail e 1)
           end
  | SpHandle b =>
      let '(r, next) := allocate_task_handle (next_handle c) in
      let c := mkConfig (sh c) (tls_ready c) next (spawns c) (tasks c) (others c) (results c) (spawned c) in
      Done (continue c match r with Ok h => SpInner b h | Err e => SpFail e 2 end)
  | SpInner b h =>
      let s := mkShared (runtime (sh c)) (wrapping_add usize_bits (live_count (sh c)) 1) (natives (sh c)) in
      Done (mkConfig s (tls_ready c) (next_handle c) (delete i (spawns c)) (tasks c ++ [new_task b h])
              (others c) (results c) (spawned c))
  | SpFail e n =>
      r ← PosixRuntime.lease_drop (runtime (sh c));
      let s := mkShared r (live_count (sh c)) (natives (sh c) - n) in
      Done (add_spawned (set_spawns (set_sh c s) (delete i (spawns c))) (Err e))
  end.

(** [current()] in task [caller], or in a thread that is no task. *)
Definition current (c : config) (caller : option nat) : Run (option TaskHandle.t) :=
  if negb (tls_ready c) then Done None
  else
    match (k ← caller; t ← tasks c !! k; tls t) with
    | None => Done None
    | Some p =>
        t ← expect (tasks c !! p) "dangling TLS pointer";
        _ ← access t;
        Done (Some (handle t))
    end.

(** [join] up to the self-join guard. *)
Definition join_start (c : config) (caller : option nat) (k : nat) (t : task) (tmo : Timeout.t) : Run config :=
  o ← current c caller;
  if decide (o = Some (handle t)) then Done (add_result c (k, tmo, Err Error.Busy))
  else Done (set_task c k (set_joins t (joins t ++ [join_begin tmo]))).

(** [count()] *)
Definition count (c : config) : Z := live_count (sh c).

End PosixTask.
End PosixTask.
