(* ===== verification/PosixTaskMachine.v ===== *)
(** * POSIX tasks together

    Any number of threads spawn, join, clone and drop tasks while the tasks run and
    the runtime is started and stopped.  What holds of one task ([TaskState]) does
    not depend on the others; [TaskMachine] puts them together with the counters
    they share. *)

From S2P Require Import Prelude Api Buffers Runtime FreeRtosTask PosixTask.

(** ** One task *)

Module PosixTaskState.
Import PosixTask.
Section PosixTaskState.
Context `{Arch}.

(** Who holds a reference. *)
Definition spawner_ref (p : spawner_pc) : nat := match p with SpReturned => 0 | _ => 1 end.
Definition start_ref (t : task) : nat :=
  match tpc t with
  | TNone => match spc t with SpThread _ | SpDropStart _ => 1 | _ => 0 end
  | TExit | TExited => 0
  | _ => 1
  end.
Definition context_ref (p : trampoline_pc) : nat :=
  match p with
  | TPublish (Ok _) | TTakeEntry | TEntry | TDropToken | TFinish | TBroadcast | TRestoreTls | TDropContext => 1
  | _ => 0
  end.

(** The entry has not been taken. *)
Definition fresh (p : trampoline_pc) : bool :=
  match p with TNone | TEnter | TPublish _ | TTakeEntry => true | _ => false end.

(** The thread's TLS points to its task. *)
Definition inside (p : trampoline_pc) : bool :=
  match p with
  | TPublish (Ok _) | TTakeEntry | TEntry | TDropToken | TFinish | TBroadcast | TRestoreTls => true
  | _ => false
  end.
(** The task counts as live: from its creation to the end of its entry. *)
Definition counted (t : task) : bool :=
  match tpc t with
  | TNone => match spc t with SpThread _ | SpDropStart _ | SpDropToken _ => true | _ => false end
  | TEnter | TPublish _ | TTakeEntry | TEntry | TDropToken | TFailed => true
  | _ => false
  end.
Definition alive (t : task) : bool := negb (Nat.eqb (strong t) 0).

Definition startup_ok (t : task) : Prop :=
  match tpc t with
  | TNone | TEnter | TPublish _ => startup t = Pending
  | TFailed => ∃ e, startup t = Failed e
  | TDropStart | TExit | TExited => startup t ≠ Pending
  | _ => startup t = Ready
  end.

(** The entry is over and its end is published. *)
Definition over (t : task) : bool :=
  match startup t, tpc t with
  | Ready, (TBroadcast | TRestoreTls | TDropContext | TDropStart | TExit | TExited) => true
  | _, _ => false
  end.
Definition running (j : JoinState) : bool := match j with Running => true | _ => false end.

(** The stored handle owns a thread to join or detach. *)
Definition owns (t : task) : Prop := thread t = Some true ∧ native t = Joinable.

(** With [strict] unset, whoever waits may have something to see: a broadcast is due. *)
Definition spawner_ok (strict : bool) (t : task) : Prop :=
  match spc t with
  | SpThread _ | SpDropStart _ | SpDropToken _ => tpc t = TNone ∧ thread t = None ∧ handles t = 0%nat
  | SpStore => thread t = None ∧ native t = Joinable ∧ handles t = 0%nat
  | SpWait => owns t ∧ handles t = 0%nat
  | SpBlocked => owns t ∧ handles t = 0%nat ∧ (strict = true → startup t = Pending)
  | SpJoinChild e => owns t ∧ handles t = 0%nat ∧ startup t = Failed e
  | SpDropInner _ => thread t = None ∧ native t ≠ Joinable ∧ handles t = 0%nat ∧ (tpc t = TNone ∨ tpc t = TExited)
  | SpReturned =>
      match strong t with
      | O => thread t = None ∧ native t ≠ Joinable
      | S _ => startup t = Ready ∧
          match join_state t with
          | Running | Finished _ => owns t
          | Joining _ => owns t ∨ thread t = Some false ∧ native t = JoinedThread
          | Joined _ => thread t = None ∧ native t = JoinedThread
          end
      end
  end.

(** The joiner that has claimed the thread. *)
Definition reaper (x : join_call) : bool := match jpc x with JPthread | JPublish _ => true | _ => false end.
Definition joining (j : JoinState) : bool := match j with Joining _ => true | _ => false end.
Definition joined (j : JoinState) : bool := match j with Joined _ => true | _ => false end.

Definition join_ok (strict : bool) (t : task) (x : join_call) : Prop :=
  match jpc x with
  | JNoWait => timeout x = Timeout.NoWait
  | JDeadline => ∃ d, timeout x = Timeout.After d
  | JLoop => timeout x ≠ Timeout.NoWait
  | JBlocked => timeout x ≠ Timeout.NoWait ∧
      (strict = true → running (join_state t) = true ∨ joining (join_state t) = true ∨ tpc t = TBroadcast)
  | JPthread => timeout x ≠ Timeout.NoWait ∧ owns t
  | JPublish (Err e) => timeout x ≠ Timeout.NoWait ∧ owns t ∧ e = Error.Internal "pthread_join failed"
  | JPublish (Ok _) => timeout x ≠ Timeout.NoWait ∧ thread t = Some false ∧ native t = JoinedThread
  end.

Record task_inv (strict : bool) (k : nat) (t : task) : Prop := {
  to_refs : strong t = (handles t + spawner_ref (spc t) + start_ref t + context_ref (tpc t))%nat;
  to_tls : tls t = if inside (tpc t) then Some k else None;
  to_token : live_token t = counted t;
  to_entry : fresh (tpc t) = true → entry t = true;
  to_startup : startup_ok t;
  to_running : running (join_state t) = negb (over t);
  to_code : join_code (join_state t) = ExitCode.SUCCESS;
  to_native : native t = NoThread ↔ tpc t = TNone;
  to_exited : native t = JoinedThread → tpc t = TExited;
  to_spawner : spawner_ok strict t;
  to_reaper : countb reaper (joins t) = Nat.b2n (joining (join_state t));
  to_joined : joined (join_state t) = true → native t = JoinedThread;
  to_idle : handles t = 0%nat → joins t = [];
  to_joins : ∀ j x, joins t !! j = Some x → join_ok strict t x;
}.
Abbreviation task_ok := (task_inv true).

Lemma ptask_new_task_ok k b h : task_ok k (new_task b h).
Proof. split; try done. Qed.

(** The counters with everyone else's share. *)
Definition shared_ok (nl nt nn : nat) (s : shared) : Prop :=
  PosixRuntime.ok nl (runtime s) ∧ live_count s = Z.of_nat nt ∧ natives s = nn ∧ Z.of_nat nt < 2 ^ usize_bits.
Definition shares (nl nt nn : nat) (t : task) (s : shared) : Prop :=
  shared_ok (nl + Nat.b2n (alive t)) (nt + Nat.b2n (counted t)) (nn + 2 * Nat.b2n (alive t)) s.

(** What every step keeps. *)
Definition kept (t t' : task) : Prop :=
  handle t' = handle t ∧ (startup t = Ready → startup t' = Ready) ∧ (over t = true → over t' = true) ∧
  (native t = JoinedThread → native t' = JoinedThread).

Lemma access_ok t : alive t = true → access t = Done ().
Proof. unfold access, alive. by intros ->. Qed.

(** *** References *)

Definition arc_dropped (t : task) : task :=
  match pred (strong t) with
  | O => set_strong (if decide (thread t = Some true) then set_native (set_thread t None) Detached
                     else set_thread t None) 0
  | n => set_strong t n
  end.

Lemma arc_drop_spec nl nt nn t s : strong t ≠ 0%nat → (strong t = 1%nat → thread t = Some true → native t = Joinable) →
  shared_ok (nl + 1) nt (nn + 2) s →
  ∃ s', arc_drop t s = Done (arc_dropped t, s') ∧
    let b := Nat.b2n (negb (Nat.eqb (strong t) 1)) in shared_ok (nl + b) nt (nn + 2 * b) s'.
Proof.
  intros Hs Hd (Hr & Hl & Hn & Hb). unfold arc_drop, arc_dropped. rewrite access_ok by (unfold alive; by destruct (strong t)).
  simpl. destruct (strong t) as [|[|n]]; [done|..]; simpl.
  - replace (nl + 1)%nat with (S nl) in Hr by lia. destruct (PosixRuntime.prt_lease_drop _ _ Hr) as (r & E & Hr').
    unfold drop_thread. destruct (thread t) as [[]|] eqn:Et; simpl.
    + rewrite bool_decide_true by auto. simpl. rewrite E. simpl. eexists. split; [done|]. unfold shared_ok. simpl.
      split_and!; try done; [by rewrite Nat.add_0_r|lia].
    + rewrite E. simpl. eexists. split; [done|]. unfold shared_ok. simpl. split_and!; try done; [by rewrite Nat.add_0_r|lia].
    + rewrite E. simpl. eexists. split; [done|]. unfold shared_ok. simpl. split_and!; try done; [by rewrite Nat.add_0_r|lia].
  - eexists. split; [done|]. unfold shared_ok. simpl. by split_and!.
Qed.

Lemma drop_token_spec nl nt nn t s : live_token t = true → shared_ok nl (nt + 1) nn s →
  ∃ s', drop_token t s = (set_token t false, s') ∧ shared_ok nl nt nn s'.
Proof.
  intros Ht (Hr & Hl & Hn & Hb). unfold drop_token. rewrite Ht. eexists. split; [done|]. unfold shared_ok, wrapping_sub. simpl.
  split_and!; try done; [|lia]. rewrite Hl, Z.mod_small by lia. lia.
Qed.

(** *** The trampoline *)

(** A step of the thread within its own part of the task. *)
Record moved (t t' : task) : Prop := {
  mv_handle : handle t' = handle t;
  mv_thread : thread t' = thread t;
  mv_startup : startup t' = startup t;
  mv_native : native t' = native t;
  mv_spc : spc t' = spc t;
  mv_handles : handles t' = handles t;
  mv_joins : joins t' = joins t;
  mv_from : tpc t ≠ TNone ∧ tpc t ≠ TExited ∧ tpc t ≠ TBroadcast;
  mv_to : tpc t' ≠ TNone;
  mv_strong : (strong t' + context_ref (tpc t) + start_ref t = strong t + context_ref (tpc t') + start_ref t')%nat;
  mv_alive : alive t' = alive t;
  mv_token : live_token t' = counted t';
  mv_entry : fresh (tpc t') = true → entry t' = true;
  mv_over : over t = true → over t' = true;
  mv_join : join_state t' = join_state t ∧ over t' = over t ∨
            join_state t = Running ∧ join_state t' = Finished ExitCode.SUCCESS ∧ tpc t' = TBroadcast ∧ startup t' = Ready;
}.

Lemma moved_ok k t t' : task_ok k t → moved t t' → tls t' = (if inside (tpc t') then Some k else None) → startup_ok t' →
  task_ok k t' ∧ kept t t'.
Proof.
  intros T [] Htls Hst. destruct T. destruct mv_from0 as (Hn & Hx & Hb).
  split; [|unfold kept; split_and!; congruence || auto].
  assert (native t ≠ NoThread) by tauto. assert (native t ≠ JoinedThread) as Hj by auto.
  split; rewrite ?mv_native0, ?mv_handles0, ?mv_joins0; try done; try tauto.
  - rewrite mv_spc0. lia.
  - destruct mv_join0 as [[-> ->]|(Ej & -> & Et & Er)]; [done|]. unfold over. by rewrite Et, Er.
  - by destruct mv_join0 as [[-> _]|(_ & -> & _)].
  - unfold spawner_ok, owns in *. rewrite mv_spc0, ?mv_thread0, ?mv_native0, ?mv_handles0, ?mv_startup0 in *.
    destruct (spc t); try done; [tauto..|naive_solver|].
    unfold alive in *. destruct (strong t), (strong t'); try done.
    destruct mv_join0 as [[-> _]|(Ej & -> & _)]; [done|]. by rewrite Ej in to_spawner0.
  - destruct mv_join0 as [[-> _]|(Ej & -> & _)]; [done|]. by rewrite Ej in to_reaper0.
  - destruct mv_join0 as [[-> _]|(Ej & -> & _)]; done.
  - intros j x E. specialize (to_joins0 j x E). unfold join_ok, owns in *. rewrite ?mv_thread0, ?mv_native0.
    destruct (jpc x) as [| | | | |[]]; try done. destruct to_joins0 as [? Hc]. split; [done|].
    destruct mv_join0 as [[-> _]|(Ej & -> & ? & _)]; [|auto]. naive_solver.
Qed.

Ltac moved_tac T :=
  destruct T; unfold start_ref, counted, over, alive, startup_ok in *; simpl in *;
  repeat match goal with E : tpc _ = _ |- _ => rewrite E in *; clear E end; simpl in *; try done; try lia; auto.

Lemma ptask_trampoline_quiet key rc k t s m : task_ok k t →
  match tpc t with TEnter | TTakeEntry | TEntry | TFinish | TRestoreTls | TExit => True | _ => False end →
  trampoline_step key rc k t s = Some m →
  ∃ t', m = Done (t', s) ∧ task_ok k t' ∧ alive t' = alive t ∧ counted t' = counted t ∧ kept t t'.
Proof.
  intros T Hp E. unfold trampoline_step in E.
  assert (alive t = true ∨ tpc t = TExit) as Ha.
  { pose proof (to_refs _ _ _ T) as Hr. unfold alive, start_ref in *. destruct (tpc t); try done; auto;
      left; destruct (strong t); try done; simpl in *; lia. }
  assert (∀ t', moved t t' → counted t' = counted t → tls t' = (if inside (tpc t') then Some k else None) → startup_ok t' →
    ∃ t'', Done (t', s) = Done (t'', s) ∧ task_ok k t'' ∧ alive t'' = alive t ∧ counted t'' = counted t ∧ kept t t'') as Hgo.
  { intros t' M Hct Ht Hs. destruct (moved_ok k t t' T M Ht Hs). exists t'. destruct M. by split_and!. }
  destruct (tpc t) eqn:Ep; try done.
  - destruct Ha as [Ha|]; [|done]. rewrite access_ok in E by done. simpl in E.
    destruct key as [[]|e]; [destruct (rc =? 0)|]; simplify_eq; apply Hgo; try done; try (by moved_tac T);
      split; try done; try (by rewrite Ep); by moved_tac T.
  - rewrite (to_entry _ _ _ T ltac:(by rewrite Ep)) in E. simplify_eq. apply Hgo; [|by moved_tac T..].
    split; try done; try (by rewrite Ep); by moved_tac T.
  - simplify_eq. apply Hgo; [|by moved_tac T..]. split; try done; try (by rewrite Ep); by moved_tac T.
  - destruct Ha as [Ha|]; [|done]. rewrite access_ok in E by done. simplify_eq/=. apply Hgo; [|by moved_tac T..].
    assert (join_state t = Running ∧ startup t = Ready) as [Hj Hs].
    { pose proof (to_running _ _ _ T) as Hj. pose proof (to_startup _ _ _ T) as Hs. unfold over, startup_ok in *.
      rewrite Ep in *. rewrite Hs in *. by destruct (join_state t). }
    split; try done; try (by rewrite Ep); try (by unfold over; simpl; rewrite Hs); by moved_tac T.
  - simplify_eq. apply Hgo; [|by moved_tac T..]. split; try done; try (by rewrite Ep); by moved_tac T.
  - simplify_eq. apply Hgo; [|by moved_tac T..]. split; try done; try (by rewrite Ep); by moved_tac T.
Qed.

(** *** Broadcasts *)

Lemma reaper_wake l : countb reaper (wake <$> l) = countb reaper l.
Proof. induction l as [|x l IH]; [done|]. csimpl. rewrite IH. unfold reaper, wake. by destruct (jpc x) eqn:E; simpl; rewrite ?E. Qed.

Lemma broadcast_ok b k t : task_inv b k t → task_ok k (broadcast t).
Proof.
  intros []. unfold broadcast. split; simpl; try done.
  - rewrite to_refs0. unfold start_ref. simpl. destruct (tpc t), (spc t); simpl; lia.
  - rewrite to_token0. unfold counted. simpl. by destruct (tpc t), (spc t).
  - unfold spawner_ok, owns in *. simpl in *. destruct (spc t); try done. tauto.
  - by rewrite reaper_wake.
  - intros Hz. by rewrite to_idle0.
  - intros j x. rewrite list_lookup_fmap. intros (y & E & ->)%fmap_Some. specialize (to_joins0 j y E).
    unfold join_ok, wake, owns in *. simpl in *. destruct (jpc y) as [| | | | |[]] eqn:Ej; simpl; rewrite ?Ej; try done.
    tauto.
Qed.

(** Before the startup is published there is no handle. *)
Lemma pending_state k t : task_ok k t → alive t = true → startup t = Pending →
  spc t ≠ SpReturned ∧ handles t = 0%nat ∧ joins t = [] ∧ join_state t = Running.
Proof.
  intros T Ha Hs. pose proof (to_spawner _ _ _ T) as P. pose proof (to_idle _ _ _ T) as Hi.
  pose proof (to_running _ _ _ T) as Hr. unfold spawner_ok, over, alive in *. rewrite Hs in *.
  assert (join_state t = Running) by (by destruct (join_state t)).
  destruct (spc t); try (assert (handles t = 0%nat) by tauto; by auto).
  destruct (strong t); [done|]. by destruct P.
Qed.

Lemma publish_ok k t r : task_ok k t → tpc t = TPublish r → alive t = true →
  let t' := match r with
            | Ok _ => goto (broadcast (set_startup t Ready)) TTakeEntry
            | Err e => goto (broadcast (set_startup t (Failed e))) TFailed
            end in
  task_ok k t' ∧ kept t t'.
Proof.
  intros T Ep Ha t'. pose proof (to_entry _ _ _ T ltac:(by rewrite Ep)) as He. pose proof (to_startup _ _ _ T) as Hs. unfold startup_ok in Hs. rewrite Ep in Hs.
  destruct (pending_state k t T Ha Hs) as (Hsp & Hh & Hj & Hjs).
  assert (over t = false) as Ho by (unfold over; by rewrite Hs).
  split.
  2:{ unfold kept. rewrite Ho, Hs. destruct T. rewrite Ep in *. destruct r; simpl; split_and!; try done; intros; by auto. }
  assert (task_ok k (broadcast (match r with Ok _ => goto (set_startup t Ready) TTakeEntry
                                        | Err e => goto (set_startup t (Failed e)) TFailed end))) as T'.
  { apply (broadcast_ok false). destruct T. rewrite Ep in *. unfold spawner_ok, owns in *.
    unfold start_ref, counted, over in *. rewrite Ep, Hs in *.
    assert (native t ≠ NoThread) by (by intros ?%to_native0). assert (native t ≠ JoinedThread) by (by intros ?%to_exited0).
    destruct r; split; unfold start_ref, counted, over, spawner_ok, startup_ok, owns; simpl in *; rewrite ?Hj, ?Hjs in *;
      try done; try lia; eauto;
      destruct (spc t); try done; destruct_and?; try done; destruct_or?; done. }
  subst t'. by destruct r.
Qed.

Lemma finish_broadcast_ok k t : task_ok k t → tpc t = TBroadcast →
  task_ok k (goto (broadcast t) TRestoreTls) ∧ kept t (goto (broadcast t) TRestoreTls).
Proof.
  intros T Ep. split.
  - change (task_ok k (broadcast (goto t TRestoreTls))). apply (broadcast_ok false).
    destruct T. unfold start_ref, counted, over, spawner_ok, startup_ok, owns in *. rewrite Ep in *.
    assert (native t ≠ NoThread) by (by intros ?%to_native0). assert (native t ≠ JoinedThread) by (by intros ?%to_exited0).
    split; unfold start_ref, counted, over, spawner_ok, startup_ok, owns; simpl in *; try done; try lia.
    + destruct (spc t); try done; destruct_and?; try done; destruct_or?; done.
    + intros j x E. specialize (to_joins0 j x E). unfold join_ok, owns in *. simpl in *.
      destruct (jpc x) as [| | | | |[]]; try done. destruct to_joins0. split; done.
  - unfold kept, over. rewrite Ep. simpl. by destruct (startup t).
Qed.

Lemma shares_eq nl nt nn t t' s : alive t' = alive t → counted t' = counted t → shares nl nt nn t s → shares nl nt nn t' s.
Proof. unfold shares. by intros -> ->. Qed.

(** [live_token.take()] in the thread. *)
Lemma trampoline_token nl nt nn k t s : task_ok k t → shares nl nt nn t s → tpc t = TDropToken ∨ tpc t = TFailed →
  ∃ t' s', (let '(t, s) := drop_token t s in
            (goto t (if decide (tpc t = TFailed) then TDropStart else TFinish), s)) = (t', s') ∧
    task_ok k t' ∧ shares nl nt nn t' s' ∧ kept t t'.
Proof.
  intros T S Hp. assert (counted t = true) as Hc by (unfold counted; by destruct Hp as [-> | ->]).
  unfold shares in S. rewrite Hc in S. destruct (drop_token_spec _ _ _ t s ltac:(by rewrite (to_token _ _ _ T)) S) as (s' & -> & S').
  simpl. eexists _, s'. split; [done|].
  set (p := if decide (tpc t = TFailed) then TDropStart else TFinish).
  assert (moved t (goto (set_token t false) p)) as M.
  { destruct T. unfold p. destruct Hp as [Ep|Ep]; rewrite Ep; simpl;
      (split; try done; unfold start_ref, counted, over, alive, startup_ok in *; simpl; rewrite ?Ep in *; simpl in *; try done; try lia).
    - rewrite to_startup0. auto.
    - destruct to_startup0 as [e ->]. done.
    - destruct to_startup0 as [e ->]. auto. }
  destruct (moved_ok k t _ T M) as [T' K].
  - simpl. rewrite (to_tls _ _ _ T). unfold p. by destruct Hp as [-> | ->].
  - pose proof (to_startup _ _ _ T) as Hs. unfold startup_ok in *. unfold p. destruct Hp as [Ep|Ep]; rewrite Ep in *; simpl; [done|].
    by destruct Hs as [e ->].
  - split_and!; try done. unfold shares.
    assert (counted (goto (set_token t false) p) = false) as -> by (unfold p; by destruct Hp as [-> | ->]).
    simpl. rewrite Nat.add_0_r. exact S'.
Qed.

(** *** A reference is dropped *)

Lemma arc_dropped_more t : (2 ≤ strong t)%nat → arc_dropped t = set_strong t (pred (strong t)).
Proof. intros Hs. unfold arc_dropped. by destruct (strong t) as [|[|n]]; [lia|lia|]. Qed.

Lemma shares_dropped nl nt nn t t' s :
  alive t' = negb (Nat.eqb (strong t) 1) → counted t' = counted t →
  (let b := Nat.b2n (negb (Nat.eqb (strong t) 1)) in shared_ok (nl + b) (nt + Nat.b2n (counted t)) (nn + 2 * b) s) →
  shares nl nt nn t' s.
Proof. unfold shares. by intros -> ->. Qed.

(** The last reference goes with the trampoline: nobody has claimed the thread. *)
Lemma last_reference k t : task_ok k t → tpc t = TDropStart → strong t = 1%nat →
  handles t = 0%nat ∧ joins t = [] ∧ spc t = SpReturned ∧ owns t ∧ startup t = Ready ∧ joined (join_state t) = false ∧
  joining (join_state t) = false.
Proof.
  intros T Ep Es. destruct T. unfold start_ref in to_refs0. rewrite Ep in *. simpl in *. rewrite Es in *.
  assert (handles t = 0 ∧ spawner_ref (spc t) = 0)%nat as [Hh Hs] by lia. specialize (to_idle0 Hh).
  assert (spc t = SpReturned) as Esp by (by destruct (spc t)).
  unfold spawner_ok in to_spawner0. rewrite Esp, Es in to_spawner0. destruct to_spawner0 as [Hst Hj].
  rewrite to_idle0 in to_reaper0. simpl in to_reaper0.
  destruct (join_state t); simpl in *; try done. by specialize (to_exited0 (to_joined0 eq_refl)).
Qed.

Lemma trampoline_drop nl nt nn k t s : task_ok k t → shares nl nt nn t s → tpc t = TDropContext ∨ tpc t = TDropStart →
  ∃ s', arc_drop t s = Done (arc_dropped t, s') ∧
    let t' := goto (arc_dropped t) (if decide (tpc t = TDropContext) then TDropStart else TExit) in
    task_ok k t' ∧ shares nl nt nn t' s' ∧ kept t t'.
Proof.
  intros T S Hp. pose proof (to_refs _ _ _ T) as Hr.
  assert (strong t ≠ 0%nat) as Hz by (unfold start_ref in Hr; destruct Hp as [Ep|Ep]; rewrite Ep in Hr; lia).
  assert (alive t = true) as Ha by (unfold alive; by destruct (strong t)).
  unfold shares in S. rewrite Ha in S.
  destruct (arc_drop_spec nl (nt + Nat.b2n (counted t)) nn t s Hz) as (s' & -> & S').
  { intros E1 Ht. destruct Hp as [Ep|Ep]; [|by destruct (last_reference k t T Ep E1) as (_ & _ & _ & [_ ?] & _)].
    unfold start_ref in Hr. rewrite Ep in Hr. simpl in Hr. lia. }
  { exact S. }
  exists s'. split; [done|].
  set (p := if decide (tpc t = TDropContext) then TDropStart else TExit). cbn zeta.
  assert (counted (goto (arc_dropped t) p) = counted t) as Hc.
  { unfold counted, p. by destruct Hp as [-> | ->]. }
  destruct (decide (strong t = 1%nat)) as [E1|E1].
  - assert (tpc t = TDropStart) as Ep.
    { destruct Hp as [Ep|]; [|done]. unfold start_ref in Hr. rewrite Ep in Hr. simpl in Hr. lia. }
    destruct (last_reference k t T Ep E1) as (Hh & Hj & Hs & [Ht Hn] & Hst & Hjd & Hjg).
    assert (arc_dropped t = set_strong (set_native (set_thread t None) Detached) 0) as Ed.
    { unfold arc_dropped. rewrite E1. simpl. by rewrite decide_True. }
    split_and!.
    + rewrite Ed. unfold p. rewrite Ep. simpl. destruct T. rewrite Ep in *. unfold start_ref, counted, over, startup_ok in *.
      rewrite Ep, Hst in *.
      split; unfold start_ref, counted, over, startup_ok, spawner_ok; simpl in *; rewrite ?Hh, ?Hs, ?Hst, ?Hj in *; try done.
      by destruct (joined (join_state t)).
    + apply (shares_dropped _ _ _ t); try done. unfold alive. rewrite Ed. simpl. by rewrite E1.
    + rewrite Ed. unfold kept, over, p. rewrite Ep. simpl. rewrite Hst, Hn. done.
  - rewrite arc_dropped_more in * by lia.
    assert (moved t (goto (set_strong t (pred (strong t))) p)) as M.
    { unfold p. destruct T. destruct Hp as [Ep|Ep]; rewrite Ep; simpl;
        (split; try done; unfold start_ref, counted, over, alive, startup_ok in *; simpl; rewrite ?Ep in *; simpl in *; try done; try lia; auto);
        destruct (strong t) as [|[|?]]; simpl; done || lia. }
    destruct (moved_ok k t _ T M) as [T' K].
    + simpl. rewrite (to_tls _ _ _ T). unfold p. by destruct Hp as [-> | ->].
    + pose proof (to_startup _ _ _ T) as Hs. unfold startup_ok in *. unfold p.
      destruct Hp as [Ep|Ep]; rewrite Ep in *; simpl; by rewrite ?Hs.
    + split_and!; try done. apply (shares_dropped _ _ _ t); try done. unfold alive. simpl.
      by destruct (strong t) as [|[|?]].
Qed.

Lemma trampoline_spec nl nt nn key rc k t s m : task_ok k t → shares nl nt nn t s →
  trampoline_step key rc k t s = Some m →
  ∃ t' s', m = Done (t', s') ∧ task_ok k t' ∧ shares nl nt nn t' s' ∧ kept t t'.
Proof.
  intros T S E.
  assert (match tpc t with TNone | TExit | TExited => True | _ => alive t = true end) as Ha.
  { pose proof (to_refs _ _ _ T) as Hr. unfold alive, start_ref in *. destruct (tpc t); try done;
      destruct (strong t); done || (simpl in *; lia). }
  destruct (tpc t) eqn:Ep;
    try (destruct (ptask_trampoline_quiet key rc k t s m T ltac:(by rewrite Ep) E) as (t' & -> & T' & ? & ? & K);
         exists t', s; split_and!; try done; by eapply shares_eq);
    unfold trampoline_step in E; rewrite Ep in E; simplify_eq/=; rewrite ?access_ok by done; simpl.
  - pose proof (publish_ok k t r T Ep Ha) as [T' K].
    destruct r; (eexists _, _; split; [done|]; split_and!; [exact T'|eapply shares_eq; [..|exact S]|exact K]);
      try done; unfold counted; simpl; by rewrite Ep.
  - destruct (trampoline_token nl nt nn k t s T S ltac:(auto)) as (t' & s' & E' & R).
    destruct (drop_token t s) as [t1 s1] eqn:Et. assert (tpc t1 = tpc t) as E1.
    { unfold drop_token in Et. by destruct (live_token t); simplify_eq. }
    rewrite E1, Ep in E'. simpl in E'. simplify_eq. eauto.
  - destruct (finish_broadcast_ok k t T Ep) as [T' K]. eexists _, _. split; [done|]. split_and!; try done.
    eapply shares_eq; [..|exact S]; [done|]. unfold counted. simpl. by rewrite Ep.
  - destruct (trampoline_drop nl nt nn k t s T S ltac:(auto)) as (s' & -> & R). rewrite Ep in R. simpl. eauto.
  - destruct (trampoline_token nl nt nn k t s T S ltac:(auto)) as (t' & s' & E' & R).
    destruct (drop_token t s) as [t1 s1] eqn:Et. assert (tpc t1 = tpc t) as E1.
    { unfold drop_token in Et. by destruct (live_token t); simplify_eq. }
    rewrite E1, Ep in E'. simpl in E'. simplify_eq. eauto.
  - destruct (trampoline_drop nl nt nn k t s T S ltac:(auto)) as (s' & -> & R). rewrite Ep in R. simpl. eauto.
Qed.

(** *** The spawner *)

(** Until [spawn] returns the task has no handle, so no join either. *)
Lemma spawning_state k t : task_ok k t → spc t ≠ SpReturned →
  handles t = 0%nat ∧ joins t = [] ∧ alive t = true ∧ joining (join_state t) = false.
Proof.
  intros T Hs. pose proof (to_spawner _ _ _ T) as P. pose proof (to_idle _ _ _ T) as Hi. pose proof (to_refs _ _ _ T) as Hr.
  assert (handles t = 0%nat) as Hh by (unfold spawner_ok in P; destruct (spc t); done || tauto).
  specialize (Hi Hh). pose proof (to_reaper _ _ _ T) as Hc. rewrite Hi in Hc.
  split_and!; try done; [|by destruct (joining _)].
  unfold alive. destruct (spc t); simpl in Hr; try done; destruct (strong t); done || lia.
Qed.

(** A step of [spawn] that leaves the thread alone. *)
Record spawn_moved (t t' : task) : Prop := {
  sm_handle : handle t' = handle t;
  sm_join : join_state t' = join_state t;
  sm_startup : startup t' = startup t;
  sm_tpc : tpc t' = tpc t;
  sm_tls : tls t' = tls t;
  sm_entry : entry t' = entry t;
  sm_joins : joins t' = joins t;
  sm_token : live_token t' = counted t';
  sm_from : spc t ≠ SpReturned;
  sm_refs : strong t' = (handles t' + spawner_ref (spc t') + start_ref t' + context_ref (tpc t'))%nat;
  sm_native : native t' = native t ∨ native t' = JoinedThread ∧ tpc t = TExited;
  sm_spawner : spawner_ok true t';
}.

Lemma spawn_moved_ok k t t' : task_ok k t → spawn_moved t t' → task_ok k t' ∧ kept t t'.
Proof.
  intros T []. destruct (spawning_state k t T sm_from0) as (Hh & Hj & Ha & Hg). destruct T.
  assert (native t' = NoThread ↔ tpc t = TNone) as Hn.
  { destruct sm_native0 as [->|[-> ->]]; done. }
  split.
  - split; unfold over, startup_ok in *; rewrite ?sm_join0, ?sm_startup0, ?sm_tpc0, ?sm_tls0, ?sm_entry0, ?sm_joins0 in *; try done.
    + by destruct sm_native0 as [->|[_ ?]].
    + intros Hd. specialize (to_joined0 Hd). destruct sm_native0 as [->|[? _]]; done.
    + intros j x E. by rewrite Hj in E.
  - unfold kept, over. rewrite sm_startup0, sm_tpc0. split_and!; try done. destruct sm_native0 as [->|[? _]]; done.
Qed.

Ltac spawn_tac T Ep :=
  destruct T; unfold spawner_ok, start_ref, counted, owns in *; simpl in *; rewrite Ep in *; simpl in *;
  destruct_and?; repeat match goal with E : tpc _ = _ |- _ => rewrite E in * end; simpl in *; try done; try lia; auto.

(** What [spawn] says agrees with the task. *)
Definition answer_ok (t : task) (r : option (Result ())) : Prop :=
  match r with
  | None => handles t = 0%nat
  | Some (Ok _) => handles t = 1%nat ∧ startup t = Ready
  | Some (Err _) => strong t = 0%nat
  end.

Lemma spawner_quiet stack_min rcs rc k t s m : task_ok k t →
  match spc t with SpStore | SpWait | SpBlocked | SpJoinChild _ => True | _ => False end →
  (∀ e, spc t = SpJoinChild e → rc = 0) → spawner_step stack_min rcs rc t s = Some m →
  ∃ t' r, m = Done (t', s, r) ∧ task_ok k t' ∧ alive t' = alive t ∧ counted t' = counted t ∧ kept t t' ∧
    answer_ok t' r.
Proof.
  intros T Hp Hrc E. destruct (spawning_state k t T ltac:(by intros Es; rewrite Es in Hp)) as (Hh & Hj & Ha & Hg).
  assert (∀ t' r, spawn_moved t t' → alive t' = alive t → counted t' = counted t →
    answer_ok t' r →
    ∃ t'' r', Done (t', s, r) = Done (t'', s, r') ∧ task_ok k t'' ∧ alive t'' = alive t ∧ counted t'' = counted t ∧ kept t t'' ∧
    answer_ok t'' r') as Hgo.
  { intros t' r M ? ? ?. destruct (spawn_moved_ok k t t' T M). exists t', r. by split_and!. }
  unfold spawner_step in E. destruct (spc t) eqn:Ep; try done; rewrite ?access_ok in E by done; simpl in E.
  - simplify_eq. apply Hgo; auto; [split; try done; by spawn_tac T Ep|]. unfold counted. simpl. rewrite Ep. by destruct (tpc t).
  - destruct (startup t) eqn:Es; simplify_eq.
    + apply Hgo; auto; [split; try done; by spawn_tac T Ep|]. unfold counted. simpl. rewrite Ep. by destruct (tpc t).
    + apply Hgo; auto; [|unfold counted; simpl; rewrite Ep; by destruct (tpc t)|by simpl; rewrite Hh].
      split; try done; try (by spawn_tac T Ep). pose proof (to_joined _ _ _ T) as Hd. pose proof (to_spawner _ _ _ T) as Ho.
      unfold spawner_ok, alive, owns in *. simpl. rewrite Ep in Ho. destruct Ho as [[? Hn] _]. destruct (strong t); [done|].
      split; [done|]. rewrite Hn in Hd. by destruct (join_state t); simpl in *; auto; specialize (Hd eq_refl).
    + apply Hgo; auto; [split; try done; by spawn_tac T Ep|]. unfold counted. simpl. rewrite Ep. by destruct (tpc t).
  - simplify_eq. apply Hgo; auto; [split; try done; by spawn_tac T Ep|]. unfold counted. simpl. rewrite Ep. by destruct (tpc t).
  - pose proof (to_spawner _ _ _ T) as Ho. unfold spawner_ok, owns in Ho. rewrite Ep in Ho. destruct Ho as ([Ht Hn] & _ & He).
    rewrite Ht in E. unfold try_join in E. rewrite Ht, (Hrc e eq_refl) in E. case_decide as Ex; simplify_eq/=.
    rewrite bool_decide_true by done. simpl. apply Hgo; auto.
    + split; try done; try (by spawn_tac T Ep); simpl; auto.
    + unfold counted. simpl. rewrite Ep. by destruct (tpc t).
Qed.

(** The thread is created. *)
Lemma spawner_create k t n : task_ok k t → spc t = SpThread n →
  let t' := set_spc (goto (set_native t Joinable) TEnter) SpStore in
  task_ok k t' ∧ alive t' = alive t ∧ counted t' = counted t ∧ kept t t'.
Proof.
  intros T Ep t'. destruct (spawning_state k t T ltac:(by rewrite Ep)) as (Hh & Hj & Ha & Hg).
  assert (tpc t = TNone ∧ thread t = None) as [Et Hth] by (pose proof (to_spawner _ _ _ T) as Ho; unfold spawner_ok in Ho; rewrite Ep in Ho; tauto).
  assert (startup t = Pending) as Hs by (pose proof (to_startup _ _ _ T) as Hs; unfold startup_ok in Hs; by rewrite Et in Hs).
  split_and!; try done.
  - destruct T. unfold start_ref, counted, over in *. rewrite Et, Ep, Hs in *.
    split; unfold start_ref, counted, over, startup_ok, spawner_ok; simpl in *; rewrite ?Hh, ?Hj, ?Hs in *; try done.
    by intros Hd; destruct (join_state t).
  - unfold counted. simpl. by rewrite Et, Ep.
  - unfold kept, over. rewrite Hs. split_and!; try done. intros Hn. by rewrite (proj2 (to_native _ _ _ T) Et) in Hn.
Qed.

(** The references of a failed [spawn]. *)
Lemma spawner_drop nl nt nn k t s e p : task_ok k t → shares nl nt nn t s →
  spc t = SpDropStart e ∧ p = SpDropToken e ∨ spc t = SpDropInner e ∧ p = SpReturned →
  ∃ t' s', arc_drop t s = Done (t', s') ∧ task_ok k (set_spc t' p) ∧ shares nl nt nn (set_spc t' p) s' ∧
    kept t (set_spc t' p) ∧ (p = SpReturned → strong t' = 0%nat) ∧ handles t' = 0%nat.
Proof.
  intros T S Hp. assert (spc t ≠ SpReturned) as Hsp by (by destruct Hp as [[-> _]|[-> _]]).
  destruct (spawning_state k t T Hsp) as (Hh & Hj & Ha & Hg).
  assert (strong t ≠ 0%nat) as Hz by (unfold alive in Ha; by destruct (strong t)).
  pose proof (to_refs _ _ _ T) as Hr. pose proof (to_spawner _ _ _ T) as Ho. unfold spawner_ok, start_ref in *. rewrite Hh in *.
  assert (thread t = None) as Hth by (destruct Hp as [[E1 _]|[E1 _]]; rewrite E1 in Ho; tauto).
  unfold shares in S. rewrite Ha in S.
  destruct (arc_drop_spec nl (nt + Nat.b2n (counted t)) nn t s Hz) as (s' & -> & S'); [by rewrite Hth|exact S|].
  eexists _, s'. split; [done|].
  destruct Hp as [[Ep ->]|[Ep ->]]; rewrite Ep in *; simpl in *.
  - destruct Ho as (Et & _). rewrite Et in Hr. simpl in Hr.
    assert (arc_dropped t = set_strong t 1) as -> by (unfold arc_dropped; by rewrite Hr).
    destruct (spawn_moved_ok k t (set_spc (set_strong t 1) (SpDropToken e)) T) as [T' K].
    { split; try done; try (by rewrite Ep); auto; unfold spawner_ok, start_ref, counted; simpl; rewrite ?Et, ?Hh; try done.
      rewrite (to_token _ _ _ T). unfold counted. by rewrite Et, Ep. }
    split_and!; try done. unfold shares, counted, alive. unfold counted in S'. simpl. rewrite Et, Ep, Hr in *. exact S'.
  - destruct Ho as (_ & Hnj & _ & Ht).
    assert (strong t = 1%nat) as E1 by (destruct Ht as [Ht|Ht]; rewrite Ht in Hr; simpl in Hr; lia).
    assert (arc_dropped t = set_strong (set_thread t None) 0) as -> by (unfold arc_dropped; rewrite E1, Hth; done).
    destruct (spawn_moved_ok k t (set_spc (set_strong (set_thread t None) 0) SpReturned) T) as [T' K].
    { split; try done; try (by rewrite Ep); auto; unfold spawner_ok, start_ref, counted; simpl; rewrite ?Hh; try done.
      - rewrite (to_token _ _ _ T). unfold counted. by destruct Ht as [-> | ->]; rewrite ?Ep.
      - by destruct Ht as [-> | ->]. }
    split_and!; try done. unfold shares, counted, alive. unfold counted in S'. simpl. rewrite E1, Ep in S'.
    destruct Ht as [Et|Et]; rewrite Et in *; exact S'.
Qed.

Lemma spawner_token nl nt nn k t s e : task_ok k t → shares nl nt nn t s → spc t = SpDropToken e →
  ∃ t' s', drop_token t s = (t', s') ∧ task_ok k (set_spc t' (SpDropInner e)) ∧
    shares nl nt nn (set_spc t' (SpDropInner e)) s' ∧ kept t (set_spc t' (SpDropInner e)) ∧ handles t' = 0%nat.
Proof.
  intros T S Ep. destruct (spawning_state k t T ltac:(by rewrite Ep)) as (Hh & Hj & Ha & Hg).
  pose proof (to_spawner _ _ _ T) as Ho. unfold spawner_ok in Ho. rewrite Ep in Ho. destruct Ho as (Et & Hth & _).
  assert (counted t = true) as Hc by (unfold counted; by rewrite Et, Ep).
  pose proof (to_refs _ _ _ T) as Hr. unfold start_ref in Hr. rewrite Hh, Ep, Et in Hr. simpl in Hr.
  unfold shares in S. rewrite Hc in S. destruct (drop_token_spec _ _ _ t s ltac:(by rewrite (to_token _ _ _ T)) S) as (s' & -> & S').
  eexists _, s'. split; [done|].
  destruct (spawn_moved_ok k t (set_spc (set_token t false) (SpDropInner e)) T) as [T' K].
  { split; try done; try (by rewrite Ep); auto; unfold spawner_ok, start_ref, counted; simpl; rewrite ?Et, ?Hh; try done.
    split_and!; auto. by rewrite (proj2 (to_native _ _ _ T) Et). }
  split_and!; try done. unfold shares, counted, alive. simpl. rewrite Et. simpl. rewrite Nat.add_0_r. exact S'.
Qed.

Lemma spawner_spec nl nt nn stack_min rcs rc k t s m : task_ok k t → shares nl nt nn t s →
  (∀ e, spc t = SpJoinChild e → rc = 0) → spawner_step stack_min rcs rc t s = Some m →
  ∃ t' s' r, m = Done (t', s', r) ∧ task_ok k t' ∧ shares nl nt nn t' s' ∧ kept t t' ∧ answer_ok t' r.
Proof.
  intros T S Hrc E.
  destruct (spc t) eqn:Ep;
    try (destruct (spawner_quiet stack_min rcs rc k t s m T ltac:(by rewrite Ep) ltac:(by rewrite Ep) E)
           as (t' & r & -> & T' & ? & ? & K & R); exists t', s, r; split_and!; try done; by eapply shares_eq);
    unfold spawner_step in E; rewrite Ep in E; simplify_eq/=.
  - destruct rcs as [[rc1 rc2] rc3]. simplify_eq. destruct (spawning_state k t T ltac:(by rewrite Ep)) as (Hh & Hj & Ha & Hg).
    destruct (thread_spawn _ _ _ _ _) as [?|e].
    + destruct (spawner_create k t _ T Ep) as (T' & ? & ? & K). eexists _, _, _. split; [done|]. split_and!; try done.
      by eapply shares_eq.
    + eexists _, _, _. split; [done|]. pose proof (to_spawner _ _ _ T) as Ho. unfold spawner_ok in Ho. rewrite Ep in Ho.
      destruct (spawn_moved_ok k t (set_spc t (SpDropStart e)) T) as [T' K].
      { destruct Ho as (Et & ? & _). pose proof (to_refs _ _ _ T) as Hr. pose proof (to_token _ _ _ T) as Htk.
        split; try done; try (by rewrite Ep); auto; unfold spawner_ok, start_ref, counted in *; simpl; rewrite ?Et, ?Hh, ?Ep in *; try done. }
      split_and!; try done. eapply shares_eq; [..|exact S]; [done|]. unfold counted. simpl. rewrite Ep. by destruct (tpc t).
  - destruct (spawner_drop nl nt nn k t s e (SpDropToken e) T S ltac:(auto)) as (t' & s' & -> & ? & ? & ? & _ & ?). simpl.
    eexists _, _, _. split; [done|]. done.
  - destruct (spawner_token nl nt nn k t s e T S Ep) as (t' & s' & -> & ? & ? & ? & ?). eexists _, _, _. split; [done|]. done.
  - destruct (spawner_drop nl nt nn k t s e SpReturned T S ltac:(auto)) as (t' & s' & -> & ? & ? & ? & Hz & ?). simpl.
    eexists _, _, _. split; [done|]. split_and!; try done. simpl. auto.
Qed.

(** *** Joins *)

Lemma join_facts k t j x : task_ok k t → joins t !! j = Some x →
  handles t ≠ 0%nat ∧ spc t = SpReturned ∧ alive t = true ∧ startup t = Ready ∧ native t ≠ NoThread ∧
  match join_state t with
  | Running | Finished _ => owns t
  | Joining _ => owns t ∨ thread t = Some false ∧ native t = JoinedThread
  | Joined _ => thread t = None ∧ native t = JoinedThread
  end.
Proof.
  intros T E. assert (handles t ≠ 0%nat) as Hh by (intros Hh; by rewrite (to_idle _ _ _ T Hh) in E).
  assert (spc t = SpReturned) as Es.
  { destruct (spc t) eqn:Es; try done; by destruct (spawning_state k t T ltac:(by rewrite Es)). }
  assert (strong t ≠ 0%nat) as Hz by (pose proof (to_refs _ _ _ T); lia).
  pose proof (to_spawner _ _ _ T) as Ho. unfold spawner_ok in Ho. rewrite Es in Ho. unfold alive.
  destruct (strong t); [done|]. destruct Ho as [Hst Ho]. split_and!; try done. intros Hn.
  assert (startup t = Pending); [|congruence]. pose proof (to_startup _ _ _ T) as Hp. unfold startup_ok in Hp.
  by rewrite (proj1 (to_native _ _ _ T) Hn) in Hp.
Qed.

(** A change of what a joiner may change. *)
Definition rejoin (t : task) (js : JoinState) (th : option bool) (nv : native_thread) (l : list join_call) : task :=
  set_joins (set_native (set_thread (set_join_state t js) th) nv) l.

Lemma rejoin_ok b k t j x js th nv l : task_ok k t → joins t !! j = Some x →
  running js = running (join_state t) → join_code js = ExitCode.SUCCESS →
  nv = native t ∨ nv = JoinedThread ∧ tpc t = TExited →
  match js with
  | Running | Finished _ => th = Some true ∧ nv = Joinable
  | Joining _ => th = Some true ∧ nv = Joinable ∨ th = Some false ∧ nv = JoinedThread
  | Joined _ => th = None ∧ nv = JoinedThread
  end →
  countb reaper l = Nat.b2n (joining js) →
  (∀ i y, l !! i = Some y → join_ok b (rejoin t js th nv l) y) →
  task_inv b k (rejoin t js th nv l) ∧ alive (rejoin t js th nv l) = alive t ∧ counted (rejoin t js th nv l) = counted t ∧
  kept t (rejoin t js th nv l).
Proof.
  intros T E Hrun Hcode Hnv Hth Hc Hl. destruct (join_facts k t j x T E) as (Hh & Hs & Ha & Hst & Hnn & _).
  split_and!; try done.
  - pose proof (to_native _ _ _ T) as [Hn1 Hn2]. pose proof (to_exited _ _ _ T) as Hx.
    destruct T. split; simpl; try done.
    + by rewrite Hrun.
    + destruct Hnv as [->|[-> Et]]; [done|]. by rewrite Et.
    + intros Hj. destruct Hnv as [Hnv|[_ ?]]; [|done]. apply Hx. congruence.
    + unfold spawner_ok, alive, owns in *. simpl. rewrite Hs in *. destruct (strong t); [done|]. by split.
    + destruct js; try done. by destruct Hth.
  - unfold kept. split_and!; try done. intros Hj. simpl. destruct Hnv as [->|[? _]]; done.
Qed.

Lemma join_ok_other b t t' y : join_ok true t y → reaper y = false →
  (b = true → running (join_state t') = true ∨ joining (join_state t') = true ∨
              join_state t' = join_state t ∧ tpc t' = tpc t) → join_ok b t' y.
Proof.
  unfold join_ok, reaper. destruct (jpc y) as [| | | | |[]]; try done. intros [Ht Hc] _ Hb. split; [done|].
  intros ->. destruct (Hb eq_refl) as [?|[?|[-> ->]]]; auto.
Qed.

Lemma other_reapers (l : list join_call) j x i y : l !! j = Some x → (countb reaper l ≤ Nat.b2n (reaper x))%nat →
  l !! i = Some y → i ≠ j → reaper y = false.
Proof.
  intros Ej Hc Ei Hne. destruct (reaper y) eqn:Hy; [|done].
  pose proof (countb_insert reaper l j x (mkJoin Timeout.NoWait JNoWait) Ej) as Hi. simpl in Hi.
  assert (0 < countb reaper (<[j:=mkJoin Timeout.NoWait JNoWait]> l))%nat; [|lia].
  apply (countb_pos reaper _ i y); [by rewrite list_lookup_insert_ne|done].
Qed.

(** What [join] may answer: a code is the published one, after the entry, and from a
    waiting join only with the thread reaped; a time-out is not for [Forever]. *)
Definition join_answer (tmo : Timeout.t) (t : task) (r : Result ExitCode.t) : Prop :=
  match r with
  | Ok code => code = ExitCode.SUCCESS ∧ over t = true ∧ (tmo ≠ Timeout.NoWait → native t = JoinedThread)
  | Err e => e = Error.Timeout ∧ tmo ≠ Timeout.Forever ∨ (∃ d, tmo = Timeout.After d) ∨
             tmo ≠ Timeout.NoWait ∧ e = Error.Internal "pthread_join failed"
  end.

Definition join_post (k : nat) (t : task) (x : join_call) (t' : task) (r : option (Result ExitCode.t)) : Prop :=
  task_ok k t' ∧ alive t' = alive t ∧ counted t' = counted t ∧ kept t t' ∧ handles t' = handles t ∧
  ∀ a, r = Some a → join_answer (timeout x) t' a.

(** A step that changes nothing but the joiner's own progress. *)
Lemma rejoin_same k t j x l : task_ok k t → joins t !! j = Some x → countb reaper l = countb reaper (joins t) →
  (∀ i y, l !! i = Some y → join_ok true t y) →
  task_ok k (set_joins t l) ∧ alive (set_joins t l) = alive t ∧ counted (set_joins t l) = counted t ∧ kept t (set_joins t l).
Proof.
  intros T E Hc Hl. destruct (join_facts k t j x T E) as (_ & _ & _ & _ & _ & Hm).
  apply (rejoin_ok true k t j x (join_state t) (thread t) (native t) l); try done; auto.
  - apply (to_code _ _ _ T).
  - rewrite Hc. apply (to_reaper _ _ _ T).
Qed.

Lemma join_continue k t j x p : task_ok k t → joins t !! j = Some x → reaper x = reaper (set_jpc x p) →
  join_ok true t (set_jpc x p) → join_post k t x (set_joins t (<[j:=set_jpc x p]> (joins t))) None.
Proof.
  intros T E Hr Hok. destruct (rejoin_same k t j x (<[j:=set_jpc x p]> (joins t)) T E) as (? & ? & ? & ?); [|..|by split_and!].
  - pose proof (countb_insert reaper _ j x (set_jpc x p) E). rewrite Hr in *. lia.
  - intros i y [(<- & <- & _)|[_ Ei]]%list_lookup_insert_Some; [done|]. by eapply to_joins.
Qed.

Lemma join_return k t j x a : task_ok k t → joins t !! j = Some x → reaper x = false →
  join_answer (timeout x) t a → join_post k t x (set_joins t (delete j (joins t))) (Some a).
Proof.
  intros T E Hr Ha. destruct (rejoin_same k t j x (delete j (joins t)) T E) as (? & ? & ? & ?).
  - pose proof (countb_delete reaper _ j x E). rewrite Hr in *. simpl in *. lia.
  - intros i y (j' & Ei)%TaskMachine.lookup_delete_inv. by eapply to_joins.
  - split_and!; try done. intros a' [= <-]. exact Ha.
Qed.

Lemma over_state k t : task_ok k t → running (join_state t) = false → over t = true.
Proof. intros T Hr. rewrite (to_running _ _ _ T) in Hr. by destruct (over t). Qed.

(** The joiner that finds the task finished claims its thread. *)
Lemma join_claim k t j x c : task_ok k t → joins t !! j = Some x → jpc x = JLoop → join_state t = Finished c →
  join_post k t x (set_joins (set_join_state t (Joining c)) (<[j:=set_jpc x JPthread]> (joins t))) None.
Proof.
  intros T E Ep Ej. destruct (join_facts k t j x T E) as (_ & _ & _ & _ & _ & Hm). rewrite Ej in Hm.
  pose proof (to_reaper _ _ _ T) as Hc. rewrite Ej in Hc. simpl in Hc.
  pose proof (to_joins _ _ _ T j x E) as Hx. unfold join_ok in Hx. rewrite Ep in Hx.
  destruct (rejoin_ok true k t j x (Joining c) (thread t) (native t) (<[j:=set_jpc x JPthread]> (joins t)) T E) as (? & ? & ? & ?);
    try done; auto; [by rewrite Ej|by pose proof (to_code _ _ _ T) as Hcd; rewrite Ej in Hcd|..].
  - pose proof (countb_insert reaper _ j x (set_jpc x JPthread) E) as Hi. unfold reaper in Hi at 2 4. rewrite Ep in Hi. simpl in *. lia.
  - intros i y [(<- & <- & _)|[Hne Ei]]%list_lookup_insert_Some; [by split|].
    apply (join_ok_other true t); [by eapply to_joins|eapply (other_reapers _ j x i); eauto; lia|]. simpl. auto.
Qed.

Lemma reaper_facts k t j x : task_ok k t → joins t !! j = Some x → reaper x = true →
  (∃ c, join_state t = Joining c ∧ c = ExitCode.SUCCESS) ∧ countb reaper (joins t) = 1%nat ∧
  countb reaper (delete j (joins t)) = 0%nat ∧ (∀ i y, joins t !! i = Some y → i ≠ j → reaper y = false) ∧
  (∀ i y, delete j (joins t) !! i = Some y → join_ok true t y ∧ reaper y = false).
Proof.
  intros T E Hr. pose proof (to_reaper _ _ _ T) as Hc. pose proof (countb_pos reaper _ j x E Hr) as Hp.
  assert (joining (join_state t) = true) as Hj by (destruct (joining (join_state t)); [done|simpl in Hc; lia]).
  rewrite Hj in Hc. simpl in Hc. pose proof (countb_delete reaper _ j x E) as Hd. rewrite Hr in Hd. simpl in Hd.
  split_and!; try done; try lia.
  - pose proof (to_code _ _ _ T) as Hcode. destruct (join_state t); simplify_eq/=. eauto.
  - intros i y Ei Hne. eapply (other_reapers _ j x i); try done. rewrite Hr. simpl. lia.
  - intros i y Ei. split; [apply TaskMachine.lookup_delete_inv in Ei as [j' Ei]; by eapply to_joins|].
    assert (countb reaper (delete j (joins t)) = 0%nat) as Hz by lia.
    apply countb_zero in Hz. by apply (Forall_lookup_1 _ _ _ _ Hz Ei).
Qed.

(** [pthread_join] returns. *)
Lemma join_reap k t j x rc m : task_ok k t → joins t !! j = Some x → jpc x = JPthread → try_join rc t = Some m →
  ∃ r t1, m = Done (r, t1) ∧ joins t1 = joins t ∧
    join_post k t x (set_joins t1 (<[j:=set_jpc x (JPublish r)]> (joins t))) None.
Proof.
  intros T E Ep Em. pose proof (to_joins _ _ _ T j x E) as Hx. unfold join_ok in Hx. rewrite Ep in Hx. destruct Hx as [Htm [Ht Hn]].
  assert (reaper x = true) as Hr by (unfold reaper; by rewrite Ep).
  destruct (reaper_facts k t j x T E Hr) as ((c & Ej & Hcode) & Hc & _ & Hoth & _).
  unfold try_join in Em. rewrite Ht in Em. case_decide as Ex; simplify_eq. rewrite bool_decide_true by done. simpl.
  destruct (rc =? 0).
  - eexists _, _. split; [done|]. split; [done|].
    destruct (rejoin_ok true k t j x (join_state t) (Some false) JoinedThread (<[j:=set_jpc x (JPublish (Ok ()))]> (joins t)) T E)
      as (? & ? & ? & ?); auto.
    + by rewrite Ej.
    + rewrite Ej. auto.
    + pose proof (countb_insert reaper _ j x (set_jpc x (JPublish (Ok ()))) E) as Hi. rewrite Hr in Hi. simpl in Hi. rewrite Ej. simpl. lia.
    + intros i y [(<- & <- & _)|[Hne Ei]]%list_lookup_insert_Some; [done|].
      apply (join_ok_other true t); [by eapply to_joins|by eapply Hoth|auto].
    + by split_and!.
  - eexists _, _. split; [done|]. split; [done|]. by apply join_continue.
Qed.

(** [do_pthread_join] publishes how it went and wakes everyone. *)
Lemma join_publish k t j x js th nv a : task_ok k t → joins t !! j = Some x → reaper x = true →
  running js = false → joining js = false → join_code js = ExitCode.SUCCESS →
  nv = native t →
  match js with
  | Running | Finished _ => th = Some true ∧ nv = Joinable
  | Joining _ => False
  | Joined _ => th = None ∧ nv = JoinedThread
  end →
  (∀ t', native t' = nv → over t' = true → join_answer (timeout x) t' a) →
  let t1 := broadcast (set_native (set_thread (set_join_state t js) th) nv) in
  join_post k t x (set_joins t1 (delete j (joins t1))) (Some a).
Proof.
  intros T E Hr Hrun Hjg Hcode Hnv Hth Ha t1.
  destruct (reaper_facts k t j x T E Hr) as ((c & Ej & _) & Hc & Hd & _ & Hdel).
  assert (set_joins t1 (delete j (joins t1)) = broadcast (rejoin t js th nv (delete j (joins t)))) as ->.
  { subst t1. unfold broadcast, rejoin, set_joins, set_spc. simpl. by rewrite list_fmap_delete. }
  destruct (rejoin_ok false k t j x js th nv (delete j (joins t)) T E) as (T' & Hal & Hct & K); auto.
  - by rewrite Ej.
  - by destruct js.
  - by rewrite Hjg.
  - intros i y Ei. destruct (Hdel i y Ei). by apply (join_ok_other false t).
  - destruct (join_facts k t j x T E) as (_ & Hs & _).
    pose proof (broadcast_ok false k _ T') as T2. split_and!; try done.
    + unfold counted. simpl. by rewrite Hs.
    + intros a' [= <-]. apply Ha; [done|]. apply (over_state k _ T2). done.
Qed.

Lemma join_spec dl timed_out rc k t j x m : task_ok k t → joins t !! j = Some x →
  join_step dl timed_out rc j x t = Some m → ∃ t' r, m = Done (t', r) ∧ join_post k t x t' r.
Proof.
  intros T E Em. destruct (join_facts k t j x T E) as (Hh & Hs & Ha & Hst & Hnn & Hm).
  pose proof (to_joins _ _ _ T j x E) as Hx. pose proof (to_code _ _ _ T) as Hcode. unfold join_step in Em. unfold join_ok in Hx.
  destruct (jpc x) as [| | | | |[u|e]] eqn:Ep.
  - rewrite access_ok in Em by done. simpl in Em. assert (reaper x = false) as Hr by (unfold reaper; by rewrite Ep).
    destruct (join_state t) as [|c|c|c] eqn:Ej; simplify_eq/=; (eexists _, _; split; [done|]); apply join_return; try done; simpl.
    + left. by rewrite Hx.
    + split_and!; try done. apply (over_state k t T). by rewrite Ej.
    + left. by rewrite Hx.
    + split_and!; try done. apply (over_state k t T). by rewrite Ej.
  - destruct dl as [?|e]; simplify_eq; (eexists _, _; split; [done|]).
    + apply join_continue; try done; [by unfold reaper; rewrite Ep|]. destruct Hx as [d Hd]. unfold join_ok. simpl. by rewrite Hd.
    + apply join_return; try done; [by unfold reaper; rewrite Ep|]. simpl. auto.
  - rewrite access_ok in Em by done. simpl in Em. assert (reaper x = false) as Hr by (unfold reaper; by rewrite Ep).
    destruct (join_state t) as [|c|c|c] eqn:Ej; simplify_eq/=; (eexists _, _; split; [done|]).
    + apply join_continue; try done. unfold join_ok. simpl. rewrite Ej. auto.
    + by apply join_claim.
    + apply join_continue; try done. unfold join_ok. simpl. rewrite Ej. auto.
    + apply join_return; try done. simpl. destruct Hm as [_ Hn]. split_and!; try done. apply (over_state k t T). by rewrite Ej.
  - destruct Hx as [Htm _]. assert (reaper x = false) as Hr by (unfold reaper; by rewrite Ep). destruct timed_out.
    + destruct (timeout x) eqn:Etm; simplify_eq. eexists _, _. split; [done|]. apply join_return; try done. simpl. rewrite Etm. eauto.
    + simplify_eq. eexists _, _. split; [done|]. by apply join_continue.
  - destruct Hx as [Htm [Hth Hn]]. rewrite Hth in Em. destruct (try_join rc t) as [m'|] eqn:Et; simplify_eq/=.
    rewrite access_ok by done. destruct (join_reap k t j x rc m' T E Ep Et) as (r & t1 & -> & Hj & Hp). simpl. rewrite Hj. eauto.
  - rewrite access_ok in Em by done. destruct Hx as (Htm & Hth & Hn). simplify_eq/=. unfold drop_thread. rewrite Hth. simpl. eexists _, _. split; [done|].
    apply (join_publish k t j x (Joined (join_code (join_state t))) None (native t)); try done; [by unfold reaper; rewrite Ep|].
    intros t' Hn' Ho. simpl. split_and!; try done. congruence.
  - rewrite access_ok in Em by done. destruct Hx as (Htm & [Hth Hn] & He). simplify_eq/=. eexists _, _. split; [done|].
    assert (set_native (set_thread (set_join_state t (Finished (join_code (join_state t)))) (Some true)) (native t)
            = set_join_state t (Finished (join_code (join_state t)))) as Eq by (unfold set_native, set_thread; simpl; by rewrite <- Hth).
    rewrite <- Eq. apply (join_publish k t j x (Finished (join_code (join_state t))) (Some true) (native t)); try done.
    + by unfold reaper; rewrite Ep.
    + intros t' _ _. simpl. auto.
Qed.

(** *** Handles *)

Lemma join_begin_ok t tmo : join_ok true t (join_begin tmo).
Proof. destruct tmo; unfold join_begin, join_ok; simpl; eauto. Qed.

Lemma join_enter k t tmo : task_ok k t → handles t ≠ 0%nat →
  let t' := set_joins t (joins t ++ [join_begin tmo]) in
  task_ok k t' ∧ alive t' = alive t ∧ counted t' = counted t ∧ kept t t'.
Proof.
  intros T Hh t'. split_and!; try done. destruct T. split; try done; simpl.
  - rewrite countb_app. by destruct tmo; simpl; rewrite Nat.add_0_r.
  - intros i x [Ei|[_ Ei]]%lookup_app_Some; [by apply (to_joins0 i)|].
    destruct (i - _)%nat as [|[|?]]; simplify_eq/=. apply join_begin_ok.
Qed.

Lemma clone_ok k t : task_ok k t → handles t ≠ 0%nat →
  let t' := set_handles (set_strong t (S (strong t))) (S (handles t)) in
  task_ok k t' ∧ alive t' = alive t ∧ counted t' = counted t ∧ kept t t'.
Proof.
  intros T Hh t'. assert (strong t ≠ 0%nat) as Hz by (pose proof (to_refs _ _ _ T); lia).
  split_and!; try done; [|unfold alive; simpl; by destruct (strong t)].
  assert (spc t = SpReturned) as Es by (destruct (spc t) eqn:Es; try done; by destruct (spawning_state k t T ltac:(by rewrite Es))).
  destruct T. split; try done; simpl.
  - unfold start_ref in *. simpl. lia.
  - unfold spawner_ok in *. simpl. rewrite Es in *. destruct (strong t); done.
Qed.

(** The drop of a handle that no join uses. *)
Lemma drop_handle_ok nl nt nn k t s n : task_ok k t → shares nl nt nn t s → handles t = S n → (n = 0%nat → joins t = []) →
  ∃ t' s', arc_drop t s = Done (t', s') ∧ task_ok k (set_handles t' n) ∧ shares nl nt nn (set_handles t' n) s' ∧
    kept t (set_handles t' n).
Proof.
  intros T S Hh Hj. pose proof (to_refs _ _ _ T) as Hr.
  assert (spc t = SpReturned) as Es by (destruct (spc t) eqn:Es; try done; by destruct (spawning_state k t T ltac:(by rewrite Es)) as [? _]; lia).
  assert (strong t ≠ 0%nat) as Hz by lia. assert (alive t = true) as Ha by (unfold alive; by destruct (strong t)).
  pose proof (to_spawner _ _ _ T) as Ho. unfold spawner_ok in Ho. rewrite Es in Ho. destruct (strong t) as [|q] eqn:Eq; [done|].
  destruct Ho as [Hst Ho].
  assert (n = 0%nat → joining (join_state t) = false) as Hg.
  { intros Hn. pose proof (to_reaper _ _ _ T) as Hc. rewrite (Hj Hn) in Hc. by destruct (joining _). }
  unfold shares in S. rewrite Ha in S.
  destruct (arc_drop_spec nl (nt + Nat.b2n (counted t)) nn t s) as (s' & -> & S'); [lia| |exact S|].
  { intros E1 Ht. assert (n = 0%nat) as Hn by lia. specialize (Hg Hn). destruct (join_state t); simpl in *; try done; try (by destruct Ho).
    by destruct Ho as [Ho _]; rewrite Ht in Ho. }
  rewrite Eq in S'. eexists _, s'. split; [done|].
  destruct (decide (q = 0%nat)) as [->|Hq].
  - assert (n = 0%nat) as -> by lia. specialize (Hg eq_refl). specialize (Hj eq_refl).
    set (t' := set_handles (arc_dropped t) 0).
    assert (strong t' = 0 ∧ thread t' = None ∧ native t' ≠ Joinable ∧ (native t' = NoThread ↔ native t = NoThread) ∧
            (native t' = JoinedThread ↔ native t = JoinedThread))%nat as (E1 & E2 & E3 & E4 & E5).
    { unfold t', arc_dropped. rewrite Eq. simpl. destruct (join_state t); simpl in *; try done;
        destruct Ho as [Ho1 Ho2]; case_decide; simpl; rewrite ?Ho2; split_and!; done || congruence. }
    assert (handle t' = handle t ∧ join_state t' = join_state t ∧ startup t' = startup t ∧ tpc t' = tpc t ∧ entry t' = entry t ∧
            live_token t' = live_token t ∧ tls t' = tls t ∧ spc t' = spc t ∧ handles t' = 0%nat ∧ joins t' = joins t)
      as (F1 & F2 & F3 & F4 & F5 & F6 & F7 & F8 & F9 & F10).
    { unfold t', arc_dropped. rewrite Eq. simpl. by case_decide. }
    assert (counted t' = counted t) as Hct by (unfold counted; by rewrite F4, F8).
    split_and!.
    + destruct T. rewrite Hh, Es in *. unfold start_ref in *.
      split; unfold start_ref, over, startup_ok, spawner_ok in *; rewrite ?E1, ?E2, ?F2, ?F3, ?F4, ?F5, ?F6, ?F7, ?F8, ?F9, ?F10, ?Hj, ?Es, ?Hct in *; try done; try tauto.
      simpl in *. lia.
    + unfold shares. rewrite Hct. unfold alive. rewrite E1. exact S'.
    + unfold kept, over. rewrite F1, F3, F4. split_and!; try done. tauto.
  - rewrite arc_dropped_more by lia. rewrite Eq. simpl.
    assert (alive (set_handles (set_strong t q) n) = true) as Ha' by (unfold alive; simpl; by destruct q).
    split_and!; try done.
    + destruct T. split; try done; simpl.
      * unfold start_ref in *. simpl. rewrite Es in *. simpl in *. lia.
      * unfold spawner_ok. simpl. rewrite Es. by destruct q.
Qed.

End PosixTaskState.
End PosixTaskState.

(** ** All tasks together *)

Module PosixTaskMachine.
Import PosixTask PosixTaskState.
Section PosixTaskMachine.
Context `{Arch} (stack_min : Z).

Abbreviation task_ok := (task_inv true).

Inductive event : Type :=
| InitBegin | ShutBegin
| TransitionEnd (i : nat) (res : Result ())
| AcquireOther | ReleaseOther
| Spawn (b : PosixTaskBuilder)
| SpawnStep (i : nat) (made : Result ())
| Spawner (k : nat) (rcs : Z * Z * Z) (rc : Z)
| Trampoline (k : nat) (created : Result ()) (rc : Z)
| Join (caller : option nat) (k : nat) (tmo : Timeout.t)
| JoinStep (k j : nat) (dl : Result ()) (timed_out : bool) (rc : Z)
| CloneHandle (k : nat)
| DropHandle (k : nat).

Definition set_ready (c : config) (b : bool) : config :=
  mkConfig (sh c) b (next_handle c) (spawns c) (tasks c) (others c) (results c) (spawned c).
Definition with_runtime (c : config) (m : Run (Result () * PosixRuntime.t)) : Run config :=
  '(_, r) ← m; Done (set_sh c (set_runtime (sh c) r)).

Definition exec (c : config) (e : event) : option (Run config) :=
  match e with
  | InitBegin => Some (with_runtime c (PosixRuntime.initialize_begin (runtime (sh c))))
  | ShutBegin => Some (with_runtime c (PosixRuntime.shutdown_begin (runtime (sh c))))
  | TransitionEnd i res =>
      m ← PosixRuntime.transition_end i res (runtime (sh c));
      Some (r ← m; Done (set_sh c (set_runtime (sh c) r)))
  | AcquireOther =>
      Some ('(res, r) ← PosixRuntime.acquire_object (runtime (sh c));
            Done (set_others (set_sh c (set_runtime (sh c) r)) (if is_ok res then S (others c) else others c)))
  | ReleaseOther =>
      match others c with
      | O => None
      | S n => Some (r ← PosixRuntime.lease_drop (runtime (sh c));
                     Done (set_others (set_sh c (set_runtime (sh c) r)) n))
      end
  | Spawn b => Some (spawn_start c b)
  | SpawnStep i made => p ← spawns c !! i; Some (spawn_step c i p made)
  | Spawner k rcs rc =>
      t ← tasks c !! k; m ← spawner_step stack_min rcs rc t (sh c);
      Some ('(t, s, r) ← m;
            let c := set_task (set_sh c s) k t in
            Done match r with
                 | None => c
                 | Some (Ok _) => add_spawned c (Ok k)
                 | Some (Err e) => add_spawned c (Err e)
                 end)
  | Trampoline k created rc =>
      t ← tasks c !! k;
      let '(key, ready) := get_or_init (tls_ready c) created in
      m ← trampoline_step key rc k t (sh c);
      Some ('(t', s) ← m;
            let c := set_task (set_sh c s) k t' in
            Done (if decide (tpc t = TEnter) then set_ready c ready else c))
  | Join caller k tmo =>
      t ← tasks c !! k;
      match handles t with O => None | S _ => Some (join_start c caller k t tmo) end
  | JoinStep k j dl timed_out rc =>
      t ← tasks c !! k; x ← joins t !! j; m ← join_step dl timed_out rc j x t;
      Some ('(t, r) ← m;
            let c := set_task c k t in
            Done match r with None => c | Some r => add_result c (k, timeout x, r) end)
  | CloneHandle k =>
      t ← tasks c !! k;
      match handles t with
      | O => None
      | S n => Some (_ ← access t;
                     Done (set_task c k (set_handles (set_strong t (S (strong t))) (S (S n)))))
      end
  | DropHandle k =>
      t ← tasks c !! k;
      match handles t, joins t with
      | O, _ | S O, _ :: _ => None
      | S n, _ => Some ('(t, s) ← arc_drop t (sh c); Done (set_task (set_sh c s) k (set_handles t n)))
      end
  end.

(** A join is called by a thread of no task or by a task in its entry.  The child of
    a failed start exits without joining anything, so joining it does not fail. *)
Definition event_ok (c : config) (e : event) : Prop :=
  match e with
  | Spawner k _ rc => ∀ t e, tasks c !! k = Some t → spc t = SpJoinChild e → rc = 0
  | Join (Some i) _ _ => ∃ t, tasks c !! i = Some t ∧ tpc t = TEntry
  | _ => True
  end.

Definition start_config : config := mkConfig (mkShared PosixRuntime.new 0 0) false 1 [] [] 0 [] [].

Inductive reachable : config → Prop :=
| pk_init : reachable start_config
| pk_step c e c' : reachable c → event_ok c e → exec c e = Some (Done c') → reachable c'.

(** *** The invariant *)

Definition sp_natives (p : spawn_pc) : nat :=
  match p with SpCondvar _ => 1 | SpHandle _ | SpInner _ _ => 2 | SpFail _ n => n | _ => 0 end.
Definition sp_handle (p : spawn_pc) : option TaskHandle.t := match p with SpInner _ h => Some h | _ => None end.
Definition past_tls (p : spawn_pc) : bool := match p with SpTls _ | SpFail _ _ => false | _ => true end.

Definition native_objects (c : config) : nat :=
  (sum_list (sp_natives <$> spawns c) + 2 * countb alive (tasks c))%nat.
Definition leases (c : config) : nat := (others c + length (spawns c) + countb alive (tasks c))%nat.
Definition all_handles (c : config) : list TaskHandle.t := (handle <$> tasks c) ++ omap sp_handle (spawns c).

Definition result_ok (c : config) (x : nat * Timeout.t * Result ExitCode.t) : Prop :=
  let '(k, tmo, r) := x in r = Err Error.Busy ∨ ∃ t, tasks c !! k = Some t ∧ join_answer tmo t r.
Definition spawned_ok (c : config) (r : Result nat) : Prop :=
  match r with Ok k => ∃ t, tasks c !! k = Some t ∧ startup t = Ready | Err _ => True end.

Record inv (c : config) : Prop := {
  i_sh : shared_ok (leases c) (countb counted (tasks c)) (native_objects c) (sh c);
  i_tasks : ∀ k t, tasks c !! k = Some t → task_ok k t;
  i_handles : NoDup (all_handles c);
  i_next : 1 ≤ next_handle c ≤ uint_max usize_bits;
  i_fresh : ∀ h, h ∈ all_handles c → 1 ≤ TaskHandle.raw h < next_handle c;
  i_ready : tls_ready c = true ∨ tasks c = [] ∧ countb past_tls (spawns c) = 0%nat;
  i_results : ∀ i x, results c !! i = Some x → result_ok c x;
  i_spawned : ∀ i r, spawned c !! i = Some r → spawned_ok c r;
}.

Lemma posix_task_init : inv start_config.
Proof.
  pose proof usize_range. split; simpl; try done.
  - split_and!; try done; [apply PosixRuntime.prt_new_ok|simpl; lia].
  - constructor.
  - unfold uint_max. lia.
  - intros h Hh. by apply not_elem_of_nil in Hh.
  - by right.
Qed.

(** *** One task changes *)

Lemma join_answer_kept tmo t t' r : kept t t' → join_answer tmo t r → join_answer tmo t' r.
Proof. intros (_ & _ & Ho & Hn). unfold join_answer. destruct r; naive_solver. Qed.

Lemma result_kept c c' x : (∀ k t, tasks c !! k = Some t → ∃ t', tasks c' !! k = Some t' ∧ kept t t') →
  result_ok c x → result_ok c' x.
Proof.
  intros Hk. destruct x as [[k tmo] r]. intros [?|(t & E & Ha)]; [by left|]. right.
  destruct (Hk k t E) as (t' & E' & K). exists t'. split; [done|]. by eapply join_answer_kept.
Qed.

Lemma spawned_kept c c' r : (∀ k t, tasks c !! k = Some t → ∃ t', tasks c' !! k = Some t' ∧ kept t t') →
  spawned_ok c r → spawned_ok c' r.
Proof.
  intros Hk. destruct r as [k|]; [|done]. intros (t & E & Hs). destruct (Hk k t E) as (t' & E' & K).
  exists t'. split; [done|]. by apply K.
Qed.

Lemma kept_insert (c : config) k t t' : tasks c !! k = Some t → kept t t' →
  ∀ i u, tasks c !! i = Some u → ∃ u', <[k:=t']> (tasks c) !! i = Some u' ∧ kept u u'.
Proof.
  intros E K i u Eu. destruct (decide (k = i)) as [<-|Hne].
  - simplify_eq. exists t'. split; [|done]. apply list_lookup_insert_eq. by eapply lookup_lt_Some.
  - exists u. rewrite list_lookup_insert_ne by done. split; [done|]. by split_and!.
Qed.

(** The counters without task [t]. *)
Definition rest (f : task → bool) (c : config) (t : task) : nat := (countb f (tasks c) - Nat.b2n (f t))%nat.

Lemma task_shares c k t : inv c → tasks c !! k = Some t →
  shares (others c + length (spawns c) + rest alive c t) (rest counted c t)
         (sum_list (sp_natives <$> spawns c) + 2 * rest alive c t) t (sh c).
Proof.
  intros I E. pose proof (i_sh _ I) as S. unfold leases, native_objects in S. unfold shares, rest.
  assert (Nat.b2n (alive t) ≤ countb alive (tasks c))%nat.
  { destruct (alive t) eqn:Ea; simpl; [|lia]. by pose proof (countb_pos alive _ k t E Ea). }
  assert (Nat.b2n (counted t) ≤ countb counted (tasks c))%nat.
  { destruct (counted t) eqn:Ea; simpl; [|lia]. by pose proof (countb_pos counted _ k t E Ea). }
  replace (others c + length (spawns c) + (countb alive (tasks c) - Nat.b2n (alive t)) + Nat.b2n (alive t))%nat
    with (others c + length (spawns c) + countb alive (tasks c))%nat by lia.
  replace (countb counted (tasks c) - Nat.b2n (counted t) + Nat.b2n (counted t))%nat with (countb counted (tasks c)) by lia.
  replace (sum_list (sp_natives <$> spawns c) + 2 * (countb alive (tasks c) - Nat.b2n (alive t)) + 2 * Nat.b2n (alive t))%nat
    with (sum_list (sp_natives <$> spawns c) + 2 * countb alive (tasks c))%nat by lia.
  exact S.
Qed.

Lemma ptask_inv_task c k t t' s : inv c → tasks c !! k = Some t → task_ok k t' → kept t t' →
  shares (others c + length (spawns c) + rest alive c t) (rest counted c t)
         (sum_list (sp_natives <$> spawns c) + 2 * rest alive c t) t' s →
  inv (set_task (set_sh c s) k t').
Proof.
  intros I E T K S. pose proof (kept_insert c k t t' E K) as Hk. destruct I as [Ish Ita Iha Ine Ifr Ire Irs Isp].
  split; cbn [set_task set_sh tasks spawns others sh results spawned next_handle tls_ready]; try done.
  - unfold leases, native_objects. cbn [set_task set_sh tasks spawns others sh]. unfold shares, rest in S.
    pose proof (countb_insert alive _ k t t' E) as C1. pose proof (countb_insert counted _ k t t' E) as C2.
    assert (Nat.b2n (alive t) ≤ countb alive (tasks c))%nat.
    { destruct (alive t) eqn:Ea; simpl; [|lia]. by pose proof (countb_pos alive _ k t E Ea). }
    assert (Nat.b2n (counted t) ≤ countb counted (tasks c))%nat.
    { destruct (counted t) eqn:Ea; simpl; [|lia]. by pose proof (countb_pos counted _ k t E Ea). }
    replace (countb alive (<[k:=t']> (tasks c))) with (countb alive (tasks c) - Nat.b2n (alive t) + Nat.b2n (alive t'))%nat by lia.
    replace (countb counted (<[k:=t']> (tasks c))) with (countb counted (tasks c) - Nat.b2n (counted t) + Nat.b2n (counted t'))%nat by lia.
    rewrite Nat.mul_add_distr_l, !Nat.add_assoc. exact S.
  - intros i u [(<- & <- & _)|[_ Eu]]%list_lookup_insert_Some; [done|]. by apply Ita.
  - unfold all_handles. simpl. rewrite list_fmap_insert, list_insert_id; [done|].
    rewrite list_lookup_fmap, E. simpl. f_equal. symmetry. apply K.
  - intros h. unfold all_handles. simpl. rewrite list_fmap_insert, list_insert_id; [by apply Ifr|].
    rewrite list_lookup_fmap, E. simpl. f_equal. symmetry. apply K.
  - destruct Ire as [?|[Ht _]]; [by left|]. by rewrite Ht in E.
  - intros i x Ex. eapply (result_kept c); [exact Hk|by eapply Irs].
  - intros i r Er. eapply (spawned_kept c); [exact Hk|by eapply Isp].
Qed.

Lemma inv_task_same c k t t' : inv c → tasks c !! k = Some t → task_ok k t' → kept t t' →
  alive t' = alive t → counted t' = counted t → inv (set_task c k t').
Proof.
  intros I E T K Ha Hc. pose proof (ptask_inv_task c k t t' (sh c) I E T K) as Hi.
  assert (set_task (set_sh c (sh c)) k t' = set_task c k t') as <- by (by destruct c). apply Hi.
  eapply shares_eq; [exact Ha|exact Hc|by apply (task_shares c k)].
Qed.

(** *** The runtime and other objects *)

Lemma ptask_inv_runtime c r n : inv c → PosixRuntime.ok (n + length (spawns c) + countb alive (tasks c)) r →
  inv (set_others (set_sh c (set_runtime (sh c) r)) n).
Proof. intros [(Hr & Hl & Hn & Hb) Ita Iha Ine Ifr Ire Irs Isp] Hok. split; try done. Qed.

Lemma set_others_id c s : set_others (set_sh c s) (others c) = set_sh c s.
Proof. by destruct c. Qed.

Lemma runtime_event_inv c e r : inv c → exec c e = Some r →
  match e with InitBegin | ShutBegin | TransitionEnd _ _ | AcquireOther | ReleaseOther => True | _ => False end →
  ∃ c', r = Done c' ∧ inv c'.
Proof.
  intros I E He. pose proof (i_sh _ I) as (Hr & _). unfold leases in Hr.
  assert (∀ r, PosixRuntime.ok (leases c) r → inv (set_sh c (set_runtime (sh c) r))) as Hgo.
  { intros r' Hok. rewrite <- set_others_id. by apply ptask_inv_runtime. }
  destruct e; try done; simpl in E; simplify_eq; unfold with_runtime.
  - destruct (PosixRuntime.prt_initialize _ _ Hr) as (res & r & -> & Hok). simpl. eauto.
  - destruct (PosixRuntime.prt_shutdown _ _ Hr) as (res & r & -> & Hok). simpl. eauto.
  - destruct (PosixRuntime.transition_end i res (runtime (sh c))) as [m|] eqn:Em; simplify_eq/=.
    destruct (PosixRuntime.prt_transition _ _ _ _ _ Hr Em) as (r & -> & Hok). simpl. eauto.
  - destruct (PosixRuntime.prt_acquire _ _ Hr) as [[e' ->]|(r & -> & Hok)]; simpl; (eexists; split; [done|]).
    + rewrite set_others_id. by apply Hgo.
    + by apply ptask_inv_runtime.
  - destruct (others c) as [|n] eqn:En; simplify_eq. simpl in Hr.
    destruct (PosixRuntime.prt_lease_drop _ _ Hr) as (r & -> & Hok). simpl. eexists. split; [done|]. by apply ptask_inv_runtime.
Qed.

(** *** The first part of [spawn] *)

Lemma sum_insert {A} (f : A → nat) l i x y : l !! i = Some x →
  (sum_list (f <$> <[i:=y]> l) + f x = sum_list (f <$> l) + f y)%nat.
Proof.
  revert i. induction l as [|z l IH]; intros [|i] E; csimpl in *; simplify_eq; [lia|]. specialize (IH i E). lia.
Qed.
Lemma sum_snoc {A} (f : A → nat) l x : (sum_list (f <$> l ++ [x]) = sum_list (f <$> l) + f x)%nat.
Proof. induction l as [|y l IH]; csimpl; [lia|]. rewrite IH. lia. Qed.
Lemma sum_delete {A} (f : A → nat) l i x : l !! i = Some x →
  (sum_list (f <$> delete i l) + f x = sum_list (f <$> l))%nat.
Proof.
  revert i. induction l as [|z l IH]; intros [|i] E; csimpl in *; simplify_eq; [lia|]. specialize (IH i E). lia.
Qed.

Lemma inv_add_spawned c r : inv c → spawned_ok c r → inv (add_spawned c r).
Proof.
  intros [] Hr. split; try done. intros i r' [E|[_ E]]%lookup_app_Some; [by apply (i_spawned0 i)|].
  destruct (i - _)%nat as [|[|?]]; simplify_eq/=. done.
Qed.
Lemma inv_add_result c x : inv c → result_ok c x → inv (add_result c x).
Proof.
  intros [] Hr. split; try done. intros i r' [E|[_ E]]%lookup_app_Some; [by apply (i_results0 i)|].
  destruct (i - _)%nat as [|[|?]]; simplify_eq/=. done.
Qed.

(** The calls of [spawn] under way change. *)
Lemma inv_spawns c s ready next l : inv c →
  PosixRuntime.ok (others c + length l + countb alive (tasks c)) (runtime s) → live_count s = live_count (sh c) →
  natives s = (sum_list (sp_natives <$> l) + 2 * countb alive (tasks c))%nat →
  NoDup ((handle <$> tasks c) ++ omap sp_handle l) → 1 ≤ next ≤ uint_max usize_bits →
  (∀ h, h ∈ (handle <$> tasks c) ++ omap sp_handle l → 1 ≤ TaskHandle.raw h < next) →
  ready = true ∨ tasks c = [] ∧ countb past_tls l = 0%nat →
  inv (mkConfig s ready next l (tasks c) (others c) (results c) (spawned c)).
Proof.
  intros [(Hr & Hl & Hn & Hb) Ita Iha Ine Ifr Ire Irs Isp] Hok Hlive Hnat Hnd Hnx Hfr Hre.
  split; try done. split_and!; try done. simpl. by rewrite Hlive.
Qed.

(** ... without a handle coming or going. *)
Lemma inv_spawns_same c s ready l : inv c →
  PosixRuntime.ok (others c + length l + countb alive (tasks c)) (runtime s) → live_count s = live_count (sh c) →
  (natives s + sum_list (sp_natives <$> spawns c) = natives (sh c) + sum_list (sp_natives <$> l))%nat →
  omap sp_handle l = omap sp_handle (spawns c) →
  ready = true ∨ tasks c = [] ∧ countb past_tls l = 0%nat →
  inv (mkConfig s ready (next_handle c) l (tasks c) (others c) (results c) (spawned c)).
Proof.
  intros I Hok Hlive Hnat Ho Hre. pose proof (i_sh _ I) as (_ & _ & Hn & _). unfold native_objects in Hn.
  apply inv_spawns; rewrite ?Ho; try done; [lia|apply (i_handles _ I)|apply (i_next _ I)|apply (i_fresh _ I)].
Qed.

Lemma ptask_spawn_start_inv c b : inv c → ∃ c', spawn_start c b = Done c' ∧ inv c'.
Proof.
  intros I. unfold spawn_start. destruct (Validation.validate_task_config _ _) as [?|e].
  2:{ eexists. split; [done|]. by apply inv_add_spawned. }
  pose proof (i_sh _ I) as (Hr & Hl & Hn & Hb). unfold leases, native_objects in *.
  destruct (PosixRuntime.prt_acquire _ _ Hr) as [[e ->]|(r & -> & Hok)]; simpl; (eexists; split; [done|]).
  { by apply inv_add_spawned. }
  apply (inv_spawns_same c (set_runtime (sh c) r) (tls_ready c) (spawns c ++ [SpTls b])); try done; simpl.
  - rewrite length_app. simpl. by replace (others c + (length (spawns c) + 1) + countb alive (tasks c))%nat
      with (S (others c + length (spawns c) + countb alive (tasks c))) by lia.
  - rewrite sum_snoc. simpl. lia.
  - rewrite omap_app. csimpl. by rewrite app_nil_r.
  - rewrite countb_app. simpl. rewrite Nat.add_0_r. apply (i_ready _ I).
Qed.

(** A step of [spawn] that stays among the calls under way. *)
Lemma spawn_continue_inv c i p p' n ready : inv c → spawns c !! i = Some p → sp_handle p = None → sp_handle p' = None →
  (n + sp_natives p = natives (sh c) + sp_natives p')%nat → (tls_ready c = true → ready = true) →
  (past_tls p' = true → ready = true) →
  inv (mkConfig (set_natives (sh c) n) ready (next_handle c) (<[i:=p']> (spawns c)) (tasks c) (others c) (results c) (spawned c)).
Proof.
  intros I E Hp Hp' Hn Hr Hr'. pose proof (i_sh _ I) as (Hok & _). unfold leases in Hok.
  apply (inv_spawns_same c (set_natives (sh c) n) ready (<[i:=p']> (spawns c))); try done; simpl.
  - by rewrite length_insert.
  - pose proof (sum_insert sp_natives _ i p p' E). lia.
  - rewrite <- (take_drop_middle _ _ _ E) at 2. rewrite insert_take_drop by (by eapply lookup_lt_Some).
    rewrite !omap_app. csimpl. by rewrite Hp, Hp'.
  - destruct (past_tls p') eqn:Ep; [left; auto|].
    destruct (i_ready _ I) as [?|[Ht Hc]]; [left; auto|]. right. split; [done|].
    pose proof (countb_insert past_tls _ i p p' E). rewrite Ep in *. simpl in *. lia.
Qed.

Lemma ptask_spawn_handle_inv c i b : inv c → spawns c !! i = Some (SpHandle b) →
  ∃ c', spawn_step c i (SpHandle b) (Ok ()) = Done c' ∧ inv c'.
Proof.
  intros I E. unfold spawn_step, allocate_task_handle. rewrite (TaskConfigFacts.allocate_spec _ (i_next _ I)).
  destruct (next_handle c =? uint_max usize_bits) eqn:En; bool_to_prop; (eexists; split; [done|]).
  - assert (sh c = set_natives (sh c) (natives (sh c))) as Es by (by destruct (sh c)).
    pose proof (spawn_continue_inv c i _ (SpFail Error.Overflow 2) (natives (sh c)) (tls_ready c) I E eq_refl eq_refl eq_refl) as Hi.
    rewrite <- Es in Hi. by apply Hi.
  - set (h := TaskHandle.TaskHandle (next_handle c)). pose proof (i_sh _ I) as (Hok & _ & Hn & _). unfold leases, native_objects in *.
    destruct (TaskMachine.omap_insert_perm sp_handle (spawns c) i _ (SpInner b h) E) as (l' & P & P'). simpl in P, P'.
    assert (∀ x, x ∈ (handle <$> tasks c) ++ l' → 1 ≤ TaskHandle.raw x < next_handle c) as Hfr.
    { intros x Hx. apply (i_fresh _ I). unfold all_handles. by rewrite P. }
    pose proof (i_next _ I) as Hnx.
    apply (inv_spawns c (sh c) (tls_ready c) (next_handle c + 1) (<[i:=SpInner b h]> (spawns c)) I).
    + by rewrite length_insert.
    + done.
    + pose proof (sum_insert sp_natives _ i _ (SpInner b h) E). simpl in *. lia.
    + rewrite P', <- Permutation_middle, NoDup_cons. split.
      * intros Hh%Hfr. simpl in Hh. lia.
      * pose proof (i_handles _ I) as Nd. unfold all_handles in Nd. by rewrite P in Nd.
    + lia.
    + intros x. rewrite P', <- Permutation_middle, elem_of_cons. intros [->|Hx%Hfr]; simpl; lia.
    + destruct (i_ready _ I) as [?|[Ht Hc]]; [by left|].
      pose proof (countb_pos past_tls _ i _ E eq_refl). lia.
Qed.

Lemma counted_alive k t : task_ok k t → counted t = true → alive t = true.
Proof.
  intros T. pose proof (to_refs _ _ _ T) as Hr. unfold counted, alive, start_ref in *.
  destruct (strong t); [|done]. destruct (tpc t), (spc t); simpl in *; done || lia.
Qed.

Lemma counted_bound c : inv c → (countb counted (tasks c) ≤ countb alive (tasks c))%nat.
Proof.
  intros I. assert (∀ l, (∀ i t, l !! i = Some t → ∃ k, task_ok k t) → (countb counted l ≤ countb alive l)%nat) as Hl.
  { induction l as [|t l IH]; intros Ht; simpl; [lia|]. specialize (IH (λ i u, Ht (S i) u)). destruct (Ht 0%nat t eq_refl) as [k T].
    pose proof (counted_alive k t T). destruct (counted t); [rewrite H0 by done|]; simpl; lia. }
  apply Hl. intros i t E. exists i. by apply (i_tasks _ I).
Qed.

Lemma spawn_inner_inv c i b h : inv c → spawns c !! i = Some (SpInner b h) →
  ∃ c', spawn_step c i (SpInner b h) (Ok ()) = Done c' ∧ inv c'.
Proof.
  intros I E. unfold spawn_step. eexists. split; [done|]. pose proof (counted_bound c I) as Hcb.
  pose proof (i_sh _ I) as (Hok & Hl & Hn & Hb). unfold leases, native_objects in *.
  pose proof (length_delete (spawns c) i ltac:(by eexists)) as Hlen. pose proof (lookup_lt_Some _ _ _ E) as Hlt.
  pose proof (PosixRuntime.prt_bound _ _ Hok) as Hbd.
  assert (∀ k t, tasks c !! k = Some t → ∃ t', (tasks c ++ [new_task b h]) !! k = Some t' ∧ kept t t') as Hk.
  { intros k t Et. exists t. rewrite lookup_app_l by (by eapply lookup_lt_Some). split; [done|]. by split_and!. }
  assert ((handle <$> tasks c ++ [new_task b h]) ++ omap sp_handle (delete i (spawns c)) ≡ₚ all_handles c) as P.
  { unfold all_handles. rewrite fmap_app, <- app_assoc. apply Permutation_app_head.
    rewrite delete_take_drop. rewrite <- (take_drop_middle _ _ _ E) at 3. rewrite !omap_app. csimpl.
    by rewrite <- Permutation_middle. }
  destruct I as [Ish Ita Iha Ine Ifr Ire Irs Isp].
  split; cbn [sh tls_ready next_handle spawns tasks others results spawned]; try done.
  - unfold leases, native_objects. cbn [spawns tasks others]. rewrite !countb_app. cbn [countb].
    change (alive (new_task b h)) with true. change (counted (new_task b h)) with true. cbn [Nat.b2n].
    split_and!; cbn [runtime live_count natives].
    + by replace (others c + length (delete i (spawns c)) + (countb alive (tasks c) + (1 + 0)))%nat
        with (others c + length (spawns c) + countb alive (tasks c))%nat by lia.
    + rewrite Hl. unfold wrapping_add. rewrite Z.mod_small; lia.
    + pose proof (sum_delete sp_natives _ i _ E). simpl in *. lia.
    + lia.
  - intros k t [Et|[Hle Et]]%lookup_app_Some; [by apply Ita|].
    destruct (k - _)%nat as [|[|?]]; simplify_eq/=. apply ptask_new_task_ok.
  - unfold all_handles. cbn [spawns tasks]. by rewrite P.
  - unfold all_handles. cbn [spawns tasks]. intros x. rewrite P. apply Ifr.
  - left. destruct Ire as [?|[_ Hc]]; [done|]. pose proof (countb_pos past_tls _ i _ E eq_refl). lia.
  - intros j x Ex. eapply (result_kept c); [exact Hk|by eapply Irs].
  - intros j x Ex. eapply (spawned_kept c); [exact Hk|by eapply Isp].
Qed.

Lemma spawn_fail_inv c i e n : inv c → spawns c !! i = Some (SpFail e n) →
  ∃ c', spawn_step c i (SpFail e n) (Ok ()) = Done c' ∧ inv c'.
Proof.
  intros I E. unfold spawn_step. pose proof (i_sh _ I) as (Hok & Hl & Hn & Hb). unfold leases, native_objects in *.
  pose proof (length_delete (spawns c) i ltac:(by eexists)) as Hlen. pose proof (lookup_lt_Some _ _ _ E) as Hlt.
  replace (others c + length (spawns c) + countb alive (tasks c))%nat
    with (S (others c + length (delete i (spawns c)) + countb alive (tasks c))) in Hok by lia.
  destruct (PosixRuntime.prt_lease_drop _ _ Hok) as (r & -> & Hr). simpl. eexists. split; [done|].
  apply inv_add_spawned; [|done]. pose proof (sum_delete sp_natives _ i _ E) as Hs. simpl in Hs.
  apply (inv_spawns_same c (mkShared r (live_count (sh c)) (natives (sh c) - n)) (tls_ready c) (delete i (spawns c)) I); try done; simpl.
  - lia.
  - rewrite delete_take_drop. rewrite <- (take_drop_middle _ _ _ E) at 3. rewrite !omap_app. by csimpl.
  - destruct (i_ready _ I) as [?|[? Hc]]; [by left|right]. split; [done|].
    pose proof (countb_delete past_tls _ i _ E). lia.
Qed.

Lemma ptask_spawn_step_inv c i p made : inv c → spawns c !! i = Some p → ∃ c', spawn_step c i p made = Done c' ∧ inv c'.
Proof.
  intros I E.
  assert (∀ p' n ready, (n + sp_natives p = natives (sh c) + sp_natives p')%nat → sp_handle p = None → sp_handle p' = None →
    (tls_ready c = true → ready = true) → (past_tls p' = true → ready = true) →
    ∃ c', Done (mkConfig (set_natives (sh c) n) ready (next_handle c) (<[i:=p']> (spawns c)) (tasks c) (others c) (results c) (spawned c)) = Done c' ∧ inv c') as Hgo.
  { intros p' n ready Hn Hp Hp' H1 H2. eexists. split; [done|]. by apply (spawn_continue_inv c i p p' n ready). }
  assert (sh c = set_natives (sh c) (natives (sh c))) as Es by (by destruct (sh c)).
  assert (past_tls p = true → tls_ready c = true) as Hr.
  { intros Hp. destruct (i_ready _ I) as [?|[_ Hc]]; [done|]. pose proof (countb_pos past_tls _ i _ E Hp). lia. }
  destruct p as [b|b|b|b|b h|e n].
  - unfold spawn_step, get_or_init. simpl.
    assert (∀ p' ready, sp_natives p' = 0%nat → sp_handle p' = None → (tls_ready c = true → ready = true) → (past_tls p' = true → ready = true) →
      ∃ c', Done (set_spawns (mkConfig (sh c) ready (next_handle c) (spawns c) (tasks c) (others c) (results c) (spawned c))
                    (<[i:=p']> (spawns c))) = Done c' ∧ inv c') as Hq.
    { intros p' ready H0 Hp' H1 H2. unfold set_spawns. simpl. rewrite Es. apply (Hgo p' (natives (sh c)) ready); try done. simpl. lia. }
    destruct (tls_ready c) eqn:Er; [by apply (Hq (SpMutex b) true)|]. destruct made as [[]|e]; simpl.
    + by apply (Hq (SpMutex b) true).
    + by apply (Hq (SpFail e 0) false).
  - unfold spawn_step, set_spawns. simpl. destruct made as [?|e].
    + apply (Hgo (SpCondvar b) (S (natives (sh c))) (tls_ready c)); try done; auto.
    + simpl. rewrite Es. apply (Hgo (SpFail e 0) (natives (sh c)) (tls_ready c)); done.
  - unfold spawn_step, set_spawns. simpl. destruct made as [?|e].
    + apply (Hgo (SpHandle b) (S (natives (sh c))) (tls_ready c)); try done; auto.
    + simpl. rewrite Es. apply (Hgo (SpFail e 1) (natives (sh c)) (tls_ready c)); done.
  - exact (ptask_spawn_handle_inv c i b I E).
  - exact (spawn_inner_inv c i b h I E).
  - exact (spawn_fail_inv c i e n I E).
Qed.

(** *** All events *)

Lemma ptask_current_spec c k t : inv c → tasks c !! k = Some t →
  current c (Some k) = Done (if inside (tpc t) then Some (handle t) else None).
Proof.
  intros I E. pose proof (i_tasks _ I k t E) as T. unfold current.
  assert (tls_ready c = true) as -> by (destruct (i_ready _ I) as [?|[Ht _]]; [done|by rewrite Ht in E]).
  simpl. rewrite E. simpl. rewrite (to_tls _ _ _ T). destruct (inside (tpc t)) eqn:Ei; [|done]. rewrite E. simpl.
  rewrite access_ok; [done|]. pose proof (to_refs _ _ _ T) as Hr. unfold alive, start_ref in *.
  destruct (strong t); [|done]. by destruct (tpc t); simpl in *; lia || done.
Qed.

Lemma ptask_join_start_inv c caller k t tmo : inv c → event_ok c (Join caller k tmo) → tasks c !! k = Some t → handles t ≠ 0%nat →
  ∃ c', join_start c caller k t tmo = Done c' ∧ inv c'.
Proof.
  intros I He E Hh. unfold join_start.
  assert (∃ o, current c caller = Done o) as [o ->].
  { destruct caller as [i|]; [|unfold current; simpl; by destruct (tls_ready c); eexists].
    destruct He as (u & Eu & _). rewrite (ptask_current_spec c i u I Eu). eauto. }
  simpl. case_decide; (eexists; split; [done|]).
  - apply inv_add_result; [done|]. by left.
  - destruct (join_enter k t tmo (i_tasks _ I _ _ E) Hh) as (T' & ? & ? & K). by apply (inv_task_same c k t).
Qed.

Lemma posix_task_exec c e r : inv c → event_ok c e → exec c e = Some r → ∃ c', r = Done c' ∧ inv c'.
Proof.
  intros I He Er. destruct e as [| |i res| | |b|i made|k rcs rc|k created rc|caller k tmo|k j dl timed_out rc|k|k];
    try (by eapply runtime_event_inv); simpl in Er.
  - simplify_eq. by apply ptask_spawn_start_inv.
  - destruct (spawns c !! i) as [p|] eqn:Ep; simplify_eq/=. by apply ptask_spawn_step_inv.
  - destruct (tasks c !! k) as [t|] eqn:Et; simplify_eq/=.
    destruct (spawner_step stack_min rcs rc t (sh c)) as [m|] eqn:Em; simplify_eq/=.
    destruct (spawner_spec _ _ _ stack_min rcs rc k t (sh c) m (i_tasks _ I _ _ Et) (task_shares c k t I Et)) as (t' & s' & a & -> & T' & S' & K & A);
      [by eauto|done|]. simpl. eexists. split; [done|]. pose proof (ptask_inv_task c k t t' s' I Et T' K S') as I'.
    destruct a as [[[]|e]|]; [apply inv_add_spawned; [done|]..|done]; [|done].
    exists t'. simpl. rewrite list_lookup_insert_eq by (by eapply lookup_lt_Some). split; [done|]. apply A.
  - destruct (tasks c !! k) as [t|] eqn:Et; simplify_eq/=. destruct (get_or_init (tls_ready c) created) as [key ready] eqn:Ek.
    destruct (trampoline_step key rc k t (sh c)) as [m|] eqn:Em; simplify_eq/=.
    destruct (trampoline_spec _ _ _ key rc k t (sh c) m (i_tasks _ I _ _ Et) (task_shares c k t I Et)) as (t' & s' & -> & T' & S' & K); [done|].
    simpl. eexists. split; [done|]. pose proof (ptask_inv_task c k t t' s' I Et T' K S') as I'. case_decide; [|done].
    assert (ready = true) as ->.
    { destruct (i_ready _ I) as [Hr|[Ht _]]; [|by rewrite Ht in Et]. unfold get_or_init in Ek. rewrite Hr in Ek. by simplify_eq. }
    destruct I'. split; try done. by left.
  - destruct (tasks c !! k) as [t|] eqn:Et; simplify_eq/=. destruct (handles t) as [|n] eqn:Eh; simplify_eq/=.
    apply ptask_join_start_inv; try done. by rewrite Eh.
  - destruct (tasks c !! k) as [t|] eqn:Et; simplify_eq/=. destruct (joins t !! j) as [x|] eqn:Ex; simplify_eq/=.
    destruct (join_step dl timed_out rc j x t) as [m|] eqn:Em; simplify_eq/=.
    destruct (join_spec dl timed_out rc k t j x m (i_tasks _ I _ _ Et) Ex Em) as (t' & a & -> & T' & ? & ? & K & _ & A).
    simpl. eexists. split; [done|]. pose proof (inv_task_same c k t t' I Et T' K) as I'.
    destruct a as [a|]; [|by apply I']. apply inv_add_result; [by apply I'|]. right. exists t'. simpl.
    rewrite list_lookup_insert_eq by (by eapply lookup_lt_Some). split; [done|]. by apply A.
  - destruct (tasks c !! k) as [t|] eqn:Et; simplify_eq/=. destruct (handles t) as [|n] eqn:Eh; simplify_eq/=.
    pose proof (i_tasks _ I _ _ Et) as T. destruct (clone_ok k t T) as (T' & Ha & Hc & K); [lia|]. rewrite Eh in *.
    rewrite access_ok by (pose proof (to_refs _ _ _ T); unfold alive; destruct (strong t); done || lia).
    simpl. eexists. split; [done|]. by apply (inv_task_same c k t).
  - destruct (tasks c !! k) as [t|] eqn:Et; simplify_eq/=. destruct (handles t) as [|n] eqn:Eh; simplify_eq/=.
    assert ((n = 0%nat → joins t = []) ∧ r = ('(t, s) ← arc_drop t (sh c); Done (set_task (set_sh c s) k (set_handles t n)))) as [Hj ->].
    { destruct n as [|n]; [destruct (joins t); simplify_eq|simplify_eq]; done. }
    destruct (drop_handle_ok _ _ _ k t (sh c) n (i_tasks _ I _ _ Et) (task_shares c k t I Et) Eh Hj) as (t' & s' & -> & T' & S' & K).
    simpl. eexists. split; [done|]. by apply (ptask_inv_task c k t).
Qed.

Lemma posix_task_reachable c : reachable c → inv c.
Proof.
  induction 1 as [|c e c' R I He Ex]; [apply posix_task_init|].
  by destruct (posix_task_exec c e _ I He Ex) as (c2 & [= <-] & I').
Qed.

(** *** Runs *)

Fixpoint exec_all (c : config) (es : list event) : option config :=
  match es with
  | [] => Some c
  | e :: es => match exec c e with Some (Done c') => exec_all c' es | _ => None end
  end.

Fixpoint events_ok (c : config) (es : list event) : Prop :=
  match es with
  | [] => True
  | e :: es => event_ok c e ∧ match exec c e with Some (Done c') => events_ok c' es | _ => False end
  end.

Lemma ptask_runs_reachable es : ∀ c c', reachable c → events_ok c es → exec_all c es = Some c' → reachable c'.
Proof.
  induction es as [|e es IH]; intros c c' R Ho E; simpl in *; [by simplify_eq|]. destruct Ho as [He Ho].
  destruct (exec c e) as [[c1| |]|] eqn:Ex; try done. eapply IH; [|done..]. by eapply pk_step.
Qed.

Lemma ptask_exec_app es es' c c1 : exec_all c es = Some c1 → exec_all c (es ++ es') = exec_all c1 es'.
Proof.
  revert c. induction es as [|e es IH]; intros c E; simpl in *; [by simplify_eq|].
  destruct (exec c e) as [[]|]; try done. auto.
Qed.

(** How far a thread whose entry has returned is from its exit. *)
Definition steps_left (p : trampoline_pc) : option nat :=
  match p with
  | TDropToken => Some 7 | TFinish => Some 6 | TBroadcast => Some 5 | TRestoreTls => Some 4
  | TDropContext => Some 3 | TDropStart => Some 2 | TExit => Some 1 | TExited => Some 0
  | _ => None
  end%nat.

(** What the thread's last steps leave of a join. *)
Definition same_joins (t t' : task) : Prop :=
  handles t' = handles t ∧ joined (join_state t') = joined (join_state t) ∧ (joins t' = joins t ∨ joins t' = wake <$> joins t).

Lemma trampoline_progress c k t n : inv c → tasks c !! k = Some t → steps_left (tpc t) = Some (S n) →
  ∃ t' s, exec c (Trampoline k (Ok ()) 0) = Some (Done (set_task (set_sh c s) k t')) ∧ steps_left (tpc t') = Some n ∧ same_joins t t'.
Proof.
  intros I E Hn. pose proof (i_tasks _ I k t E) as T. pose proof (task_shares c k t I E) as S.
  assert (tls_ready c = true) as Hr by (destruct (i_ready _ I) as [?|[Ht _]]; [done|by rewrite Ht in E]).
  assert (tpc t = TExit ∨ alive t = true) as Ha.
  { pose proof (to_refs _ _ _ T) as Hf. unfold alive, start_ref in *. destruct (tpc t); try done; auto;
      right; destruct (strong t); done || (simpl in *; lia). }
  assert (∃ t' s, trampoline_step (Ok ()) 0 k t (sh c) = Some (Done (t', s)) ∧ steps_left (tpc t') = Some n ∧ same_joins t t') as (t' & s & Et & Hs & Hj).
  { unfold trampoline_step. destruct (tpc t) eqn:Ep; simplify_eq/=; try (destruct Ha as [|Ha]; [done|]); rewrite ?access_ok by done; simpl.
    - destruct (drop_token t (sh c)) as [t1 s1] eqn:Ed. unfold drop_token in Ed.
      eexists _, _. split; [done|]. destruct (live_token t); simplify_eq; (split; [done|]); by split_and!; auto.
    - eexists _, _. split; [done|]. split; [done|]. split_and!; auto. simpl.
      pose proof (to_running _ _ _ T) as Hrn. unfold over in Hrn. rewrite Ep in Hrn.
      assert (running (join_state t) = true) by (by destruct (startup t)). by destruct (join_state t).
    - eexists _, _. split; [done|]. split; [done|]. split_and!; auto.
    - eexists _, _. split; [done|]. split; [done|]. split_and!; auto.
    - destruct (trampoline_drop _ _ _ k t (sh c) T S ltac:(auto)) as (s' & -> & _). simpl. eexists _, _. split; [done|]. split; [done|].
      unfold arc_dropped, same_joins. destruct (pred (strong t)); [case_decide|]; auto.
    - destruct (trampoline_drop _ _ _ k t (sh c) T S ltac:(auto)) as (s' & -> & _). simpl. eexists _, _. split; [done|]. split; [done|].
      unfold arc_dropped, same_joins. destruct (pred (strong t)); [case_decide|]; auto.
    - eexists _, _. split; [done|]. split; [done|]. split_and!; auto. }
  exists t', s. split_and!; try done. simpl. rewrite E. unfold get_or_init. rewrite Hr. simpl. rewrite Et. simpl.
  rewrite decide_False; [done|]. intros Ep. by rewrite Ep in Hn.
Qed.

Lemma wake_twice (l : list join_call) : wake <$> (wake <$> l) = wake <$> l.
Proof.
  rewrite <- list_fmap_compose. apply list_fmap_ext. intros i x _. unfold compose, wake.
  destruct (jpc x) eqn:E; simpl; by rewrite ?E.
Qed.

Lemma same_joins_trans t1 t2 t3 : same_joins t1 t2 → same_joins t2 t3 → same_joins t1 t3.
Proof.
  intros (Hh & Hd & Hj) (Hh' & Hd' & Hj'). split_and!; [congruence..|].
  destruct Hj as [Hj|Hj], Hj' as [Hj'|Hj']; rewrite Hj', Hj; rewrite ?wake_twice; auto.
Qed.

Lemma trampoline_exits k n : ∀ c t, inv c → tasks c !! k = Some t → steps_left (tpc t) = Some n →
  ∃ c' t', exec_all c (replicate n (Trampoline k (Ok ()) 0)) = Some c' ∧ inv c' ∧ tasks c' !! k = Some t' ∧
    tpc t' = TExited ∧ same_joins t t' ∧ results c' = results c ∧ kept t t'.
Proof.
  induction n as [|n IH]; intros c t I E Hn.
  - exists c, t. assert (tpc t = TExited) by (by destruct (tpc t)).
    assert (same_joins t t) by (split_and!; auto). assert (kept t t) by (by split_and!). done.
  - destruct (trampoline_progress c k t n I E Hn) as (t1 & s & Ex & Hn1 & J1).
    destruct (posix_task_exec c (Trampoline k (Ok ()) 0) _ I ltac:(done) Ex) as (c1 & [= <-] & I1).
    assert (kept t t1) as K1.
    { simpl in Ex. rewrite E in Ex. destruct (get_or_init (tls_ready c) (Ok ())) as [key ready] eqn:Ek. simpl in Ex.
      destruct (trampoline_step key 0 k t (sh c)) as [m|] eqn:Em; simplify_eq/=.
      destruct (trampoline_spec _ _ _ key 0 k t (sh c) m (i_tasks _ I _ _ E) (task_shares c k t I E) Em) as (t2 & s2 & -> & _ & _ & K).
      simpl in Ex. assert (<[k:=t2]> (tasks c) !! k = <[k:=t1]> (tasks c) !! k) as Eq by (case_decide; simplify_eq/=; done || congruence).
      rewrite !list_lookup_insert_eq in Eq by (by eapply lookup_lt_Some). by simplify_eq. }
    destruct (IH _ t1 I1) as (c' & t' & Ea & I' & E' & Hx & J & Hr & K); try done.
    { simpl. apply list_lookup_insert_eq. by eapply lookup_lt_Some. }
    exists c', t'. split_and!; try done; [|by eapply same_joins_trans|].
    + cbn [replicate exec_all]. rewrite Ex. exact Ea.
    + destruct K1 as (? & ? & ? & ?), K as (? & ? & ? & ?). split_and!; auto; congruence.
Qed.

(** The three steps of the join that reaps the thread. *)
Lemma join_reaps c k j t x : inv c → tasks c !! k = Some t → tpc t = TExited → joins t !! j = Some x → jpc x = JLoop →
  join_state t = Finished ExitCode.SUCCESS →
  ∃ c' t', exec_all c (replicate 3 (JoinStep k j (Ok ()) false 0)) = Some c' ∧
    results c' = results c ++ [(k, timeout x, Ok ExitCode.SUCCESS)] ∧ tasks c' !! k = Some t' ∧ native t' = JoinedThread.
Proof.
  intros I E Ex Ej Ep Es. pose proof (i_tasks _ I k t E) as T. destruct (join_facts k t j x T Ej) as (_ & _ & Ha & _ & _ & Hm).
  rewrite Es in Hm. destruct Hm as [Ht Hn].
  pose proof (lookup_lt_Some _ _ _ E) as Hk. pose proof (lookup_lt_Some _ _ _ Ej) as Hl.
  cbn [replicate exec_all exec]. rewrite E. simpl. rewrite Ej. simpl. unfold join_step. rewrite Ep, access_ok, Es by done. simpl.
  rewrite list_lookup_insert_eq by done. simpl. rewrite list_lookup_insert_eq by done. simpl. rewrite Ht. unfold try_join. simpl.
  rewrite Ht, decide_True, bool_decide_true by done. simpl. rewrite access_ok by done. simpl.
  rewrite list_lookup_insert_eq by (by rewrite length_insert). simpl.
  rewrite list_lookup_insert_eq by (by rewrite length_insert). simpl. rewrite access_ok by done. simpl.
  eexists _, _. split; [done|]. split; [done|]. split.
  - simpl. apply list_lookup_insert_eq. by rewrite !length_insert.
  - done.
Qed.


(** *** Properties *)

(** C29: No interleaving of spawns, joins, clones, drops, entries and starts and stops of
    the runtime panics or touches a task after its last reference; a thread is
    joined or detached only while it is joinable and at most one joiner has claimed
    it; [count] is the number of tasks whose entry is not over; no two tasks share
    a handle; [current] is the calling task, and [spawn] returns a task only after
    that holds in it. *)
Theorem posix_tasks_safe c : reachable c →
  (∀ e, event_ok c e → exec c e = None ∨ ∃ c', exec c e = Some (Done c')) ∧
  count c = Z.of_nat (countb counted (tasks c)) ∧
  (∀ k k' t t', tasks c !! k = Some t → tasks c !! k' = Some t' → handle t = handle t' → k = k') ∧
  (∀ k t, tasks c !! k = Some t → tpc t = TEntry → current c (Some k) = Done (Some (handle t))) ∧
  (∀ k t, tasks c !! k = Some t → (countb reaper (joins t) ≤ 1)%nat ∧ (handles t ≠ 0%nat → startup t = Ready)).
Proof.
  intros R. pose proof (posix_task_reachable c R) as I. split_and!.
  - intros e He. destruct (exec c e) as [r|] eqn:Er; [|by left]. right.
    destruct (posix_task_exec c e r I He Er) as (c' & -> & _). eauto.
  - apply (i_sh _ I).
  - intros k k' t t' E E' Hh. pose proof (i_handles _ I) as Nd. unfold all_handles in Nd. apply NoDup_app in Nd as (Nd & _ & _).
    apply (NoDup_lookup _ k k' (handle t) Nd); rewrite list_lookup_fmap, ?E, ?E'; [done|]. simpl. by rewrite Hh.
  - intros k t E Ep. rewrite (ptask_current_spec c k t I E). by rewrite Ep.
  - intros k t E. pose proof (i_tasks _ I k t E) as T. split.
    + rewrite (to_reaper _ _ _ T). destruct (joining _); simpl; lia.
    + intros Hh. pose proof (to_spawner _ _ _ T) as Ho. pose proof (to_refs _ _ _ T) as Hr. unfold spawner_ok in Ho.
      destruct (spc t); try tauto. destruct (strong t); [lia|]. apply Ho.
Qed.

(** C30: What [join] returns is right: a code is the exit code of a task whose entry is
    over, and a join that may wait returns it only with the thread reaped; [Forever]
    never times out, it fails only on itself or when [pthread_join] does. *)
Theorem posix_join_sound c i k tmo r : reachable c → results c !! i = Some (k, tmo, r) →
  match r with
  | Ok code => code = ExitCode.SUCCESS ∧ ∃ t, tasks c !! k = Some t ∧ over t = true ∧ live_token t = false ∧
                 (tmo ≠ Timeout.NoWait → native t = JoinedThread ∧ tpc t = TExited)
  | Err e => tmo = Timeout.Forever → e = Error.Busy ∨ e = Error.Internal "pthread_join failed"
  end.
Proof.
  intros R E. pose proof (posix_task_reachable c R) as I. pose proof (i_results _ I _ _ E) as [->|(t & Et & Ha)]; [auto|].
  pose proof (i_tasks _ I _ _ Et) as T. destruct r as [code|e]; simpl in Ha.
  - destruct Ha as (-> & Ho & Hn). split; [done|]. exists t. split_and!; try done.
    + rewrite (to_token _ _ _ T). unfold over, counted in *. by destruct (startup t), (tpc t).
    + intros Ht. split; [auto|]. by apply (to_exited _ _ _ T), Hn.
  - intros ->. destruct Ha as [[_ ?]|[[d ?]|[_ ->]]]; try done. auto.
Qed.

(** Nothing leaks: the leases are those of other objects, of spawns under way and
    of the tasks still referenced; so are the mutexes and condition variables, two
    each; and a task nobody refers to has left no joinable thread behind. *)
Theorem posix_task_resources c : reachable c →
  PosixRuntime.ok (leases c) (runtime (sh c)) ∧ natives (sh c) = native_objects c ∧
  (∀ k t, tasks c !! k = Some t → strong t = 0%nat → native t ≠ Joinable ∧ thread t = None ∧ live_token t = false) ∧
  (spawns c = [] → (∀ k t, tasks c !! k = Some t → strong t = 0%nat) → natives (sh c) = 0%nat ∧ count c = 0).
Proof.
  intros R. pose proof (posix_task_reachable c R) as I. pose proof (i_sh _ I) as (Hok & Hl & Hn & _).
  assert (∀ k t, tasks c !! k = Some t → strong t = 0%nat → native t ≠ Joinable ∧ thread t = None ∧ live_token t = false) as Hz.
  { intros k t E Hs. pose proof (i_tasks _ I k t E) as T. pose proof (to_refs _ _ _ T) as Hr. pose proof (to_spawner _ _ _ T) as Ho.
    assert (live_token t = false) as Ht.
    { rewrite (to_token _ _ _ T). destruct (counted t) eqn:Hc; [|done].
      pose proof (counted_alive k t T Hc) as Ha. unfold alive in Ha. by rewrite Hs in Ha. }
    unfold spawner_ok in Ho. destruct (spc t); simpl in Hr; try lia. rewrite Hs in Ho. by destruct Ho. }
  split_and!; try done. intros Hsp Hst. unfold native_objects in Hn. rewrite Hsp in Hn. simpl in Hn.
  assert (countb alive (tasks c) = 0%nat) as Ha.
  { apply countb_zero, Forall_lookup. intros k t E. unfold alive. by rewrite (Hst k t E). }
  assert (countb counted (tasks c) = 0%nat) as Hc by (pose proof (counted_bound c I); lia).
  unfold count. rewrite Hl, Hc, Hn, Ha. done.
Qed.

(** C32: A join gets its task: when the entry of a task has returned, a join that waits
    for it returns the exit code and has reaped the thread after the seven last
    steps of the thread and three of its own. *)
Theorem posix_join_completes c k j t x : reachable c → tasks c !! k = Some t → tpc t = TDropToken →
  joins t !! j = Some x → jpc x = JBlocked ∨ jpc x = JLoop →
  ∃ c' t', exec_all c (replicate 7 (Trampoline k (Ok ()) 0) ++ replicate 3 (JoinStep k j (Ok ()) false 0)) = Some c' ∧
    results c' = results c ++ [(k, timeout x, Ok ExitCode.SUCCESS)] ∧ tasks c' !! k = Some t' ∧ native t' = JoinedThread.
Proof.
  intros R E Ep Ej Hx. pose proof (posix_task_reachable c R) as I. pose proof (i_tasks _ I k t E) as T.
  destruct (join_facts k t j x T Ej) as (_ & _ & _ & Hst & _).
  assert (join_state t = Running) as Hjs.
  { pose proof (to_running _ _ _ T) as Hr. unfold over in Hr. rewrite Ep, Hst in Hr. by destruct (join_state t). }
  destruct (trampoline_exits k 7 c t I E ltac:(by rewrite Ep)) as (c1 & t1 & Ea & I1 & E1 & Hex & (_ & Hd & Hj) & Hr & K).
  pose proof (i_tasks _ I1 k t1 E1) as T1.
  assert (startup t1 = Ready) as Hst1 by (by apply K). assert (over t1 = true) as Ho by (unfold over; by rewrite Hst1, Hex).
  pose proof (to_reaper _ _ _ T) as Hc. rewrite Hjs in Hc. simpl in Hc.
  assert (countb reaper (joins t1) = 0%nat) as Hc1 by (destruct Hj as [-> | ->]; rewrite ?reaper_wake; done).
  assert (join_state t1 = Finished ExitCode.SUCCESS) as Hjs1.
  { pose proof (to_running _ _ _ T1) as Hrn. pose proof (to_reaper _ _ _ T1) as Hrp. pose proof (to_code _ _ _ T1) as Hcd.
    rewrite Ho in Hrn. rewrite Hc1 in Hrp. rewrite Hjs in Hd. by destruct (join_state t1); simplify_eq/=. }
  assert (∃ x1, joins t1 !! j = Some x1 ∧ timeout x1 = timeout x ∧ jpc x1 = JLoop) as (x1 & Ej1 & Htm & Hp1).
  { destruct Hj as [Hj|Hj]; rewrite Hj.
    - exists x. split_and!; try done. destruct Hx as [Hx|]; [|done]. pose proof (to_joins _ _ _ T1 j x ltac:(by rewrite Hj)) as Hok.
      unfold join_ok in Hok. rewrite Hx, Hjs1, Hex in Hok. naive_solver.
    - exists (wake x). rewrite list_lookup_fmap, Ej. split_and!; try done; unfold wake; by destruct Hx as [Hx|Hx]; rewrite Hx. }
  destruct (join_reaps c1 k j t1 x1 I1 E1 Hex Ej1 Hp1 Hjs1) as (c' & t' & Ea' & Hr' & E' & Hn).
  exists c', t'. rewrite (ptask_exec_app _ _ _ _ Ea). split_and!; try done. by rewrite Hr', Hr, Htm.
Qed.

End PosixTaskMachine.
End PosixTaskMachine.

(** ** Witnesses *)

Module PosixTaskWitness.
Import PosixTask PosixTaskState PosixTaskMachine.

#[local] Existing Instance arch64.

Definition start_up : list event := [InitBegin; TransitionEnd 0 (Ok ())].
Definition spawn_one : list event :=
  [Spawn builder_new] ++ replicate 5 (SpawnStep 0 (Ok ())) ++ replicate 2 (Spawner 0 (0, 0, 0) 0) ++
  replicate 2 (Trampoline 0 (Ok ()) 0) ++ [Spawner 0 (0, 0, 0) 0; Trampoline 0 (Ok ()) 0].
(** A task in its entry with a joiner asleep. *)
Definition in_entry : list event := start_up ++ spawn_one ++ [Join None 0 Timeout.Forever; JoinStep 0 0 (Ok ()) false 0].
(** Its entry has returned; everything is over. *)
Definition returned : list event := in_entry ++ [Trampoline 0 (Ok ()) 0].
Definition to_end : list event :=
  returned ++ replicate 7 (Trampoline 0 (Ok ()) 0) ++ replicate 3 (JoinStep 0 0 (Ok ()) false 0) ++ [DropHandle 0].

Definition final (es : list event) : config := default start_config (exec_all 16384 start_config es).

Ltac run_ok := vm_compute; repeat (match goal with |- _ ∧ _ => split end); try reflexivity; try exact I; try (intros; discriminate).

Lemma ptask_final_reachable es : events_ok 16384 start_config es → exec_all 16384 start_config es = Some (final es) →
  reachable 16384 (final es).
Proof. intros Ho E. by apply (ptask_runs_reachable 16384 es start_config); [apply pk_init|..]. Qed.

Lemma posix_tasks_safe_witness :
  count (final in_entry) = 1 ∧ current (final in_entry) (Some 0%nat) = Done (Some (TaskHandle.TaskHandle 1)).
Proof.
  destruct (posix_tasks_safe 16384 (final in_entry)) as (_ & Hc & _ & Hcur & _).
  - apply ptask_final_reachable; run_ok; intros; vm_compute in *; simplify_eq.
  - split; [rewrite Hc; vm_compute; reflexivity|].
    assert (∃ t, tasks (final in_entry) !! 0%nat = Some t ∧ tpc t = TEntry) as (t & E & Hb) by (vm_compute; eauto).
    assert (handle <$> tasks (final in_entry) !! 0%nat = Some (TaskHandle.TaskHandle 1)) as Hh by (vm_compute; reflexivity).
    rewrite E in Hh. injection Hh as Hh. rewrite (Hcur 0%nat t E Hb), Hh. reflexivity.
Defined.

Lemma posix_join_sound_witness :
  results (final to_end) = [(0%nat, Timeout.Forever, Ok ExitCode.SUCCESS)] ∧
  ∃ t, tasks (final to_end) !! 0%nat = Some t ∧ native t = JoinedThread.
Proof.
  split; [vm_compute; reflexivity|].
  destruct (posix_join_sound 16384 (final to_end) 0 0 Timeout.Forever (Ok ExitCode.SUCCESS)) as (_ & t & E & _ & _ & Hn).
  - apply ptask_final_reachable; run_ok; intros; vm_compute in *; simplify_eq.
  - vm_compute. reflexivity.
  - exists t. split; [exact E|]. apply Hn. discriminate.
Defined.

Lemma posix_task_resources_witness : natives (sh (final to_end)) = 0%nat ∧ count (final to_end) = 0.
Proof.
  destruct (posix_task_resources 16384 (final to_end)) as (_ & _ & _ & Hz).
  - apply ptask_final_reachable; run_ok; intros; vm_compute in *; simplify_eq.
  - apply Hz; [vm_compute; reflexivity|]. intros [|[|k]] t E; vm_compute in E; simplify_eq. reflexivity.
Defined.

Lemma posix_join_completes_witness :
  ∃ c', exec_all 16384 (final returned) (replicate 7 (Trampoline 0 (Ok ()) 0) ++ replicate 3 (JoinStep 0 0 (Ok ()) false 0)) = Some c' ∧
    results c' = [(0%nat, Timeout.Forever, Ok ExitCode.SUCCESS)].
Proof.
  edestruct (posix_join_completes 16384 (final returned) 0 0) as (c' & t' & E & Hr & _).
  - apply ptask_final_reachable; run_ok; intros; vm_compute in *; simplify_eq.
  - vm_compute. reflexivity.
  - reflexivity.
  - reflexivity.
  - left. reflexivity.
  - exists c'. split; [exact E|exact Hr].
Defined.

End PosixTaskWitness.
