(* ===== verification/TimerEquiv.v ===== *)
(** * The two timer services are the same timers

    [timer_service.rs] of [osal-backend-posix] takes a callback in two locked
    sections (a round of [run], then [dispatch_one]); the one of
    [osal-backend-freertos] in one.  They clean up deleted entries at different
    times.  The FreeRTOS one can also refuse: [start] and [reset] return the error
    of [ensure_worker], and [register] fails where it cannot reserve memory.  Here
    both are run on the same requests at the same instants, less, for the POSIX one,
    those that were refused: the registries stay equal up to deleted entries, and
    every call returns the same and every round calls the same callback. *)

From S2P Require Import Prelude Api Time Kernel FreeRtosTask PosixSys TimerRegistry PosixTimer FreeRtosTimer.
Import Duration (as_nanos).

(** ** Registries up to deleted entries *)

Module RegistryEquiv.
Import TimerRegistry TimerRegistryFacts.

#[export] Instance registry_equiv : Equiv TimerServiceState := λ s s', retain s = retain s'.

#[export] Instance registry_equivalence : Equivalence (≡@{TimerServiceState}).
Proof.
  split; [by intros s|by intros s s'|]. intros s s' s''. unfold equiv, registry_equiv. congruence.
Qed.

Lemma retain_retain st : retain (retain st) = retain st.
Proof. unfold retain, set_timers. simpl. by rewrite list_filter_filter_l. Qed.

Lemma retain_equiv st : retain st ≡ st.
Proof. apply retain_retain. Qed.

#[export] Instance retain_proper : Proper ((≡) ==> (=)) retain.
Proof. by intros s s'. Qed.
#[export] Instance stop_requested_proper : Proper ((≡) ==> (=)) stop_requested.
Proof. intros s s' E. by injection E. Qed.
#[export] Instance next_id_proper : Proper ((≡) ==> (=)) next_id.
Proof. intros s s' E. by injection E. Qed.
#[export] Instance live_ids_proper : Proper ((≡) ==> (=)) live_ids.
Proof. intros s s' E. rewrite <- (live_ids_retain s), <- (live_ids_retain s'). by rewrite E. Qed.

(** A live timer is found among the live ones, and replacing it there is the same
    up to deleted entries. *)
Lemma find_filter i (l : list TimerEntry) :
  match list_find (matches i) l with
  | None => list_find (matches i) (filter live l) = None
  | Some (k, e) => ∃ k', list_find (matches i) (filter live l) = Some (k', e) ∧
      ∀ e', filter live (<[k':=e']> (filter live l)) = filter live (<[k:=e']> l)
  end.
Proof.
  induction l as [|x l IH]; [done|]. rewrite filter_cons. simpl. destruct (decide (matches i x)) as [M|M].
  - pose proof M as [_ L]. rewrite decide_True by done. exists 0%nat. simpl. rewrite decide_True by done.
    split; [done|]. intros e'. simpl. rewrite !filter_cons. by rewrite list_filter_filter_l.
  - destruct (list_find (matches i) l) as [[k e]|]; simpl.
    + destruct IH as (k' & Ek & Hi). case_decide as L.
      * exists (S k'). simpl. rewrite decide_False, Ek by done. split; [done|]. intros e'. simpl.
        by rewrite !filter_cons, Hi.
      * exists k'. split; [done|]. intros e'. simpl. by rewrite filter_cons, decide_False, Hi.
    + case_decide; simpl; [|done]. by rewrite decide_False, IH.
Qed.

Lemma find_retain i st :
  match find i st with
  | None => find i (retain st) = None
  | Some (k, e) => ∃ k', find i (retain st) = Some (k', e) ∧
      ∀ e', set_timers (retain st) (<[k':=e']> (timers (retain st))) ≡ set_timers st (<[k:=e']> (timers st))
  end.
Proof.
  pose proof (find_filter i (timers st)) as F. unfold find. destruct (list_find (matches i) (timers st)) as [[k e]|]; [|done].
  destruct F as (k' & Ek & Hi). exists k'. split; [done|]. intros e'. unfold equiv, registry_equiv, retain, set_timers. simpl.
  by rewrite Hi.
Qed.

(** Two effects that differ at most by deleted entries and by the wake-up. *)
Definition same_effect {R} (x y : Run (effect R)) : Prop :=
  ∃ r st st' w w', x = Done (r, st, w) ∧ y = Done (r, st', w') ∧ st ≡ st'.

Lemma same_effect_trans {R} (x y z : Run (effect R)) : same_effect x y → same_effect y z → same_effect x z.
Proof.
  intros (r & s & s' & w & w' & -> & -> & E) (r2 & s2 & s2' & w2 & w2' & [= <- <- <-] & -> & E2).
  exists r, s, s2', w, w2'. split_and!; try done. by etrans.
Qed.

Lemma same_effect_sym {R} (x y : Run (effect R)) : same_effect x y → same_effect y x.
Proof. intros (r & s & s' & w & w' & -> & -> & E). exists r, s', s, w', w. by split_and!. Qed.

(** An operation on an entry does not see deleted entries. *)
Lemma on_entry_retain wake wake' i f st : same_effect (on_entry wake i f st) (on_entry wake' i f (retain st)).
Proof.
  unfold on_entry. pose proof (find_retain i st) as F. destruct (find i st) as [[k e]|].
  - destruct F as (k' & -> & He). destruct (f e) as [[u|x] e']; eexists _, _, _, _, _;
      (split; [done|]); (split; [done|]); symmetry; apply He.
  - rewrite F. eexists _, _, _, _, _. do 2 (split; [done|]). symmetry. apply retain_equiv.
Qed.

Lemma on_entry_equiv wake wake' i f st st' : st ≡ st' → same_effect (on_entry wake i f st) (on_entry wake' i f st').
Proof.
  intros E. eapply same_effect_trans; [apply (on_entry_retain wake wake')|]. rewrite E.
  apply same_effect_sym, on_entry_retain.
Qed.

Lemma restore_retain i cb st : restore i cb (retain st) ≡ restore i cb st.
Proof.
  unfold restore. pose proof (find_retain i st) as F. destruct (find i st) as [[k e]|].
  - destruct F as (k' & -> & He). case_decide; [apply He|apply retain_equiv].
  - rewrite F. apply retain_equiv.
Qed.

#[export] Instance restore_proper i cb : Proper ((≡) ==> (≡)) (restore i cb).
Proof. intros s s' E. rewrite <- (restore_retain i cb s), <- (restore_retain i cb s'). by rewrite E. Qed.

End RegistryEquiv.

(** ** Running both on the same requests *)

Module TimerEquiv.
Import TimerRegistry TimerRegistryFacts RegistryEquiv.

(** A request to a service: the calls of its clients, a round of the worker at an
    instant, and the return of the callback the worker is in. *)
Inductive request : Type :=
| Register (period : Duration.t) (mode : TimerMode.t) (cb : TimerCallback)
| Start (i : Z) (now : Duration.t)
| Stop (i : Z)
| Reset (i : Z) (now : Duration.t)
| ChangePeriod (i : Z) (period : Duration.t)
| Deregister (i : Z)
| Round (now : Duration.t)
| CallbackReturns.

Inductive answer : Type :=
| Registered (r : Result Z)
| Returned (r : Result ())
| Called (i : Z) (cb : TimerCallback)
| Idle                               (** the worker waits *)
| Left.                              (** the worker has seen the stop request *)

(** A registry and the callback the worker is in. *)
Definition service : Type := TimerServiceState * option (Z * TimerCallback).

Definition call {R} (mk : Result R → answer) (fl : option (Z * TimerCallback)) (x : Run (effect R))
    : Run (answer * service) :=
  '(r, st, _) ← x; Done (mk r, (st, fl)).

Section Requests.
Context `{Arch}.

(** The POSIX service; [now2] is the second reading of the clock in a round,
    when it goes to wait. *)
Definition posix_request (now2 : PosixTime.timespec) (q : request) (s : service) : Run (answer * service) :=
  let '(st, fl) := s in
  match q with
  | Register p m cb => call Registered fl (PosixTimerService.register p m cb st)
  | Start i now => call Returned fl (PosixTimerService.start i now st)
  | Stop i => call Returned fl (PosixTimerService.stop i st)
  | Reset i now => call Returned fl (PosixTimerService.reset i now st)
  | ChangePeriod i p => call Returned fl (PosixTimerService.change_period i p st)
  | Deregister i => call Returned fl (PosixTimerService.deregister i st)
  | Round now =>
      '(r, st) ← PosixTimerService.run_round now now2 st;
      match r with
      | PosixTimerService.Leave => Done (Left, (st, None))
      | PosixTimerService.Wait | PosixTimerService.WaitUntil _ => Done (Idle, (st, None))
      | PosixTimerService.Dispatch =>
          '(o, st) ← PosixTimerService.dispatch_take now st;
          Done match o with
               | Some (i, cb) => (Called i cb, (st, Some (i, cb)))
               | None => (Idle, (st, None))
               end
      end
  | CallbackReturns =>
      Done (Returned (Ok ()), (match fl with
                               | Some (i, cb) => PosixTimerService.dispatch_restore i cb st
                               | None => st
                               end, None))
  end.

(** What a request to the FreeRTOS service meets: the answer of [ensure_worker] and
    whether [try_reserve] succeeds. *)
Record env : Type := mkEnv { ensured : Result (); reserved : bool }.

Definition freertos_request (en : env) (q : request) (s : service) : Run (answer * service) :=
  let '(st, fl) := s in
  match q with
  | Register p m cb => call Registered fl (FreeRtosTimerService.register (reserved en) p m cb st)
  | Start i now =>
      match ensured en with
      | Ok _ => call Returned fl (FreeRtosTimerService.start i now st)
      | Err e => Done (Returned (Err e), s)
      end
  | Stop i => call Returned fl (FreeRtosTimerService.stop i st)
  | Reset i now =>
      match ensured en with
      | Ok _ => call Returned fl (FreeRtosTimerService.reset i now st)
      | Err e => Done (Returned (Err e), s)
      end
  | ChangePeriod i p => call Returned fl (FreeRtosTimerService.change_period i p st)
  | Deregister i => call Returned fl (FreeRtosTimerService.deregister i st)
  | Round now =>
      '(a, st) ← FreeRtosTimerService.scan now st;
      Done match a with
           | FreeRtosTimerService.Dispatch i cb => (Called i cb, (st, Some (i, cb)))
           | FreeRtosTimerService.Stop => (Left, (st, None))
           | _ => (Idle, (st, None))
           end
  | CallbackReturns =>
      Done (Returned (Ok ()), (match fl with
                               | Some (i, cb) => snd (FreeRtosTimerService.dispatch_restore i cb st)
                               | None => st
                               end, None))
  end.

(** The error of a request the POSIX service has no counterpart of. *)
Definition refused (en : env) (q : request) : option answer :=
  match q with
  | Register p _ _ =>
      if Duration.eqb p Duration.ZERO || reserved en then None else Some (Registered (Err Error.OutOfMemory))
  | Start _ _ | Reset _ _ => match ensured en with Ok _ => None | Err e => Some (Returned (Err e)) end
  | _ => None
  end.
Definition accepted (qs : list (env * request)) : list request :=
  snd <$> filter (λ x, refused x.1 x.2 = None) qs.
(** The answers [l] to the accepted requests, with the errors of the others. *)
Fixpoint with_refusals (qs : list (env * request)) (l : list answer) : list answer :=
  match qs with
  | [] => l
  | (en, q) :: qs =>
      match refused en q, l with
      | Some a, l => a :: with_refusals qs l
      | None, a :: l => a :: with_refusals qs l
      | None, [] => []
      end
  end.

(** The requests that can come: durations are well formed, and the worker makes a
    round when it is in no callback. *)
Definition request_ok (fl : option (Z * TimerCallback)) (q : request) : Prop :=
  match q with
  | Register p _ _ | ChangePeriod _ p => Duration.wf p
  | Start _ now | Reset _ now => Duration.wf now
  | Round now => Duration.wf now ∧ fl = None
  | CallbackReturns => is_Some fl
  | Stop _ | Deregister _ => True
  end.

Definition requests {Q} (f : Q → service → Run (answer * service)) : list Q → service → Run (list answer * service) :=
  fix go qs s :=
    match qs with
    | [] => Done ([], s)
    | q :: qs => '(a, s) ← f q s; '(l, s) ← go qs s; Done (a :: l, s)
    end.

(** Every request can come where it does (in a run of the FreeRTOS service). *)
Fixpoint requests_ok (qs : list (env * request)) (s : service) : Prop :=
  match qs with
  | [] => True
  | (en, q) :: qs => request_ok (snd s) q ∧
      match freertos_request en q s with Done (_, s') => requests_ok qs s' | _ => False end
  end.

(** Services in the same state up to deleted entries. *)
Definition service_equiv (s s' : service) : Prop :=
  s.1 ≡ s'.1 ∧ s.2 = s'.2 ∧ service_ok (fst <$> s.2) s.1 ∧ service_ok (fst <$> s'.2) s'.1.

(** The same answer, and the same state after it. *)
Definition agree (x y : Run (answer * service)) : Prop :=
  ∃ a s s', x = Done (a, s) ∧ y = Done (a, s') ∧ service_equiv s s'.

Lemma agree_call {R} (mk : Result R → answer) fl x y : same_effect x y →
  (∀ r st w, x = Done (r, st, w) → service_ok (fst <$> fl) st) →
  (∀ r st w, y = Done (r, st, w) → service_ok (fst <$> fl) st) →
  agree (call mk fl x) (call mk fl y).
Proof.
  intros (r & st & st' & w & w' & -> & -> & E) Wx Wy. exists (mk r), (st, fl), (st', fl).
  do 2 (split; [done|]). split_and!; simpl; eauto.
Qed.

(** *** Operations on one timer *)

Lemma agree_state fl st st' i wake wake' (f : TimerState.t → Result () * TimerState.t) : st ≡ st' →
  service_ok (fst <$> fl) st → service_ok (fst <$> fl) st' →
  (∀ s, TimerState.wf s → TimerState.wf (snd (f s)) ∧ (∀ x, fst (f s) = Err x → snd (f s) = s) ∧
        (wake && wake' = false → TimerState.deadline (snd (f s)) = TimerState.deadline s)) →
  agree (call Returned fl (on_state wake i f st)) (call Returned fl (on_state wake' i f st')).
Proof.
  intros E W W' Hf. apply agree_call; [by apply on_entry_equiv|..]; intros r s w Hr.
  - destruct (on_state_spec wake (fst <$> fl) st i (λ _, True) f W) as (? & ? & ? & Es & O & _).
    + intros x Wx. destruct (Hf x Wx) as (? & ? & Hd). split_and!; try done. intros ->. by apply Hd.
    + rewrite Hr in Es. simplify_eq. apply O.
  - destruct (on_state_spec wake' (fst <$> fl) st' i (λ _, True) f W') as (? & ? & ? & Es & O & _).
    + intros x Wx. destruct (Hf x Wx) as (? & ? & Hd). split_and!; try done. intros ->. apply Hd, andb_false_r.
    + rewrite Hr in Es. simplify_eq. apply O.
Qed.

Lemma agree_delete fl st st' i : st ≡ st' → service_ok (fst <$> fl) st → service_ok (fst <$> fl) st' →
  agree (call Returned fl (delete_entry i st)) (call Returned fl (delete_entry i st')).
Proof.
  intros E W W'. apply agree_call; [by apply on_entry_equiv|..]; intros r s w Hr; unfold delete_entry in Hr.
  all: match goal with H : on_entry _ _ ?f ?x = _, V : service_ok _ ?x |- _ =>
         destruct (on_entry_spec true _ x i f V) as (? & ? & ? & Es & O & _);
           [|rewrite Hr in Es; simplify_eq; apply O] end.
  all: intros e Hl [? ? ? ?]; split; [done|]; split; [|done]; split; simpl; try done; by apply TimerState.timer_stop_wf.
Qed.

(** *** A new timer *)

Lemma agree_register reserve fl st st' p m cb : Duration.eqb p Duration.ZERO || reserve = true → st ≡ st' → service_ok (fst <$> fl) st → service_ok (fst <$> fl) st' → Duration.wf p →
  agree (call Registered fl (PosixTimerService.register p m cb st))
        (call Registered fl (FreeRtosTimerService.register reserve p m cb st')).
Proof.
  intros Hre E W W' Wp.
  apply agree_call.
  - unfold PosixTimerService.register, FreeRtosTimerService.register. rewrite <- (next_id_proper _ _ E). simpl.
    assert (∀ e, TimerState.new p m = Err e → e = Error.InvalidParameter) as He.
    { unfold TimerState.new. intros e. case_if; congruence. }
    destruct (TimerState.new p m) as [s|e] eqn:En; [|rewrite (He e eq_refl); by eexists _, _, _, _, _].
    assert (reserve = true) as -> by (unfold TimerState.new in En; destruct (Duration.eqb p Duration.ZERO); by simplify_eq/=).
    simpl.
    pose proof (so_next _ _ W). destruct (checked_add 64 (next_id st) 1); [|by eexists _, _, _, _, _].
    rewrite (proj2 (Z.eqb_neq _ _)) by lia. simpl. eexists _, _, _, _, _. do 2 (split; [done|]).
    unfold equiv, registry_equiv, retain in *. simpl. unfold set_timers in *. simpl in *. rewrite !filter_app.
    injection E as Et Enx Es. by rewrite Et, Es.
  - intros r s w Hr. destruct (PosixTimerFacts.register_spec _ st p m cb W Wp) as (? & ? & ? & Es & O & _).
    rewrite Hr in Es. simplify_eq. apply O.
  - intros r s w Hr. destruct (FreeRtosTimerFacts.frt_register_spec _ st' reserve p m cb W' Wp) as (? & ? & ? & Es & O & _).
    rewrite Hr in Es. simplify_eq. apply O.
Qed.

(** *** A round *)

(** The first locked section of [dispatch_one], after the round of [run] has
    decided to call, is what the single locked section does. *)
Lemma scan_dispatch st now d : stop_requested st = false → service_ok None (retain st) → Duration.wf now →
  armed (retain st) d → as_nanos d ≤ as_nanos now →
  ∃ i cb st', PosixTimerService.dispatch_take now (retain st) = Done (Some (i, cb), st') ∧
    FreeRtosTimerService.scan now st = Done (FreeRtosTimerService.Dispatch i cb, st') ∧ service_ok (Some i) st'.
Proof.
  intros Hs W Wn Ha Hd. unfold PosixTimerService.dispatch_take, FreeRtosTimerService.scan. cbn zeta.
  change (stop_requested (retain st)) with (stop_requested st). rewrite Hs.
  pose proof (select_spec (retain st) now W Wn) as S. destruct (min_by_key _) as [[[k x] y]|]; [|apply S in Ha; lia].
  destruct S as [e F]. destruct (take_taken _ now k e W Wn F) as (s & cb & Ea & Ec & T).
  rewrite (fd_at _ _ _ _ F). cbn [expect mbind Run_bind]. rewrite Ea. cbn [mbind Run_bind negb]. rewrite Ec.
  eexists _, _, _. do 2 (split; [done|]). apply T.
Qed.

#[local] Instance scan_proper now : Proper ((≡) ==> (=)) (FreeRtosTimerService.scan now).
Proof. intros s s' E. unfold FreeRtosTimerService.scan. by rewrite (E : retain s = retain s'). Qed.

(** With nothing due the single section goes to wait, with the deleted entries
    removed. *)
Lemma scan_idle st now : stop_requested st = false → service_ok None st → Duration.wf now →
  (∀ d, armed st d → as_nanos now < as_nanos d) →
  ∃ a, FreeRtosTimerService.scan now st = Done (a, retain st) ∧
    (a = FreeRtosTimerService.WaitForever ∨ ∃ d, a = FreeRtosTimerService.WaitUntil d).
Proof.
  intros Hs W Wn Hno. destruct (FreeRtosTimerFacts.frt_scan_spec st now W Wn) as (a & st' & -> & _ & _ & Hc).
  destruct a as [i cb|x| | |]; destruct_and?; try congruence; try done; simplify_eq; eauto.
  destruct (tk_from _ _ _ _ _ ltac:(eassumption)) as (k & e & F & _). destruct (fd_due _ _ _ _ F) as (L & _ & d & Ed & Hle).
  assert (armed st d) as Ha.
  { apply armed_retain. exists e. split_and!; try done. eapply list_elem_of_lookup_2, F. }
  apply Hno in Ha. lia.
Qed.

Lemma agree_round en now2 st st' now : st ≡ st' → service_ok None st → service_ok None st' → Duration.wf now →
  PosixTime.valid now2 → PosixTime.nanos now2 + 3600 * PosixTime.NSEC ≤ PosixTime.TS_MAX →
  agree (posix_request now2 (Round now) (st, None)) (freertos_request en (Round now) (st', None)).
Proof.
  intros E W W' Wn V Hb. pose proof (service_retain_ok _ _ W) as Wr.
  destruct (PosixTimerFacts.run_round_spec st now now2 W Wn V Hb) as (r & st1 & Er & W1 & _ & _ & _ & Ha & _ & Hr).
  assert (r ≠ PosixTimerService.Leave → st1 = retain st) as H1.
  { intros Hne. unfold PosixTimerService.run_round in Er. destruct (stop_requested st); [congruence|].
    repeat (case_match; simplify_eq/=; try done). }
  unfold posix_request, freertos_request. rewrite Er, <- (scan_proper now _ _ E). cbn [mbind Run_bind].
  assert (∀ a, FreeRtosTimerService.scan now st = Done (a, retain st) →
    (a = FreeRtosTimerService.WaitForever ∨ ∃ d, a = FreeRtosTimerService.WaitUntil d) → st1 = retain st →
    agree (Done (Idle, (st1, None))) ('(a, st) ← FreeRtosTimerService.scan now st;
      Done match a with
           | FreeRtosTimerService.Dispatch i cb => (Called i cb, (st, Some (i, cb)))
           | FreeRtosTimerService.Stop => (Left, (st, None))
           | _ => (Idle, (st, None))
           end)) as Hidle.
  { intros a -> Hc ->. exists Idle, (retain st, None), (retain st, None). split; [done|].
    split; [by destruct Hc as [-> | [d ->]]|]. by split_and!. }
  destruct r as [| |abs|].
  - unfold PosixTimerService.run_round in Er. rewrite Hr in Er. simplify_eq.
    unfold FreeRtosTimerService.scan. simpl. rewrite Hr. eexists Left, _, _. do 2 (split; [done|]).
    split_and!; simpl; try done. symmetry. apply retain_equiv.
  - destruct Hr as [Hns Hno]. destruct (scan_idle st now Hns W Wn) as (a & Es & Hc); [intros d Hd; by destruct (Hno d Hd)|].
    by apply (Hidle a); [..|apply H1].
  - destruct Hr as (Hns & _ & Hno). destruct (scan_idle st now Hns W Wn) as (a & Es & Hc); [intros d Hd; by destruct (Hno d Hd)|].
    by apply (Hidle a); [..|apply H1].
  - destruct Hr as (Hns & d & Hd & Hle). rewrite H1 by done.
    destruct (scan_dispatch st now d Hns Wr Wn) as (i & cb & st2 & -> & -> & W2); [by apply armed_retain|done|].
    simpl. eexists (Called i cb), _, _. do 2 (split; [done|]). by split_and!.
Qed.

(** *** Every request *)

Lemma agree_request en now2 q s s' : refused en q = None → service_equiv s s' → request_ok (snd s') q →
  PosixTime.valid now2 → PosixTime.nanos now2 + 3600 * PosixTime.NSEC ≤ PosixTime.TS_MAX →
  agree (posix_request now2 q s) (freertos_request en q s').
Proof.
  destruct s as [st fl], s' as [st' fl']. intros Hre (E & Hfl & W & W') Hq V Hb. simpl in *. subst fl'.
  destruct q as [p m cb|i now|i|i now|i p|i|now|]; simpl in Hq, Hre.
  - apply agree_register; try done. by destruct (Duration.eqb p Duration.ZERO || reserved en).
  - destruct (ensured en); [|done].
    apply agree_state; try done. intros x Wx. pose proof (TimerState.timer_start_spec x now Wx Hq) as S.
    destruct (TimerState.start x now) as [[[]|e] x']; simpl in *; naive_solver.
  - apply agree_state; try done. intros x Wx. split; [by apply TimerState.timer_stop_wf|done].
  - destruct (ensured en); [|done].
    apply agree_state; try done. intros x Wx. pose proof (TimerState.timer_start_spec x now Wx Hq) as S.
    change (TimerState.reset x now) with (TimerState.start x now). destruct (TimerState.start x now) as [[[]|e] x']; simpl in *; naive_solver.
  - apply agree_state; try done. intros x Wx. pose proof (TimerState.timer_change_period_wf x p Wx Hq) as S.
    unfold TimerState.change_period in *. case_if; by simpl in *.
  - by apply agree_delete.
  - destruct Hq as [Wn ->]. by apply (agree_round en).
  - destruct Hq as [[i cb] ->]. simpl in *. eexists _, _, _. do 2 (split; [done|]).
    rewrite FreeRtosTimerFacts.dispatch_restore_eq. unfold PosixTimerService.dispatch_restore.
    split_and!; simpl; [by apply restore_proper|done|by apply restore_spec..].
Qed.

(** A request that is refused changes nothing. *)
Lemma refused_request en q s a : refused en q = Some a → freertos_request en q s = Done (a, s).
Proof.
  destruct s as [st fl]. destruct q as [p m cb|i now|i|i now|i p|i|now|]; simpl; try done.
  - unfold FreeRtosTimerService.register, TimerState.new.
    destruct (Duration.eqb p Duration.ZERO); [done|]. destruct (reserved en); by intros [= <-].
  - destruct (ensured en); by intros [= <-].
  - destruct (ensured en); by intros [= <-].
Qed.

(** [ensure_worker] on a service in use answers, and leaves the registry alone. *)
Lemma ensure_worker_registry {B E} `{NativeWake B} `{NativeDone E} sched caps created
    (w : FreeRtosTimerControl.world (B:=B) (E:=E)) s hw sv :
  FreeRtosTimerControl.slot w = FreeRtosTimerControl.Running s hw → FreeRtosTimerControl.deref w s = Done sv →
  ∃ r w' sv', FreeRtosTimerControl.ensure_worker sched caps created w = Done (r, w') ∧
    FreeRtosTimerControl.services w' !! s = Some sv' ∧
    FreeRtosTimerControl.registry sv' = FreeRtosTimerControl.registry sv.
Proof.
  intros Esl Ed. assert (FreeRtosTimerControl.services w !! s = Some sv ∧ FreeRtosTimerControl.strong sv ≠ 0%nat) as [Es Hst].
  { unfold FreeRtosTimerControl.deref in Ed. destruct (_ !! s) as [sv0|]; [|done]. simpl in Ed.
    destruct (FreeRtosTimerControl.strong sv0) eqn:E0; simplify_eq/=. split; [done|lia]. }
  unfold FreeRtosTimerControl.ensure_worker. rewrite Esl.
  destruct (FreeRtosTimerControl.scheduler_result sched); [|by eexists _, _, _].
  destruct hw; [by eexists _, _, _|]. destruct caps as [c|]; [|by eexists _, _, _].
  destruct (TaskConfig.stack_bytes_to_words _ _ _ _); [|by eexists _, _, _].
  unfold FreeRtosTimerControl.arc_clone. rewrite Ed. simpl. pose proof (lookup_lt_Some _ _ _ Es) as Hlt.
  destruct created.
  - unfold FreeRtosTimerControl.deref. simpl. rewrite list_lookup_insert_eq by done. simpl.
    eexists _, _, _. split; [done|]. simpl. rewrite list_lookup_insert_eq by (by rewrite length_insert). done.
  - unfold FreeRtosTimerControl.arc_drop, FreeRtosTimerControl.deref. simpl. rewrite list_lookup_insert_eq by done. simpl.
    destruct (FreeRtosTimerControl.strong sv) as [|n]; [done|]. eexists _, _, _. split; [done|]. simpl.
    rewrite list_lookup_insert_eq by (by rewrite length_insert). done.
Qed.

(** C15: The two services are equivalent, refusals apart: started in states that
    agree up to deleted entries, whatever calls, rounds of the worker and returns of
    callbacks come, in whatever order and at whatever instants, and whatever
    [ensure_worker] and [try_reserve] answer on the FreeRTOS side, neither panics.
    A [start] or [reset] whose [ensure_worker] fails, and a [register] of a valid
    period that cannot reserve memory, answer that error and change nothing.  The
    POSIX service, given the other requests, gives the same answers to them (the
    results of the calls, the identifiers of new timers, which callback each round
    runs and when the worker waits or leaves), and the registries agree up to
    deleted entries again. *)
Theorem timer_services_equivalent now2 qs s s' : service_equiv s s' → requests_ok qs s' →
  PosixTime.valid now2 → PosixTime.nanos now2 + 3600 * PosixTime.NSEC ≤ PosixTime.TS_MAX →
  ∃ l t t', requests (posix_request now2) (accepted qs) s = Done (l, t) ∧
    requests (uncurry freertos_request) qs s' = Done (with_refusals qs l, t') ∧
    length l = length (accepted qs) ∧ service_equiv t t'.
Proof.
  intros E Hq V Hb. revert s s' E Hq. induction qs as [|[en q] qs IH]; intros s s' E Hq; simpl.
  { by exists [], s, s'. }
  destruct Hq as [Hq Hqs]. unfold accepted. rewrite filter_cons. simpl.
  destruct (refused en q) as [a|] eqn:Er.
  - rewrite (refused_request _ _ s' _ Er) in *. rewrite decide_False by done.
    destruct (IH s s' E Hqs) as (l & t & t' & El & El' & Hl & Et). exists l, t, t'. simpl. by rewrite El'.
  - rewrite decide_True by done. destruct (agree_request en now2 q s s' Er E Hq V Hb) as (a & s1 & s1' & E0 & E1' & E1).
    rewrite E1' in *. destruct (IH s1 s1' E1 Hqs) as (l & t & t' & El & El' & Hl & Et). simpl. rewrite E0. simpl.
    change (list_fmap _ _ snd _) with (accepted qs). rewrite El, El'. exists (a :: l), t, t'. simpl. split_and!; try done. f_equal. exact Hl.
Qed.

End Requests.
End TimerEquiv.

(** ** Witness *)

Module TimerEquivWitness.
Import TimerRegistry TimerRegistryFacts RegistryEquiv TimerEquiv.

#[local] Existing Instance arch64.

Definition at_ms (n : Z) : Duration.t := Duration.from_millis n.
Definition fresh : service := (new, None).

(** A periodic and a one-shot timer; the one-shot one is deleted while its
    callback runs.  A third timer finds no memory, and a start no running scheduler. *)
Definition fine : env := mkEnv (Ok ()) true.
Definition sample : list (env * request) :=
  ((fine,.) <$> [Register (at_ms 10) TimerMode.Periodic 7; Register (at_ms 15) TimerMode.OneShot 8;
     Start 1 (at_ms 0); Start 2 (at_ms 0); Round (at_ms 5); Round (at_ms 20); CallbackReturns;
     Round (at_ms 20); Deregister 2; CallbackReturns; Start 2 (at_ms 21)]) ++
  [(mkEnv (Ok ()) false, Register (at_ms 4) TimerMode.OneShot 9); (mkEnv (Err Error.Busy) true, Reset 1 (at_ms 24))] ++
  ((fine,.) <$> [Round (at_ms 25); ChangePeriod 1 (at_ms 3); Round (at_ms 31); Stop 1; CallbackReturns; Round (at_ms 90)]).

Lemma timer_services_equivalent_witness :
  ∃ t t', requests (posix_request (PosixTime.mkTimespec 0 0)) (accepted sample) fresh =
    Done ([Registered (Ok 1); Registered (Ok 2); Returned (Ok ()); Returned (Ok ()); Idle; Called 1 7; Returned (Ok ());
           Called 2 8; Returned (Ok ()); Returned (Ok ()); Returned (Err Error.NotFound); Idle; Returned (Ok ());
           Called 1 7; Returned (Ok ()); Returned (Ok ()); Idle], t) ∧
  requests (uncurry freertos_request) sample fresh =
    Done ([Registered (Ok 1); Registered (Ok 2); Returned (Ok ()); Returned (Ok ()); Idle; Called 1 7; Returned (Ok ());
           Called 2 8; Returned (Ok ()); Returned (Ok ()); Returned (Err Error.NotFound);
           Registered (Err Error.OutOfMemory); Returned (Err Error.Busy); Idle; Returned (Ok ());
           Called 1 7; Returned (Ok ()); Returned (Ok ()); Idle], t') ∧ service_equiv t t'.
Proof.
  destruct (timer_services_equivalent (PosixTime.mkTimespec 0 0) sample fresh fresh) as (l & t & t' & E & E' & _ & Q).
  - split_and!; try done; apply service_new_ok.
  - vm_compute. repeat (match goal with |- _ ∧ _ => split end); try reflexivity; try discriminate; try exact I; eauto.
  - vm_compute. repeat (match goal with |- _ ∧ _ => split end); try reflexivity; discriminate.
  - vm_compute. discriminate.
  - exists t, t'. rewrite E, E'.
    assert ((fst <$> match requests (posix_request (PosixTime.mkTimespec 0 0)) (accepted sample) fresh with
                     | Done x => Some x | _ => None end) = Some l) as Hl by (rewrite E; reflexivity).
    vm_compute in Hl. injection Hl as <-. split_and!; [reflexivity|vm_compute; reflexivity|exact Q].
Defined.

End TimerEquivWitness.
