(* ===== verification/PosixObjects.v ===== *)
(** * Construction and destruction of POSIX objects

    [sys/mutex.rs] and [sys/condvar.rs] (attributes, creation, destruction),
    the constructors, clones and drops of [semaphore.rs], [queue.rs] and
    [mutex.rs] of [crates/osal-backend-posix/src], with the runtime leases they
    take ([runtime.rs]).

    The pthread calls that create and destroy objects are the class [Pthread];
    an object is named by its address. *)

From S2P Require Import Prelude Api Buffers Runtime PosixSys PosixTask.

(** ** The C library *)

(** The calls on one kind of object and its attribute object.  A creation returns
    the code and the address of the (zeroed) memory it was given. *)
Record family (K : Type) : Type := mkFamily {
  attr_init : K → Z * Z * K;
  attr_set : Z → Z → K → Z * K;
  attr_destroy : Z → K → K;
  object_init : Z → K → Z * Z * K;
  object_destroy : Z → K → K;
}.
Arguments mkFamily {K} _ _ _ _ _.
Arguments attr_init {K} _ _.
Arguments attr_set {K} _ _ _ _.
Arguments attr_destroy {K} _ _ _.
Arguments object_init {K} _ _ _.
Arguments object_destroy {K} _ _ _.

(** [pthread_mutexattr_init], [.._settype], [.._destroy], [pthread_mutex_init],
    [.._destroy]; and the same of condition variables, with [.._setclock]. *)
Class Pthread (K : Type) := {
  mutexes : family K;
  condvars : family K;
}.

Section Laws.
Context {K : Type} (live : K → gset Z) (kind : K → Z → Z).

(** What other objects have been configured to stays. *)
Definition framed (k k' : K) : Prop := ∀ h, h ∈ live k → h ∈ live k' → kind k' h = kind k h.

(** A creation succeeds with a new object, or fails and creates nothing. *)
Definition creates (k : K) (x : Z * Z * K) : Prop :=
  let '(rc, h, k') := x in
  (h ∉ live k) ∧ framed k k' ∧ (rc = 0 ∧ live k' = {[h]} ∪ live k ∨ rc ≠ 0 ∧ live k' = live k).

(** Destroying an initialised object removes it.  POSIX leaves destroying any other
    memory undefined, so nothing is known of that. *)
Definition destroys (h : Z) (k k' : K) : Prop := framed k k' ∧ live k' = live k ∖ {[h]}.

Record family_laws (f : family K) : Prop := {
  fl_attr_init : ∀ k, creates k (attr_init f k);
  fl_attr_set : ∀ a v k, a ∈ live k →
    let '(rc, k') := attr_set f a v k in
    live k' = live k ∧ (∀ h, h ∈ live k → h ≠ a → kind k' h = kind k h) ∧ (rc = 0 → kind k' a = v);
  fl_attr_destroy : ∀ a k, a ∈ live k → destroys a k (attr_destroy f a k);
  fl_object_init : ∀ a k, a ∈ live k →
    creates k (object_init f a k) ∧
    (let '(rc, h, k') := object_init f a k in rc = 0 → kind k' h = kind k a);
  fl_object_destroy : ∀ h k, h ∈ live k → destroys h k (object_destroy f h k);
}.

End Laws.

(** [live]: the initialised objects; [kind]: the type of a mutex, the clock of a
    condition variable, and what an attribute object has been set to. *)
Class PthreadLaws (K : Type) `{Pthread K} := {
  live : K → gset Z;
  kind : K → Z → Z;
  law_mutexes : family_laws live kind mutexes;
  law_condvars : family_laws live kind condvars;
}.

(** ** [sys/mutex.rs] and [sys/condvar.rs] *)

Module PosixNative.

Definition PTHREAD_MUTEX_ERRORCHECK : Z := 2.
Definition CLOCK_MONOTONIC : Z := 1.

Section PosixNative.
Context {K : Type} `{!Pthread K}.

(** The outcome of a call POSIX leaves undefined.  It ends the run, as a panic does,
    so that nothing can be concluded from what follows. *)
Definition UNDEFINED : string := "undefined: an object that was never initialised is destroyed".

(** [Attr::new()?], the setting, the creation; the locals of an early return are
    dropped in reverse order.  When the creation itself fails, the first of them is
    the zeroed [PosixMutex] or [PosixCondvar], whose drop destroys an object that
    was never initialised. *)
Definition attributed_new (f : family K) (value : Z) : M K (Result Z) := λ k,
  let '(rc, attr, k) := attr_init f k in
  match Errno.check_ret rc with
  | Err e => Done (Err e, k)
  | Ok _ =>
      let '(rc, k) := attr_set f attr value k in
      match Errno.check_ret rc with
      | Err e => Done (Err e, attr_destroy f attr k)
      | Ok _ =>
          let '(rc, m, k) := object_init f attr k in
          match Errno.check_ret rc with
          | Err _ => Panic UNDEFINED
          | Ok _ => Done (Ok m, attr_destroy f attr k)
          end
      end
  end.

Definition mutex_new : M K (Result Z) := attributed_new mutexes PTHREAD_MUTEX_ERRORCHECK.
Definition condvar_new : M K (Result Z) := attributed_new condvars CLOCK_MONOTONIC.
Definition mutex_drop (h : Z) : M K () := mmodify (object_destroy mutexes h).
Definition condvar_drop (h : Z) : M K () := mmodify (object_destroy condvars h).

End PosixNative.
End PosixNative.

(** ** The objects *)

Module PosixObjects.
Import PosixNative.

Section PosixObjects.
Context `{Arch} {K : Type} `{!Pthread K} (alloc : Z → bool) {T : Type}.

Record world : Type := mkWorld { runtime : PosixRuntime.t; clib : K }.

Definition on_clib {A} (m : M K A) : M world A := λ w,
  '(a, k) ← m (clib w); Done (a, mkWorld (runtime w) k).
Definition acquire_object : M world (Result ()) := λ w,
  '(r, t) ← PosixRuntime.acquire_object (runtime w); Done (r, mkWorld t (clib w)).
Definition lease_drop : M world () := λ w,
  t ← PosixRuntime.lease_drop (runtime w); Done ((), mkWorld t (clib w)).

(** [m?], with what the early return drops. *)
Definition or_undo {A B} (m : M K (Result A)) (undo : M world ()) (k : A → M world (Result B)) : M world (Result B) :=
  r <- on_clib m ;;
  match r with Ok a => k a | Err e => undo ;;; mret_ (Err e) end.

(** [PosixCountingSemaphoreInner], [QueueInner] and [PosixMutexInner], without their
    leases, which the runtime counts. *)
Record semaphore : Type := mkSemaphore {
  s_mutex : Z; s_condvar : Z; s_state : CountingSemaphoreState.t; s_max_count : Z }.
Record queue : Type := mkQueue {
  q_mutex : Z; q_not_empty : Z; q_not_full : Z; q_buffer : ByteQueue.t; q_capacity : Z; q_message_size : Z }.
Record mutex : Type := mkMutex { m_raw : Z; m_data : T }.

(** [PosixCountingSemaphore::new] *)
Definition semaphore_new (max_count initial_count : Z) : M world (Result semaphore) :=
  match CountingSemaphoreState.new max_count initial_count with
  | Err e => mret_ (Err e)
  | Ok state =>
      _ <-? acquire_object ;;
      or_undo mutex_new lease_drop (λ m,
      or_undo condvar_new (on_clib (mutex_drop m) ;;; lease_drop) (λ c,
      mret_ (Ok (mkSemaphore m c state max_count))))
  end.

(** [PosixBinarySemaphore::new] *)
Definition binary_semaphore_new : M world (Result semaphore) := semaphore_new 1 0.

(** [PosixQueue::new] *)
Definition queue_new (capacity msg_size : Z) : M world (Result queue) :=
  match Validation.validate_queue_capacity capacity with
  | Err e => mret_ (Err e)
  | Ok _ =>
      match Validation.validate_queue_message_size msg_size with
      | Err e => mret_ (Err e)
      | Ok _ =>
          _ <-? acquire_object ;;
          or_undo mutex_new lease_drop (λ m,
          or_undo condvar_new (on_clib (mutex_drop m) ;;; lease_drop) (λ e,
          or_undo condvar_new (on_clib (condvar_drop e) ;;; on_clib (mutex_drop m) ;;; lease_drop) (λ f,
          or_undo (mret_ (ByteQueue.new alloc capacity msg_size))
            (on_clib (condvar_drop f) ;;; on_clib (condvar_drop e) ;;; on_clib (mutex_drop m) ;;; lease_drop) (λ b,
          mret_ (Ok (mkQueue m e f b capacity msg_size))))))
      end
  end.

(** [PosixMutexImpl::new] *)
Definition mutex_object_new (value : T) : M world (Result mutex) :=
  _ <-? acquire_object ;;
  or_undo mutex_new lease_drop (λ m, mret_ (Ok (mkMutex m value))).

(** The fields are dropped in the order of their declaration. *)
Definition semaphore_drop (s : semaphore) : M world () :=
  on_clib (mutex_drop (s_mutex s)) ;;; on_clib (condvar_drop (s_condvar s)) ;;; lease_drop.
Definition queue_drop (q : queue) : M world () :=
  on_clib (mutex_drop (q_mutex q)) ;;; on_clib (condvar_drop (q_not_empty q)) ;;;
  on_clib (condvar_drop (q_not_full q)) ;;; lease_drop.
Definition mutex_object_drop (m : mutex) : M world () := on_clib (mutex_drop (m_raw m)) ;;; lease_drop.

(** What needs no lock, and what is read under it. *)
Definition max_count (s : semaphore) : Z := s_max_count s.
Definition count (s : semaphore) : Z := CountingSemaphoreState.count (s_state s).
Definition is_signaled (s : semaphore) : bool := count s =? 1.
Definition capacity (q : queue) : Z := q_capacity q.
Definition msg_size (q : queue) : Z := q_message_size q.
Definition len (q : queue) : Z := ByteQueue.len (q_buffer q).

(** *** All of them *)

Inductive object : Type := OSemaphore (s : semaphore) | OQueue (q : queue) | OMutex (m : mutex).
Inductive constructor : Type :=
| CSemaphore (max_count initial_count : Z) | CBinary | CQueue (capacity msg_size : Z) | CMutex (value : T).

Definition construct (c : constructor) : M world (Result object) :=
  match c with
  | CSemaphore mx i => s <-? semaphore_new mx i ;; mret_ (Ok (OSemaphore s))
  | CBinary => s <-? binary_semaphore_new ;; mret_ (Ok (OSemaphore s))
  | CQueue cp ms => q <-? queue_new cp ms ;; mret_ (Ok (OQueue q))
  | CMutex v => m <-? mutex_object_new v ;; mret_ (Ok (OMutex m))
  end.
Definition destroy (o : object) : M world () :=
  match o with OSemaphore s => semaphore_drop s | OQueue q => queue_drop q | OMutex m => mutex_object_drop m end.

(** The native objects of an object, and how they have to be set up. *)
Definition handles (o : object) : list Z :=
  match o with
  | OSemaphore s => [s_mutex s; s_condvar s]
  | OQueue q => [q_mutex q; q_not_empty q; q_not_full q]
  | OMutex m => [m_raw m]
  end.
Definition kinds (o : object) : list Z :=
  match o with
  | OSemaphore _ => [PTHREAD_MUTEX_ERRORCHECK; CLOCK_MONOTONIC]
  | OQueue _ => [PTHREAD_MUTEX_ERRORCHECK; CLOCK_MONOTONIC; CLOCK_MONOTONIC]
  | OMutex _ => [PTHREAD_MUTEX_ERRORCHECK]
  end.

End PosixObjects.
End PosixObjects.

(** ** Facts *)

Module PosixObjectFacts.
Import PosixNative PosixObjects.

Section Facts.
Context `{HA : Arch} {K : Type} `{HP : !Pthread K} `{HL : !PthreadLaws K} (alloc : Z → bool) {T : Type}.

(** The initialised objects are those of [l], each set up as it says. *)
Definition owns (l : list (Z * Z)) (k : K) : Prop :=
  NoDup l.*1 ∧ (∀ h, h ∈ live k ↔ h ∈ l.*1) ∧ ∀ h v, (h, v) ∈ l → kind k h = v.

#[export] Instance owns_proper : Proper ((≡ₚ) ==> (=) ==> iff) owns.
Proof.
  assert (∀ l l' k, l ≡ₚ l' → owns l k → owns l' k) as H.
  { intros l l' k E (Nd & Hl & Hk). assert (l.*1 ≡ₚ l'.*1) as E1 by by rewrite E. split_and!.
    - by rewrite <- E1.
    - intros h. by rewrite Hl, E1.
    - intros h v Hin. apply Hk. by rewrite E. }
  intros l l' E k ? <-. split; apply H; [done|by symmetry].
Qed.

Lemma owns_elem l k h v : owns l k → (h, v) ∈ l → h ∈ live k.
Proof. intros (_ & Hl & _) Hin. apply Hl. apply list_elem_of_fmap. by exists (h, v). Qed.

Lemma owns_framed l k k' : owns l k → framed live kind k k' → (∀ h, h ∈ live k' ↔ h ∈ live k) → owns l k'.
Proof.
  intros O F E. pose proof O as (Nd & Hl & Hk). split; [done|]. split; [intros h; by rewrite E|].
  intros h v Hin. pose proof (owns_elem _ _ _ _ O Hin) as Hh. rewrite (F h Hh) by by apply E. by apply Hk.
Qed.

Lemma owns_created l k h v k' : owns l k → framed live kind k k' → (h ∉ live k) → live k' = {[h]} ∪ live k →
  kind k' h = v → owns ((h, v) :: l) k'.
Proof.
  intros O F Hh E Hv. pose proof O as (Nd & Hl & Hk). split_and!.
  - simpl. constructor; [by rewrite <- Hl|done].
  - intros x. rewrite E. simpl. rewrite elem_of_cons, <- Hl. set_solver.
  - intros x y [[= -> ->]|Hin]%elem_of_cons; [done|]. pose proof (owns_elem _ _ _ _ O Hin) as Hx.
    rewrite (F x Hx) by set_solver. by apply Hk.
Qed.

Lemma owns_destroyed l k h v k' : owns ((h, v) :: l) k → destroys live kind h k k' → owns l k'.
Proof.
  intros O (F & E). pose proof O as (Nd & Hl & Hk). simpl in Nd, Hl. apply NoDup_cons in Nd as [Hh Nd]. split_and!; [done|..].
  - intros x. rewrite E, elem_of_difference, Hl, elem_of_cons, not_elem_of_singleton. split; [naive_solver|].
    intros Hx. split; [by right|]. by intros ->.
  - intros x y Hin. assert (x ∈ l.*1) as Hx by (apply list_elem_of_fmap; by exists (x, y)).
    rewrite (F x); [by apply Hk; right|apply Hl; by right|]. rewrite E. apply elem_of_difference. split; [apply Hl; by right|].
    rewrite not_elem_of_singleton. by intros ->.
Qed.

Lemma owns_head h v l k : owns ((h, v) :: l) k → h ∈ live k.
Proof. intros O. eapply owns_elem; [exact O|]. by left. Qed.

Lemma check_ret_err rc : rc ≠ 0 → ∃ e, Errno.check_ret rc = Err e.
Proof. intros Hr. unfold Errno.check_ret. rewrite (proj2 (Z.eqb_neq _ _) Hr). eauto. Qed.

(** *** Creating a native object *)

(** [pthread_mutex_init] or [pthread_cond_init] can fail in this library. *)
Definition init_fails : Prop :=
  ∃ f a (k : K), (f = mutexes ∨ f = condvars) ∧ a ∈ live k ∧ (object_init f a k).1.1 ≠ 0.

Definition builds_native (v : Z) (m : M K (Result Z)) : Prop := ∀ l k, owns l k →
  (∃ e k', m k = Done (Err e, k') ∧ owns l k') ∨ (∃ h k', m k = Done (Ok h, k') ∧ owns ((h, v) :: l) k') ∨
  (m k = Panic UNDEFINED ∧ init_fails).

Lemma attributed_new_spec f v : f = mutexes ∨ f = condvars → family_laws live kind f → builds_native v (attributed_new f v).
Proof.
  intros Hf [Hi Hs Hd Ho Hx] l k O. unfold attributed_new.
  specialize (Hi k). destruct (attr_init f k) as [[rc a] k1]. destruct Hi as (Ha & F1 & C1).
  destruct C1 as [(-> & L1)|(Hr & L1)].
  2:{ destruct (check_ret_err rc Hr) as [e ->]. left. eexists _, _. split; [done|]. eapply owns_framed; [done..|]. intros h. by rewrite L1. }
  pose proof (owns_created _ _ a _ _ O F1 Ha L1 eq_refl) as O1.
  specialize (Hs a v k1 ltac:(rewrite L1; set_solver)). destruct (attr_set f a v k1) as [rc2 k2]. destruct Hs as (L2 & F2 & V2).
  assert (owns ((a, kind k2 a) :: l) k2) as O2.
  { destruct O1 as (Nd & Hl1 & Hk1). split; [done|]. split; [intros h; by rewrite L2, Hl1|].
    intros h y [[= -> ->]|Hin]%elem_of_cons; [done|]. apply NoDup_cons in Nd as [Hal _].
    assert (h ∈ l.*1) as Hh by (apply list_elem_of_fmap; by exists (h, y)).
    rewrite F2; [by apply Hk1; right|apply Hl1; by right|by intros ->]. }
  destruct (decide (rc2 = 0)) as [->|Hr2].
  2:{ destruct (check_ret_err rc2 Hr2) as [e ->]. left. eexists _, _. split; [done|]. eapply owns_destroyed; [exact O2|apply Hd].
      by eapply owns_head. }
  specialize (V2 eq_refl). destruct (Ho a k2 ltac:(rewrite L2, L1; set_solver)) as (C3 & V3).
  destruct (object_init f a k2) as [[rc3 m] k3] eqn:E3. destruct C3 as (Hm & F3 & C3).
  destruct C3 as [(-> & L3)|(Hr3 & L3)].
  2:{ destruct (check_ret_err rc3 Hr3) as [e ->]. right. right. split; [done|]. exists f, a, k2.
      split; [done|]. split; [by eapply owns_head|]. by rewrite E3. }
  right. left. eexists _, _. split; [done|]. specialize (V3 eq_refl).
  pose proof (owns_created _ _ m v _ O2 F3 Hm L3 ltac:(congruence)) as O3.
  rewrite (perm_swap (m, v) (a, kind k2 a) l) in O3 || apply (owns_proper _ _ (perm_swap (m, v) (a, kind k2 a) l) _ _ eq_refl) in O3.
  eapply (owns_destroyed _ _ a (kind k2 a)); [exact O3|apply Hd]. by eapply owns_head.
Qed.

Lemma mutex_new_spec : builds_native PTHREAD_MUTEX_ERRORCHECK mutex_new.
Proof. apply attributed_new_spec; [by left|apply law_mutexes]. Qed.
Lemma condvar_new_spec : builds_native CLOCK_MONOTONIC condvar_new.
Proof. apply attributed_new_spec; [by right|apply law_condvars]. Qed.

(** *** Leases and natives together *)

(** [n] leases, and the native objects of [l]. *)
Definition good (n : nat) (l : list (Z * Z)) (w : world (K:=K)) : Prop :=
  PosixRuntime.ok n (runtime w) ∧ owns l (clib w).

(** Dropping takes the listed natives and one lease. *)
Definition undoes (hs : list (Z * Z)) (m : M (world (K:=K)) ()) : Prop := ∀ n l w,
  good (S n) (hs ++ l) w → ∃ w', m w = Done ((), w') ∧ good n l w'.

Lemma lease_undoes : undoes [] lease_drop.
Proof.
  intros n l w [R O]. unfold lease_drop. destruct (PosixRuntime.prt_lease_drop n _ R) as (t & -> & Ht). simpl.
  eexists. split; [done|]. by split.
Qed.

Lemma drop_undoes h v hs d m : (∀ k, h ∈ live k → destroys live kind h k (d k)) → undoes hs m →
  undoes ((h, v) :: hs) (on_clib (mmodify d) ;;; m).
Proof.
  intros Hd Hm n l w [R O]. unfold mbind_, on_clib, mmodify. simpl. apply Hm. split; [done|]. simpl.
  eapply owns_destroyed; [exact O|apply Hd]. by eapply owns_head.
Qed.

Lemma mutex_undoes h v hs m : undoes hs m → undoes ((h, v) :: hs) (on_clib (mutex_drop h) ;;; m).
Proof. apply drop_undoes. intros k. apply (fl_object_destroy _ _ _ law_mutexes). Qed.
Lemma condvar_undoes h v hs m : undoes hs m → undoes ((h, v) :: hs) (on_clib (condvar_drop h) ;;; m).
Proof. apply drop_undoes. intros k. apply (fl_object_destroy _ _ _ law_condvars). Qed.

(** Building on the natives [hs]: an error leaves none of them and no lease, a
    value holds [of_value] of them and one lease; or an initialisation failed. *)
Definition builds {A} (hs : list (Z * Z)) (of_value : A → list (Z * Z)) (m : M (world (K:=K)) (Result A)) : Prop :=
  ∀ n l w, good (S n) (hs ++ l) w →
    (∃ e w', m w = Done (Err e, w') ∧ good n l w') ∨
    (∃ a w', m w = Done (Ok a, w') ∧ good (S n) (of_value a ++ l) w') ∨
    (m w = Panic UNDEFINED ∧ init_fails).

Lemma ret_builds {A} hs of_value (a : A) : of_value a ≡ₚ hs → builds hs of_value (mret_ (Ok a)).
Proof. intros E n l w [R O]. right. left. eexists _, _. split; [done|]. split; [done|]. by rewrite E. Qed.

Lemma or_undo_builds {A} hs of_value v (m : M K (Result Z)) undo (k : Z → M (world (K:=K)) (Result A)) :
  builds_native v m → undoes hs undo → (∀ h, builds ((h, v) :: hs) of_value (k h)) → builds hs of_value (or_undo m undo k).
Proof.
  intros Hm Hu Hk n l w [R O]. unfold or_undo, mbind_, on_clib.
  destruct (Hm _ _ O) as [(e & k' & -> & O')|[(h & k' & -> & O')|[-> Hf]]]; simpl.
  - left. destruct (Hu n l (mkWorld (runtime w) k')) as (w' & -> & G); [by split|]. eauto.
  - by apply (Hk h n l (mkWorld (runtime w) k')).
  - right. by right.
Qed.

Lemma value_builds {A B} hs of_value (r : Result B) undo (k : B → M (world (K:=K)) (Result A)) :
  undoes hs undo → (∀ b, r = Ok b → builds hs of_value (k b)) → builds hs of_value (or_undo (mret_ r) undo k).
Proof.
  intros Hu Hk n l [rt k0] G. destruct r as [b|e].
  - exact (Hk b eq_refl n l _ G).
  - left. destruct (Hu n l _ G) as (w' & E & G'). exists e, w'. split; [|done].
    unfold or_undo, mbind_, on_clib, mret_. simpl. by rewrite E.
Qed.

(** A constructor: it takes a lease first. *)
Definition constructs {A} (of_value : A → list (Z * Z)) (m : M (world (K:=K)) (Result A)) : Prop :=
  ∀ n l w, good n l w →
    (∃ e w', m w = Done (Err e, w') ∧ good n l w') ∨
    (∃ a w', m w = Done (Ok a, w') ∧ good (S n) (of_value a ++ l) w') ∨
    (m w = Panic UNDEFINED ∧ init_fails).

Lemma leased_constructs {A} of_value (body : M (world (K:=K)) (Result A)) :
  builds [] of_value body → constructs of_value (_ <-? acquire_object ;; body).
Proof.
  intros Hb n l w [R O]. unfold mtry, mbind_, acquire_object.
  destruct (PosixRuntime.prt_acquire n _ R) as [(e & ->)|(t & -> & R')]; simpl.
  - left. eexists _, _. split; [done|]. by split.
  - apply Hb. by split.
Qed.

Lemma refused_constructs {A} of_value e : constructs of_value (mret_ (Err e) : M _ (Result A)).
Proof. intros n l w G. left. by eexists _, _. Qed.

Lemma map_constructs {A B} (f : A → B) of_value (m : M (world (K:=K)) (Result A)) :
  constructs (λ a, of_value (f a)) m → constructs of_value (a <-? m ;; mret_ (Ok (f a))).
Proof.
  intros Hm n l w G. unfold mtry, mbind_. destruct (Hm n l w G) as [(e & w' & -> & G')|[(a & w' & -> & G')|[-> Hf]]]; simpl.
  - left. by eexists _, _.
  - right. left. by eexists _, _.
  - right. by right.
Qed.

(** *** The constructors and destructors *)

Definition natives (o : object (T:=T)) : list (Z * Z) := zip (handles o) (kinds o).

Lemma semaphore_constructs mx i : constructs (λ s, natives (OSemaphore s)) (semaphore_new mx i).
Proof.
  unfold semaphore_new. destruct (CountingSemaphoreState.new mx i); [|apply refused_constructs].
  apply leased_constructs. apply or_undo_builds with PTHREAD_MUTEX_ERRORCHECK; [apply mutex_new_spec|apply lease_undoes|].
  intros m. apply or_undo_builds with CLOCK_MONOTONIC; [apply condvar_new_spec|apply mutex_undoes, lease_undoes|].
  intros v. apply ret_builds. apply perm_swap.
Qed.

Lemma queue_constructs cp ms : constructs (λ q, natives (OQueue q)) (queue_new alloc cp ms).
Proof.
  unfold queue_new. destruct (Validation.validate_queue_capacity cp); [|apply refused_constructs].
  destruct (Validation.validate_queue_message_size ms); [|apply refused_constructs].
  apply leased_constructs. apply or_undo_builds with PTHREAD_MUTEX_ERRORCHECK; [apply mutex_new_spec|apply lease_undoes|].
  intros m. apply or_undo_builds with CLOCK_MONOTONIC; [apply condvar_new_spec|apply mutex_undoes, lease_undoes|].
  intros e. apply or_undo_builds with CLOCK_MONOTONIC; [apply condvar_new_spec|apply condvar_undoes, mutex_undoes, lease_undoes|].
  intros f. apply value_builds; [apply condvar_undoes, condvar_undoes, mutex_undoes, lease_undoes|].
  intros b _. apply ret_builds. simpl. solve_Permutation.
Qed.

Lemma mutex_constructs (v : T) : constructs (λ m, natives (OMutex m)) (mutex_object_new v).
Proof.
  apply leased_constructs. apply or_undo_builds with PTHREAD_MUTEX_ERRORCHECK; [apply mutex_new_spec|apply lease_undoes|].
  intros m. by apply ret_builds.
Qed.

Lemma construct_spec c : constructs natives (construct alloc c).
Proof.
  destruct c as [mx i| |cp ms|v]; apply map_constructs;
    [apply semaphore_constructs|apply semaphore_constructs|apply queue_constructs|apply mutex_constructs].
Qed.

Lemma destroy_undoes o : undoes (natives o) (destroy o).
Proof.
  destruct o as [s|q|m]; simpl.
  - apply mutex_undoes, condvar_undoes, lease_undoes.
  - apply mutex_undoes, condvar_undoes, condvar_undoes, lease_undoes.
  - apply mutex_undoes, lease_undoes.
Qed.

(** *** Any number of objects *)

(** The world, and the objects with the number of handles ([Arc]) to each. *)
Record config : Type := mkConfig { wld : world (K:=K); objects : list (object (T:=T) * nat) }.

Inductive event : Type :=
| New (c : constructor (T:=T))
| CloneHandle (k : nat)
| DropHandle (k : nat)
| InitBegin
| ShutdownBegin
| TransitionEnd (i : nat) (res : Result ()).

Definition exec (c : config) (e : event) : option (Run config) :=
  let w := wld c in
  match e with
  | New ctor => Some (
      '(r, w) ← construct alloc ctor w;
      Done (mkConfig w match r with Ok o => objects c ++ [(o, 1%nat)] | Err _ => objects c end))
  | CloneHandle k => '(o, n) ← objects c !! k; Some (Done (mkConfig w (<[k:=(o, S n)]> (objects c))))
  | DropHandle k =>
      '(o, n) ← objects c !! k;
      match n with
      | S (S n) => Some (Done (mkConfig w (<[k:=(o, S n)]> (objects c))))
      | _ => Some ('(_, w) ← destroy o w; Done (mkConfig w (delete k (objects c))))
      end
  | InitBegin => Some ('(_, r) ← PosixRuntime.initialize_begin (runtime w); Done (mkConfig (mkWorld r (clib w)) (objects c)))
  | ShutdownBegin => Some ('(_, r) ← PosixRuntime.shutdown_begin (runtime w); Done (mkConfig (mkWorld r (clib w)) (objects c)))
  | TransitionEnd i res =>
      m ← PosixRuntime.transition_end i res (runtime w);
      Some (r ← m; Done (mkConfig (mkWorld r (clib w)) (objects c)))
  end.

Inductive reachable (k0 : K) : config → Prop :=
| po_init : reachable k0 (mkConfig (mkWorld PosixRuntime.new k0) [])
| po_step c e c' : reachable k0 c → exec c e = Some (Done c') → reachable k0 c'.

Definition all_natives (l : list (object (T:=T) * nat)) : list (Z * Z) := l ≫= λ x, natives x.1.

Lemma all_natives_delete l k x : l !! k = Some x → all_natives l ≡ₚ natives x.1 ++ all_natives (delete k l).
Proof.
  intros E. apply delete_Permutation in E. unfold all_natives. by rewrite E at 1.
Qed.

Lemma all_natives_insert l k o n n' : l !! k = Some (o, n) → all_natives (<[k:=(o, n')]> l) = all_natives l.
Proof.
  intros E. unfold all_natives. rewrite insert_take_drop by (by eapply lookup_lt_Some).
  rewrite <- (take_drop_middle _ _ _ E) at 3. by rewrite !bind_app.
Qed.

Lemma all_natives_fst l : (all_natives l).*1 = l ≫= λ x, handles x.1.
Proof.
  unfold all_natives. induction l as [|[o n] l IH]; [done|]. rewrite !bind_cons, fmap_app, IH. f_equal. by destruct o.
Qed.

Definition objects_ok (c : config) : Prop := good (length (objects c)) (all_natives (objects c)) (wld c).

Lemma objects_exec c e m : objects_ok c → exec c e = Some m →
  (∃ c', m = Done c' ∧ objects_ok c') ∨ m = Panic UNDEFINED ∧ init_fails ∧ ∃ ctor, e = New ctor.
Proof.
  intros G E. pose proof G as [R O]. unfold objects_ok. destruct e as [ctor|k|k| | |i res]; simpl in E.
  1: injection E as <-; destruct (construct_spec ctor _ _ _ G) as [(e & w' & -> & G')|[(o & w' & -> & G')|[-> Hf]]]; simpl;
      [left; by eexists|left|right; eauto]; (eexists; split; [done|]); simpl.
  2-6: left.
  - rewrite length_app, Nat.add_1_r. destruct G' as [R' O']. split; [done|]. unfold all_natives. rewrite bind_app. simpl.
    by rewrite app_nil_r, (comm (++)).
  - destruct (objects c !! k) as [[o n]|] eqn:Ek; simplify_eq/=. eexists. split; [done|]. simpl.
    by rewrite length_insert, (all_natives_insert _ _ _ n).
  - destruct (objects c !! k) as [[o n]|] eqn:Ek; simplify_eq/=.
    assert (∃ c', ('(_, w) ← destroy o (wld c); Done (mkConfig w (delete k (objects c)))) = Done c' ∧
      good (length (objects c')) (all_natives (objects c')) (wld c')) as Hd.
    { pose proof (lookup_lt_Some _ _ _ Ek) as Hlt.
      destruct (destroy_undoes o (length (delete k (objects c))) (all_natives (delete k (objects c))) (wld c)) as (w' & -> & G').
      - rewrite length_delete by done. replace (S (length (objects c) - 1)) with (length (objects c)) by lia.
        split; [done|]. by rewrite <- (all_natives_delete _ _ (o, n)).
      - simpl. eexists. by split. }
    destruct n as [|[|n]]; simplify_eq; [done|done|].
    eexists. split; [done|]. simpl. by rewrite length_insert, (all_natives_insert _ _ _ (S (S n))).
  - injection E as <-. destruct (PosixRuntime.prt_initialize _ _ R) as (r & t & -> & Ht). simpl. eexists. split; [done|]. by split.
  - injection E as <-. destruct (PosixRuntime.prt_shutdown _ _ R) as (r & t & -> & Ht). simpl. eexists. split; [done|]. by split.
  - destruct (PosixRuntime.transition_end i res (runtime (wld c))) as [m'|] eqn:Et; simplify_eq/=.
    destruct (PosixRuntime.prt_transition _ _ _ _ _ R Et) as (t & -> & Ht). simpl. eexists. split; [done|]. by split.
Qed.

Lemma objects_reachable k0 c : live k0 = ∅ → reachable k0 c → objects_ok c.
Proof.
  intros H0 R. induction R as [|c e c' _ IH E].
  - split; simpl; [apply PosixRuntime.prt_new_ok|]. split; [constructor|]. split; [|by intros h v ?%elem_of_nil].
    intros h. rewrite H0. set_solver.
  - by destruct (objects_exec c e _ IH E) as [(? & [= <-] & ?)|[? _]].
Qed.


End Facts.
End PosixObjectFacts.

(** ** Witness *)

Module PosixObjectWitness.
Import PosixNative PosixObjects PosixObjectFacts.

#[local] Existing Instance arch64.

(** A C library that runs out of memory at every seventh creation. *)
Record toy : Type := mkToy { calls : Z; alive : gmap Z Z }.

Definition toy_create (v : Z) (k : toy) : Z * Z * toy :=
  let h := fresh (dom (alive k)) in
  if calls k mod 7 =? 6 then (Errno.ENOMEM, h, mkToy (calls k + 1) (alive k))
  else (0, h, mkToy (calls k + 1) (<[h:=v]> (alive k))).
Definition toy_set (a v : Z) (k : toy) : Z * toy :=
  match alive k !! a with Some _ => (0, mkToy (calls k) (<[a:=v]> (alive k))) | None => (Errno.EINVAL, k) end.
Definition toy_destroy (h : Z) (k : toy) : toy := mkToy (calls k) (delete h (alive k)).

Definition toy_family : family toy :=
  mkFamily (toy_create 0) toy_set toy_destroy (λ a k, toy_create (default 0 (alive k !! a)) k) toy_destroy.
#[global] Instance toy_pthread : Pthread toy := {| mutexes := toy_family; condvars := toy_family |}.

Definition toy_live (k : toy) : gset Z := dom (alive k).
Definition toy_kind (k : toy) (h : Z) : Z := default 0 (alive k !! h).

Lemma toy_creates v k : creates toy_live toy_kind k (toy_create v k) ∧
  (let '(rc, h, k') := toy_create v k in rc = 0 → toy_kind k' h = v).
Proof.
  unfold toy_create, creates, framed, toy_live, toy_kind.
  pose proof (is_fresh (dom (alive k))) as Hf. destruct (_ =? 6); simpl.
  - split; [|done]. split_and!; try done. by right.
  - split; [|by rewrite lookup_insert_eq]. split_and!; [done| |left; by rewrite dom_insert_L].
    intros h Hh _. rewrite lookup_insert_ne; [done|]. intros <-. done.
Qed.

Lemma toy_laws : family_laws toy_live toy_kind toy_family.
Proof.
  assert (∀ h k, destroys toy_live toy_kind h k (toy_destroy h k)) as Hd.
  { intros h k. unfold destroys, framed, toy_live, toy_kind, toy_destroy. simpl. split; [|by rewrite dom_delete_L].
    intros x _ Hx. rewrite dom_delete_L in Hx. rewrite lookup_delete_ne by set_solver. done. }
  split; simpl; try done.
  - intros k. apply toy_creates.
  - intros a v k Ha. unfold toy_set, toy_live, toy_kind in *. apply elem_of_dom in Ha as [x Ex]. rewrite Ex. simpl.
    split_and!; [|intros h _ Hne; by rewrite lookup_insert_ne|intros _; by rewrite lookup_insert_eq].
    rewrite dom_insert_lookup_L; [done|]. by rewrite Ex.
  - intros a k Ha. destruct (toy_creates (default 0 (alive k !! a)) k) as [H1 H2]. by split.
Qed.
#[global] Instance toy_pthread_laws : PthreadLaws toy :=
  {| live := toy_live; kind := toy_kind; law_mutexes := toy_laws; law_condvars := toy_laws |}.

(** The queue is refused (a condition variable cannot be created), the rest is
    built, shared and dropped. *)
Definition sample : list (event (T:=Z)) :=
  [InitBegin; TransitionEnd 0 (Ok ()); New (CSemaphore 2 1); New (CQueue 2 8); New (CMutex 5); CloneHandle 0;
   ShutdownBegin; DropHandle 0].

Fixpoint exec_all (c : config (T:=Z)) (es : list (event (T:=Z))) : option config :=
  match es with
  | [] => Some c
  | e :: es => match exec (λ _, true) c e with Some (Done c') => exec_all c' es | _ => None end
  end.
Definition toy0 : toy := mkToy 0 ∅.
Definition sample_config : config := default (mkConfig (mkWorld PosixRuntime.new toy0) [])
  (exec_all (mkConfig (mkWorld PosixRuntime.new toy0) []) sample).

Lemma objects_all_reachable es c c' : reachable (λ _, true) toy0 c → exec_all c es = Some c' → reachable (λ _, true) toy0 c'.
Proof.
  revert c. induction es as [|e es IH]; intros c R E; simpl in E; [by simplify_eq|].
  destruct (exec (λ _, true) c e) as [[c1| |]|] eqn:Ee; try done. apply (IH c1); [|done]. by eapply po_step.
Qed.


(** The attribute object is created, the mutex is not: the constructor destroys a
    mutex that was never initialised. *)
Lemma failed_init_undefined : mutex_new (mkToy 5 ∅) = Panic UNDEFINED.
Proof. vm_compute. reflexivity. Qed.

End PosixObjectWitness.
