(* ===== verification/PosixLock.v ===== *)
(** * The POSIX mutex under concurrency

    [crates/osal-backend-posix/src/mutex.rs] over [sys/mutex.rs]: any number of
    threads lock, use and release one [PosixMutexImpl].  A [pthread] call is one
    step; the error-checking mutex of the C library is the class
    [ErrorCheckMutex].  [PosixSys] has the same functions sequentially, with
    their clock and sleeps. *)

From S2P Require Import Prelude Api PosixSys.

(** ** The C library's mutex *)

(** Return codes of a call by a thread; [None]: it blocks. *)
Class ErrorCheckMutex (N : Type) := {
  ec_lock : Z → N → option (Z * N);
  ec_trylock : Z → N → Z * N;
  ec_unlock : Z → N → Z * N;
}.

(** [PTHREAD_MUTEX_ERRORCHECK]: relocking reports [EDEADLK] and an unlock by
    another thread [EPERM]. *)
Class ErrorCheckLaws (N : Type) `{ErrorCheckMutex N} := {
  owner : N → option Z;
  law_lock : ∀ t n, match owner n with
    | None => ∃ n', ec_lock t n = Some (0, n') ∧ owner n' = Some t
    | Some u => if decide (u = t) then ec_lock t n = Some (Errno.EDEADLK, n) else ec_lock t n = None
    end;
  law_trylock_ec : ∀ t n, match owner n with
    | None => ∃ n', ec_trylock t n = (0, n') ∧ owner n' = Some t
    | Some _ => ec_trylock t n = (Errno.EBUSY, n)
    end;
  law_unlock : ∀ t n, if decide (owner n = Some t)
    then ∃ n', ec_unlock t n = (0, n') ∧ owner n' = None
    else ec_unlock t n = (Errno.EPERM, n);
}.

(** ** [mutex.rs] *)

Module PosixMutexObject.
Section PosixMutexObject.
Context {T N : Type} `{!ErrorCheckMutex N}.

(** How an attempt of [lock] goes on. *)
Inductive attempt : Type :=
| Locked                      (** the guard is returned *)
| Failed (e : Error.t)
| Again.                      (** a further round of [timed_lock], after a sleep *)

(** [NoWait]: [try_lock()?] *)
Definition try_attempt (r : Result ()) : attempt := match r with Ok _ => Locked | Err e => Failed e end.
(** [After(0)] *)
Definition zero_attempt (r : Result ()) : attempt :=
  match r with Ok _ => Locked | Err Error.LockFailed => Failed Error.Timeout | Err e => Failed e end.
(** A round of the loop of [timed_lock]; [late]: the clock is at or past the deadline. *)
Definition timed_attempt (late : bool) (r : Result ()) : attempt :=
  match r with
  | Ok _ => Locked
  | Err Error.LockFailed => if late then Failed Error.Timeout else Again
  | Err e => Failed e
  end.

(** One attempt by a thread, or [None] where it blocks. *)
Definition lock_attempt (t : Z) (timeout : Timeout.t) (late : bool) (n : N) : option (attempt * N) :=
  match timeout with
  | Timeout.Forever => '(rc, n) ← ec_lock t n; Some (try_attempt (Errno.check_ret rc), n)
  | Timeout.NoWait => let '(rc, n) := ec_trylock t n in Some (try_attempt (Errno.check_ret rc), n)
  | Timeout.After d =>
      let '(rc, n) := ec_trylock t n in
      Some (if Duration.eqb d Duration.ZERO then zero_attempt (Errno.check_ret rc)
            else timed_attempt late (Errno.check_ret rc), n)
  end.

(** Whether [timed_lock] computes a deadline first. *)
Definition needs_deadline (timeout : Timeout.t) : bool :=
  match timeout with Timeout.After d => negb (Duration.eqb d Duration.ZERO) | _ => false end.

(** [Drop for PosixMutexGuardImpl]: the result is ignored. *)
Definition guard_drop (t : Z) (n : N) : Result () * N := let '(rc, n) := ec_unlock t n in (Errno.check_ret rc, n).

(** *** Threads *)

(** A thread may hold a guard and call [lock] again. *)
Record thread : Type := mkThread { guard : bool; call : option Timeout.t }.
Definition idle : thread := mkThread false None.

Record config : Type := mkConfig {
  native : N;
  data : T;
  threads : gmap Z thread;
  returned : list (Z * Timeout.t * Result ());   (** the results of [lock] *)
  unlocks : list (Result ());                    (** what the drops of guards ignored *)
}.

Definition thread_of (c : config) (t : Z) : thread := default idle (threads c !! t).
Definition update (c : config) (n : N) (t : Z) (x : thread) (l : list (Z * Timeout.t * Result ())) : config :=
  mkConfig n (data c) (<[t:=x]> (threads c)) (returned c ++ l) (unlocks c).

Inductive event : Type :=
| Lock (t : Z) (timeout : Timeout.t) (deadline : Result ())   (** [checked_abs_deadline] *)
| Attempt (t : Z) (late : bool)
| Access (t : Z) (f : T → T)                                  (** through [Deref] and [DerefMut] *)
| DropGuard (t : Z).

Definition exec (c : config) (e : event) : option config :=
  match e with
  | Lock t timeout deadline =>
      match call (thread_of c t), needs_deadline timeout, deadline with
      | None, true, Err e => Some (update c (native c) t (thread_of c t) [(t, timeout, Err e)])
      | None, _, _ => Some (update c (native c) t (mkThread (guard (thread_of c t)) (Some timeout)) [])
      | Some _, _, _ => None
      end
  | Attempt t late =>
      let x := thread_of c t in
      timeout ← call x;
      '(a, n) ← lock_attempt t timeout late (native c);
      Some match a with
           | Locked => update c n t (mkThread true None) [(t, timeout, Ok ())]
           | Failed e => update c n t (mkThread (guard x) None) [(t, timeout, Err e)]
           | Again => update c n t x []
           end
  | Access t f =>
      if guard (thread_of c t)
      then Some (mkConfig (native c) (f (data c)) (threads c) (returned c) (unlocks c)) else None
  | DropGuard t =>
      let x := thread_of c t in
      if guard x then
        let '(r, n) := guard_drop t (native c) in
        let c := update c n t (mkThread false (call x)) [] in
        Some (mkConfig (native c) (data c) (threads c) (returned c) (unlocks c ++ [r]))
      else None
  end.

(** A deadline fails only by being unrepresentable. *)
Definition event_ok (e : event) : Prop :=
  match e with Lock _ _ (Err e) => e = Error.Overflow | _ => True end.

Inductive reachable (n : N) (v : T) : config → Prop :=
| pm_init : reachable n v (mkConfig n v ∅ [] [])
| pm_step c e c' : reachable n v c → event_ok e → exec c e = Some c' → reachable n v c'.

(** *** Facts *)

Context `{!ErrorCheckLaws N}.

(** What [lock] can return for a timeout. *)
Definition result_ok (timeout : Timeout.t) (r : Result ()) : Prop :=
  match r with
  | Ok _ => True
  | Err e => match timeout with
             | Timeout.NoWait | Timeout.Forever => e = Error.LockFailed
             | Timeout.After _ => e = Error.Timeout ∨ e = Error.Overflow ∧ needs_deadline timeout = true
             end
  end.

Record inv (c : config) : Prop := {
  pi_owner : ∀ t, guard (thread_of c t) = true ↔ owner (native c) = Some t;
  pi_results : Forall (λ x, result_ok x.1.2 x.2) (returned c);
  pi_unlocks : Forall (λ r, r = Ok ()) (unlocks c);
}.

Lemma thread_of_update c n t x l u : thread_of (update c n t x l) u = if decide (t = u) then x else thread_of c u.
Proof. unfold thread_of, update. simpl. case_decide; subst; by simplify_map_eq. Qed.

Lemma pmutex_update c n t x l : inv c →
  (guard x = true ↔ owner n = Some t) → (∀ u, u ≠ t → owner n = Some u ↔ owner (native c) = Some u) →
  Forall (λ x, result_ok x.1.2 x.2) l → inv (update c n t x l).
Proof.
  intros [Ho Hr Hu] Hx Hn Hl. split; [|by apply Forall_app|done].
  intros u. rewrite thread_of_update. simpl. case_decide as E; [by subst|]. rewrite Ho. by rewrite Hn.
Qed.

(** An attempt takes the free mutex, and leaves a taken one as it is. *)
Lemma attempt_spec t timeout late n :
  match owner n with
  | None => ∃ n', lock_attempt t timeout late n = Some (Locked, n') ∧ owner n' = Some t
  | Some u => ∀ a n', lock_attempt t timeout late n = Some (a, n') → n' = n ∧
      match a with
      | Locked => False
      | Failed e => result_ok timeout (Err e) ∧ (timeout = Timeout.Forever → u = t)
      | Again => needs_deadline timeout = true ∧ late = false
      end
  end.
Proof.
  pose proof (law_lock t n) as Hl. pose proof (law_trylock_ec t n) as Ht.
  destruct (owner n) as [u|]; destruct timeout as [|d|]; simpl.
  - intros a n'. rewrite Ht. simpl. intros. simplify_eq. done.
  - intros a n'. rewrite Ht. simpl. unfold result_ok. simpl.
    destruct (Duration.eqb d Duration.ZERO) eqn:E, late; intros; simplify_eq; split_and?; simpl; rewrite ?E; auto; done.
  - intros a n'. case_decide; rewrite Hl; intros; simplify_eq/=. done.
  - destruct Ht as (n' & -> & E). by exists n'.
  - destruct Ht as (n' & -> & E). exists n'. split; [|done]. simpl. by destruct (Duration.eqb d Duration.ZERO).
  - destruct Hl as (n' & -> & E). by exists n'.
Qed.

Lemma pmutex_exec c e c' : inv c → event_ok e → exec c e = Some c' → inv c'.
Proof.
  intros I He E. pose proof (pi_owner _ I) as Ho. destruct e as [t tm dl|t late|t f|t]; simpl in E.
  - destruct (call (thread_of c t)); [done|]. destruct (needs_deadline tm) eqn:Hd, dl as [|e]; simplify_eq/=;
      (apply pmutex_update; [done|by rewrite <- Ho|done|]); repeat constructor.
    destruct tm; simpl in *; by auto.
  - destruct (call (thread_of c t)) as [tm|]; [|done]. simpl in E. pose proof (attempt_spec t tm late (native c)) as S.
    destruct (owner (native c)) as [u|] eqn:Eo.
    + destruct (lock_attempt t tm late (native c)) as [[a n']|]; simplify_eq/=. destruct (S a n' eq_refl) as [-> Ha].
      destruct a as [|e|]; [done|..]; (apply pmutex_update; [done|simpl; by rewrite Ho, Eo|done|]); repeat constructor. apply Ha.
    + destruct S as (n' & Ea & En). rewrite Ea in E. simplify_eq/=. apply pmutex_update; [done|done| |by repeat constructor].
      intros u Hne. rewrite En, Eo. split; [congruence|done].
  - destruct (guard (thread_of c t)); simplify_eq. by destruct I.
  - destruct (guard (thread_of c t)) eqn:Eg; [|done]. apply Ho in Eg. pose proof (law_unlock t (native c)) as U.
    rewrite decide_True in U by done. destruct U as (n' & Eu & En). unfold guard_drop in E. rewrite Eu in E. simplify_eq/=.
    assert (inv (update c n' t (mkThread false (call (thread_of c t))) [])) as [? ? ?].
    { apply pmutex_update; [done|by rewrite En| |constructor]. intros u Hne. rewrite En, Eg. split; congruence. }
    split; simpl; [done|done|]. apply Forall_app. split; [apply I|]. by repeat constructor.
Qed.

Lemma posix_mutex_reachable n v c : owner n = None → reachable n v c → inv c.
Proof.
  intros Hn R. induction R as [|c e c' _ IH He E]; [|by eapply pmutex_exec].
  split; simpl; [|constructor|constructor]. intros t. rewrite Hn. split; [|done].
  unfold thread_of. simpl. by rewrite lookup_empty.
Qed.

(** C16: The POSIX mutex, locked, used and released by any number of threads in any
    interleaving: at most one thread holds a guard, and it is the owner of the
    pthread mutex; while it holds the guard, no step of another thread changes the
    data (that only the holder of a guard can name the data is Rust's typing, the
    condition of [Access]); the unlock in a guard's drop, whose result is ignored, never
    fails; [lock] reports [LockFailed] exactly without a timeout (a [Forever] lock
    only to the holder itself, which then does not deadlock), [Timeout] or an
    unrepresentable deadline otherwise; while nobody holds the mutex, the next
    attempt of any waiting thread succeeds. *)
Theorem posix_mutex_exclusive n v c : owner n = None → reachable n v c →
  (∀ t u, guard (thread_of c t) = true → guard (thread_of c u) = true → t = u) ∧
  (∀ t e c', guard (thread_of c t) = true → exec c e = Some c' → data c' = data c ∨ ∃ f, e = Access t f ∧ data c' = f (data c)) ∧
  Forall (λ r, r = Ok ()) (unlocks c) ∧
  Forall (λ x, result_ok x.1.2 x.2) (returned c) ∧
  (∀ t, guard (thread_of c t) = true → call (thread_of c t) = Some Timeout.Forever →
     ∃ c', exec c (Attempt t false) = Some c' ∧ returned c' = returned c ++ [(t, Timeout.Forever, Err Error.LockFailed)] ∧
       guard (thread_of c' t) = true) ∧
  ((∀ t, guard (thread_of c t) = false) → ∀ t timeout late, call (thread_of c t) = Some timeout →
     ∃ c', exec c (Attempt t late) = Some c' ∧ returned c' = returned c ++ [(t, timeout, Ok ())] ∧
       guard (thread_of c' t) = true).
Proof.
  intros Hn R. pose proof (posix_mutex_reachable n v c Hn R) as I. pose proof (pi_owner _ I) as Ho. split_and!.
  - intros t u Ht Hu. apply Ho in Ht, Hu. congruence.
  - intros t e c' Ht E. destruct e as [u tm dl|u late|u f|u]; simpl in E; [left..|right|left].
    + by repeat case_match; simplify_eq.
    + destruct (call _); [|done]. simpl in E. destruct (lock_attempt _ _ _ _) as [[[] ?]|]; by simplify_eq/=.
    + destruct (guard (thread_of c u)) eqn:Hu; simplify_eq/=. apply Ho in Ht, Hu. assert (t = u) as -> by congruence. by exists f.
    + destruct (guard (thread_of c u)); [|done]. destruct (guard_drop _ _). by simplify_eq.
  - apply I.
  - apply I.
  - intros t Hg Hc. pose proof (law_lock t (native c)) as L. rewrite (proj1 (Ho t) Hg) in L. rewrite decide_True in L by done.
    simpl. rewrite Hc. simpl. rewrite L. simpl. eexists. split; [done|]. split; [done|].
    by rewrite thread_of_update, decide_True.
  - intros Hno t tm late Hc. assert (owner (native c) = None) as Eo.
    { apply eq_None_not_Some. intros [u Eu]. apply Ho in Eu. by rewrite Hno in Eu. }
    pose proof (attempt_spec t tm late (native c)) as S. rewrite Eo in S. destruct S as (n' & El & _).
    simpl. rewrite Hc. simpl. rewrite El. simpl. eexists. split; [done|]. split; [done|].
    by rewrite thread_of_update, decide_True.
Qed.

End PosixMutexObject.

(** *** Witness *)

#[global] Instance plain_ec : ErrorCheckMutex (option Z) := {|
  ec_lock := λ t n, match n with
    | None => Some (0, Some t)
    | Some u => if decide (u = t) then Some (Errno.EDEADLK, n) else None end;
  ec_trylock := λ t n, match n with None => (0, Some t) | Some _ => (Errno.EBUSY, n) end;
  ec_unlock := λ t n, if decide (n = Some t) then (0, None) else (Errno.EPERM, n);
|}.
#[global] Instance plain_ec_laws : ErrorCheckLaws (option Z).
Proof.
  refine {| owner := λ n, n |}; intros t [u|]; simpl; [by repeat case_decide|by eauto..| |by repeat case_decide].
  case_decide; [by eauto|done].
Defined.

Definition sample : list (event (T:=Z)) :=
  [Lock 1 Timeout.Forever (Ok ()); Attempt 1 false; Access 1 (Z.add 5); Lock 1 Timeout.Forever (Ok ());
   Lock 2 (Timeout.After (Duration.from_millis 3)) (Ok ()); Attempt 2 false; Attempt 2 true].
Fixpoint exec_list (c : config (T:=Z) (N:=option Z)) (es : list (event (T:=Z))) : option config :=
  match es with [] => Some c | e :: es => c' ← exec c e; exec_list c' es end.
Definition sample_config : config (T:=Z) (N:=option Z) :=
  default (mkConfig None 0 ∅ [] []) (exec_list (mkConfig None 0 ∅ [] []) sample).

Lemma exec_list_reachable es (c c' : config (T:=Z) (N:=option Z)) n v : reachable n v c → Forall event_ok es →
  exec_list c es = Some c' → reachable n v c'.
Proof.
  revert c. induction es as [|e es IH]; intros c R F E; simpl in E; [by simplify_eq|].
  apply Forall_cons in F as [Fe F]. destruct (exec c e) as [c1|] eqn:Ee; [|done]. apply (IH c1); [|done..]. by eapply pm_step.
Qed.

Lemma posix_mutex_exclusive_witness :
  returned sample_config = [(1, Timeout.Forever, Ok ()); (2, Timeout.After (Duration.from_millis 3), Err Error.Timeout)] ∧
  ∃ c', exec sample_config (Attempt 1 false) = Some c' ∧
    returned c' = returned sample_config ++ [(1, Timeout.Forever, Err Error.LockFailed)].
Proof.
  split; [vm_compute; reflexivity|].
  destruct (posix_mutex_exclusive (None : option Z) 0 sample_config) as (_ & _ & _ & _ & Hf & _).
  - reflexivity.
  - apply (exec_list_reachable sample (mkConfig None 0 ∅ [] [])); [apply pm_init|repeat constructor|vm_compute; reflexivity].
  - destruct (Hf 1) as (c' & E & Hr & _); [vm_compute; reflexivity|vm_compute; reflexivity|]. exists c'. split; [exact E|exact Hr].
Defined.

End PosixMutexObject.
