(* ===== verification/Critical.v ===== *)
(** * Critical sections

    [system.rs] of the POSIX backend over [sys/recursive_mutex.rs], and of the
    FreeRTOS backend over the wrappers of [osal-backend-freertos-sys].  (The mock's
    is a counter; it is in [Mock].)

    The POSIX one is a recursive mutex that [pthread_once] initialises in the first
    call: [PosixSystem] runs any number of threads on it, one native call per step. *)

From S2P Require Import Prelude Api PosixSys.

(** ** POSIX *)

(** The recursive mutex of the C library: the codes of the four calls of [init];
    a [None] of a lock blocks. *)
Class RecursiveMutex (N : Type) := {
  rm_init : N → Z * Z * Z * Z * N;
  rm_lock : Z → N → option (Z * N);
  rm_unlock : Z → N → Z * N;
}.

(** Nothing is known of a mutex whose initialisation has not succeeded. *)
Class RecursiveMutexLaws (N : Type) `{RecursiveMutex N} := {
  initialised : N → Prop;
  holder : N → option (Z * nat);
  recursion_limit : nat;
  law_rm_init : ∀ n n', rm_init n = (0, 0, 0, 0, n') → initialised n' ∧ holder n' = None;
  law_rm_lock : ∀ t n, initialised n →
    match holder n with
    | None => ∃ n', rm_lock t n = Some (0, n') ∧ initialised n' ∧ holder n' = Some (t, 1%nat)
    | Some (u, d) =>
        if decide (u = t)
        then (d < recursion_limit)%nat → ∃ n', rm_lock t n = Some (0, n') ∧ initialised n' ∧ holder n' = Some (t, S d)
        else rm_lock t n = None
    end;
  law_rm_unlock : ∀ t n, initialised n →
    match holder n with
    | Some (u, S d) =>
        if decide (u = t)
        then ∃ n', rm_unlock t n = (0, n') ∧ initialised n' ∧ holder n' = match d with O => None | S _ => Some (t, d) end
        else rm_unlock t n = (Errno.EPERM, n)
    | _ => rm_unlock t n = (Errno.EPERM, n)
    end;
}.

Module PosixSystem.
Section PosixSystem.
Context `{Arch} {N : Type} `{!RecursiveMutex N}.

(** [pthread_once]: the first caller runs the routine, the others wait for its end. *)
Inductive once_state : Type := OnceInit | OnceRunning (t : Z) | OnceDone.

(** [CRITICAL_ONCE] and [CRITICAL_MUTEX] *)
Record state : Type := mk { once : once_state; mutex : N }.

(** [PosixRecursiveMutex::init], with its [debug_assert]s. *)
Definition init (n : N) : Run N :=
  let '(rc1, rc2, rc3, rc4, n) := rm_init n in
  _ ← rassert (rc1 =? 0) "pthread_mutexattr_init failed";
  _ ← rassert (rc2 =? 0) "pthread_mutexattr_settype(PTHREAD_MUTEX_RECURSIVE) failed";
  _ ← rassert (rc3 =? 0) "pthread_mutex_init failed";
  _ ← rassert (rc4 =? 0) "pthread_mutexattr_destroy failed";
  Done n.

(** [PosixRecursiveMutex::lock] and [unlock] *)
Definition lock (t : Z) (n : N) : option (Run N) :=
  '(rc, n) ← rm_lock t n; Some (_ ← rassert (rc =? 0) "pthread_mutex_lock failed"; Done n).
Definition unlock (t : Z) (n : N) : Run N :=
  let '(rc, n) := rm_unlock t n in _ ← rassert (rc =? 0) "pthread_mutex_unlock failed"; Done n.

Definition posix_heap_free : Z := uint_max usize_bits.

(** A call of [enter_critical] by its next step: [ensure_init] enters
    [pthread_once], runs [init_critical_mutex] or goes on; then the lock. *)
Inductive enter_pc : Type := AtOnce | InInit | AtLock.
Inductive enter_step_result : Type := Continue (p : enter_pc) | Entered.

Definition enter_step (t : Z) (p : enter_pc) (s : state) : option (Run (enter_step_result * state)) :=
  match p with
  | AtOnce =>
      match once s with
      | OnceInit => Some (Done (Continue InInit, mk (OnceRunning t) (mutex s)))
      | OnceRunning _ => None
      | OnceDone => Some (Done (Continue AtLock, s))
      end
  | InInit => Some (n ← init (mutex s); Done (Continue AtLock, mk OnceDone n))
  | AtLock => m ← lock t (mutex s); Some (n ← m; Done (Entered, mk (once s) n))
  end.

(** [Drop for PosixCriticalSectionGuard] *)
Definition posix_guard_drop (t : Z) (s : state) : Run state :=
  n ← unlock t (mutex s); Done (mk (once s) n).

(** *** Threads *)

(** The calls under way, the guards each thread has, and how often the mutex was
    initialised. *)
Record config : Type := mkConfig {
  sys : state;
  calls : gmap Z enter_pc;
  guards : gmap Z nat;
  inits : nat;
}.

Definition guards_of (c : config) (t : Z) : nat := default 0%nat (guards c !! t).

Inductive event : Type :=
| Enter (t : Z)
| Step (t : Z)
| Leave (t : Z)              (** a guard is dropped *)
| Move (t u : Z).            (** ... or given to another thread: it is [Send] *)

Definition exec (c : config) (e : event) : option (Run config) :=
  match e with
  | Enter t =>
      match calls c !! t with
      | None => Some (Done (mkConfig (sys c) (<[t:=AtOnce]> (calls c)) (guards c) (inits c)))
      | Some _ => None
      end
  | Step t =>
      p ← calls c !! t;
      m ← enter_step t p (sys c);
      Some ('(r, s) ← m;
            let n := (inits c + match p with InInit => 1 | _ => 0 end)%nat in
            Done match r with
                 | Continue p => mkConfig s (<[t:=p]> (calls c)) (guards c) n
                 | Entered => mkConfig s (delete t (calls c)) (<[t:=S (guards_of c t)]> (guards c)) n
                 end)
  | Leave t =>
      match calls c !! t, guards_of c t with
      | None, S n => Some (s ← posix_guard_drop t (sys c); Done (mkConfig s (calls c) (<[t:=n]> (guards c)) (inits c)))
      | _, _ => None
      end
  | Move t u =>
      match calls c !! t, guards_of c t with
      | None, S n =>
          let g := <[t:=n]> (guards c) in
          Some (Done (mkConfig (sys c) (calls c) (<[u:=S (default 0%nat (g !! u))]> g) (inits c)))
      | _, _ => None
      end
  end.

Context `{!RecursiveMutexLaws N}.

(** Guards stay in their thread, which nests them no deeper than the mutex counts,
    and the native initialisation succeeds. *)
Definition event_ok (c : config) (e : event) : Prop :=
  match e with
  | Step t =>
      (calls c !! t = Some InInit → ∃ n, rm_init (mutex (sys c)) = (0, 0, 0, 0, n)) ∧
      (calls c !! t = Some AtLock → (guards_of c t < recursion_limit)%nat)
  | Move _ _ => False
  | _ => True
  end.

Inductive reachable (n : N) : config → Prop :=
| cs_init : reachable n (mkConfig (mk OnceInit n) ∅ ∅ 0)
| cs_step c e c' : reachable n c → event_ok c e → exec c e = Some (Done c') → reachable n c'.

(** *** The invariant *)

(** The guards there are, by the mutex. *)
Definition counted (o : option (Z * nat)) (t : Z) : nat :=
  match o with Some (u, d) => if decide (u = t) then d else 0%nat | None => 0%nat end.

Record inv (c : config) : Prop := {
  i_once : match once (sys c) with
    | OnceInit => inits c = 0%nat ∧ (∀ t, guards_of c t = 0%nat) ∧ ∀ t p, calls c !! t = Some p → p = AtOnce
    | OnceRunning u => inits c = 0%nat ∧ (∀ t, guards_of c t = 0%nat) ∧ calls c !! u = Some InInit ∧
        ∀ t p, calls c !! t = Some p → t ≠ u → p = AtOnce
    | OnceDone => inits c = 1%nat ∧ initialised (mutex (sys c)) ∧ (∀ t, guards_of c t = counted (holder (mutex (sys c))) t) ∧
        (∀ t d, holder (mutex (sys c)) = Some (t, d) → d ≠ 0%nat) ∧ ∀ t p, calls c !! t = Some p → p ≠ InInit
    end;
}.

Lemma guards_of_insert s l n c t d u :
  guards_of (mkConfig s l (<[t:=d]> (guards c)) n) u = if decide (t = u) then d else guards_of c u.
Proof. unfold guards_of. simpl. case_decide; subst; by simplify_map_eq. Qed.

Lemma counted_insert c h t d : (∀ u, guards_of c u = counted h u) → (∀ u, u ≠ t → counted h u = 0%nat) →
  ∀ u, (if decide (t = u) then d else guards_of c u) = counted (match d with O => None | _ => Some (t, d) end) u.
Proof.
  intros Hg Hz u. case_decide as E.
  - subst. destruct d; simpl; [done|]. by rewrite decide_True.
  - rewrite Hg, Hz by congruence. destruct d; simpl; [done|]. by rewrite decide_False.
Qed.

Lemma critical_step_inv c t p m : inv c → calls c !! t = Some p → event_ok c (Step t) → exec c (Step t) = Some m →
  ∃ c', m = Done c' ∧ inv c'.
Proof.
  intros [I] Ep [Hinit Hlim] E. simpl in E. rewrite Ep in E. simpl in E. destruct p; simpl in E.
  - destruct (once (sys c)) eqn:Eo; simplify_eq/=; eexists; (split; [done|]); split; simpl; rewrite ?Eo.
    + destruct I as (-> & Hg & Hc). split_and!; [done|done|by simplify_map_eq|].
      intros u q Hq Hne. rewrite lookup_insert_ne in Hq by congruence. eauto.
    + destruct I as (-> & Hi & Hg & Hd & Hc). split_and!; try done.
      intros u q [[_ <-]|[_ Hq]]%lookup_insert_Some; [done|eauto].
  - destruct (once (sys c)) as [|w|] eqn:Eo; [by destruct I as (_ & _ & Hc); discriminate (Hc _ _ Ep)| |].
    2:{ destruct I as (_ & _ & _ & _ & Hc). by destruct (Hc _ _ Ep). }
    destruct I as (Hz & Hg & Ew & Hc). assert (t = w) as -> by (destruct (decide (t = w)); [done|by discriminate (Hc _ _ Ep)]).
    destruct (Hinit Ep) as [n En]. unfold init in E. rewrite En in E. simplify_eq/=.
    destruct (law_rm_init _ _ En) as [Hi Hh]. eexists. split; [done|]. split. simpl. rewrite Hz, Hh. split_and!; try done.
    intros u q [[_ <-]|[Hne Hq]]%lookup_insert_Some; [done|]. by rewrite (Hc u q Hq).
  - destruct (once (sys c)) as [|w|] eqn:Eo.
    { by destruct I as (_ & _ & Hc); discriminate (Hc _ _ Ep). }
    { destruct I as (_ & _ & Ew & Hc). destruct (decide (t = w)); [congruence|by discriminate (Hc _ _ Ep)]. }
    destruct I as (Hz & Hi & Hg & Hd & Hc). unfold lock in E. pose proof (law_rm_lock t _ Hi) as L.
    specialize (Hlim Ep). rewrite Hg in Hlim. unfold counted in Hlim.
    assert (∀ n, Some (Done (Entered, mk OnceDone n)) ≫= (λ m, Some ('(r, s) ← m; Done
        match r with
        | Continue p => mkConfig s (<[t:=p]> (calls c)) (guards c) (inits c + 0)
        | Entered => mkConfig s (delete t (calls c)) (<[t:=S (guards_of c t)]> (guards c)) (inits c + 0)
        end)) = Some m → initialised n → holder n = Some (t, S (guards_of c t)) →
      (∀ u, u ≠ t → counted (holder (mutex (sys c))) u = 0%nat) → ∃ c', m = Done c' ∧ inv c') as Hin.
    { intros n En Hin Hh Hne. simplify_eq/=. eexists. split; [done|]. split. simpl. rewrite Hh, Hz. split_and!; try done.
      - intros u. rewrite guards_of_insert. by apply (counted_insert c _ t (S _) Hg).
      - by intros ? ? [= <- <-].
      - intros u q [_ Hq]%lookup_delete_Some. eauto. }
    destruct (holder (mutex (sys c))) as [[u d]|] eqn:Eh.
    + case_decide as Eu.
      * subst u. destruct (L Hlim) as (n & En & Hin' & Hh). rewrite En in E. apply (Hin n); try done.
        -- by rewrite Hg; simpl; rewrite decide_True.
        -- intros u Hne. simpl. by rewrite decide_False.
      * rewrite L in E. done.
    + destruct L as (n & En & Hin' & Hh). rewrite En in E. apply (Hin n); try done. by rewrite Hg.
Qed.

Lemma leave_inv c t m : inv c → exec c (Leave t) = Some m → ∃ c', m = Done c' ∧ inv c'.
Proof.
  intros [I] E. simpl in E. destruct (calls c !! t) eqn:Ec; [done|].
  destruct (guards_of c t) as [|d] eqn:Eg; [done|]. simplify_eq/=.
  destruct (once (sys c)) as [|w|] eqn:Eo; [destruct I as (_ & Hg & _); by rewrite Hg in Eg..|].
  destruct I as (Hz & Hi & Hg & Hd & Hc). pose proof (law_rm_unlock t _ Hi) as L.
  pose proof Eg as Eg'. rewrite Hg in Eg'. unfold counted in Eg'.
  destruct (holder (mutex (sys c))) as [[u [|d']]|] eqn:Eh; [by case_decide| |done]. case_decide as Eu; [|done]. simplify_eq.
  destruct L as (n & En & Hi' & Hh). unfold posix_guard_drop, unlock. rewrite En. simpl. eexists. split; [done|].
  split. simpl. rewrite Eo, Hz, Hh. split_and!; try done.
  - intros u. rewrite guards_of_insert. apply (counted_insert c (Some (t, S d)) t d Hg).
    intros x Hx. simpl. by rewrite decide_False.
  - destruct d; [done|]. by intros ? ? [= <- <-].
Qed.

Lemma critical_exec_inv c e m : inv c → event_ok c e → exec c e = Some m → ∃ c', m = Done c' ∧ inv c'.
Proof.
  intros I He E. destruct e as [t|t|t|t u].
  - simpl in E. destruct (calls c !! t) eqn:Ec; simplify_eq. eexists. split; [done|].
    destruct I as [I]. split. simpl. destruct (once (sys c)) as [|w|].
    + destruct I as (? & ? & Hc). split_and!; try done. intros u q [[_ <-]|[_ Hq]]%lookup_insert_Some; eauto.
    + destruct I as (? & ? & Ew & Hc). split_and!; try done; [rewrite lookup_insert_ne by congruence; done|].
      intros u q [[_ <-]|[_ Hq]]%lookup_insert_Some; eauto.
    + destruct I as (? & ? & ? & ? & Hc). split_and!; try done. intros u q [[_ <-]|[_ Hq]]%lookup_insert_Some; [done|eauto].
  - destruct (calls c !! t) as [p|] eqn:Ep; [by eapply critical_step_inv|]. simpl in E. by rewrite Ep in E.
  - by eapply leave_inv.
  - done.
Qed.

Lemma critical_reachable n c : reachable n c → inv c.
Proof.
  induction 1 as [|c e c' _ IH He E]; [by split; split_and!|].
  by destruct (critical_exec_inv c e _ IH He E) as (? & [= <-] & ?).
Qed.

(** C17: Critical sections of the POSIX backend, for any number of threads that
    enter, nest and leave in any interleaving, the first call racing with others
    included: no native call fails; the mutex is initialised once and before any
    thread locks it; only one thread at a time has guards, and its nesting is the
    count of the mutex; a thread waits only for the initialisation that another
    thread is in, or while another thread has a guard.  Guards stay in their
    threads, and the four native calls of the initialisation succeed. *)
Theorem posix_critical_sections n c : reachable n c →
  (∀ e, event_ok c e → exec c e = None ∨ ∃ c', exec c e = Some (Done c')) ∧
  (inits c ≤ 1)%nat ∧
  (∀ t, calls c !! t = Some AtLock ∨ guards_of c t ≠ 0%nat → inits c = 1%nat) ∧
  (∀ t u, guards_of c t ≠ 0%nat → guards_of c u ≠ 0%nat → t = u) ∧
  (∀ t, guards_of c t ≠ 0%nat → holder (mutex (sys c)) = Some (t, guards_of c t)) ∧
  (∀ t p, calls c !! t = Some p → event_ok c (Step t) → exec c (Step t) = None →
     ∃ u, u ≠ t ∧ (calls c !! u = Some InInit ∨ guards_of c u ≠ 0%nat)).
Proof.
  intros R. pose proof (critical_reachable n c R) as I. split.
  { intros e He. destruct (exec c e) as [m|] eqn:E; [|by left]. right.
    destruct (critical_exec_inv c e m I He E) as (c' & -> & _). eauto. }
  destruct I as [I]. destruct (once (sys c)) as [|w|] eqn:Eo.
  - destruct I as (Hz & Hg & Hc). rewrite Hz. split_and!; try lia.
    + intros t [Ht|Ht]; [by discriminate (Hc _ _ Ht)|by rewrite Hg in Ht].
    + intros t u Ht. by rewrite Hg in Ht.
    + intros t Ht. by rewrite Hg in Ht.
    + intros t p Ep _. simpl. rewrite Ep. simpl. rewrite (Hc _ _ Ep). simpl. by rewrite Eo.
  - destruct I as (Hz & Hg & Ew & Hc). rewrite Hz. split_and!; try lia.
    + intros t [Ht|Ht]; [|by rewrite Hg in Ht]. destruct (decide (t = w)); [congruence|by discriminate (Hc _ _ Ht)].
    + intros t u Ht. by rewrite Hg in Ht.
    + intros t Ht. by rewrite Hg in Ht.
    + intros t p Ep _. destruct (decide (t = w)) as [->|Hne]; [|by eauto]. rewrite Ew in Ep. simplify_eq. simpl.
      by rewrite Ew.
  - destruct I as (Hz & Hi & Hg & Hd & Hc). rewrite Hz. split_and!; try done.
    + intros t u. rewrite !Hg. unfold counted. destruct (holder _) as [[x d]|]; [|done]. do 2 case_decide; congruence.
    + intros t. rewrite Hg. unfold counted. destruct (holder _) as [[x d]|]; [|done]. case_decide; congruence.
    + intros t p Ep [_ Hlim]. simpl. rewrite Ep. simpl. destruct p; simpl; [by rewrite Eo|by destruct (Hc _ _ Ep)|].
      unfold lock. pose proof (law_rm_lock t _ Hi) as L. specialize (Hlim Ep). rewrite Hg in Hlim. unfold counted in Hlim.
      destruct (holder (mutex (sys c))) as [[u d]|] eqn:Eh.
      * case_decide as Eu; [destruct (L Hlim) as (n' & -> & _); done|]. intros _. exists u. split; [done|]. right.
        rewrite Hg. simpl. rewrite decide_True by done. by eapply Hd.
      * by destruct L as (n' & -> & _).
Qed.

End PosixSystem.
End PosixSystem.

(** ** FreeRTOS *)

(** The kernel calls behind the wrappers; the kernel counts the nesting. *)
Class CriticalKernel (K : Type) := {
  osal_freertos_heap_free : K → Z;
  osal_freertos_enter_critical : K → K;
  osal_freertos_exit_critical : K → K;
}.
Class CriticalKernelLaws (K : Type) `{CriticalKernel K} := {
  critical_nesting : K → nat;
  law_kernel_heap : ∀ k, in_uint 64 (osal_freertos_heap_free k);
  law_kernel_enter : ∀ k, critical_nesting (osal_freertos_enter_critical k) = S (critical_nesting k);
  law_kernel_exit : ∀ k d, critical_nesting k = S d → critical_nesting (osal_freertos_exit_critical k) = d;
}.

Module FreeRtosSystem.
Section FreeRtosSystem.
Context `{Arch} {K : Type} `{!CriticalKernel K}.

(** The wrappers of [osal-backend-freertos-sys]. *)
Definition sys_heap_free (k : K) : Z := osal_freertos_heap_free k.
Definition sys_enter_critical (k : K) : K := osal_freertos_enter_critical k.
Definition sys_exit_critical (k : K) : K := osal_freertos_exit_critical k.

(** [usize::try_from(..).unwrap_or(usize::MAX)] *)
Definition freertos_heap_free (k : K) : Z :=
  let n := sys_heap_free k in if n <? 2 ^ usize_bits then n else uint_max usize_bits.
Definition freertos_enter_critical (k : K) : K := sys_enter_critical k.
(** [Drop for FreeRtosCriticalSectionGuard] *)
Definition freertos_guard_drop (k : K) : K := sys_exit_critical k.

Context `{!CriticalKernelLaws K}.

Lemma freertos_heap_free_range k : in_uint usize_bits (freertos_heap_free k).
Proof.
  unfold freertos_heap_free, in_uint. pose proof (law_kernel_heap k) as [? ?].
  unfold sys_heap_free. pose proof usize_bits_pos. destruct (_ <? _) eqn:E; bool_to_prop; [lia|]. apply uint_max_lt. lia.
Qed.

(** Guards balance: the interrupts are as before when all of them are dropped. *)
Lemma freertos_guards_balance n k :
  critical_nesting (Nat.iter n freertos_guard_drop (Nat.iter n freertos_enter_critical k)) = critical_nesting k ∧
  critical_nesting (Nat.iter n freertos_enter_critical k) = (n + critical_nesting k)%nat.
Proof.
  assert (∀ n, critical_nesting (Nat.iter n freertos_enter_critical k) = (n + critical_nesting k)%nat) as Hin.
  { intros m. induction m as [|m IH]; [done|]. simpl. unfold freertos_enter_critical at 1, sys_enter_critical.
    rewrite law_kernel_enter. by f_equal. }
  split; [|done].
  assert (∀ m d k', critical_nesting k' = (m + d)%nat → critical_nesting (Nat.iter m freertos_guard_drop k') = d) as Hout.
  { intros m. induction m as [|m IH]; intros d k' Hk; [done|]. simpl. apply law_kernel_exit. apply IH. lia. }
  by apply Hout.
Qed.

End FreeRtosSystem.
End FreeRtosSystem.

(** ** Witnesses *)

Module CriticalWitness.
Import PosixSystem.

#[local] Existing Instance arch64.

(** A recursive mutex; [None] is not initialised. *)
Definition rec : Type := option (option (Z * nat)).

#[global] Instance rec_mutex : RecursiveMutex rec := {|
  rm_init := λ _, (0, 0, 0, 0, Some None);
  rm_lock := λ t n, match n with
    | Some None => Some (0, Some (Some (t, 1%nat)))
    | Some (Some (u, d)) => if decide (u = t) then Some (0, Some (Some (t, S d))) else None
    | None => Some (22, n) end;
  rm_unlock := λ t n, match n with
    | Some (Some (u, S d)) =>
        if decide (u = t) then (0, Some match d with O => None | S _ => Some (t, d) end) else (Errno.EPERM, n)
    | _ => (Errno.EPERM, n) end;
|}.
#[global] Instance rec_laws : RecursiveMutexLaws rec.
Proof.
  refine {| initialised := λ n, n ≠ None; holder := λ n, default None n; recursion_limit := 1000%nat |}.
  - intros n n' E. injection E as <-. split; [discriminate|reflexivity].
  - intros t [[[u d]|]|] Hi; simpl; [|by eauto|done]. case_decide; subst; eauto.
  - intros t [[[u [|d]]|]|] Hi; simpl; try done. case_decide; [|done]. eexists. split; [done|]. by destruct d.
Defined.

Definition blank : rec := None.
Definition start : config (N:=rec) := mkConfig (mk OnceInit blank) ∅ ∅ 0.

Fixpoint final (c : config (N:=rec)) (es : list event) : config :=
  match es with
  | [] => c
  | e :: es => match exec c e with Some (Done c') => final c' es | _ => c end
  end.
Fixpoint events_ok (c : config (N:=rec)) (es : list event) : Prop :=
  match es with
  | [] => True
  | e :: es => event_ok c e ∧ match exec c e with Some (Done c') => events_ok c' es | _ => False end
  end.

Lemma critical_runs_reachable es c : reachable blank c → events_ok c es → reachable blank (final c es).
Proof.
  revert c. induction es as [|e es IH]; intros c R He; simpl in *; [done|]. destruct He as [He Hes].
  destruct (exec c e) as [[c1| |]|] eqn:E; try done. apply IH; [|done]. by eapply cs_step.
Qed.

(** Two threads race for the first section; thread 1 nests. *)
Definition sample : list event :=
  [Enter 1; Enter 2; Step 1; Step 1; Step 1; Step 2; Enter 1; Step 1; Step 1].

Lemma posix_critical_sections_witness :
  guards_of (final start sample) 1 = 2%nat ∧ holder (mutex (sys (final start sample))) = Some (1, 2%nat) ∧
  exec (final start sample) (Step 2) = None.
Proof.
  destruct (posix_critical_sections blank (final start sample)) as (_ & _ & _ & _ & Hh & _).
  - apply critical_runs_reachable; [apply cs_init|]. vm_compute. repeat split; try discriminate; try lia; eauto.
  - assert (guards_of (final start sample) 1 = 2%nat) as Hg by (vm_compute; reflexivity). split; [exact Hg|].
    split; [|vm_compute; reflexivity]. rewrite <- Hg. apply Hh. rewrite Hg. discriminate.
Defined.

(** Nothing keeps a guard in its thread: dropped in another one the unlock fails,
    and the mutex stays locked. *)
Lemma moved_guard_panics :
  exec (final start [Enter 1; Step 1; Step 1; Step 1; Move 1 2]) (Leave 2) = Some (Panic "pthread_mutex_unlock failed").
Proof. vm_compute. reflexivity. Qed.

End CriticalWitness.
