(* ===== verification/Allocator.v ===== *)
(** * The global allocator on the FreeRTOS heap

    [integration/freertos-qemu-mps2/rust/src/allocator.rs]: Rust allocations of any
    alignment from a heap that promises none, with a header before each of them
    that holds the address to give back.  The heap ([heap_alloc] and
    [heap_dealloc] of [osal-backend-freertos-sys]) is the class [NativeHeap];
    memory is a map from addresses to bytes. *)

From S2P Require Import Prelude.

(** ** The native heap *)

(** Addresses; [0] is null. *)
Class NativeHeap (K : Type) := {
  osal_freertos_heap_alloc : Z → K → Z * K;
  osal_freertos_heap_dealloc : Z → K → K;
}.

Definition overlap (a n b m : Z) : Prop := ∃ x, a ≤ x < a + n ∧ b ≤ x < b + m.

(** [blocks]: the blocks that are allocated, with their sizes. *)
Class NativeHeapLaws (K : Type) `{NativeHeap K, Arch} := {
  blocks : K → gmap Z Z;
  law_alloc : ∀ n k, 0 < n →
    let '(raw, k') := osal_freertos_heap_alloc n k in
    raw = 0 ∧ blocks k' = blocks k ∨
    0 < raw ∧ raw + n ≤ 2 ^ usize_bits ∧ (∀ b m, blocks k !! b = Some m → ¬ overlap raw n b m) ∧
      blocks k !! raw = None ∧ blocks k' = <[raw:=n]> (blocks k);
  law_dealloc : ∀ b k, is_Some (blocks k !! b) → blocks (osal_freertos_heap_dealloc b k) = delete b (blocks k);
}.

(** ** Memory *)

Module Memory.

Abbreviation mem := (gmap Z Z).

(** The little-endian bytes of a pointer. *)
Fixpoint bytes (n : nat) (p : Z) : list Z :=
  match n with O => [] | S n => p mod 256 :: bytes n (p / 256) end.
Fixpoint value (l : list Z) : Z := match l with [] => 0 | b :: l => b + 256 * value l end.

Fixpoint write (a : Z) (l : list Z) (m : mem) : mem :=
  match l with [] => m | b :: l => <[a:=b]> (write (a + 1) l m) end.
Fixpoint read (a : Z) (n : nat) (m : mem) : list Z :=
  match n with O => [] | S n => default 0 (m !! a) :: read (a + 1) n m end.

Lemma bytes_length n p : length (bytes n p) = n.
Proof. revert p. induction n as [|n IH]; intros p; simpl; [done|]. by rewrite IH. Qed.

Lemma value_bytes n p : 0 ≤ p < 256 ^ Z.of_nat n → value (bytes n p) = p.
Proof.
  revert p. induction n as [|n IH]; intros p Hp; simpl; [change (256 ^ Z.of_nat 0) with 1 in Hp; lia|].
  rewrite Nat2Z.inj_succ, Z.pow_succ_r in Hp by lia. pose proof (Z.div_mod p 256 ltac:(lia)) as Hd.
  rewrite IH; [lia|]. split; [apply Z.div_pos; lia|]. apply Z.div_lt_upper_bound; lia.
Qed.

Lemma write_other a l m x : ¬ (a ≤ x < a + Z.of_nat (length l)) → write a l m !! x = m !! x.
Proof.
  revert a. induction l as [|b l IH]; intros a Hx; simpl in *; [done|].
  rewrite lookup_insert_ne by lia. apply IH. lia.
Qed.

Lemma read_ext a n m m' : (∀ x, a ≤ x < a + Z.of_nat n → m' !! x = m !! x) → read a n m' = read a n m.
Proof.
  revert a. induction n as [|n IH]; intros a H; simpl; [done|]. rewrite H by lia. f_equal. apply IH. intros x Hx. apply H. lia.
Qed.

Lemma read_write a l m : read a (length l) (write a l m) = l.
Proof.
  revert a. induction l as [|b l IH]; intros a; simpl; [done|]. rewrite lookup_insert_eq. simpl. f_equal.
  rewrite <- (IH (a + 1)) at 3. apply read_ext. intros x Hx. by rewrite lookup_insert_ne by lia.
Qed.

End Memory.
Abbreviation mem := (gmap Z Z).

(** ** [allocator.rs] *)

Module FreeRtosAllocator.

Record Layout : Type := mkLayout { size : Z; align : Z }.

Section FreeRtosAllocator.
Context `{Arch} {K : Type} `{!NativeHeap K}.

(** [AllocationHeader] is one pointer. *)
Definition header_size : Z := usize_bits / 8.
Definition header_align : Z := usize_bits / 8.

Record state : Type := mkState { heap : K; memory : mem }.

Definition heap_alloc (n : Z) (s : state) : Z * state :=
  let '(raw, k) := osal_freertos_heap_alloc n (heap s) in (raw, mkState k (memory s)).
Definition heap_dealloc (p : Z) (s : state) : state := mkState (osal_freertos_heap_dealloc p (heap s)) (memory s).

(** [<*mut u8>::align_offset] *)
Definition align_offset (p a : Z) : Z := (- p) mod a.

Definition write_header (a raw : Z) (s : state) : state :=
  mkState (heap s) (Memory.write a (Memory.bytes (Z.to_nat header_size) raw) (memory s)).
Definition read_header (a : Z) (s : state) : Z :=
  Memory.value (Memory.read a (Z.to_nat header_size) (memory s)).

Definition effective_align (layout : Layout) : Z := Z.max (align layout) header_align.

(** [None]: the addition overflows. *)
Definition total (layout : Layout) : option Z :=
  v ← checked_add usize_bits (size layout) header_size; checked_add usize_bits v (effective_align layout - 1).

Definition alloc (layout : Layout) (s : state) : Z * state :=
  if size layout =? 0 then (0, s)
  else
    match total layout with
    | None => (0, s)
    | Some total =>
        let '(raw, s) := heap_alloc total s in
        if raw =? 0 then (0, s)
        else
          let candidate := raw + header_size in
          let offset := align_offset candidate (effective_align layout) in
          if offset =? uint_max usize_bits then (0, heap_dealloc raw s)
          else
            let user := candidate + offset in
            (user, write_header (user - header_size) raw s)
    end.

Definition dealloc (pointer : Z) (s : state) : state :=
  if pointer =? 0 then s
  else heap_dealloc (read_header (pointer - header_size) s) s.

(** *** Clients *)

(** What a client has been given, and where its block is. *)
Record allocation : Type := mkAllocation { user : Z; layout : Layout; raw : Z }.

Record config : Type := mkConfig { st : state; allocations : list allocation }.

Inductive event : Type :=
| Alloc (l : Layout)
| Dealloc (i : nat)
| Store (i : nat) (off v : Z)       (** a client writes into its allocation *)
| KernelAlloc (n : Z)               (** the kernel uses the heap as well *)
| KernelFree (b : Z).

Definition exec (c : config) (e : event) : option config :=
  match e with
  | Alloc l =>
      let '(p, s) := alloc l (st c) in
      Some (mkConfig s (if p =? 0 then allocations c
                        else allocations c ++ [mkAllocation p l (fst (heap_alloc (default 0 (total l)) (st c)))]))
  | Dealloc i => a ← allocations c !! i; Some (mkConfig (dealloc (user a) (st c)) (delete i (allocations c)))
  | Store i off v =>
      a ← allocations c !! i;
      if (0 <=? off) && (off <? size (layout a))
      then Some (mkConfig (mkState (heap (st c)) (<[user a + off:=v]> (memory (st c)))) (allocations c)) else None
  | KernelAlloc n => Some (mkConfig (snd (heap_alloc n (st c))) (allocations c))
  | KernelFree b => Some (mkConfig (heap_dealloc b (st c)) (allocations c))
  end.

Context `{!NativeHeapLaws K}.

(** Layouts have a power of two as alignment; the kernel frees its own blocks. *)
Definition layout_ok (l : Layout) : Prop :=
  0 ≤ size l < 2 ^ usize_bits ∧ ∃ n, 0 ≤ n < usize_bits ∧ align l = 2 ^ n.
Definition event_ok (c : config) (e : event) : Prop :=
  match e with
  | Alloc l => layout_ok l
  | KernelAlloc n => 0 < n
  | KernelFree b => is_Some (blocks (heap (st c)) !! b) ∧ ∀ a, a ∈ allocations c → raw a ≠ b
  | _ => True
  end.

Inductive reachable (s0 : state) : config → Prop :=
| al_init : reachable s0 (mkConfig s0 [])
| al_step c e c' : reachable s0 c → event_ok c e → exec c e = Some c' → reachable s0 c'.

(** An allocation lies in its block, after its header, which names the block. *)
Record placed (s : state) (a : allocation) : Prop := {
  pl_size : 0 < size (layout a);
  pl_block : ∃ n, blocks (heap s) !! raw a = Some n ∧ 0 < raw a ∧ raw a + n ≤ 2 ^ usize_bits ∧
    raw a + header_size ≤ user a ∧ user a + size (layout a) ≤ raw a + n;
  pl_align : user a mod align (layout a) = 0;
  pl_header_align : (user a - header_size) mod header_align = 0;
  pl_header : read_header (user a - header_size) s = raw a;
}.

(** The blocks of the heap do not overlap. *)
Definition separate (k : K) : Prop := ∀ a n b m, blocks k !! a = Some n → blocks k !! b = Some m → a ≠ b → ¬ overlap a n b m.

Record inv (c : config) : Prop := {
  in_separate : separate (heap (st c));
  in_placed : ∀ a, a ∈ allocations c → placed (st c) a;
  in_nodup : NoDup (raw <$> allocations c);
}.

(** *** Arithmetic of the layout *)

Lemma header_cases : header_size = 2 ^ 2 ∧ usize_bits = 32 ∨ header_size = 2 ^ 3 ∧ usize_bits = 64.
Proof. unfold header_size. destruct usize_bits_ok as [-> | ->]; [left|right]; done. Qed.

Lemma header_pos : 0 < header_size.
Proof. destruct header_cases as [[-> _]|[-> _]]; done. Qed.

(** Of two powers of two the greater is a multiple of the smaller. *)
Lemma effective_align_spec l : layout_ok l → 0 < effective_align l ≤ 2 ^ (usize_bits - 1) ∧
  (align l | effective_align l) ∧ (header_align | effective_align l).
Proof.
  intros (_ & n & Hn & Ea). unfold effective_align. rewrite Ea. change header_align with header_size.
  assert (∃ m, 0 ≤ m < usize_bits ∧ header_size = 2 ^ m) as (m & Hm & ->)
    by (destruct header_cases as [[-> ->]|[-> ->]]; [exists 2|exists 3]; lia).
  assert (∀ a b, 0 ≤ a ≤ b → (2 ^ a | 2 ^ b)) as Hd.
  { intros a b Hab. exists (2 ^ (b - a)). rewrite <- Z.pow_add_r by lia. f_equal. lia. }
  destruct (Z.le_ge_cases n m) as [Hle|Hle].
  - rewrite Z.max_r by (apply Z.pow_le_mono_r; lia). split_and!; [apply pow2_pos; lia|apply Z.pow_le_mono_r; lia|apply Hd; lia..].
  - rewrite Z.max_l by (apply Z.pow_le_mono_r; lia). split_and!; [apply pow2_pos; lia|apply Z.pow_le_mono_r; lia|apply Hd; lia..].
Qed.

Lemma align_offset_spec p a : 0 < a → 0 ≤ align_offset p a < a ∧ (a | p + align_offset p a).
Proof.
  intros Ha. unfold align_offset. split; [by apply Z.mod_pos_bound|]. apply Z.mod_divide; [lia|].
  rewrite Z.add_mod_idemp_r by lia. by rewrite Z.add_opp_diag_r, Z.mod_0_l by lia.
Qed.

Lemma total_spec l n : total l = Some n → n = size l + header_size + (effective_align l - 1).
Proof.
  unfold total. intros E. destruct (checked_add usize_bits (size l) header_size) as [v|] eqn:E1; simplify_eq/=.
  apply checked_add_Some in E1 as [-> _]. apply checked_add_Some in E as [-> _]. lia.
Qed.

Lemma header_roundtrip a r s : 0 ≤ r < 2 ^ usize_bits → read_header a (write_header a r s) = r.
Proof.
  intros Hr. unfold read_header, write_header. simpl.
  rewrite <- (Memory.bytes_length (Z.to_nat header_size) r) at 1. rewrite Memory.read_write.
  apply Memory.value_bytes. destruct header_cases as [[-> E]|[-> E]]; rewrite E in Hr; exact Hr.
Qed.

(** *** One call *)

Lemma placed_frame s s' a : placed s a → blocks (heap s') !! raw a = blocks (heap s) !! raw a →
  (∀ x, user a - header_size ≤ x < user a → memory s' !! x = memory s !! x) → placed s' a.
Proof.
  intros [? ? ? ? Hh] Hb Hm. pose proof header_pos. split; try done; [by rewrite Hb|].
  rewrite <- Hh. unfold read_header. f_equal. apply Memory.read_ext. intros x Hx. apply Hm. lia.
Qed.

(** A new allocation: in a new block, with nothing else touched. *)
Record fresh_allocation (s s' : state) (a : allocation) : Prop := {
  fa_placed : placed s' a;
  fa_new : blocks (heap s) !! raw a = None;
  fa_block : ∃ n, blocks (heap s') = <[raw a:=n]> (blocks (heap s)) ∧
    (∀ b m, blocks (heap s) !! b = Some m → ¬ overlap (raw a) n b m);
  fa_memory : ∀ x, ¬ (user a - header_size ≤ x < user a) → memory s' !! x = memory s !! x;
}.

Lemma alloc_spec l s : layout_ok l →
  let '(p, s') := alloc l s in
  p = 0 ∧ memory s' = memory s ∧ blocks (heap s') = blocks (heap s) ∨
  p ≠ 0 ∧ fresh_allocation s s' (mkAllocation p l (fst (heap_alloc (default 0 (total l)) s))).
Proof.
  intros L. pose proof L as ((Hs & _) & _). pose proof header_pos as Hh. unfold alloc.
  destruct (size l =? 0) eqn:E0; bool_to_prop; [by left|]. destruct (total l) as [n|] eqn:Et; [|by left].
  apply total_spec in Et. destruct (effective_align_spec l L) as ([He He'] & Ha & Hha).
  unfold heap_alloc. simpl. pose proof (law_alloc n (heap s) ltac:(lia)) as A.
  destruct (osal_freertos_heap_alloc n (heap s)) as [r k]. simpl.
  destruct A as [(-> & Hb)|(Hr & Hend & Hsep & Hnew & Hb)]; [by left|].
  rewrite (proj2 (Z.eqb_neq r 0)) by lia.
  destruct (align_offset_spec (r + header_size) (effective_align l) He) as [Ho Hd].
  assert (2 ^ usize_bits = 2 * 2 ^ (usize_bits - 1)) as Hp.
  { rewrite <- Z.pow_succ_r by (pose proof usize_bits_pos; lia). f_equal. lia. }
  rewrite (proj2 (Z.eqb_neq _ (uint_max usize_bits))) by (unfold uint_max; lia).
  right. split; [lia|]. set (p := r + header_size + align_offset (r + header_size) (effective_align l)) in *.
  split; simpl; [|done|by exists n|].
  - split; simpl.
    + lia.
    + exists n. rewrite Hb, lookup_insert_eq. split_and!; try done; lia.
    + apply Z.mod_divide; [destruct L as (_ & m & Hm & ->); pose proof (pow2_pos m ltac:(lia)); lia|]. by etrans.
    + apply Z.mod_divide; [change header_align with header_size; lia|]. apply Z.divide_sub_r; [by etrans|done].
    + apply header_roundtrip. lia.
  - intros x Hx. apply Memory.write_other. rewrite Memory.bytes_length. lia.
Qed.

Lemma dealloc_spec s a : placed s a →
  blocks (heap (dealloc (user a) s)) = delete (raw a) (blocks (heap s)) ∧ memory (dealloc (user a) s) = memory s.
Proof.
  intros P. destruct (pl_block _ _ P) as (n & Hb & Hr & _ & Hu & _). pose proof header_pos. unfold dealloc.
  rewrite (proj2 (Z.eqb_neq _ 0)) by lia. rewrite (pl_header _ _ P). split; [|done]. simpl. by apply law_dealloc.
Qed.

(** *** The invariant *)

Lemma separate_insert k k' r n : separate k → blocks k' = <[r:=n]> (blocks k) →
  (∀ b m, blocks k !! b = Some m → ¬ overlap r n b m) → separate k'.
Proof.
  intros S E Hn a x b y. rewrite E. intros Ha Hb Hne.
  apply lookup_insert_Some in Ha as [[<- <-]|[? Ha]], Hb as [[<- <-]|[? Hb]]; [done|by apply Hn| |by eapply S].
  intros (z & ? & ?). by apply (Hn a x Ha); exists z.
Qed.

Lemma separate_delete k k' r : separate k → blocks k' = delete r (blocks k) → separate k'.
Proof.
  intros S E a x b y. rewrite E. intros [_ Ha]%lookup_delete_Some [_ Hb]%lookup_delete_Some. by apply S.
Qed.

(** Two allocations, with their headers, lie apart. *)
Lemma placed_apart c a b x : inv c → a ∈ allocations c → b ∈ allocations c → raw a ≠ raw b →
  user a - header_size ≤ x < user a + size (layout a) → ¬ (user b - header_size ≤ x < user b + size (layout b)).
Proof.
  intros I Ha Hb Hne Hx Hy. destruct (pl_block _ _ (in_placed _ I a Ha)) as (n & Ba & ? & ? & ? & ?).
  destruct (pl_block _ _ (in_placed _ I b Hb)) as (m & Bb & ? & ? & ? & ?).
  apply (in_separate _ I _ _ _ _ Ba Bb Hne). exists x. lia.
Qed.

Lemma raw_inj c i j a b : inv c → allocations c !! i = Some a → allocations c !! j = Some b → raw a = raw b → i = j.
Proof.
  intros I Ha Hb E. apply (NoDup_lookup (raw <$> allocations c) i j (raw a)); [apply I|..]; rewrite list_lookup_fmap, ?Ha, ?Hb; [done|].
  simpl. by rewrite E.
Qed.

Lemma delete_other c i a b : inv c → allocations c !! i = Some a → b ∈ delete i (allocations c) →
  b ∈ allocations c ∧ raw b ≠ raw a.
Proof.
  intros I Ha Hb. apply list_elem_of_lookup in Hb as [j Hj].
  destruct (decide (j < i)%nat) as [Hlt|Hge].
  - rewrite list_lookup_delete_lt in Hj by done. split; [by eapply list_elem_of_lookup_2|]. intros E.
    pose proof (raw_inj c j i b a I Hj Ha E). lia.
  - rewrite list_lookup_delete_ge in Hj by lia. split; [by eapply list_elem_of_lookup_2|]. intros E.
    pose proof (raw_inj c (S j) i b a I Hj Ha E). lia.
Qed.

(** What a step keeps of the others' memory, blocks and places. *)
Lemma inv_keep c s' : inv c → separate (heap s') →
  (∀ a, a ∈ allocations c → blocks (heap s') !! raw a = blocks (heap (st c)) !! raw a) →
  (∀ a x, a ∈ allocations c → user a - header_size ≤ x < user a → memory s' !! x = memory (st c) !! x) →
  inv (mkConfig s' (allocations c)).
Proof.
  intros I S Hb Hm. split; simpl; [done| |apply I]. intros a Ha.
  apply (placed_frame (st c)); [by apply I|by apply Hb|]. intros x. by apply Hm.
Qed.

(** Every step keeps the invariant, and only a store changes the contents of an
    allocation. *)
Lemma allocator_exec c e c' : inv c → event_ok c e → exec c e = Some c' →
  inv c' ∧ (match e with Store _ _ _ => True | _ =>
    ∀ a x, a ∈ allocations c → user a ≤ x < user a + size (layout a) → memory (st c') !! x = memory (st c) !! x end).
Proof.
  intros I He E. pose proof header_pos as Hh. destruct e as [l|i|i off v|n|b]; simpl in E, He.
  - pose proof (alloc_spec l (st c) He) as A. destruct (alloc l (st c)) as [p s']. simplify_eq/=.
    destruct A as [(-> & Hm & Hb)|(Hp & F)]; simpl.
    + split; [|intros; by rewrite Hm]. apply inv_keep; [done|..]; try (intros; by rewrite ?Hb, ?Hm).
      intros a n b m. rewrite Hb. apply I.
    + rewrite (proj2 (Z.eqb_neq _ _) Hp). set (a0 := mkAllocation _ _ _) in *. destruct (fa_block _ _ _ F) as (n & Hb & Hsep).
      assert (∀ a x, a ∈ allocations c → user a - header_size ≤ x < user a + size (layout a) → memory s' !! x = memory (st c) !! x) as Hk.
      { intros a x Ha Hx. apply (fa_memory _ _ _ F). intros Hy.
        destruct (pl_block _ _ (in_placed _ I a Ha)) as (m & Ba & ? & ? & ? & ?).
        destruct (pl_block _ _ (fa_placed _ _ _ F)) as (n' & Bn & ? & ? & ? & ?). rewrite Hb, lookup_insert_eq in Bn. simplify_eq.
        pose proof (pl_size _ _ (fa_placed _ _ _ F)). apply (Hsep _ _ Ba). exists x. lia. }
      assert (∀ a, a ∈ allocations c → raw a0 ≠ raw a) as Hr.
      { intros a Ha Eq. destruct (pl_block _ _ (in_placed _ I a Ha)) as (m & Ba & _). rewrite <- Eq, (fa_new _ _ _ F) in Ba. done. }
      split; [|intros a x Ha Hx; apply (Hk a x Ha); lia].
      destruct (inv_keep c s' I) as [S P Nd].
      * by eapply separate_insert; [apply I|..].
      * intros a Ha. rewrite Hb. by rewrite lookup_insert_ne by by apply Hr.
      * intros a x Ha Hx. apply (Hk a x Ha). pose proof (pl_size _ _ (in_placed _ I a Ha)). lia.
      * split; simpl; [done| |].
        -- intros a [Ha| ->%list_elem_of_singleton]%elem_of_app; [by apply P|apply F].
        -- rewrite fmap_app. apply NoDup_app. split_and!; [apply I| |apply NoDup_singleton].
           intros r (a & Er & Ha)%list_elem_of_fmap Es%list_elem_of_singleton. apply (Hr a Ha). congruence.
  - destruct (allocations c !! i) as [a|] eqn:Ea; simplify_eq/=.
    pose proof (list_elem_of_lookup_2 _ _ _ Ea) as Hin. destruct (dealloc_spec _ a (in_placed _ I a Hin)) as [Hb Hm].
    split; [|intros; by rewrite Hm]. split; simpl.
    + eapply separate_delete; [apply I|exact Hb].
    + intros b Hbi. destruct (delete_other c i a b I Ea Hbi) as [Hb' Hne]. apply (placed_frame (st c)); [by apply I| |intros; by rewrite Hm].
      rewrite Hb. by rewrite lookup_delete_ne.
    + eapply sublist_NoDup; [apply (in_nodup _ I)|]. apply fmap_sublist, sublist_delete.
  - destruct (allocations c !! i) as [a|] eqn:Ea; simplify_eq/=. destruct ((0 <=? off) && (off <? size (layout a))) eqn:Eo; simplify_eq.
    bool_to_prop. split; [|done]. pose proof (list_elem_of_lookup_2 _ _ _ Ea) as Hin.
    apply inv_keep; [done|apply I|done|]. intros b x Hb Hx. simpl. rewrite lookup_insert_ne; [done|].
    intros <-. destruct (decide (raw a = raw b)) as [Eq|Hne].
    + apply list_elem_of_lookup in Hb as [k Ek]. pose proof (raw_inj c i k a b I Ea Ek Eq) as <-. simplify_eq. lia.
    + pose proof (pl_size _ _ (in_placed _ I b Hb)).
      apply (placed_apart c a b (user a + off) I Hin Hb Hne); lia.
  - unfold heap_alloc in *. pose proof (law_alloc n (heap (st c)) He) as A.
    destruct (osal_freertos_heap_alloc n (heap (st c))) as [r k]. simplify_eq/=. split; [|done].
    destruct A as [(-> & Hb)|(_ & _ & Hsep & Hnew & Hb)]; apply inv_keep; try done; simpl.
    + intros a n' b m. rewrite Hb. apply I.
    + intros a _. by rewrite Hb.
    + by eapply separate_insert; [apply I|..].
    + intros a Ha. rewrite Hb. rewrite lookup_insert_ne; [done|]. intros ->.
      destruct (pl_block _ _ (in_placed _ I a Ha)) as (m & Ba & _). by rewrite Hnew in Ba.
  - destruct He as [Hs Hn]. simplify_eq/=. split; [|done]. pose proof (law_dealloc b (heap (st c)) Hs) as Hb.
    apply inv_keep; [done|by eapply separate_delete; [apply I|]|..|done]. simpl. intros a Ha. rewrite Hb.
    by rewrite lookup_delete_ne by (by intros ->; apply (Hn a)).
Qed.

Lemma allocator_reachable s0 c : separate (heap s0) → reachable s0 c → inv c.
Proof.
  intros S R. induction R as [|c e c' _ IH He E]; [|by apply (allocator_exec c e c')].
  split; simpl; [done|by intros a ?%elem_of_nil|constructor].
Qed.

(** C18: The allocator on the FreeRTOS heap, whatever alignments are asked for,
    whatever the heap refuses and whatever the kernel allocates in between: every
    allocation is aligned as asked, lies with its header inside one live heap
    block and inside the address space, and the header is aligned and names that
    block; allocations do not overlap each other or any header; neither
    allocating nor freeing changes the contents of a live allocation; and freeing
    an allocation gives back exactly its block. *)
Theorem allocator_correct s0 c : separate (heap s0) → reachable s0 c →
  (∀ a, a ∈ allocations c → placed (st c) a) ∧
  (∀ i j a b x, allocations c !! i = Some a → allocations c !! j = Some b → i ≠ j →
     user a ≤ x < user a + size (layout a) → ¬ (user b - header_size ≤ x < user b + size (layout b))) ∧
  (∀ e c' a x, event_ok c e → exec c e = Some c' → (∀ i off v, e ≠ Store i off v) → a ∈ allocations c →
     user a ≤ x < user a + size (layout a) → memory (st c') !! x = memory (st c) !! x) ∧
  (∀ i a, allocations c !! i = Some a → ∃ c' n, exec c (Dealloc i) = Some c' ∧
     blocks (heap (st c)) !! raw a = Some n ∧ blocks (heap (st c')) = delete (raw a) (blocks (heap (st c)))).
Proof.
  intros S R. pose proof (allocator_reachable s0 c S R) as I. pose proof header_pos as Hh. split_and!.
  - apply I.
  - intros i j a b x Ea Eb Hne Hx. apply (placed_apart c a b x I).
    + by eapply list_elem_of_lookup_2.
    + by eapply list_elem_of_lookup_2.
    + intros Eq. apply Hne. by eapply raw_inj.
    + lia.
  - intros e c' a x He E Hs Ha Hx. destruct (allocator_exec c e c' I He E) as [_ Hk].
    destruct e as [| |i off v| |]; try by apply (Hk a x). by exfalso; eapply Hs.
  - intros i a Ea. pose proof (in_placed _ I a (list_elem_of_lookup_2 _ _ _ Ea)) as P.
    destruct (pl_block _ _ P) as (n & Hb & _). simpl. rewrite Ea. simpl. eexists _, n. split; [done|]. split; [done|].
    by apply dealloc_spec.
Qed.

End FreeRtosAllocator.
End FreeRtosAllocator.

(** ** Witness *)

Module AllocatorWitness.
Import FreeRtosAllocator.

#[local] Existing Instance arch32.

(** A heap that allocates behind its last block, from an odd address on. *)
Definition top (k : gmap Z Z) : Z := map_fold (λ b n t, Z.max (b + n) t) 1001 k.
Definition bump_alloc (n : Z) (k : gmap Z Z) : Z * gmap Z Z :=
  if (top k + n <=? 65536) && bool_decide (k !! top k = None) then (top k, <[top k:=n]> k) else (0, k).

#[global] Instance bump_heap : NativeHeap (gmap Z Z) := {|
  osal_freertos_heap_alloc := bump_alloc;
  osal_freertos_heap_dealloc := λ b k, delete b k;
|}.

Lemma top_spec (k : gmap Z Z) : 1001 ≤ top k ∧ ∀ b n, k !! b = Some n → b + n ≤ top k.
Proof.
  unfold top. apply (map_fold_weak_ind (λ t m, 1001 ≤ t ∧ ∀ b n, m !! b = Some n → b + n ≤ t)); [done|].
  intros b n m t Hm [H1 H2]. split; [lia|]. intros b' n' [[<- <-]|[_ Hb]]%lookup_insert_Some; [lia|]. specialize (H2 _ _ Hb). lia.
Qed.

#[global] Instance bump_laws : NativeHeapLaws (gmap Z Z).
Proof.
  refine {| blocks := λ k, k |}; [|done]. intros n k Hn. simpl. unfold bump_alloc.
  destruct ((top k + n <=? 65536) && bool_decide (k !! top k = None)) eqn:E; [right|by left].
  apply andb_true_iff in E as [E1 E2%bool_decide_eq_true]. bool_to_prop. destruct (top_spec k) as [H1 H2].
  change (2 ^ usize_bits) with (2 ^ 32). split_and!; [lia|lia| |done|done].
  intros b m Hb (x & Hx & Hy). specialize (H2 b m Hb). lia.
Defined.

Abbreviation state := (FreeRtosAllocator.state (K:=gmap Z Z)).
Abbreviation config := (FreeRtosAllocator.config (K:=gmap Z Z)).
Definition start : state := mkState ∅ ∅.
Definition events : list event :=
  [Alloc (mkLayout 24 8); KernelAlloc 10; Alloc (mkLayout 3 1); Alloc (mkLayout 100 256); Alloc (mkLayout 65000 4);
   Store 0 5 77; Dealloc 1].

Fixpoint events_ok (c : config) (es : list event) : Prop :=
  match es with
  | [] => True
  | e :: es => event_ok c e ∧ match exec c e with Some c' => events_ok c' es | None => False end
  end.
Fixpoint exec_all (c : config) (es : list event) : option config :=
  match es with [] => Some c | e :: es => c' ← exec c e; exec_all c' es end.

Lemma allocator_runs es c : reachable start c → events_ok c es → ∃ c', exec_all c es = Some c' ∧ reachable start c'.
Proof.
  revert c. induction es as [|e es IH]; intros c R He; simpl in *; [by exists c|]. destruct He as [He Hes].
  destruct (exec c e) as [c1|] eqn:E; [|done]. simpl. apply IH; [|done]. by eapply al_step.
Qed.

Definition sample : config := default (mkConfig start []) (exec_all (mkConfig start []) events).

Lemma sample_reachable_alloc : reachable start sample.
Proof.
  destruct (allocator_runs events (mkConfig start [])) as (c' & E & R); [apply al_init| |unfold sample; by rewrite E].
  assert (∀ n m, (0 ≤ n < 2 ^ 32) → 0 ≤ m < 32 → layout_ok (mkLayout n (2 ^ m))) as L by (intros n m Hn Hm; split; [done|by exists m]).
  split; [by apply (L 24 3)|]. split; [done|]. split; [by apply (L 3 0)|]. split; [by apply (L 100 8)|]. split; [by apply (L 65000 2)|].
  vm_compute. auto.
Qed.

(** Two allocations are left, at multiples of 8 and of 256; the largest was refused. *)
Lemma allocator_correct_witness :
  (user <$> allocations sample) = [1008; 1280] ∧ (∀ a, a ∈ allocations sample → placed (st sample) a).
Proof.
  destruct (allocator_correct start sample) as (Hp & _).
  - intros a n b m Ha. simpl in Ha. rewrite lookup_empty in Ha. discriminate Ha.
  - exact sample_reachable_alloc.
  - split; [vm_compute; reflexivity|exact Hp].
Defined.

End AllocatorWitness.
