(* ===== verification/Client.v ===== *)
(** * Client programs of the object API

    What a single-threaded program can observe of queues, semaphores, mutexes
    and the runtime ([crates/osal-api/src/traits]), independently of the backend.

    A program is a tree of calls ([prog]).  [Spec] runs it on abstract objects,
    [Backend] on an implementation; [BackendLaws] says, call by call, that an
    implementation does to the objects what the specification does, and then every
    program gets the same answers on both ([sim_run]).  The laws are proved for the
    models of the mock ([MockClient]), POSIX ([PosixClient]) and FreeRTOS
    ([FreeRtosClient]) backends, and the claims about programs are on those. *)

From S2P Require Import Prelude Api Buffers.

(** ** Programs *)

Module Client.

(** Handles are named in the order of their creation. *)
Abbreviation handle := nat.

(** Calls on a queue, a semaphore and a mutex or its guard, with the type of what
    they return; a [recv] also returns the caller's buffer. *)
Inductive queue_call : Type → Type :=
| Send (data : list u8) (timeout : Timeout.t) : queue_call (Result ())
| Recv (buffer : list u8) (timeout : Timeout.t) : queue_call (Result () * list u8)
| Close : queue_call (Result ())
| Capacity : queue_call Z
| MsgSize : queue_call Z
| Len : queue_call (Result Z).
Inductive semaphore_call : Type → Type :=
| Acquire (timeout : Timeout.t) : semaphore_call (Result ())
| Release : semaphore_call (Result ())
| MaxCount : semaphore_call Z
| Count : semaphore_call (Result Z).
Inductive mutex_call : Type → Type :=
| Lock (timeout : Timeout.t) : mutex_call (Result ())
| GuardRead : mutex_call Z
| GuardWrite (value : Z) : mutex_call ()
| GuardDrop : mutex_call ().
Inductive constructor : Type :=
| NewQueue (capacity msg_size : Z)
| NewSemaphore (max_count initial_count : Z)
| NewBinary
| NewMutex (value : Z).

(** All calls of the API. *)
Inductive op : Type → Type :=
| Initialize : op (Result ())
| Shutdown : op (Result ())
| State : op RuntimeState.t
| New (c : constructor) : op (Result handle)
| OnQueue {R} (h : handle) (c : queue_call R) : op R
| OnSemaphore {R} (h : handle) (c : semaphore_call R) : op R
| OnMutex {R} (h : handle) (c : mutex_call R) : op R
| CloneHandle (h : handle) : op handle
| DropHandle (h : handle) : op ().

(** [Fail]: an assertion of the program fails, it panics. *)
Inductive prog (A : Type) : Type :=
| Ret (a : A)
| Do {R : Type} (o : op R) (k : R → prog A)
| Fail (msg : string).
Arguments Ret {A} _.
Arguments Do {A R} _ _.
Arguments Fail {A} _.

Fixpoint bind {A B} (p : prog A) (f : A → prog B) : prog B :=
  match p with
  | Ret a => f a
  | Do o k => Do o (λ r, bind (k r) f)
  | Fail msg => Fail msg
  end.
Definition call {R} (o : op R) : prog R := Do o Ret.

(** [Result::unwrap], [assert!] *)
Definition unwrap {R} (o : op (Result R)) : prog R :=
  Do o (λ r, match r with Ok a => Ret a | Err _ => Fail "called Result::unwrap() on an Err value" end).
Definition assert (b : bool) : prog () := if b then Ret () else Fail "assertion failed".

(** The default methods of the traits. *)
Definition is_empty (h : handle) : prog (Result bool) :=
  Do (OnQueue h Len) (λ r, Ret (match r with Ok n => Ok (n =? 0) | Err e => Err e end)).
Definition is_full (h : handle) : prog (Result bool) :=
  Do (OnQueue h Len) (λ r, match r with
                   | Ok n => Do (OnQueue h Capacity) (λ c, Ret (Ok (n =? c)))
                   | Err e => Ret (Err e)
                   end).
(** [BinarySemaphore::is_signaled] of every backend *)
Definition is_signaled (h : handle) : prog (Result bool) :=
  Do (OnSemaphore h Count) (λ r, Ret (match r with Ok n => Ok (n =? 1) | Err e => Err e end)).

End Client.
Declare Scope prog_scope.
Delimit Scope prog_scope with prog.
Notation "x '<~' m ';;' k" := (Client.bind m (λ x, k)) (at level 100, m at next level, right associativity) : prog_scope.
Notation "m ';~' k" := (Client.bind m (λ _, k)) (at level 100, right associativity) : prog_scope.

(** ** The specification *)

Module Spec.
Import Client.

Inductive aobj : Type :=
| AQueue (f : Fifo.t)
| ASemaphore (max_count count : Z)
| AMutex (value : Z) (locked : bool).

(** Objects with the number of handles to them, the object of each handle, and the
    next name; an object has the name of its first handle. *)
Record world : Type := mkWorld {
  running : bool;
  objects : gmap nat (aobj * nat);
  handles : gmap nat nat;
  next : nat;
  waits : nat;   (** calls with a finite timeout so far *)
}.
Definition start : world := mkWorld false ∅ ∅ 0 0.

(** How much an implementation has to provide: objects, handles to one object,
    bytes of one queue, seconds of one wait, calls that may wait for a time. *)
Record limits : Type := mkLimits { max_objects : Z; max_handles : Z; max_bytes : Z; max_wait : Z; max_waits : nat }.

Definition prompt (l : limits) (timeout : Timeout.t) : bool :=
  match timeout with
  | Timeout.After d => bool_decide (Duration.wf d) && (Duration.as_secs d <=? max_wait l)
  | _ => true
  end.

(** A call that cannot go on at once: [NoWait] and [After] have their errors; a
    [Forever] call is not specified (nobody else is there to end it). *)
Definition timed {A} (l : limits) (timeout : Timeout.t) (would_block : Error.t) (r : Result A) : option (Result A) :=
  if negb (prompt l timeout) then None
  else match r with
  | Err e =>
      if Error.eqb e would_block then
        match timeout with
        | Timeout.NoWait => Some (Err e)
        | Timeout.After _ => Some (Err Error.Timeout)
        | Timeout.Forever => None
        end
      else Some r
  | Ok _ => Some r
  end.

Definition set_running (b : bool) (w : world) : world := mkWorld b (objects w) (handles w) (next w) (waits w).
Definition set_object (o : nat) (x : aobj) (n : nat) (w : world) : world :=
  mkWorld (running w) (<[o:=(x, n)]> (objects w)) (handles w) (next w) (waits w).

(** The object of a handle. *)
Definition lookup (h : handle) (w : world) : option (nat * aobj * nat) :=
  o ← handles w !! h; '(x, n) ← objects w !! o; Some (o, x, n).

(** A constructor whose parameters are valid. *)
Definition create (l : limits) (x : aobj) (w : world) : option (Result handle * world) :=
  if negb (running w) then Some (Err Error.NotInitialized, w)
  else if Z.of_nat (size (objects w)) <? max_objects l then
    Some (Ok (next w), mkWorld true (<[next w:=(x, 1%nat)]> (objects w)) (<[next w:=next w]> (handles w)) (S (next w)) (waits w))
  else None.

(** A call on an object: the answer and the new object.  [None]: the types of the
    API rule the call out, or it is not specified. *)
Definition queue_step (l : limits) {R} (c : queue_call R) (q : Fifo.t) : option (R * Fifo.t) :=
  match c in queue_call R return option (R * Fifo.t) with
  | Send d t => let '(r, q) := Fifo.send q d in r ← timed l t Error.QueueFull r; Some (r, q)
  | Recv b t =>
      let '(r, (q, b)) := Fifo.recv q b in
      r ← timed l t Error.QueueEmpty (match r with Ok _ => Ok () | Err e => Err e end); Some ((r, b), q)
  | Close => Some (Ok (), Fifo.close q)
  | Capacity => Some (Fifo.bound q, q)
  | MsgSize => Some (Fifo.msg_len q, q)
  | Len => Some (Ok (Z.of_nat (length (Fifo.items q))), q)
  end.
Definition semaphore_step (l : limits) {R} (c : semaphore_call R) (m n : Z) : option (R * Z) :=
  match c in semaphore_call R return option (R * Z) with
  | Acquire t =>
      if negb (prompt l t) then None
      else if 0 <? n then Some (Ok (), n - 1)
      else match t with Timeout.Forever => None | _ => Some (Err Error.Timeout, n) end
  | Release => Some (if n <? m then (Ok (), n + 1) else (Err Error.Overflow, n))
  | MaxCount => Some (m, n)
  | Count => Some (Ok n, n)
  end.
Definition mutex_step (l : limits) {R} (c : mutex_call R) (v : Z) (locked : bool) : option (R * Z * bool) :=
  match c in mutex_call R return option (R * Z * bool) with
  | Lock t =>
      if negb (prompt l t) then None
      else if locked then
        match t with
        | Timeout.NoWait => Some (Err Error.LockFailed, v, locked)
        | Timeout.After _ => Some (Err Error.Timeout, v, locked)
        | Timeout.Forever => None
        end
      else Some (Ok (), v, true)
  | GuardRead => if locked then Some (v, v, locked) else None
  | GuardWrite v' => if locked then Some ((), v', locked) else None
  | GuardDrop => if locked then Some ((), v, false) else None
  end.

(** What a constructor makes of its parameters. *)
Definition constructed (l : limits) (c : constructor) : option (Result aobj) :=
  match c with
  | NewQueue c m =>
      if (c <? 0) || (m <? 0) then None
      else if (c =? 0) || (m =? 0) then Some (Err Error.InvalidParameter)
      else if c * m <=? max_bytes l then Some (Ok (AQueue (Fifo.mk c m [] false))) else None
  | NewSemaphore m i =>
      if negb ((0 <=? m) && (m <? 2 ^ 32) && (0 <=? i) && (i <? 2 ^ 32)) then None
      else if (m =? 0) || (m <? i) then Some (Err Error.InvalidParameter)
      else Some (Ok (ASemaphore m i))
  | NewBinary => Some (Ok (ASemaphore 1 0))
  | NewMutex v => Some (Ok (AMutex v false))
  end.

(** A guard borrows the handle it was locked through. *)
Definition unlocked (x : aobj) : bool := match x with AMutex _ b => negb b | _ => true end.

(** The calls that can take time. *)
Definition finite (t : Timeout.t) : nat := match t with Timeout.After _ => 1 | _ => 0 end.
Definition queue_cost {R} (c : queue_call R) : nat := match c with Send _ t | Recv _ t => finite t | _ => 0 end.
Definition semaphore_cost {R} (c : semaphore_call R) : nat := match c with Acquire t => finite t | _ => 0 end.
Definition mutex_cost {R} (c : mutex_call R) : nat := match c with Lock t => finite t | _ => 0 end.
Definition spend (l : limits) (k : nat) (w : world) : option world :=
  if (waits w + k <=? max_waits l)%nat
  then Some (mkWorld (running w) (objects w) (handles w) (next w) (waits w + k)) else None.

Definition step (l : limits) {R} (o : op R) (w : world) : option (R * world) :=
  match o in op R return option (R * world) with
  | Initialize => Some (if running w then (Err Error.AlreadyInitialized, w) else (Ok (), set_running true w))
  | Shutdown =>
      Some (if negb (running w) then (Err Error.NotInitialized, w)
            else if decide (objects w = ∅) then (Ok (), set_running false w) else (Err Error.Busy, w))
  | State => Some (if running w then RuntimeState.Running else RuntimeState.Uninitialized, w)
  | New c =>
      x ← constructed l c;
      match x with Err e => Some (Err e, w) | Ok x => create l x w end
  | OnQueue h c =>
      w ← spend l (queue_cost c) w;
      '(o, x, n) ← lookup h w;
      match x with AQueue q => '(r, q) ← queue_step l c q; Some (r, set_object o (AQueue q) n w) | _ => None end
  | OnSemaphore h c =>
      w ← spend l (semaphore_cost c) w;
      '(o, x, n) ← lookup h w;
      match x with ASemaphore m i => '(r, i) ← semaphore_step l c m i; Some (r, set_object o (ASemaphore m i) n w) | _ => None end
  | OnMutex h c =>
      w ← spend l (mutex_cost c) w;
      '(o, x, n) ← lookup h w;
      match x with AMutex v b => '(r, v, b) ← mutex_step l c v b; Some (r, set_object o (AMutex v b) n w) | _ => None end
  | CloneHandle h =>
      '(o, x, n) ← lookup h w;
      if Z.of_nat n <? max_handles l then
        Some (next w, mkWorld (running w) (<[o:=(x, S n)]> (objects w)) (<[next w:=o]> (handles w)) (S (next w)) (waits w))
      else None
  | DropHandle h =>
      '(o, x, n) ← lookup h w;
      if unlocked x then
        let hs := delete h (handles w) in
        match n with
        | S (S n) => Some ((), mkWorld (running w) (<[o:=(x, S n)]> (objects w)) hs (next w) (waits w))
        | _ => Some ((), mkWorld (running w) (delete o (objects w)) hs (next w) (waits w))
        end
      else None
  end.

(** A whole program: its result, or [None] where it makes an unspecified call or
    an assertion of it fails. *)
Fixpoint run (l : limits) {A} (p : prog A) (w : world) : option (A * world) :=
  match p with
  | Ret a => Some (a, w)
  | Do o k => '(r, w) ← step l o w; run l (k r) w
  | Fail _ => None
  end.

End Spec.

(** ** Implementations *)

Import Client Spec.

(** The functions of a backend; an object is known by a reference, which a clone
    shares. *)
Class Backend (W : Type) := {
  b_initialize : M W (Result ());
  b_shutdown : M W (Result ());
  b_state : M W RuntimeState.t;
  b_new : constructor → M W (Result Z);
  b_queue : ∀ {R}, Z → queue_call R → M W R;
  b_semaphore : ∀ {R}, Z → semaphore_call R → M W R;
  b_mutex : ∀ {R}, Z → mutex_call R → M W R;
  b_clone : Z → M W ();
  b_drop : Z → M W ();
}.

(** [view]: the objects with their numbers of handles; [up]: the runtime is
    running; [bok n]: good for [n] more calls that may wait for a time. *)
Class BackendLaws (W : Type) `{Backend W} := {
  bok : nat → W → Prop;
  up : W → bool;
  view : W → gmap Z (aobj * nat);
  lim : limits;
  law_less : ∀ k n w, bok (k + n) w → bok n w;
  law_initialize : ∀ k w, bok k w → ∃ w',
    b_initialize w = Done (if up w then Err Error.AlreadyInitialized else Ok (), w') ∧
    bok k w' ∧ up w' = true ∧ view w' = view w;
  law_shutdown : ∀ k w, bok k w → ∃ w',
    b_shutdown w = Done (if negb (up w) then Err Error.NotInitialized
                         else if decide (view w = ∅) then Ok () else Err Error.Busy, w') ∧
    bok k w' ∧ up w' = (up w && negb (bool_decide (view w = ∅))) ∧ view w' = view w;
  law_state : ∀ k w, bok k w → b_state w = Done (if up w then RuntimeState.Running else RuntimeState.Uninitialized, w);
  (** a refused construction changes nothing *)
  law_new : ∀ k w c, bok k w →
    match constructed lim c with
    | None => True
    | Some (Err e) => b_new c w = Done (Err e, w)
    | Some (Ok x) =>
        if up w then Z.of_nat (size (view w)) < max_objects lim →
          ∃ r w', b_new c w = Done (Ok r, w') ∧ bok k w' ∧ up w' = true ∧
            view w !! r = None ∧ view w' = <[r:=(x, 1%nat)]> (view w)
        else b_new c w = Done (Err Error.NotInitialized, w)
    end;
  law_queue : ∀ k R (c : queue_call R) w r q n res q', bok (queue_cost c + k) w → view w !! r = Some (AQueue q, n) →
    queue_step lim c q = Some (res, q') →
    ∃ w', b_queue r c w = Done (res, w') ∧ bok k w' ∧ up w' = up w ∧ view w' = <[r:=(AQueue q', n)]> (view w);
  law_semaphore : ∀ k R (c : semaphore_call R) w r m i n res i', bok (semaphore_cost c + k) w → view w !! r = Some (ASemaphore m i, n) →
    semaphore_step lim c m i = Some (res, i') →
    ∃ w', b_semaphore r c w = Done (res, w') ∧ bok k w' ∧ up w' = up w ∧ view w' = <[r:=(ASemaphore m i', n)]> (view w);
  law_mutex : ∀ k R (c : mutex_call R) w r v b n res v' b', bok (mutex_cost c + k) w → view w !! r = Some (AMutex v b, n) →
    mutex_step lim c v b = Some (res, v', b') →
    ∃ w', b_mutex r c w = Done (res, w') ∧ bok k w' ∧ up w' = up w ∧ view w' = <[r:=(AMutex v' b', n)]> (view w);
  law_clone : ∀ k w r x n, bok k w → view w !! r = Some (x, n) → Z.of_nat n < max_handles lim →
    ∃ w', b_clone r w = Done ((), w') ∧ bok k w' ∧ up w' = up w ∧ view w' = <[r:=(x, S n)]> (view w);
  law_drop_handle : ∀ k w r x n, bok k w → view w !! r = Some (x, n) → unlocked x = true →
    ∃ w', b_drop r w = Done ((), w') ∧ bok k w' ∧ up w' = up w ∧
      view w' = match n with S (S n) => <[r:=(x, S n)]> (view w) | _ => delete r (view w) end;
}.

Module ClientRun.
Section ClientRun.
Context {W : Type} `{!Backend W}.

(** The backend, the reference behind each handle, and the next name. *)
Record state : Type := mkState { backend : W; refs : gmap nat Z; next_name : nat }.

Definition on_backend {A} (m : M W A) : M state A := λ s,
  '(a, w) ← m (backend s); Done (a, mkState w (refs s) (next_name s)).
Definition ref (h : handle) : M state Z := λ s, r ← expect (refs s !! h) "no such handle"; Done (r, s).
(** A new handle to [r]. *)
Definition name (r : Z) : M state handle := λ s,
  Done (next_name s, mkState (backend s) (<[next_name s:=r]> (refs s)) (S (next_name s))).

Definition exec {R} (o : op R) : M state R :=
  match o in op R return M state R with
  | Initialize => on_backend b_initialize
  | Shutdown => on_backend b_shutdown
  | State => on_backend b_state
  | New c => r <-? on_backend (b_new c) ;; h <- name r ;; mret_ (Ok h)
  | OnQueue h c => r <- ref h ;; on_backend (b_queue r c)
  | OnSemaphore h c => r <- ref h ;; on_backend (b_semaphore r c)
  | OnMutex h c => r <- ref h ;; on_backend (b_mutex r c)
  | CloneHandle h => r <- ref h ;; on_backend (b_clone r) ;;; name r
  | DropHandle h =>
      r <- ref h ;; on_backend (b_drop r) ;;; mmodify (λ s, mkState (backend s) (delete h (refs s)) (next_name s))
  end.

Fixpoint run_on {A} (p : prog A) : M state A :=
  match p with
  | Ret a => mret_ a
  | Do o k => r <- exec o ;; run_on (k r)
  | Fail msg => mpanic msg
  end.

Context `{!BackendLaws W}.

(** The objects of the specification are those of the backend, under [φ]. *)
Record corr (φ : nat → Z) (O : gmap nat (aobj * nat)) (V : gmap Z (aobj * nat)) : Prop := {
  co_inj : ∀ o o', is_Some (O !! o) → is_Some (O !! o') → φ o = φ o' → o = o';
  co_view : ∀ o x, O !! o = Some x → V !! φ o = Some x;
  co_size : size V = size O;
}.

Lemma corr_insert φ O V o y z : corr φ O V → O !! o = Some y → corr φ (<[o:=z]> O) (<[φ o:=z]> V).
Proof.
  intros [Hi Hv Hs] Ho. split.
  - intros p p' [<-|Hp]%lookup_insert_is_Some' [<-|Hp']%lookup_insert_is_Some'; apply Hi; try done; by rewrite Ho.
  - intros p x [[<- <-]|[Hne Hp]]%lookup_insert_Some; [by rewrite lookup_insert_eq|].
    rewrite lookup_insert_ne; [by apply Hv|]. intros E. apply Hne, Hi; [by rewrite Ho|by rewrite Hp|done].
  - rewrite !map_size_insert_Some; [done|by rewrite Ho|by rewrite (Hv _ _ Ho)].
Qed.

Lemma corr_delete φ O V o y : corr φ O V → O !! o = Some y → corr φ (delete o O) (delete (φ o) V).
Proof.
  intros [Hi Hv Hs] Ho. split.
  - intros p p' [x [_ Hp]%lookup_delete_Some] [x' [_ Hp']%lookup_delete_Some]. apply Hi; [by rewrite Hp|by rewrite Hp'].
  - intros p x [Hne Hp]%lookup_delete_Some. rewrite lookup_delete_ne; [by apply Hv|]. intros E.
    apply Hne, Hi; [by rewrite Ho|by rewrite Hp|done].
  - rewrite !map_size_delete_Some; [by rewrite Hs|by rewrite Ho|by rewrite (Hv _ _ Ho)].
Qed.

Lemma corr_new φ O V o r z : corr φ O V → O !! o = None → V !! r = None →
  corr (λ x, if decide (x = o) then r else φ x) (<[o:=z]> O) (<[r:=z]> V).
Proof.
  intros [Hi Hv Hs] Ho Hr. assert (∀ p x, O !! p = Some x → p ≠ o ∧ φ p ≠ r) as Hp.
  { intros p x Ep. split; [by intros ->; rewrite Ho in Ep|]. intros E. apply Hv in Ep. by rewrite E, Hr in Ep. }
  split.
  - intros p p' H1 H2. apply lookup_insert_is_Some in H1 as [<-|[H1 [x1 E1]]], H2 as [<-|[H2 [x2 E2]]];
      repeat case_decide; try done; intros E.
    + by destruct (Hp _ _ E2).
    + by destruct (Hp _ _ E1).
    + apply Hi; [by rewrite E1|by rewrite E2|done].
  - intros p x [[<- <-]|[Hne Ep]]%lookup_insert_Some; [by rewrite decide_True, lookup_insert_eq|].
    destruct (Hp _ _ Ep). rewrite decide_False, lookup_insert_ne by done. by apply Hv.
  - rewrite !map_size_insert_None; [by rewrite Hs|done|done].
Qed.

(** The calls with a finite timeout that are left. *)
Definition budget (a : world) : nat := (max_waits lim - waits a)%nat.

Record sim (a : world) (s : state) : Prop := {
  sm_ok : bok (budget a) (backend s);
  sm_up : up (backend s) = running a;
  sm_next : next_name s = next a;
  sm_objects : ∀ o, is_Some (objects a !! o) → (o < next a)%nat;
  sm_handles : ∀ h o, handles a !! h = Some o → (o < next a)%nat;
  sm_corr : ∃ φ, corr φ (objects a) (view (backend s)) ∧ ∀ h, refs s !! h = φ <$> handles a !! h;
}.

(** The reference behind a handle. *)
Lemma sim_ref a s h o x n : sim a s → lookup h a = Some (o, x, n) →
  ∃ φ, corr φ (objects a) (view (backend s)) ∧ (∀ h, refs s !! h = φ <$> handles a !! h) ∧
    objects a !! o = Some (x, n) ∧ handles a !! h = Some o ∧ ref h s = Done (φ o, s) ∧ view (backend s) !! φ o = Some (x, n).
Proof.
  intros S E. unfold lookup in E. destruct (handles a !! h) as [o'|] eqn:Eh; [|done]. simpl in E.
  destruct (objects a !! o') as [[x' n']|] eqn:Eo; simplify_eq/=. destruct (sm_corr _ _ S) as (φ & C & Hr).
  exists φ. split_and!; try done; [|by apply C]. unfold ref. by rewrite Hr, Eh.
Qed.

(** A call that changes one object. *)
Lemma sim_on_object {R} a s o x n z φ (m : M W R) res : sim a s → corr φ (objects a) (view (backend s)) →
  (∀ h, refs s !! h = φ <$> handles a !! h) → objects a !! o = Some (x, n) →
  (∃ w', m (backend s) = Done (res, w') ∧ bok (budget a) w' ∧ up w' = up (backend s) ∧ view w' = <[φ o:=z]> (view (backend s))) →
  ∃ w', m (backend s) = Done (res, w') ∧
    sim (mkWorld (running a) (<[o:=z]> (objects a)) (handles a) (next a) (waits a)) (mkState w' (refs s) (next_name s)).
Proof.
  intros S C Hr Eo (w' & Em & Ow & Hu & Hv). exists w'. split; [done|]. split; simpl; try apply S; [done|..].
  - rewrite Hu. apply S.
  - intros p [<-|Hp]%lookup_insert_is_Some'; apply S; [by rewrite Eo|done].
  - exists φ. split; [|done]. rewrite Hv. by eapply corr_insert.
Qed.

(** Waiting calls are paid for. *)
Lemma sim_spend a a' s k : sim a s → spend lim k a = Some a' →
  sim a' s ∧ bok (k + budget a') (backend s).
Proof.
  intros S E. unfold spend in E. destruct (_ <=? _)%nat eqn:Hk; simplify_eq. apply Nat.leb_le in Hk.
  assert (budget a = k + budget (mkWorld (running a) (objects a) (handles a) (next a) (waits a + k)))%nat as Hb
    by (unfold budget; simpl; lia).
  pose proof (sm_ok _ _ S) as Ow. rewrite Hb in Ow. split; [|done]. split; simpl; try apply S. by eapply law_less.
Qed.

Lemma sim_object_call {R} a s h o x n z (m : Z → M W R) res : sim a s → lookup h a = Some (o, x, n) →
  (∀ r, view (backend s) !! r = Some (x, n) →
    ∃ w', m r (backend s) = Done (res, w') ∧ bok (budget a) w' ∧ up w' = up (backend s) ∧ view w' = <[r:=(z, n)]> (view (backend s))) →
  ∃ s', (r <- ref h ;; on_backend (m r)) s = Done (res, s') ∧ sim (set_object o z n a) s'.
Proof.
  intros S E Hm. destruct (sim_ref _ _ _ _ _ _ S E) as (φ & C & Hr & Eo & _ & Er & Ev).
  destruct (sim_on_object a s o x n (z, n) φ (m (φ o)) res S C Hr Eo (Hm _ Ev)) as (w' & Em & S').
  eexists. split; [|exact S']. unfold mbind_, on_backend. rewrite Er. simpl. by rewrite Em.
Qed.

(** A new object, with its first handle. *)
Lemma sim_new a s x r w' : sim a s → view (backend s) !! r = None → bok (budget a) w' → up w' = up (backend s) →
  view w' = <[r:=(x, 1%nat)]> (view (backend s)) →
  sim (mkWorld (running a) (<[next a:=(x, 1%nat)]> (objects a)) (<[next a:=next a]> (handles a)) (S (next a)) (waits a))
      (mkState w' (<[next_name s:=r]> (refs s)) (S (next_name s))).
Proof.
  intros S Hr Ow Hu Hv. destruct (sm_corr _ _ S) as (φ & C & Hrefs). pose proof (sm_next _ _ S) as En.
  assert (objects a !! next a = None) as Hn.
  { apply eq_None_not_Some. intros Ho%(sm_objects _ _ S). lia. }
  split; simpl; [done|by rewrite Hu; apply S|by rewrite En|..].
  - intros o [<-|Ho%(sm_objects _ _ S)]%lookup_insert_is_Some'; lia.
  - intros h o [[_ <-]|[_ Ho%(sm_handles _ _ S)]]%lookup_insert_Some; lia.
  - eexists. split; [rewrite Hv; by apply corr_new|]. intros h. rewrite En. destruct (decide (next a = h)) as [<-|Hne].
    + rewrite !lookup_insert_eq. simpl. by rewrite decide_True.
    + rewrite !lookup_insert_ne, Hrefs by done. destruct (handles a !! h) as [o|] eqn:Eh; [|done]. simpl.
      apply (sm_handles _ _ S) in Eh. by rewrite decide_False by lia.
Qed.

Lemma sim_empty a s : sim a s → view (backend s) = ∅ ↔ objects a = ∅.
Proof.
  intros S. destruct (sm_corr _ _ S) as (φ & C & _). rewrite <- !map_size_empty_iff. by rewrite (co_size _ _ _ C).
Qed.

Lemma sim_runtime a s w' b : sim a s → bok (budget a) w' → up w' = b → view w' = view (backend s) →
  sim (set_running b a) (mkState w' (refs s) (next_name s)).
Proof.
  intros S Ow Hu Hv. split; simpl; try apply S; [done|done|]. rewrite Hv. apply S.
Qed.

Lemma sim_clone a s h r a' : sim a s → step lim (CloneHandle h) a = Some (r, a') →
  ∃ s', exec (CloneHandle h) s = Done (r, s') ∧ sim a' s'.
Proof.
  intros S E. simpl in E. destruct (lookup h a) as [[[o x] n]|] eqn:El; [|done]. simpl in E.
  destruct (Z.of_nat n <? max_handles lim) eqn:Hn; simplify_eq. bool_to_prop.
  destruct (sim_ref _ _ _ _ _ _ S El) as (φ & C & Hr & Eo & Eh & Er & Ev).
  destruct (sim_on_object a s o x n (x, Datatypes.S n) φ (b_clone (φ o)) () S C Hr Eo) as (w' & Em & S'); [exact (law_clone _ _ _ _ _ (sm_ok _ _ S) Ev Hn)|].
  eexists. unfold exec, mbind_, on_backend, name. rewrite Er. simpl. rewrite Em. simpl. rewrite (sm_next _ _ S).
  split; [done|]. pose proof (sm_handles _ _ S _ _ Eh) as Ho. destruct S' as [? ? ? Hob Hha (φ' & C' & Hr')]. simpl in *.
  split; simpl; try done.
  - intros p Hp%Hob. lia.
  - intros p q [[_ <-]|[_ Hq%Hha]]%lookup_insert_Some; lia.
  - exists φ. split.
    + destruct (law_clone _ (backend s) (φ o) x n (sm_ok _ _ S) Ev Hn) as (w2 & E2 & _ & _ & Hv). rewrite E2 in Em. simplify_eq.
      rewrite Hv. by eapply corr_insert.
    + intros p. destruct (decide (next a = p)) as [<-|Hne]; [by rewrite !lookup_insert_eq|].
      rewrite !lookup_insert_ne by done. apply Hr.
Qed.

Lemma sim_drop a s h r a' : sim a s → step lim (DropHandle h) a = Some (r, a') →
  ∃ s', exec (DropHandle h) s = Done (r, s') ∧ sim a' s'.
Proof.
  intros S E. simpl in E. destruct (lookup h a) as [[[o x] n]|] eqn:El; [|done]. simpl in E.
  destruct (unlocked x) eqn:Hx; [|done]. destruct (sim_ref _ _ _ _ _ _ S El) as (φ & C & Hr & Eo & Eh & Er & Ev).
  destruct (law_drop_handle _ (backend s) (φ o) x n (sm_ok _ _ S) Ev Hx) as (w' & Em & Ow & Hu & Hv).
  eexists. unfold exec, mbind_, on_backend, mmodify. rewrite Er. simpl. rewrite Em. simpl.
  split; [by destruct n as [|[|n]]; simplify_eq/=|].
  assert (∀ h', delete h (refs s) !! h' = φ <$> delete h (handles a) !! h') as Hrd.
  { intros p. destruct (decide (h = p)) as [<-|Hne]; [by rewrite !lookup_delete_eq|]. by rewrite !lookup_delete_ne. }
  assert (∀ p q, delete h (handles a) !! p = Some q → (q < next a)%nat) as Hhd by (intros p q [_ Hq]%lookup_delete_Some; exact (sm_handles _ _ S _ _ Hq)).
  assert (∀ z, is_Some (<[o:=z]> (objects a) !! o) ∧ ∀ p, is_Some (<[o:=z]> (objects a) !! p) → (p < next a)%nat) as Hoi.
  { intros z. split; [by rewrite lookup_insert_eq|]. intros p [<-|Hp]%lookup_insert_is_Some'; apply (sm_objects _ _ S); [by rewrite Eo|done]. }
  assert (∀ p, is_Some (delete o (objects a) !! p) → (p < next a)%nat) as Hod
    by (intros p [y [_ Hy]%lookup_delete_Some]; apply (sm_objects _ _ S); by rewrite Hy).
  destruct n as [|[|n]]; simplify_eq/=; split; simpl; try done; try (by rewrite Hu; apply S); try apply S; try apply Hoi;
    (exists φ; split; [rewrite Hv; by (eapply corr_insert || eapply corr_delete)|exact Hrd]).
Qed.

Lemma set_running_id a b : running a = b → set_running b a = a.
Proof. destruct a. by intros [= <-]. Qed.

Lemma sim_step {R} (o : op R) a s r a' : sim a s → step lim o a = Some (r, a') →
  ∃ s', exec o s = Done (r, s') ∧ sim a' s'.
Proof.
  intros S. pose proof (sm_ok _ _ S) as Ow. pose proof (sm_up _ _ S) as Hu.
  destruct o as [| | |c|R h c|R h c|R h c|h|h]; try (by apply sim_clone); try (by apply sim_drop); simpl; intros E.
  - destruct (law_initialize _ _ Ow) as (w' & Ei & O' & U' & V'). unfold on_backend. rewrite Ei, Hu. simpl.
    eexists. split; [destruct (running a); by simplify_eq|].
    pose proof (sim_runtime a s w' true S O' U' V') as S'. destruct (running a) eqn:Er; simplify_eq; [|done].
    by rewrite set_running_id in S'.
  - destruct (law_shutdown _ _ Ow) as (w' & Ei & O' & U' & V'). unfold on_backend. rewrite Ei, Hu. rewrite Hu in U'. simpl.
    pose proof (sim_empty a s S) as He. eexists. split; [|].
    + destruct (running a); simpl in *; simplify_eq; [|done]. destruct (decide (objects a = ∅)) as [Ho|Ho].
      * rewrite decide_True by by apply He. by simplify_eq.
      * rewrite decide_False by by rewrite He. by simplify_eq.
    + pose proof (sim_runtime a s w' _ S O' U' V') as S'. destruct (running a) eqn:Er; simpl in *; simplify_eq.
      * destruct (decide (objects a = ∅)) as [Ho|Ho]; simplify_eq.
        -- by rewrite bool_decide_true in S' by by apply He.
        -- rewrite bool_decide_false in S' by by rewrite He. by rewrite set_running_id in S'.
      * by rewrite set_running_id in S'.
  - simplify_eq. unfold on_backend. rewrite (law_state _ _ Ow), Hu. simpl. eexists. split; [done|]. by destruct s.
  - pose proof (law_new _ (backend s) c Ow) as L. destruct (constructed lim c) as [[x|e]|]; [| |done]; simpl in E.
    + unfold create in E. rewrite Hu in L. unfold mtry, mbind_, on_backend. destruct (running a) eqn:Er; simpl in E.
      * destruct (_ <? _) eqn:Hm; simplify_eq. bool_to_prop. destruct (sm_corr _ _ S) as (φ & C & _).
        destruct L as (rf & w' & Eb & O' & U' & Hf & V'); [by rewrite (co_size _ _ _ C)|]. rewrite Eb. simpl.
        rewrite (sm_next _ _ S). eexists. split; [done|].
        pose proof (sim_new a s x rf w' S Hf O' ltac:(by rewrite U', Hu) V') as S'. by rewrite Er, (sm_next _ _ S) in S'.
      * simplify_eq. rewrite L. simpl. eexists. split; [done|]. by destruct s.
    + simplify_eq. unfold mtry, mbind_, on_backend. rewrite L. simpl. eexists. split; [done|]. by destruct s.
  - destruct (spend lim (queue_cost c) a) as [a1|] eqn:Ep; [|done]. simpl in E. destruct (sim_spend _ _ _ _ S Ep) as [S1 O1].
    destruct (lookup h a1) as [[[o x] n]|] eqn:El; [|done]. simpl in E. destruct x as [q| |]; try done.
    destruct (queue_step lim c q) as [[r' q']|] eqn:Es; simplify_eq/=.
    eapply sim_object_call; [done..|]. intros rf Hv. by apply (law_queue _ _ c _ _ q).
  - destruct (spend lim (semaphore_cost c) a) as [a1|] eqn:Ep; [|done]. simpl in E. destruct (sim_spend _ _ _ _ S Ep) as [S1 O1].
    destruct (lookup h a1) as [[[o x] n]|] eqn:El; [|done]. simpl in E. destruct x as [|m i|]; try done.
    destruct (semaphore_step lim c m i) as [[r' i']|] eqn:Es; simplify_eq/=.
    eapply sim_object_call; [done..|]. intros rf Hv. by apply (law_semaphore _ _ c _ _ m i).
  - destruct (spend lim (mutex_cost c) a) as [a1|] eqn:Ep; [|done]. simpl in E. destruct (sim_spend _ _ _ _ S Ep) as [S1 O1].
    destruct (lookup h a1) as [[[o x] n]|] eqn:El; [|done]. simpl in E. destruct x as [| |v b]; try done.
    destruct (mutex_step lim c v b) as [[[r' v'] b']|] eqn:Es; simplify_eq/=.
    eapply sim_object_call; [done..|]. intros rf Hv. by apply (law_mutex _ _ c _ _ v b).
Qed.

(** A backend with a runtime that is down and no objects. *)
Definition initial (w : W) : Prop := bok (max_waits lim) w ∧ up w = false ∧ view w = ∅.

Lemma sim_initial w : initial w → sim Spec.start (mkState w ∅ 0).
Proof.
  intros (O & U & V). split; simpl; try done.
  - unfold budget. simpl. by rewrite Nat.sub_0_r.
  - intros o. rewrite lookup_empty. by intros [].
  - exists (λ _, 0). rewrite V. split; [|intros h; by rewrite !lookup_empty]. split.
    + intros o o' [x Hx]. by rewrite lookup_empty in Hx.
    + intros o x. by rewrite lookup_empty.
    + done.
Qed.

Lemma sim_run {A} (p : prog A) : ∀ a s r a', sim a s → run lim p a = Some (r, a') →
  ∃ s', run_on p s = Done (r, s') ∧ sim a' s'.
Proof.
  induction p as [x|R o k IH|msg]; intros a s r a' S E; simpl in E; [simplify_eq; by exists s| |done].
  destruct (step lim o a) as [[r1 a1]|] eqn:Es; [|done]. simpl in E.
  destruct (sim_step o a s r1 a1 S Es) as (s1 & E1 & S1). destruct (IH r1 a1 s1 r a' S1 E) as (s2 & E2 & S2).
  exists s2. split; [|done]. simpl. unfold mbind_. by rewrite E1.
Qed.

(** On every backend that keeps the laws, from its initial state, a
    client program of any length that the specification runs to its end, with all
    its assertions, does not panic and gets the same result; afterwards the
    backend has the objects and handles of the specification, no more and no
    less, and its runtime is in the same state. *)
Lemma client_refinement {A} (p : prog A) w r a : initial w → run lim p start = Some (r, a) →
  ∃ s, run_on p (mkState w ∅ 0) = Done (r, s) ∧ up (backend s) = running a ∧
    size (view (backend s)) = size (objects a) ∧
    ∀ h o x n, handles a !! h = Some o → objects a !! o = Some (x, n) →
      ∃ rf, refs s !! h = Some rf ∧ view (backend s) !! rf = Some (x, n).
Proof.
  intros I E. destruct (sim_run p _ _ _ _ (sim_initial w I) E) as (s & Er & S). exists s.
  destruct (sm_corr _ _ S) as (φ & C & Hr). split; [done|].
  split; [exact (sm_up _ _ S)|]. split; [exact (co_size _ _ _ C)|].
  intros h o x n Hh Ho. exists (φ o). rewrite Hr, Hh. split; [done|]. exact (co_view _ _ _ C _ _ Ho).
Qed.

End ClientRun.
End ClientRun.
