(* ===== verification/Contract.v ===== *)
(** * The contract suite

    [crates/osal-testkit/src/contract]: the core contracts of queues, handle
    lifetimes, semaphores, mutexes and the runtime, as client programs.  A handle
    that goes out of scope is dropped.

    The specification passes them; [Portable] has them on the backends. *)

From S2P Require Import Prelude Api Buffers Client.
Import Client Spec.

Open Scope prog_scope.

#[local] Instance u8_eq_dec : EqDecision u8 := Byte.byte_eq_dec.

(** The bytes of the tests. *)
Definition b (n : nat) : u8 := default Byte.x00 (Byte.of_nat n).

(** [assert!(matches!(result, Err(e)))], [assert_eq!] *)
Definition assert_err {R} (o : op (Result R)) (e : Error.t) : prog () :=
  r <~ call o ;; assert (match r with Err e' => Error.eqb e' e | Ok _ => false end).
Definition assert_eq (m : prog Z) (n : Z) : prog () := x <~ m ;; assert (x =? n).
Definition assert_bool (m : prog (Result bool)) (v : bool) : prog () :=
  r <~ m ;; assert (match r with Ok x => Bool.eqb x v | Err _ => false end).
Definition ignore {R} (o : op R) : prog () := _ <~ call o ;; Ret ().

(** The end of a scope. *)
Definition drop (h : handle) : prog () := call (DropHandle h).

(** ** Queues: [contract/queue] *)

Module QueueContract.

Definition create_queue (c m : Z) : prog handle := unwrap (New (NewQueue c m)).
Definition send (q : handle) (d : list u8) : prog () := unwrap (OnQueue q (Send d Timeout.NoWait)).
Definition close (q : handle) : prog () := unwrap (OnQueue q Close).
(** [q.recv(&mut buf, NoWait).unwrap()], with the buffer *)
Definition recv (q : handle) (buf : list u8) : prog (list u8) :=
  r <~ call (OnQueue q (Recv buf Timeout.NoWait)) ;;
  match fst r with Ok _ => Ret (snd r) | Err _ => Fail "called Result::unwrap() on an Err value" end.
Definition assert_buf (buf expected : list u8) : prog () := assert (bool_decide (buf = expected)).
Definition assert_recv_err (q : handle) (buf : list u8) (t : Timeout.t) (e : Error.t) : prog () :=
  r <~ call (OnQueue q (Recv buf t)) ;; assert (match fst r with Err e' => Error.eqb e' e | Ok _ => false end).
Definition zeros (n : nat) : list u8 := replicate n Byte.x00.
Definition ten_ms : Timeout.t := Timeout.After (Duration.from_millis 10).

(** [creation.rs] *)
Definition create_valid : prog () :=
  q <~ create_queue 8 4 ;;
  assert_eq (call (OnQueue q Capacity)) 8 ;~
  assert_eq (call (OnQueue q MsgSize)) 4 ;~
  assert_eq (unwrap (OnQueue q Len)) 0 ;~
  assert_bool (is_empty q) true ;~
  assert_bool (is_full q) false ;~
  drop q.
Definition reject_zero_capacity : prog () := assert_err (New (NewQueue 0 4)) Error.InvalidParameter.
Definition reject_zero_msg_size : prog () := assert_err (New (NewQueue 8 0)) Error.InvalidParameter.

(** [fifo.rs] *)
Definition send_recv_roundtrip : prog () :=
  q <~ create_queue 4 4 ;;
  send q [b 1; b 2; b 3; b 4] ;~
  buf <~ recv q (zeros 4) ;;
  assert_buf buf [b 1; b 2; b 3; b 4] ;~
  drop q.
Definition fifo_order : prog () :=
  q <~ create_queue 4 2 ;;
  send q [b 1; b 2] ;~
  send q [b 3; b 4] ;~
  buf <~ recv q (zeros 2) ;;
  assert_buf buf [b 1; b 2] ;~
  buf <~ recv q buf ;;
  assert_buf buf [b 3; b 4] ;~
  drop q.
Definition send_full_no_wait : prog () :=
  q <~ create_queue 1 1 ;;
  send q [b 42] ;~
  assert_err (OnQueue q (Send [b 99] Timeout.NoWait)) Error.QueueFull ;~
  drop q.
Definition recv_empty_no_wait : prog () :=
  q <~ create_queue 4 2 ;;
  assert_recv_err q (zeros 2) Timeout.NoWait Error.QueueEmpty ;~
  drop q.

(** [error_precedence.rs] *)
Definition send_wrong_size : prog () :=
  q <~ create_queue 4 4 ;;
  assert_err (OnQueue q (Send [b 1; b 2] Timeout.NoWait)) Error.InvalidMessageSize ;~
  drop q.
Definition recv_wrong_size : prog () :=
  q <~ create_queue 4 2 ;;
  send q [b 1; b 2] ;~
  assert_recv_err q (zeros 4) Timeout.NoWait Error.InvalidMessageSize ;~
  drop q.
Definition closed_queue_wrong_send_size : prog () :=
  q <~ create_queue 4 4 ;;
  close q ;~
  assert_err (OnQueue q (Send [b 1; b 2] Timeout.NoWait)) Error.InvalidMessageSize ;~
  drop q.
Definition closed_queue_wrong_recv_size : prog () :=
  q <~ create_queue 4 4 ;;
  close q ;~
  assert_recv_err q (zeros 2) Timeout.NoWait Error.InvalidMessageSize ;~
  drop q.

(** [close.rs] *)
Definition send_after_close : prog () :=
  q <~ create_queue 4 2 ;;
  close q ;~
  assert_err (OnQueue q (Send [b 1; b 2] Timeout.NoWait)) Error.QueueClosed ;~
  drop q.
Definition recv_empty_after_close : prog () :=
  q <~ create_queue 4 2 ;;
  close q ;~
  assert_recv_err q (zeros 2) Timeout.NoWait Error.QueueClosed ;~
  drop q.
Definition recv_drains_after_close : prog () :=
  q <~ create_queue 4 2 ;;
  send q [b 1; b 2] ;~
  send q [b 3; b 4] ;~
  close q ;~
  buf <~ recv q (zeros 2) ;;
  assert_buf buf [b 1; b 2] ;~
  buf <~ recv q buf ;;
  assert_buf buf [b 3; b 4] ;~
  assert_recv_err q buf Timeout.NoWait Error.QueueClosed ;~
  drop q.
Definition close_idempotent : prog () := q <~ create_queue 4 2 ;; close q ;~ close q ;~ drop q.
Definition metadata_after_close : prog () :=
  q <~ create_queue 4 2 ;;
  send q [b 1; b 2] ;~
  close q ;~
  assert_eq (call (OnQueue q Capacity)) 4 ;~
  assert_eq (call (OnQueue q MsgSize)) 2 ;~
  assert_eq (unwrap (OnQueue q Len)) 1 ;~
  assert_bool (is_empty q) false ;~
  assert_bool (is_full q) false ;~
  drop q.

(** [timeout.rs] *)
Definition send_timeout_when_full : prog () :=
  q <~ create_queue 1 1 ;;
  send q [b 42] ;~
  assert_err (OnQueue q (Send [b 99] ten_ms)) Error.Timeout ;~
  drop q.
Definition recv_timeout : prog () :=
  q <~ create_queue 4 2 ;;
  assert_recv_err q (zeros 2) ten_ms Error.Timeout ;~
  drop q.

(** [run] of each file, and [run_core_contracts] *)
Definition creation_run : prog () := create_valid ;~ reject_zero_capacity ;~ reject_zero_msg_size.
Definition fifo_run : prog () := send_recv_roundtrip ;~ fifo_order ;~ send_full_no_wait ;~ recv_empty_no_wait.
Definition error_precedence_run : prog () :=
  send_wrong_size ;~ recv_wrong_size ;~ closed_queue_wrong_send_size ;~ closed_queue_wrong_recv_size.
Definition close_run : prog () :=
  send_after_close ;~ recv_empty_after_close ;~ recv_drains_after_close ;~ close_idempotent ;~ metadata_after_close.
Definition timeout_run : prog () := send_timeout_when_full ;~ recv_timeout.
Definition run_core_contracts : prog () :=
  creation_run ;~ fifo_run ;~ error_precedence_run ;~ close_run ;~ timeout_run.

(** [contract/lifetime.rs] *)
Definition clone_handle_shares_state : prog () :=
  q1 <~ create_queue 4 2 ;;
  q2 <~ call (CloneHandle q1) ;;
  send q1 [b 1; b 2] ;~
  out <~ recv q2 (zeros 2) ;;
  assert_buf out [b 1; b 2] ;~
  drop q2 ;~ drop q1.
Definition drop_clone_keeps_object_alive : prog () :=
  q1 <~ create_queue 4 2 ;;
  q2 <~ call (CloneHandle q1) ;;
  send q1 [b 1; b 2] ;~
  drop q1 ;~
  out <~ recv q2 (zeros 2) ;;
  assert_buf out [b 1; b 2] ;~
  drop q2.
Definition close_affects_all_clones : prog () :=
  q1 <~ create_queue 4 2 ;;
  q2 <~ call (CloneHandle q1) ;;
  close q1 ;~
  assert_err (OnQueue q2 (Send [b 1; b 2] Timeout.NoWait)) Error.QueueClosed ;~
  drop q2 ;~ drop q1.
Definition run_clone_contracts : prog () :=
  clone_handle_shares_state ;~ drop_clone_keeps_object_alive ;~ close_affects_all_clones.

End QueueContract.

(** ** Semaphores: [contract/semaphore.rs] *)

Module SemaphoreContract.

Definition create_counting (m i : Z) : prog handle := unwrap (New (NewSemaphore m i)).
Definition create_binary : prog handle := unwrap (New NewBinary).
Definition acquire (s : handle) (t : Timeout.t) : prog () := unwrap (OnSemaphore s (Acquire t)).
Definition release (s : handle) : prog () := unwrap (OnSemaphore s Release).
Definition assert_count (s : handle) (n : Z) : prog () := assert_eq (unwrap (OnSemaphore s Count)) n.
Definition after_zero : Timeout.t := Timeout.After Duration.ZERO.

Definition counting_create_valid : prog () :=
  sem <~ create_counting 5 2 ;;
  assert_eq (call (OnSemaphore sem MaxCount)) 5 ;~
  assert_count sem 2 ;~
  drop sem.
Definition counting_reject_max_zero : prog () := assert_err (New (NewSemaphore 0 0)) Error.InvalidParameter.
Definition counting_reject_initial_gt_max : prog () := assert_err (New (NewSemaphore 3 5)) Error.InvalidParameter.
Definition counting_max_count_is_fixed : prog () :=
  sem <~ create_counting 5 3 ;;
  acquire sem Timeout.NoWait ;~
  release sem ;~
  assert_eq (call (OnSemaphore sem MaxCount)) 5 ;~
  drop sem.
Definition counting_acquire_decrements : prog () :=
  sem <~ create_counting 5 3 ;;
  acquire sem Timeout.NoWait ;~
  assert_count sem 2 ;~
  drop sem.
Definition counting_release_increments : prog () :=
  sem <~ create_counting 5 0 ;;
  release sem ;~
  assert_count sem 1 ;~
  drop sem.
Definition counting_release_at_max_overflows : prog () :=
  sem <~ create_counting 1 1 ;;
  assert_err (OnSemaphore sem Release) Error.Overflow ;~
  drop sem.
Definition counting_overflow_preserves_count : prog () :=
  sem <~ create_counting 2 2 ;;
  ignore (OnSemaphore sem Release) ;~
  assert_count sem 2 ;~
  drop sem.
Definition counting_empty_no_wait_times_out : prog () :=
  sem <~ create_counting 3 0 ;;
  assert_err (OnSemaphore sem (Acquire Timeout.NoWait)) Error.Timeout ;~
  drop sem.
Definition counting_empty_after_zero_times_out : prog () :=
  sem <~ create_counting 3 0 ;;
  assert_err (OnSemaphore sem (Acquire after_zero)) Error.Timeout ;~
  drop sem.
Definition counting_available_after_zero_succeeds : prog () :=
  sem <~ create_counting 3 1 ;;
  acquire sem after_zero ;~
  assert_count sem 0 ;~
  drop sem.
Definition counting_failed_acquire_preserves_count : prog () :=
  sem <~ create_counting 3 1 ;;
  ignore (OnSemaphore sem (Acquire (Timeout.After (Duration.from_millis 10)))) ;~
  assert_count sem 0 ;~
  drop sem.
Definition counting_clone_shares_state : prog () :=
  s1 <~ create_counting 3 1 ;;
  s2 <~ call (CloneHandle s1) ;;
  acquire s2 Timeout.NoWait ;~
  assert_count s1 0 ;~
  assert_count s2 0 ;~
  drop s2 ;~ drop s1.
Definition counting_drop_one_clone_preserves_resource : prog () :=
  s1 <~ create_counting 3 1 ;;
  s2 <~ call (CloneHandle s1) ;;
  drop s1 ;~
  acquire s2 Timeout.NoWait ;~
  assert_count s2 0 ;~
  drop s2.

Definition binary_create_unsignaled : prog () :=
  sem <~ create_binary ;;
  assert_bool (is_signaled sem) false ;~
  drop sem.
Definition binary_release_signals : prog () :=
  sem <~ create_binary ;;
  release sem ;~
  assert_bool (is_signaled sem) true ;~
  drop sem.
Definition binary_acquire_clears_signal : prog () :=
  sem <~ create_binary ;;
  release sem ;~
  acquire sem Timeout.NoWait ;~
  assert_bool (is_signaled sem) false ;~
  drop sem.
Definition binary_double_release_overflows : prog () :=
  sem <~ create_binary ;;
  release sem ;~
  assert_err (OnSemaphore sem Release) Error.Overflow ;~
  drop sem.
Definition binary_overflow_preserves_signal : prog () :=
  sem <~ create_binary ;;
  release sem ;~
  ignore (OnSemaphore sem Release) ;~
  assert_bool (is_signaled sem) true ;~
  drop sem.
Definition binary_empty_no_wait_times_out : prog () :=
  sem <~ create_binary ;;
  assert_err (OnSemaphore sem (Acquire Timeout.NoWait)) Error.Timeout ;~
  drop sem.
Definition binary_empty_after_zero_times_out : prog () :=
  sem <~ create_binary ;;
  assert_err (OnSemaphore sem (Acquire after_zero)) Error.Timeout ;~
  drop sem.
Definition binary_clone_shares_state : prog () :=
  s1 <~ create_binary ;;
  s2 <~ call (CloneHandle s1) ;;
  release s2 ;~
  assert_bool (is_signaled s1) true ;~
  drop s2 ;~ drop s1.
Definition binary_drop_one_clone_preserves_resource : prog () :=
  s1 <~ create_binary ;;
  s2 <~ call (CloneHandle s1) ;;
  drop s1 ;~
  release s2 ;~
  assert_bool (is_signaled s2) true ;~
  drop s2.

Definition run_counting_core_contracts : prog () :=
  counting_create_valid ;~ counting_reject_max_zero ;~ counting_reject_initial_gt_max ;~
  counting_max_count_is_fixed ;~ counting_acquire_decrements ;~ counting_release_increments ;~
  counting_release_at_max_overflows ;~ counting_overflow_preserves_count ;~
  counting_empty_no_wait_times_out ;~ counting_empty_after_zero_times_out ;~
  counting_available_after_zero_succeeds ;~ counting_failed_acquire_preserves_count ;~
  counting_clone_shares_state ;~ counting_drop_one_clone_preserves_resource.
Definition run_binary_core_contracts : prog () :=
  binary_create_unsignaled ;~ binary_release_signals ;~ binary_acquire_clears_signal ;~
  binary_double_release_overflows ;~ binary_overflow_preserves_signal ;~
  binary_empty_no_wait_times_out ;~ binary_empty_after_zero_times_out ;~
  binary_clone_shares_state ;~ binary_drop_one_clone_preserves_resource.
Definition run_all : prog () := run_counting_core_contracts ;~ run_binary_core_contracts.

End SemaphoreContract.

(** ** Mutexes: [contract/mutex.rs] *)

Module MutexContract.

Definition create_mutex (v : Z) : prog handle := unwrap (New (NewMutex v)).
Definition lock (m : handle) (t : Timeout.t) : prog () := unwrap (OnMutex m (Lock t)).
Definition deref (m : handle) : prog Z := call (OnMutex m GuardRead).
Definition deref_mut (m : handle) (v : Z) : prog () := call (OnMutex m (GuardWrite v)).
(** A guard goes out of scope. *)
Definition drop_guard (m : handle) : prog () := call (OnMutex m GuardDrop).

Definition create : prog () :=
  m <~ create_mutex 42 ;;
  lock m Timeout.NoWait ;~
  assert_eq (deref m) 42 ;~
  drop_guard m ;~ drop m.
Definition lock_unlock : prog () :=
  m <~ create_mutex 42 ;;
  lock m Timeout.NoWait ;~
  assert_eq (deref m) 42 ;~
  drop_guard m ;~
  lock m Timeout.NoWait ;~
  drop_guard m ;~ drop m.
Definition guard_deref_mut : prog () :=
  m <~ create_mutex 0 ;;
  lock m Timeout.NoWait ;~
  v <~ deref m ;;
  deref_mut m (v + 1) ;~
  assert_eq (deref m) 1 ;~
  drop_guard m ;~
  lock m Timeout.NoWait ;~
  assert_eq (deref m) 1 ;~
  drop_guard m ;~ drop m.
Definition lock_forever : prog () :=
  m <~ create_mutex 0 ;;
  lock m Timeout.Forever ;~
  assert_eq (deref m) 0 ;~
  drop_guard m ;~ drop m.
Definition lock_no_wait : prog () :=
  m <~ create_mutex 100 ;;
  lock m Timeout.NoWait ;~
  assert_eq (deref m) 100 ;~
  drop_guard m ;~ drop m.
Definition no_second_guard : prog () :=
  m <~ create_mutex 0 ;;
  lock m Timeout.NoWait ;~
  assert_err (OnMutex m (Lock Timeout.NoWait)) Error.LockFailed ;~
  drop_guard m ;~ drop m.
Definition clone_shares_state : prog () :=
  m1 <~ create_mutex 0 ;;
  m2 <~ call (CloneHandle m1) ;;
  lock m1 Timeout.NoWait ;~
  deref_mut m1 99 ;~
  drop_guard m1 ;~
  lock m2 Timeout.NoWait ;~
  assert_eq (deref m2) 99 ;~
  drop_guard m2 ;~ drop m2 ;~ drop m1.
Definition drop_clone_keeps_alive : prog () :=
  m1 <~ create_mutex 0 ;;
  m2 <~ call (CloneHandle m1) ;;
  lock m1 Timeout.NoWait ;~
  deref_mut m1 55 ;~
  drop_guard m1 ;~
  drop m1 ;~
  lock m2 Timeout.NoWait ;~
  assert_eq (deref m2) 55 ;~
  drop_guard m2 ;~ drop m2.

Definition run_core_contracts : prog () :=
  create ;~ lock_unlock ;~ guard_deref_mut ;~ lock_forever ;~ lock_no_wait ;~
  no_second_guard ;~ clone_shares_state ;~ drop_clone_keeps_alive.

End MutexContract.

(** ** The runtime: [contract/runtime.rs] *)

Module RuntimeContract.

Definition assert_state (s : RuntimeState.t) : prog () :=
  s' <~ call State ;; assert (bool_decide (s' = s)).

Definition initial_state_is_uninitialized : prog () :=
  ignore Shutdown ;~
  assert_state RuntimeState.Uninitialized.
Definition initialize_enters_running : prog () :=
  ignore Initialize ;~
  ignore Shutdown ;~
  unwrap Initialize ;~
  assert_state RuntimeState.Running ;~
  unwrap Shutdown.
Definition repeated_initialize_returns_already_initialized : prog () :=
  ignore Initialize ;~
  ignore Shutdown ;~
  unwrap Initialize ;~
  assert_err Initialize Error.AlreadyInitialized ;~
  assert_state RuntimeState.Running ;~
  unwrap Shutdown.
Definition shutdown_returns_to_uninitialized : prog () :=
  ignore Initialize ;~
  ignore Shutdown ;~
  unwrap Initialize ;~
  unwrap Shutdown ;~
  assert_state RuntimeState.Uninitialized.
Definition shutdown_before_initialize_returns_not_initialized : prog () :=
  ignore Initialize ;~
  ignore Shutdown ;~
  assert_err Shutdown Error.NotInitialized.
Definition runtime_can_reinitialize : prog () :=
  ignore Initialize ;~
  ignore Shutdown ;~
  unwrap Initialize ;~
  assert_state RuntimeState.Running ;~
  unwrap Shutdown.

Definition run_core_contracts : prog () :=
  initial_state_is_uninitialized ;~ initialize_enters_running ;~
  repeated_initialize_returns_already_initialized ;~ shutdown_returns_to_uninitialized ;~
  shutdown_before_initialize_returns_not_initialized ;~ runtime_can_reinitialize.

End RuntimeContract.

(** ** The suite *)

Module Suite.

(** The suites with the object contracts, each in a runtime of its own
    ([tests] of the backends). *)
Definition with_runtime (p : prog ()) : prog () := unwrap Initialize ;~ p ;~ unwrap Shutdown.
Definition suite : prog () :=
  RuntimeContract.run_core_contracts ;~
  with_runtime QueueContract.run_core_contracts ;~
  with_runtime QueueContract.run_clone_contracts ;~
  with_runtime SemaphoreContract.run_all ;~
  with_runtime MutexContract.run_core_contracts.

(** What the suite needs at once: one object, two handles to it, 32 bytes, and
    waits of less than a second. *)
Definition needs : limits := mkLimits 1 2 32 0 100.
Definition covers (l l' : limits) : Prop :=
  max_objects l ≤ max_objects l' ∧ max_handles l ≤ max_handles l' ∧ max_bytes l ≤ max_bytes l' ∧ max_wait l ≤ max_wait l' ∧
  (max_waits l ≤ max_waits l')%nat.

(** A program that runs within some limits runs alike within larger ones. *)
Lemma constructed_mono l l' c r : covers l l' → constructed l c = Some r → constructed l' c = Some r.
Proof.
  intros (_ & _ & Hb & _). destruct c; simpl; try done. do 2 (case_match; [done|]).
  destruct (_ <=? max_bytes l) eqn:E; [|done]. bool_to_prop. intros [= <-].
  by rewrite (proj2 (Z.leb_le _ _)) by lia.
Qed.

Lemma prompt_mono l l' t : covers l l' → prompt l t = true → prompt l' t = true.
Proof.
  intros (_ & _ & _ & Hw & _). destruct t as [|d|]; simpl; try done. rewrite !andb_true_iff, !Z.leb_le. intros [? ?]. split; [done|lia].
Qed.

Lemma timed_mono l l' {A} t e (r : Result A) r' : covers l l' → timed l t e r = Some r' → timed l' t e r = Some r'.
Proof.
  intros Hc. unfold timed. destruct (prompt l t) eqn:E; [|done]. by rewrite (prompt_mono l l' t Hc E).
Qed.

Lemma queue_step_mono l l' {R} (c : queue_call R) q r : covers l l' → queue_step l c q = Some r → queue_step l' c q = Some r.
Proof.
  intros Hc. destruct c as [d t|b t| | | |]; simpl; try done.
  - destruct (Fifo.send q d) as [x q']. destruct (timed l t _ x) as [y|] eqn:E; [|done]. by rewrite (timed_mono l l' _ _ _ y Hc E).
  - destruct (Fifo.recv q b) as [x [q' b']]. destruct (timed l t _ _) as [y|] eqn:E; [|done]. by rewrite (timed_mono l l' _ _ _ y Hc E).
Qed.
Lemma semaphore_step_mono l l' {R} (c : semaphore_call R) m n r : covers l l' →
  semaphore_step l c m n = Some r → semaphore_step l' c m n = Some r.
Proof.
  intros Hc. destruct c as [t| | |]; simpl; try done. destruct (prompt l t) eqn:E; [|done]. by rewrite (prompt_mono l l' t Hc E).
Qed.
Lemma mutex_step_mono l l' {R} (c : mutex_call R) v x r : covers l l' →
  mutex_step l c v x = Some r → mutex_step l' c v x = Some r.
Proof.
  intros Hc. destruct c as [t| | |]; simpl; try done. destruct (prompt l t) eqn:E; [|done]. by rewrite (prompt_mono l l' t Hc E).
Qed.

(** The operations keep the size of a queue. *)
Lemma queue_step_shape l {R} (c : queue_call R) q r q' : queue_step l c q = Some (r, q') →
  Fifo.bound q' = Fifo.bound q ∧ Fifo.msg_len q' = Fifo.msg_len q.
Proof.
  destruct c as [d t|b t| | | |]; simpl; intros E; try by simplify_eq.
  - destruct (Fifo.send q d) as [x y] eqn:Es. destruct (timed l t _ x); simplify_eq/=. unfold Fifo.send in Es.
    repeat case_match; by simplify_eq.
  - destruct (Fifo.recv q b) as [x [y z]] eqn:Es. destruct (timed l t _ _); simplify_eq/=. unfold Fifo.recv in Es.
    repeat case_match; by simplify_eq.
Qed.

Lemma spend_mono l l' k w w' : covers l l' → spend l k w = Some w' → spend l' k w = Some w'.
Proof.
  intros (_ & _ & _ & _ & Hn). unfold spend. destruct (_ <=? max_waits l)%nat eqn:E; [|done]. apply Nat.leb_le in E.
  by rewrite (proj2 (Nat.leb_le _ _)) by lia.
Qed.

Lemma step_mono l l' {R} (o : op R) w r : covers l l' → step l o w = Some r → step l' o w = Some r.
Proof.
  intros Hc. pose proof Hc as (Ho & Hh & Hb & _). destruct o as [| | |c|R h c|R h c|R h c|h|h]; simpl; try done.
  - destruct (constructed l c) as [x|] eqn:E; [|done]. rewrite (constructed_mono l l' c x Hc E). simpl.
    destruct x as [x|e]; [|done]. unfold create. case_match; [done|]. destruct (_ <? max_objects l) eqn:E'; [|done].
    bool_to_prop. by rewrite (proj2 (Z.ltb_lt _ _)) by lia.
  - destruct (spend l _ w) as [w1|] eqn:Ep; [|done]. rewrite (spend_mono l l' _ w w1 Hc Ep). simpl.
    destruct (lookup h w1) as [[[o x] n]|]; [|done]. simpl. destruct x as [q| |]; try done.
    destruct (queue_step l c q) as [[y q']|] eqn:E; [|done]. by rewrite (queue_step_mono l l' c q _ Hc E).
  - destruct (spend l _ w) as [w1|] eqn:Ep; [|done]. rewrite (spend_mono l l' _ w w1 Hc Ep). simpl.
    destruct (lookup h w1) as [[[o x] n]|]; [|done]. simpl. destruct x as [|m i|]; try done.
    destruct (semaphore_step l c m i) as [[y i']|] eqn:E; [|done]. by rewrite (semaphore_step_mono l l' c m i _ Hc E).
  - destruct (spend l _ w) as [w1|] eqn:Ep; [|done]. rewrite (spend_mono l l' _ w w1 Hc Ep). simpl.
    destruct (lookup h w1) as [[[o x] n]|]; [|done]. simpl. destruct x as [| |v b]; try done.
    destruct (mutex_step l c v b) as [[[y v'] b']|] eqn:E; [|done]. by rewrite (mutex_step_mono l l' c v b _ Hc E).
  - destruct (lookup h w) as [[[o x] n]|]; [|done]. simpl. destruct (_ <? max_handles l) eqn:E; [|done].
    bool_to_prop. by rewrite (proj2 (Z.ltb_lt _ _)) by lia.
Qed.

Lemma run_mono l l' {A} (p : prog A) : covers l l' → ∀ w r, run l p w = Some r → run l' p w = Some r.
Proof.
  intros Hc. induction p as [x|R o k IH|msg]; intros w r E; simpl in *; [done| |done].
  destruct (step l o w) as [[r1 w1]|] eqn:Es; [|done]. rewrite (step_mono l l' o w _ Hc Es). simpl in *. by apply IH.
Qed.

(** The specification passes the suite. *)
Lemma spec_passes : ∃ w, run needs suite start = Some ((), w) ∧ running w = false ∧ objects w = ∅.
Proof. eexists. split; [vm_compute; reflexivity|]. done. Qed.

End Suite.

(** ** Two backends *)

Module Agreement.
Section Agreement.
Context {W W' : Type} {B : Backend W} {B' : Backend W'} (L : @BackendLaws W B) (L' : @BackendLaws W' B').

(** A program of the specification ends the same way on both: the same result, the
    runtimes in the same state, the same objects behind the same handles. *)
Lemma backends_agree {A} (p : prog A) l r a w w' : Suite.covers l (@lim _ _ L) → Suite.covers l (@lim _ _ L') →
  ClientRun.initial (BackendLaws0:=L) w → ClientRun.initial (BackendLaws0:=L') w' → Spec.run l p Spec.start = Some (r, a) →
  ∃ s s', ClientRun.run_on (Backend0:=B) p (ClientRun.mkState w ∅ 0) = Done (r, s) ∧
    ClientRun.run_on (Backend0:=B') p (ClientRun.mkState w' ∅ 0) = Done (r, s') ∧
    @up _ _ L (ClientRun.backend s) = @up _ _ L' (ClientRun.backend s') ∧
    size (@view _ _ L (ClientRun.backend s)) = size (@view _ _ L' (ClientRun.backend s')) ∧
    ∀ h o x n, Spec.handles a !! h = Some o → Spec.objects a !! o = Some (x, n) →
      ∃ rf rf', ClientRun.refs s !! h = Some rf ∧ @view _ _ L (ClientRun.backend s) !! rf = Some (x, n) ∧
        ClientRun.refs s' !! h = Some rf' ∧ @view _ _ L' (ClientRun.backend s') !! rf' = Some (x, n).
Proof.
  intros C C' I I' E. pose proof (Suite.run_mono l _ p C _ _ E) as E1. pose proof (Suite.run_mono l _ p C' _ _ E) as E2.
  destruct (ClientRun.sim_run (BackendLaws0:=L) p _ _ _ _ (ClientRun.sim_initial _ I) E1) as (s & Er & S).
  destruct (ClientRun.sim_run (BackendLaws0:=L') p _ _ _ _ (ClientRun.sim_initial _ I') E2) as (s' & Er' & S').
  exists s, s'. split; [exact Er|]. split; [exact Er'|].
  destruct (ClientRun.sm_corr _ _ S) as (φ & Co & R), (ClientRun.sm_corr _ _ S') as (φ' & Co' & R'). split; [|split].
  - rewrite (ClientRun.sm_up _ _ S), (ClientRun.sm_up _ _ S'). done.
  - rewrite (ClientRun.co_size _ _ _ Co), (ClientRun.co_size _ _ _ Co'). done.
  - intros h o x n Hh Ho. exists (φ o), (φ' o). rewrite R, R', Hh. split; [done|]. split; [exact (ClientRun.co_view _ _ _ Co _ _ Ho)|].
    split; [done|]. exact (ClientRun.co_view _ _ _ Co' _ _ Ho).
Qed.

End Agreement.
End Agreement.
