(* ===== verification/MockClient.v ===== *)
(** * The mock backend as an implementation of the object API

    [MockClient] discharges the laws of [Client] for the mock backend
    ([crates/osal-backend-mock]), so that client programs and the contract suite
    behave on it as specified. *)

From S2P Require Import Prelude Api Buffers Runtime MockTime Mock Client Contract.
Import MockState.

Module MockClient.
Section MockClient.
Context `{Arch}.

(** Memory is available: the mock backend's queue buffers are the only allocation
    that can fail. *)
Definition alloc : Z → bool := λ _, true.

Definition new (c : Client.constructor) : M sys (Result Z) :=
  match c with
  | Client.NewQueue c m => MockQueue.new alloc c m
  | Client.NewSemaphore m i => MockSemaphore.new m i
  | Client.NewBinary => MockSemaphore.binary_new
  | Client.NewMutex v => MockMutex.new v
  end.
Definition queue {R} (r : Z) (c : Client.queue_call R) : M sys R :=
  match c in Client.queue_call R return M sys R with
  | Client.Send d t => MockQueue.send r d t
  | Client.Recv b t => MockQueue.recv r b t
  | Client.Close => MockQueue.close r
  | Client.Capacity => MockQueue.capacity r
  | Client.MsgSize => MockQueue.msg_size r
  | Client.Len => MockQueue.len r
  end.
Definition semaphore {R} (r : Z) (c : Client.semaphore_call R) : M sys R :=
  match c in Client.semaphore_call R return M sys R with
  | Client.Acquire t => MockSemaphore.acquire r t
  | Client.Release => MockSemaphore.release r
  | Client.MaxCount => MockSemaphore.max_count r
  | Client.Count => MockSemaphore.count r
  end.
Definition mutex {R} (r : Z) (c : Client.mutex_call R) : M sys R :=
  match c in Client.mutex_call R return M sys R with
  | Client.Lock t => MockMutex.lock r t
  | Client.GuardRead => MockMutex.guard_read r
  | Client.GuardWrite v => MockMutex.guard_write r v
  | Client.GuardDrop => MockMutex.guard_drop r
  end.

#[export] Instance mock_backend : Backend sys := {|
  b_initialize := MockRuntime.initialize;
  b_shutdown := MockRuntime.shutdown;
  b_state := MockRuntime.state;
  b_new := new;
  b_queue := @queue;
  b_semaphore := @semaphore;
  b_mutex := @mutex;
  b_clone := MockHandle.clone;
  b_drop := MockHandle.drop;
|}.

(** ** The abstract view *)

(** Tasks and timers have no part in the object API; [ok] excludes them. *)
Definition abstract (o : obj) : Spec.aobj :=
  match o with
  | OQueue b _ => Spec.AQueue (ByteQueueFacts.abs b)
  | OSemaphore x => Spec.ASemaphore (CountingSemaphoreState.max_count x) (CountingSemaphoreState.count x)
  | OMutex v l => Spec.AMutex v l
  | OTask _ _ _ | OTimer _ => Spec.AMutex 0 false
  end.
Definition abstract_cell (c : cell) : Spec.aobj * nat := (abstract (body c), Z.to_nat (strong c)).
Definition objects (s : sys) : gmap Z (Spec.aobj * nat) := abstract_cell <$> objs s.

Definition running (s : sys) : bool :=
  match RuntimeLifecycle.state (life s) with Done RuntimeState.Running => true | _ => false end.

Definition plain (o : obj) : Prop :=
  match o with
  | OQueue b None => ByteQueue.wf b
  | OSemaphore x => CountingSemaphoreState.wf x
  | OMutex _ _ => True
  | _ => False
  end.
Definition cell_ok (s : sys) (r : Z) (c : cell) : Prop :=
  r < next_ref s ∧ 1 ≤ strong c ≤ uint_max usize_bits ∧ plain (body c).
Definition ok (s : sys) : Prop := MockWorld.life_ok s ∧ ∀ r c, objs s !! r = Some c → cell_ok s r c.

(** Any number of waits. *)
Context (patience : nat).
Definition limits : Spec.limits :=
  Spec.mkLimits RuntimeLifecycle.MAX_COUNT (uint_max usize_bits) (uint_max usize_bits) (uint_max 64) patience.

(** The lifecycle word of a good state. *)
Lemma ok_life s : ok s →
  life s = RuntimeLifecycle.pack (if running s then RuntimeState.Running else RuntimeState.Uninitialized) (MockWorld.count s) ∧
  0 ≤ MockWorld.count s ≤ RuntimeLifecycle.MAX_COUNT ∧ (running s = false → objs s = ∅).
Proof.
  intros [(b & El & Hm & Hb) _]. assert (0 ≤ MockWorld.count s) by (unfold MockWorld.count; lia).
  assert (running s = b) as ->; [|done]. unfold running, RuntimeLifecycle.state. rewrite El.
  rewrite RuntimeLifecycle.decode_state_pack by done. by destruct b.
Qed.

Lemma running_pack s b n : 0 ≤ n →
  life s = RuntimeLifecycle.pack (if b : bool then RuntimeState.Running else RuntimeState.Uninitialized) n → running s = b.
Proof.
  intros Hn El. unfold running, RuntimeLifecycle.state. rewrite El, RuntimeLifecycle.decode_state_pack by done.
  by destruct b.
Qed.

Lemma objects_empty s : objects s = ∅ ↔ objs s = ∅.
Proof. apply fmap_empty_iff. Qed.

Lemma objects_lookup s r x n : ok s → objects s !! r = Some (x, n) →
  ∃ c, objs s !! r = Some c ∧ cell_ok s r c ∧ x = abstract (body c) ∧ n = Z.to_nat (strong c).
Proof.
  intros O E. unfold objects in E. rewrite lookup_fmap in E. destruct (objs s !! r) as [c|] eqn:Er; [|done].
  simpl in E. unfold abstract_cell in E. simplify_eq. exists c. split; [done|]. split; [by apply O|done].
Qed.

(** Writing one cell. *)
Lemma put_cell s r c c' : ok s → objs s !! r = Some c → 1 ≤ strong c' ≤ uint_max usize_bits → plain (body c') →
  ok (set_objs (<[r:=c']> (objs s)) s) ∧
  running (set_objs (<[r:=c']> (objs s)) s) = running s ∧
  objects (set_objs (<[r:=c']> (objs s)) s) = <[r:=abstract_cell c']> (objects s).
Proof.
  intros [(b & El & Hm & Hb) Hc] E Hs Hp. split; [|split; [done|]]; [|apply fmap_insert].
  split.
  - exists b. unfold MockWorld.count in *. simpl. rewrite (MockWorld.count_put r c c' s E). split; [done|]. split; [done|].
    intros Hf. apply Hb in Hf. by rewrite Hf, lookup_empty in E.
  - simpl. intros p d [[<- <-]|[Hne Ed]]%lookup_insert_Some; [|by apply Hc]. split; [by apply (Hc r c)|done].
Qed.

Lemma store_cell s r c b' : ok s → objs s !! r = Some c → plain b' →
  ∃ s', store r b' s = Done ((), s') ∧ ok s' ∧ running s' = running s ∧
    objects s' = <[r:=(abstract b', Z.to_nat (strong c))]> (objects s).
Proof.
  intros O E Hp. eexists. split; [unfold store; by rewrite E|].
  apply (put_cell s r c (mkCell (strong c) b') O E); [apply (proj2 O r c E)|done].
Qed.

Lemma same_cell s r c : objs s !! r = Some c → objects s = <[r:=abstract_cell c]> (objects s).
Proof. intros E. symmetry. apply insert_id. unfold objects. by rewrite lookup_fmap, E. Qed.

(** ** The calls *)

Lemma mock_initialize s : ok s → ∃ s',
  MockRuntime.initialize s = Done (if running s then Err Error.AlreadyInitialized else Ok (), s') ∧
  ok s' ∧ running s' = true ∧ objects s' = objects s.
Proof.
  intros O. destruct (ok_life s O) as (El & Hc & He). unfold MockRuntime.initialize, on_life, on_clock, mtry, mbind_, mret_.
  rewrite El, RuntimeLifecycle.begin_initialize_spec by done. destruct (running s) eqn:Er; simpl.
  - eexists. split; [done|]. rewrite <- El, MockWorld.set_life_id. done.
  - specialize (He eq_refl). assert (MockWorld.count s = 0) as -> by (unfold MockWorld.count; by rewrite He).
    simpl. unfold RuntimeLifecycle.commit_initialize. rewrite RuntimeLifecycle.guarded_exchange_spec. simpl.
    eexists. split; [done|]. split; [split|split; [|done]].
    + exists true. unfold MockWorld.count. simpl. rewrite He. split; [done|]. split; [rewrite map_size_empty; lia|done].
    + simpl. apply O.
    + by apply (running_pack _ true 0).
Qed.

Lemma mock_shutdown s : ok s → ∃ s',
  MockRuntime.shutdown s = Done (if negb (running s) then Err Error.NotInitialized
                                 else if decide (objects s = ∅) then Ok () else Err Error.Busy, s') ∧
  ok s' ∧ running s' = (running s && negb (bool_decide (objects s = ∅))) ∧ objects s' = objects s.
Proof.
  intros O. destruct (ok_life s O) as (El & Hc & He). unfold MockRuntime.shutdown, on_life, on_clock, mtry, mbind_, mret_.
  assert (MockWorld.count s = 0 ↔ objects s = ∅) as Hz
    by (rewrite objects_empty, <- map_size_empty_iff; unfold MockWorld.count; lia).
  assert (0 ≤ MockWorld.count s) as Hc0 by lia.
  rewrite El, (RuntimeLifecycle.run_loop_spec _ _ _ _ (RuntimeLifecycle.begin_shutdown_body_spec _ _ Hc0)).
  destruct (running s) eqn:Er; simpl.
  - destruct (MockWorld.count s =? 0) eqn:Ez; bool_to_prop; simpl.
    + rewrite decide_True, bool_decide_true by by apply Hz. unfold RuntimeLifecycle.commit_shutdown.
      rewrite RuntimeLifecycle.guarded_exchange_spec. simpl. eexists. split; [done|].
      apply Hz, objects_empty in Ez. split; [split|split; [|done]].
      * exists false. unfold MockWorld.count. simpl. rewrite Ez. split; [done|]. split; [rewrite map_size_empty; lia|done].
      * simpl. apply O.
      * by apply (running_pack _ false 0).
    + rewrite decide_False, bool_decide_false by by rewrite <- Hz. eexists. split; [done|].
      rewrite <- El, MockWorld.set_life_id. done.
  - eexists. split; [done|]. rewrite <- El, MockWorld.set_life_id. done.
Qed.

Lemma mock_state s : ok s →
  MockRuntime.state s = Done (if running s then RuntimeState.Running else RuntimeState.Uninitialized, s).
Proof.
  intros O. destruct (ok_life s O) as (El & Hc & _). unfold MockRuntime.state, RuntimeLifecycle.state.
  rewrite El at 1. rewrite RuntimeLifecycle.decode_state_pack by lia. by destruct (running s).
Qed.

(** Construction: the lease, then the cell. *)
Lemma mock_acquire s : ok s →
  if running s then MockWorld.count s < RuntimeLifecycle.MAX_COUNT →
    MockRuntime.acquire_object s = Done (Ok (), set_life (RuntimeLifecycle.pack RuntimeState.Running (MockWorld.count s + 1)) s)
  else MockRuntime.acquire_object s = Done (Err Error.NotInitialized, s).
Proof.
  intros O. destruct (ok_life s O) as (El & Hc & _). unfold MockRuntime.acquire_object, on_life. rewrite El.
  rewrite (RuntimeLifecycle.run_loop_spec _ _ _ _ (RuntimeLifecycle.acquire_body_spec _ _ Hc)).
  destruct (running s); simpl.
  - intros Hlt. by rewrite (proj2 (Z.ltb_lt _ _) Hlt).
  - by rewrite <- El, MockWorld.set_life_id.
Qed.

Lemma ok_fresh s : ok s → objs s !! next_ref s = None.
Proof. intros [_ Hc]. destruct (objs s !! next_ref s) eqn:E; [|done]. destruct (Hc _ _ E) as [? _]. lia. Qed.

Lemma rc_cell s o : ok s → MockWorld.count s < RuntimeLifecycle.MAX_COUNT → plain o →
  ok (MockWorld.rc_state o s) ∧ running (MockWorld.rc_state o s) = true ∧
  objects s !! next_ref s = None ∧ objects (MockWorld.rc_state o s) = <[next_ref s:=(abstract o, 1%nat)]> (objects s).
Proof.
  intros O Hm Hp. pose proof (ok_fresh s O) as Hf. pose proof (ok_life s O) as (_ & Hc & _). split; [split|].
  - exists true. unfold MockWorld.count. simpl. rewrite map_size_insert_None by done.
    unfold MockWorld.count in *. split; [f_equal; lia|]. split; [lia|done].
  - simpl. pose proof usize_range as Hu.
    intros r c [[<- <-]|[Hne E]]%lookup_insert_Some.
    + split; [simpl; lia|]. split; [unfold uint_max; simpl in *; lia|done].
    + destruct (proj2 O _ _ E) as (Hr & Hs). split; [simpl; lia|done].
  - split; [by apply (running_pack _ true (MockWorld.count s + 1)); [lia|]|]. split.
    + unfold objects. by rewrite lookup_fmap, Hf.
    + unfold objects. simpl. by rewrite fmap_insert.
Qed.

(** Whatever is to be made after its parameters were accepted. *)
Lemma mock_make s (o : obj) (m : M sys (Result Z)) : ok s → plain o →
  (MockRuntime.acquire_object s = Done (Err Error.NotInitialized, s) → m s = Done (Err Error.NotInitialized, s)) →
  (MockRuntime.acquire_object s = Done (Ok (), set_life (RuntimeLifecycle.pack RuntimeState.Running (MockWorld.count s + 1)) s) →
     m s = Done (Ok (next_ref s), MockWorld.rc_state o s)) →
  if running s then Z.of_nat (size (objects s)) < RuntimeLifecycle.MAX_COUNT →
    ∃ r s', m s = Done (Ok r, s') ∧ ok s' ∧ running s' = true ∧
      objects s !! r = None ∧ objects s' = <[r:=(abstract o, 1%nat)]> (objects s)
  else m s = Done (Err Error.NotInitialized, s).
Proof.
  intros O Hp He Hm. pose proof (mock_acquire s O) as A. destruct (running s); [|by apply He].
  intros Hlt. assert (MockWorld.count s < RuntimeLifecycle.MAX_COUNT) as Hc.
  { unfold objects in Hlt. by rewrite map_size_fmap in Hlt. }
  destruct (rc_cell s o O Hc Hp) as (O' & R' & Hf & V'). exists (next_ref s), (MockWorld.rc_state o s).
  split; [by apply Hm, A|done].
Qed.

Lemma mock_new s c : ok s →
  match Spec.constructed limits c with
  | None => True
  | Some (Err e) => new c s = Done (Err e, s)
  | Some (Ok x) =>
      if running s then Z.of_nat (size (objects s)) < Spec.max_objects limits →
        ∃ r s', new c s = Done (Ok r, s') ∧ ok s' ∧ running s' = true ∧
          objects s !! r = None ∧ objects s' = <[r:=(x, 1%nat)]> (objects s)
      else new c s = Done (Err Error.NotInitialized, s)
  end.
Proof.
  intros O. destruct c as [c m|m i| |v]; simpl.
  - destruct ((c <? 0) || (m <? 0)) eqn:En; [done|].
    unfold MockQueue.new, MockQueue.inner_new, Validation.validate_queue_capacity, Validation.validate_queue_message_size.
    destruct (c =? 0) eqn:Ec; [done|]. destruct (m =? 0) eqn:Em; [done|]. simpl.
    destruct (c * m <=? uint_max usize_bits) eqn:El; [|done]. bool_to_prop.
    assert (∃ b, ByteQueue.new alloc c m = Ok b) as [b Eb].
    { unfold ByteQueue.new, checked_mul, uint_max in *. rewrite (proj2 (Z.eqb_neq c 0)), (proj2 (Z.eqb_neq m 0)) by lia. simpl.
      rewrite (proj2 (Z.ltb_lt (c * m) (2 ^ usize_bits))) by lia. simpl. eauto. }
    replace (Spec.AQueue _) with (abstract (OQueue b None)) by (simpl; by rewrite (ByteQueueFacts.abs_new alloc c m b Eb)).
    apply mock_make; [done|by apply (ByteQueue.new_wf alloc c m); [lia..|]|..]; intros A; unfold mtry, mbind_, mret_; simpl; rewrite A; [done|].
    simpl. by rewrite Eb.
  - destruct (negb _) eqn:En; [done|]. bool_to_prop. 
    unfold MockSemaphore.new, CountingSemaphoreState.new. destruct (m =? 0) eqn:Em; [done|].
    destruct (m <? i) eqn:Ei; [done|]. bool_to_prop. simpl.
    change (Spec.ASemaphore m i) with (abstract (OSemaphore (CountingSemaphoreState.mk m i))).
    apply mock_make; [done|by split; simpl; lia|..]; intros A; unfold mtry, mbind_, mret_; simpl; by rewrite A.
  - change (Spec.ASemaphore 1 0) with (abstract (OSemaphore (CountingSemaphoreState.mk 1 0))).
    apply mock_make; [done|by split; simpl; lia|..]; intros A; unfold MockSemaphore.binary_new, MockSemaphore.new, mtry, mbind_, mret_; simpl; by rewrite A.
  - change (Spec.AMutex v false) with (abstract (OMutex v false)).
    apply mock_make; [done|done|..]; intros A; unfold MockMutex.new, mtry, mbind_, mret_; simpl; by rewrite A.
Qed.

(** The calls on an object. *)
Lemma apply_timed {A} t e (r r' : Result A) : Spec.timed limits t e r = Some r' → MockWait.apply_timeout t r e = r'.
Proof.
  unfold Spec.timed, MockWait.apply_timeout. destruct (Spec.prompt limits t); [|done]. simpl. destruct r as [a|e']; destruct t; try by intros [= <-].
  - by destruct (Error.eqb e' e); intros [= <-].
  - by destruct (Error.eqb e' e); intros [= <-].
  - by destruct (Error.eqb e' e); intros [= <-].
Qed.

Lemma inner_queue_at s r m b f : objs s !! r = Some (mkCell m (OQueue b f)) → MockQueue.inner r s = Done ((b, f), s).
Proof. intros E. unfold MockQueue.inner, deref, mbind_. by rewrite E. Qed.
Lemma inner_semaphore_at s r m x : objs s !! r = Some (mkCell m (OSemaphore x)) → MockSemaphore.inner r s = Done (x, s).
Proof. intros E. unfold MockSemaphore.inner, deref, mbind_. by rewrite E. Qed.
Lemma inner_mutex_at s r m v l : objs s !! r = Some (mkCell m (OMutex v l)) → MockMutex.inner r s = Done ((v, l), s).
Proof. intros E. unfold MockMutex.inner, deref, mbind_. by rewrite E. Qed.

Lemma mock_queue R (c : Client.queue_call R) s r q n res q' : ok s → objects s !! r = Some (Spec.AQueue q, n) →
  Spec.queue_step limits c q = Some (res, q') →
  ∃ s', queue r c s = Done (res, s') ∧ ok s' ∧ running s' = running s ∧ objects s' = <[r:=(Spec.AQueue q', n)]> (objects s).
Proof.
  intros O Er Es. destruct (objects_lookup s r _ n O Er) as ([m o] & E & (_ & _ & Hp) & Ha & ->). simpl in *.
  destruct o as [b [f|]|x|v l| |]; try done. simpl in Hp, Ha. injection Ha as ->.
  pose proof (inner_queue_at s r m b None E) as Ei. pose proof (same_cell s r _ E) as Hsame.
  destruct c as [d t|buf t| | | |]; simpl in Es |- *.
  - destruct (ByteQueueFacts.try_send_refines b d Hp) as (b' & Et & Wb & Eb).
    destruct (Fifo.send (ByteQueueFacts.abs b) d) as [r1 q1]. simpl in *.
    destruct (Spec.timed limits t Error.QueueFull r1) as [r2|] eqn:Etm; [|done]. simplify_eq/=.
    destruct (store_cell s r _ (OQueue b' None) O E Wb) as (s' & Est & O' & R' & V'). exists s'. split; [|done].
    unfold MockQueue.send, MockQueue.take_send_fault, mbind_, mrun. rewrite Ei. simpl. rewrite Ei. simpl. rewrite Et. simpl. rewrite Est. simpl.
    unfold mret_. by rewrite (apply_timed _ _ _ _ Etm).
  - destruct (ByteQueueFacts.try_recv_refines b buf Hp) as (b' & out & Et & Wb & Eb).
    destruct (Fifo.recv (ByteQueueFacts.abs b) buf) as [r1 [q1 buf1]]. simpl in *.
    destruct (Spec.timed limits t Error.QueueEmpty _) as [r2|] eqn:Etm; [|done]. simplify_eq/=.
    destruct (store_cell s r _ (OQueue b' None) O E Wb) as (s' & Est & O' & R' & V'). exists s'. split; [|done].
    unfold MockQueue.recv, mbind_, mrun. rewrite Ei. simpl. rewrite Et. simpl. rewrite Est. simpl.
    unfold mret_. by rewrite (apply_timed _ _ _ _ Etm).
  - simplify_eq. destruct (ByteQueueFacts.close_refines b Hp) as [Wb Eb].
    destruct (store_cell s r _ (OQueue (ByteQueue.close b) None) O E Wb) as (s' & Est & O' & R' & V'). exists s'.
    split; [|by simpl in V'; rewrite Eb in V'].
    unfold MockQueue.close, mbind_, mrun. rewrite Ei. simpl. rewrite Est. done.
  - simplify_eq. exists s. unfold MockQueue.capacity, mbind_. by rewrite Ei.
  - simplify_eq. exists s. unfold MockQueue.msg_size, mbind_. by rewrite Ei.
  - simplify_eq. exists s. unfold MockQueue.len, mbind_. rewrite Ei. split; [|done]. simpl. unfold mret_.
    destruct Hp. rewrite ByteQueue.messages_length, Z2Nat.id by lia. done.
Qed.

Lemma mock_semaphore R (c : Client.semaphore_call R) s r m i n res i' : ok s → objects s !! r = Some (Spec.ASemaphore m i, n) →
  Spec.semaphore_step limits c m i = Some (res, i') →
  ∃ s', semaphore r c s = Done (res, s') ∧ ok s' ∧ running s' = running s ∧ objects s' = <[r:=(Spec.ASemaphore m i', n)]> (objects s).
Proof.
  intros O Er Es. destruct (objects_lookup s r _ n O Er) as ([k o] & E & (_ & _ & Hp) & Ha & ->). simpl in *.
  destruct o as [b [f|]|x|v l| |]; try done. simpl in Hp, Ha. injection Ha as -> ->.
  pose proof (inner_semaphore_at s r k x E) as Ei. pose proof (same_cell s r _ E) as Hsame.
  destruct c as [t| | |]; simpl in Es |- *.
  - destruct (Spec.prompt limits t); [simpl in Es|done]. unfold MockSemaphore.acquire, mbind_, mrun. rewrite Ei. simpl. rewrite (CountingSemaphoreState.try_acquire_spec x Hp).
    destruct (0 <? CountingSemaphoreState.count x) eqn:Ec; bool_to_prop; simpl.
    + simplify_eq. destruct (store_cell s r _ (OSemaphore (CountingSemaphoreState.mk (CountingSemaphoreState.max_count x) (CountingSemaphoreState.count x - 1))) O E)
        as (s' & Est & O' & R' & V'); [destruct Hp; split; simpl; lia|]. rewrite Est. by exists s'.
    + destruct (store_cell s r _ (OSemaphore x) O E Hp) as (s' & Est & O' & R' & V'). rewrite Est. exists s'.
      destruct t; by simplify_eq.
  - unfold MockSemaphore.release, mbind_, mrun. rewrite Ei. simpl. rewrite (CountingSemaphoreState.release_spec x Hp).
    destruct (_ <? _) eqn:Ec; bool_to_prop; simpl; simplify_eq.
    + destruct (store_cell s r _ (OSemaphore (CountingSemaphoreState.mk (CountingSemaphoreState.max_count x) (CountingSemaphoreState.count x + 1))) O E)
        as (s' & Est & O' & R' & V'); [destruct Hp; split; simpl; lia|]. rewrite Est. by exists s'.
    + destruct (store_cell s r _ (OSemaphore x) O E Hp) as (s' & Est & O' & R' & V'). rewrite Est. by exists s'.
  - simplify_eq. exists s. unfold MockSemaphore.max_count, mbind_. by rewrite Ei.
  - simplify_eq. exists s. unfold MockSemaphore.count, mbind_. by rewrite Ei.
Qed.

Lemma mock_mutex R (c : Client.mutex_call R) s r v b n res v' b' : ok s → objects s !! r = Some (Spec.AMutex v b, n) →
  Spec.mutex_step limits c v b = Some (res, v', b') →
  ∃ s', mutex r c s = Done (res, s') ∧ ok s' ∧ running s' = running s ∧ objects s' = <[r:=(Spec.AMutex v' b', n)]> (objects s).
Proof.
  intros O Er Es. destruct (objects_lookup s r _ n O Er) as ([k o] & E & (_ & _ & Hp) & Ha & ->). simpl in *.
  destruct o as [? [f|]|x|v1 l| |]; try done. simpl in Ha. injection Ha as -> ->.
  pose proof (inner_mutex_at s r k v1 l E) as Ei. pose proof (same_cell s r _ E) as Hsame.
  destruct c as [t| |w|]; simpl in Es |- *.
  - destruct (Spec.prompt limits t); [simpl in Es|done]. unfold MockMutex.lock, mbind_. rewrite Ei. simpl. destruct l.
    + exists s. destruct t; by simplify_eq.
    + simplify_eq. destruct (store_cell s r _ (OMutex v' true) O E I) as (s' & Est & O' & R' & V'). rewrite Est. by exists s'.
  - destruct l; simplify_eq. exists s. unfold MockMutex.guard_read, mbind_. by rewrite Ei.
  - destruct l; simplify_eq. destruct (store_cell s r _ (OMutex v' true) O E I) as (s' & Est & O' & R' & V').
    exists s'. unfold MockMutex.guard_write, mbind_. rewrite Ei. done.
  - destruct l; simplify_eq. destruct (store_cell s r _ (OMutex v' false) O E I) as (s' & Est & O' & R' & V').
    exists s'. unfold MockMutex.guard_drop, mbind_. rewrite Ei. done.
Qed.

(** Handles. *)
Lemma mock_clone s r x n : ok s → objects s !! r = Some (x, n) → Z.of_nat n < Spec.max_handles limits →
  ∃ s', MockHandle.clone r s = Done ((), s') ∧ ok s' ∧ running s' = running s ∧ objects s' = <[r:=(x, S n)]> (objects s).
Proof.
  intros O Er Hn. destruct (objects_lookup s r x n O Er) as (c & E & (_ & Hs & Hp) & -> & ->). simpl in Hn.
  unfold MockHandle.clone. rewrite E. simpl. unfold uint_max in *. rewrite uadd_ok by lia. simpl. eexists. split; [done|].
  destruct (put_cell s r c (mkCell (strong c + 1) (body c)) O E) as (O' & R' & V'); [simpl; unfold uint_max; lia|done|].
  rewrite V'. unfold abstract_cell. simpl. by rewrite <- Z2Nat.inj_succ by lia.
Qed.

Lemma mock_drop s r x n : ok s → objects s !! r = Some (x, n) →
  ∃ s', MockHandle.drop r s = Done ((), s') ∧ ok s' ∧ running s' = running s ∧
    objects s' = match n with S (S n) => <[r:=(x, S n)]> (objects s) | _ => delete r (objects s) end.
Proof.
  intros O Er. destruct (objects_lookup s r x n O Er) as (c & E & (_ & Hs & Hp) & -> & ->).
  unfold MockHandle.drop. rewrite E. simpl. rewrite usub_ok by lia. simpl.
  destruct (strong c - 1 =? 0) eqn:Ez; bool_to_prop.
  - destruct (ok_life s O) as (El & Hc & He).
    assert (running s = true) as Hr by (destruct (running s); [done|]; rewrite He in E by done; by rewrite lookup_empty in E).
    rewrite Hr in El. assert (size (objs s) = Datatypes.S (size (delete r (objs s)))) as Hsz
      by (rewrite map_size_delete_Some by done; destruct (size (objs s)) eqn:Hz; [|lia]; apply map_size_empty_inv in Hz; by rewrite Hz, lookup_empty in E).
    set (s1 := set_objs (delete r (objs s)) s).
    assert (MockRuntime.lease_drop s1 = Done ((), set_life (RuntimeLifecycle.pack RuntimeState.Running (MockWorld.count s1)) s1)) as Ed.
    { unfold MockWorld.count in *. apply MockWorld.lease_drop_ok; simpl; [rewrite El; f_equal|]; lia. }
    exists (set_life (RuntimeLifecycle.pack RuntimeState.Running (MockWorld.count s1)) s1). split.
    { unfold mbind_. destruct (body c) as [? [|]| | | |]; try done; simpl; exact Ed. }
    split; [split|].
    + exists true. unfold MockWorld.count in *. simpl. split; [done|]. split; [lia|done].
    + simpl. intros p d [_ Ep]%lookup_delete_Some. by apply O.
    + split; [rewrite Hr; apply (running_pack _ true (MockWorld.count s1)); [unfold MockWorld.count; lia|done]|].
      replace (Z.to_nat (strong c)) with 1%nat by lia. unfold objects. simpl. by rewrite fmap_delete.
  - eexists. split; [done|].
    destruct (put_cell s r c (mkCell (strong c - 1) (body c)) O E) as (O' & R' & V'); [simpl; lia|done|].
    rewrite V'. unfold abstract_cell. simpl.
    replace (Z.to_nat (strong c)) with (Datatypes.S (Datatypes.S (Z.to_nat (strong c - 2)))) by lia.
    by replace (Z.to_nat (strong c - 1)) with (Datatypes.S (Z.to_nat (strong c - 2))) by lia.
Qed.

Definition mock_backend_laws : BackendLaws sys := {|
  bok := λ _, ok;
  up := running;
  view := objects;
  lim := limits;
  law_less := λ _ _ _ O, O;
  law_initialize := λ _, mock_initialize;
  law_shutdown := λ _, mock_shutdown;
  law_state := λ _, mock_state;
  law_new := λ _, mock_new;
  law_queue := λ _, mock_queue;
  law_semaphore := λ _, mock_semaphore;
  law_mutex := λ _, mock_mutex;
  law_clone := λ _, mock_clone;
  law_drop_handle := λ _ s r x n O E _, mock_drop s r x n O E;
|}.

Lemma mock_initial : ClientRun.initial (BackendLaws0:=mock_backend_laws) MockState.init.
Proof.
  split; [|done]. split.
  - exists false. pose proof RuntimeLifecycle.zero_le_MAX_COUNT. split; [done|]. split; [unfold MockWorld.count; simpl; rewrite map_size_empty; lia|done].
  - intros r c. simpl. by rewrite lookup_empty.
Qed.

(** A client program on the mock backend from the start of the process. *)
Definition on_mock {A} (p : Client.prog A) :=
  ClientRun.run_on (Backend0:=mock_backend) p (ClientRun.mkState MockState.init ∅ 0).

End MockClient.
End MockClient.

(** ** Witnesses: on the mock backend with 64-bit words *)

Module MockClientWitness.
Import Client.
Open Scope prog_scope.

(** Two clones of a queue: what one sends the other receives, and the runtime
    cannot be shut down while one is left. *)
Definition sample : prog (list u8 * Result ()) :=
  unwrap Initialize ;~
  q1 <~ unwrap (New (NewQueue 2 1)) ;;
  q2 <~ call (CloneHandle q1) ;;
  unwrap (OnQueue q1 (Send [Byte.x07] Timeout.NoWait)) ;~
  call (DropHandle q1) ;~
  r <~ call (OnQueue q2 (Recv [Byte.x00] Timeout.NoWait)) ;;
  x <~ call Shutdown ;;
  Ret (snd r, x).

Lemma client_refinement_witness :
  ∃ s, ClientRun.run_on (Backend0:=MockClient.mock_backend (H:=arch64)) sample (ClientRun.mkState MockState.init ∅ 0) =
         Done (([Byte.x07], Err Error.Busy), s) ∧
    size (MockClient.objects (ClientRun.backend s)) = 1%nat.
Proof.
  edestruct (ClientRun.client_refinement (BackendLaws0:=MockClient.mock_backend_laws (H:=arch64) 0) sample MockState.init)
    as (s & E & _ & Hs & _).
  - apply MockClient.mock_initial.
  - vm_compute. reflexivity.
  - exists s. split; [exact E|]. simpl in Hs. rewrite Hs. vm_compute. reflexivity.
Defined.

End MockClientWitness.
