(* ===== verification/PosixClient.v ===== *)
(** * The POSIX backend as an implementation of the object API

    [PosixClient] discharges the laws of [Client] for the POSIX backend: the
    constructors and drops of [PosixObjects], the monitors of [PosixSync] and the
    lock of [PosixLock], called by one thread.

    A wait nobody ends: the thread wakes up spuriously any number of times and
    then, if it has a deadline, times out. *)

From S2P Require Import Prelude Api Buffers Runtime PosixSys PosixMonitor PosixSync PosixTask PosixObjects PosixLock.
From S2P Require Import MockTime Mock Client Contract MockClient.
Import PosixTime (timespec).

(** ** A monitor called by one thread *)

Module Solo.
Section Solo.
Context {St call ret cv : Type} `{!Monitor St call ret cv}.

(** [n] spurious wake-ups. *)
Fixpoint rounds (n : nat) (c : call) (st : St) : Run (option ret * St) :=
  match n with
  | O => Done (None, st)
  | S n =>
      '(o, st, _) ← m_iter c st;
      match o with Return r => Done (Some r, st) | WaitOn _ => rounds n c st end
  end.

Definition run (n : nat) (c : call) (now : timespec) (st : St) : Run (ret * St) :=
  '(o, deadline, st, _) ← m_start c now st;
  match o with
  | Return r => Done (r, st)
  | WaitOn _ =>
      '(r, st) ← rounds n c st;
      match r, deadline with
      | Some r, _ => Done (r, st)
      | None, Some _ => Done (m_timeout c, st)
      | None, None => NoFuel
      end
  end.

Lemma rounds_wait n c st v ws : m_iter c st = Done (WaitOn v, st, ws) → rounds n c st = Done (None, st).
Proof. intros E. induction n as [|n IH]; simpl; [done|]. by rewrite E. Qed.

Lemma run_return n c now st r dl st' ws : m_start c now st = Done (Return r, dl, st', ws) → run n c now st = Done (r, st').
Proof. unfold run. by intros ->. Qed.

Lemma run_timeout n c now st v v' dl ws ws' r : m_timeout c = r → m_start c now st = Done (WaitOn v, Some dl, st, ws) →
  m_iter c st = Done (WaitOn v', st, ws') → run n c now st = Done (r, st).
Proof. intros <- E Ei. unfold run. rewrite E. simpl. by rewrite (rounds_wait n c st v' ws' Ei). Qed.

End Solo.
End Solo.

(** ** The backend *)

(** Memory for native objects is available: no creation fails. *)
Record plentiful {K} (f : family K) : Prop := {
  pf_attr : ∀ k, ∃ a k', attr_init f k = (0, a, k');
  pf_set : ∀ a v k, ∃ k', attr_set f a v k = (0, k');
  pf_object : ∀ a k, ∃ m k', object_init f a k = (0, m, k');
}.

Module PosixClient.
Import PosixNative PosixObjects.

Section PosixClient.
Context `{Arch} {K N : Type} `{!Pthread K} `{!ErrorCheckMutex N}.

(** The results of [timer_service::initialize] and [shutdown], the state of a fresh
    mutex, the readings of the clock, and how many spurious wake-ups or polls a
    call sees. *)
Context (timers_start timers_stop : Result ()) (fresh : N) (reading : nat → timespec) (wakes : nat → nat).

Definition alloc : Z → bool := λ _, true.

(** The only thread. *)
Definition me : Z := 1.

(** What an [Arc] points to; [lock]: the state of the native mutex of a [PosixMutexImpl]. *)
Record cell : Type := mkCell { strong : nat; body : object (T:=Z); lock : N }.

Record state : Type := mkState {
  wld : world (K:=K);
  cells : gmap Z cell;
  next_ref : Z;
  calls : nat;
}.

Definition on_world {A} (m : M world A) : M state A := λ s,
  '(a, w) ← m (wld s); Done (a, mkState w (cells s) (next_ref s) (calls s)).
Definition on_runtime {A} (f : PosixRuntime.t → Run (A * PosixRuntime.t)) : M state A :=
  on_world (λ w, '(a, r) ← f (runtime w); Done (a, mkWorld r (clib w))).
Definition set_cell (r : Z) (c : cell) (s : state) : state := mkState (wld s) (<[r:=c]> (cells s)) (next_ref s) (calls s).
Definition deref (r : Z) : M state cell := λ s, c ← expect (cells s !! r) "dangling reference"; Done (c, s).

(** A reading of the clock and the luck of a call. *)
Definition begin_call : M state (timespec * nat) := λ s,
  Done ((reading (calls s), wakes (calls s)), mkState (wld s) (cells s) (next_ref s) (S (calls s))).

(** [runtime.rs] *)
Definition transition (begin : PosixRuntime.t → Run (Result () * PosixRuntime.t)) (service : Result ()) : M state (Result ()) :=
  _ <-? on_runtime begin ;;
  on_runtime (λ r, r ← default (Panic "no transition") (PosixRuntime.transition_end 0 service r); Done (service, r)).
Definition initialize : M state (Result ()) := transition PosixRuntime.initialize_begin timers_start.
Definition shutdown : M state (Result ()) := transition PosixRuntime.shutdown_begin timers_stop.
Definition runtime_state : M state RuntimeState.t :=
  on_runtime (λ r, st ← PosixRuntime.state r; Done (st, r)).

Definition constructor_of (c : Client.constructor) : constructor (T:=Z) :=
  match c with
  | Client.NewQueue c m => CQueue c m
  | Client.NewSemaphore m i => CSemaphore m i
  | Client.NewBinary => CBinary
  | Client.NewMutex v => CMutex v
  end.

(** [Arc::new] of a constructed object *)
Definition new (c : Client.constructor) : M state (Result Z) :=
  o <-? on_world (construct alloc (constructor_of c)) ;;
  λ s, Done (Ok (next_ref s), mkState (wld s) (<[next_ref s:=mkCell 1 o fresh]> (cells s)) (next_ref s + 1) (calls s)).

Definition clone (r : Z) : M state () :=
  c <- deref r ;; mmodify (set_cell r (mkCell (S (strong c)) (body c) (lock c))).
Definition drop (r : Z) : M state () :=
  c <- deref r ;;
  match strong c with
  | S (S n) => mmodify (set_cell r (mkCell (S n) (body c) (lock c)))
  | _ =>
      mmodify (λ s, mkState (wld s) (delete r (cells s)) (next_ref s) (calls s)) ;;;
      on_world (destroy (body c))
  end.

(** Operations on a queue. *)
Definition with_buffer (q : queue) (b : ByteQueue.t) : queue :=
  mkQueue (q_mutex q) (q_not_empty q) (q_not_full q) b (q_capacity q) (q_message_size q).
Definition inner_queue (r : Z) : M state (cell * queue) :=
  c <- deref r ;; match body c with OQueue q => mret_ (c, q) | _ => mpanic "not a queue" end.
Definition queue_op (r : Z) (o : PosixQueue.call) : M state PosixQueue.ret :=
  x <- inner_queue r ;;
  e <- begin_call ;;
  y <- mrun (Solo.run (snd e) o (fst e) (q_buffer (snd x))) ;;
  mmodify (set_cell r (mkCell (strong (fst x)) (OQueue (with_buffer (snd x) (snd y))) (lock (fst x)))) ;;;
  mret_ (fst y).
Definition queue_call {R} (r : Z) (c : Client.queue_call R) : M state R :=
  match c in Client.queue_call R return M state R with
  | Client.Send d t => y <- queue_op r (PosixQueue.CSend d t) ;; mret_ (fst y)
  | Client.Recv b t => queue_op r (PosixQueue.CRecv b t)
  | Client.Close => y <- queue_op r PosixQueue.CClose ;; mret_ (fst y)
  | Client.Capacity => x <- inner_queue r ;; mret_ (capacity (snd x))
  | Client.MsgSize => x <- inner_queue r ;; mret_ (msg_size (snd x))
  | Client.Len => x <- inner_queue r ;; mret_ (Ok (len (snd x)))
  end.

(** Operations on a semaphore. *)
Definition with_state (x : semaphore) (st : CountingSemaphoreState.t) : semaphore :=
  mkSemaphore (s_mutex x) (s_condvar x) st (s_max_count x).
Definition inner_semaphore (r : Z) : M state (cell * semaphore) :=
  c <- deref r ;; match body c with OSemaphore x => mret_ (c, x) | _ => mpanic "not a semaphore" end.
Definition semaphore_op (r : Z) (o : PosixSemaphore.call) : M state (Result ()) :=
  x <- inner_semaphore r ;;
  e <- begin_call ;;
  y <- mrun (Solo.run (snd e) o (fst e) (s_state (snd x))) ;;
  mmodify (set_cell r (mkCell (strong (fst x)) (OSemaphore (with_state (snd x) (snd y))) (lock (fst x)))) ;;;
  mret_ (fst y).
Definition semaphore_call {R} (r : Z) (c : Client.semaphore_call R) : M state R :=
  match c in Client.semaphore_call R return M state R with
  | Client.Acquire t => semaphore_op r (PosixSemaphore.Acquire t)
  | Client.Release => semaphore_op r PosixSemaphore.Release
  | Client.MaxCount => x <- inner_semaphore r ;; mret_ (max_count (snd x))
  | Client.Count => x <- inner_semaphore r ;; mret_ (Ok (count (snd x)))
  end.

(** Operations on a mutex: [n] rounds before the deadline, one after it. *)
Definition inner_mutex (r : Z) : M state (cell * mutex (T:=Z)) :=
  c <- deref r ;; match body c with OMutex m => mret_ (c, m) | _ => mpanic "not a mutex" end.
Fixpoint lock_rounds (k : nat) (t : Timeout.t) (n : N) : Run (Result () * N) :=
  '(a, n) ← match PosixMutexObject.lock_attempt me t (match k with O => true | _ => false end) n with
            | Some x => Done x | None => NoFuel end;
  match a with
  | PosixMutexObject.Locked => Done (Ok (), n)
  | PosixMutexObject.Failed e => Done (Err e, n)
  | PosixMutexObject.Again => match k with O => NoFuel | S k => lock_rounds k t n end
  end.
Definition lock_call (k : nat) (now : timespec) (t : Timeout.t) (n : N) : Run (Result () * N) :=
  match t with
  | Timeout.After d =>
      if PosixMutexObject.needs_deadline t then
        match PosixTime.abs_deadline now d with Err e => Done (Err e, n) | Ok _ => lock_rounds k t n end
      else lock_rounds k t n
  | _ => lock_rounds k t n
  end.
Definition set_mutex (r : Z) (c : cell) (m : mutex (T:=Z)) (v : Z) (n : N) : M state () :=
  mmodify (set_cell r (mkCell (strong c) (OMutex (mkMutex (m_raw m) v)) n)).
Definition mutex_call {R} (r : Z) (c : Client.mutex_call R) : M state R :=
  match c in Client.mutex_call R return M state R with
  | Client.Lock t =>
      x <- inner_mutex r ;;
      e <- begin_call ;;
      y <- mrun (lock_call (snd e) (fst e) t (lock (fst x))) ;;
      set_mutex r (fst x) (snd x) (m_data (snd x)) (snd y) ;;; mret_ (fst y)
  | Client.GuardRead => x <- inner_mutex r ;; mret_ (m_data (snd x))
  | Client.GuardWrite v => x <- inner_mutex r ;; set_mutex r (fst x) (snd x) v (lock (fst x))
  | Client.GuardDrop =>
      x <- inner_mutex r ;;
      set_mutex r (fst x) (snd x) (m_data (snd x)) (snd (PosixMutexObject.guard_drop me (lock (fst x))))
  end.

Definition posix_backend : Backend state := {|
  b_initialize := initialize;
  b_shutdown := shutdown;
  b_state := runtime_state;
  b_new := new;
  b_queue := @queue_call;
  b_semaphore := @semaphore_call;
  b_mutex := @mutex_call;
  b_clone := clone;
  b_drop := drop;
|}.

(** ** The abstract view *)

Context `{!ErrorCheckLaws N}.

Definition abstract (c : cell) : Spec.aobj :=
  match body c with
  | OQueue q => Spec.AQueue (ByteQueueFacts.abs (q_buffer q))
  | OSemaphore x => Spec.ASemaphore (CountingSemaphoreState.max_count (s_state x)) (CountingSemaphoreState.count (s_state x))
  | OMutex m => Spec.AMutex (m_data m) (bool_decide (owner (lock c) = Some me))
  end.
Definition objects (s : state) : gmap Z (Spec.aobj * nat) := (λ c, (abstract c, strong c)) <$> cells s.

Definition running (s : state) : bool :=
  match PosixRuntime.state (runtime (wld s)) with Done RuntimeState.Running => true | _ => false end.

Definition cell_ok (s : state) (r : Z) (c : cell) : Prop :=
  r < next_ref s ∧ (1 ≤ strong c)%nat ∧
  match body c with
  | OQueue q => ByteQueue.wf (q_buffer q) ∧ q_capacity q = ByteQueue.capacity (q_buffer q) ∧
                q_message_size q = ByteQueue.message_size (q_buffer q)
  | OSemaphore x => CountingSemaphoreState.wf (s_state x) ∧ s_max_count x = CountingSemaphoreState.max_count (s_state x)
  | OMutex m => owner (lock c) = None ∨ owner (lock c) = Some me
  end.

Definition life_of (b : bool) (n : nat) : Z :=
  RuntimeLifecycle.pack (if b then RuntimeState.Running else RuntimeState.Uninitialized) (Z.of_nat n).
(** The runtime is in no transition and counts the objects. *)
Definition runtime_ok (b : bool) (n : nat) (r : PosixRuntime.t) : Prop :=
  PosixRuntime.life r = life_of b n ∧ PosixRuntime.transitions r = [] ∧
  Z.of_nat n ≤ RuntimeLifecycle.MAX_COUNT ∧ (b = false → n = 0%nat).
Definition ok (s : state) : Prop :=
  runtime_ok (running s) (size (cells s)) (runtime (wld s)) ∧ ∀ r c, cells s !! r = Some c → cell_ok s r c.

Definition MAX_WAIT : Z := 2 ^ 30.
(** Any number of waits. *)
Context (patience : nat).
Definition limits : Spec.limits :=
  Spec.mkLimits RuntimeLifecycle.MAX_COUNT (2 ^ 31) (uint_max usize_bits) MAX_WAIT patience.

(** What is assumed: the timer service starts and stops, native objects can be
    created, a fresh mutex is free, and the clock leaves room for a deadline. *)
Context (Hstart : timers_start = Ok ()) (Hstop : timers_stop = Ok ()).
Context (Hm : plentiful (K:=K) mutexes) (Hc : plentiful (K:=K) condvars) (Hfresh : owner fresh = None).
Context (Hclock : ∀ i, PosixTime.valid (reading i) ∧ PosixTime.tv_sec (reading i) < PosixTime.TIME_MAX - MAX_WAIT).

Lemma running_life s b n : PosixRuntime.life (runtime (wld s)) = life_of b n → running s = b.
Proof.
  intros E. unfold running, PosixRuntime.state, RuntimeLifecycle.state. rewrite E. unfold life_of.
  rewrite RuntimeLifecycle.decode_state_pack by lia. by destruct b.
Qed.

(** *** The runtime *)

#[local] Arguments RuntimeLifecycle.run_loop : simpl never.

Lemma posix_acquire_object b n r : runtime_ok b n r →
  if b then Z.of_nat n < RuntimeLifecycle.MAX_COUNT →
    ∃ r', PosixRuntime.acquire_object r = Done (Ok (), r') ∧ runtime_ok true (S n) r'
  else PosixRuntime.acquire_object r = Done (Err Error.NotInitialized, r).
Proof.
  intros (El & Et & Hn & H0). unfold PosixRuntime.acquire_object. rewrite El. unfold life_of.
  assert (0 ≤ Z.of_nat n ≤ RuntimeLifecycle.MAX_COUNT) as Hr by lia.
  rewrite (RuntimeLifecycle.run_loop_spec _ _ _ _ (RuntimeLifecycle.acquire_body_spec _ _ Hr)). destruct b; simpl.
  - intros Hlt. rewrite (proj2 (Z.ltb_lt _ _) Hlt). simpl. eexists. split; [done|]. split; [simpl; unfold life_of; f_equal; lia|]. split; [done|]. split; [lia|done].
  - destruct r. simpl in *. by rewrite El.
Qed.

Lemma posix_lease_drop n r : runtime_ok true (S n) r → ∃ r', PosixRuntime.lease_drop r = Done r' ∧ runtime_ok true n r'.
Proof.
  intros (El & Et & Hn & _). unfold PosixRuntime.lease_drop. rewrite El. unfold life_of.
  assert (0 < Z.of_nat (S n) ≤ RuntimeLifecycle.MAX_COUNT) as Hr by lia.
  rewrite (RuntimeLifecycle.run_loop_spec _ _ _ _ (RuntimeLifecycle.lease_drop_body_spec _ Hr)). simpl.
  eexists. split; [done|]. split; simpl; [unfold life_of; f_equal; lia|]. split; [done|]. split; [lia|done].
Qed.

(** The world's runtime changes, the objects stay. *)
Lemma set_runtime_ok s b w : ok s → runtime_ok b (size (cells s)) (runtime w) →
  let s' := mkState w (cells s) (next_ref s) (calls s) in ok s' ∧ running s' = b ∧ objects s' = objects s.
Proof.
  intros O R. assert (running (mkState w (cells s) (next_ref s) (calls s)) = b) as Hb by (eapply running_life; apply R).
  split; [|by split]. split; simpl; [by rewrite Hb|]. apply O.
Qed.

Lemma posix_initialize s : ok s → ∃ s',
  initialize s = Done (if running s then Err Error.AlreadyInitialized else Ok (), s') ∧
  ok s' ∧ running s' = true ∧ objects s' = objects s.
Proof.
  intros O. pose proof (proj1 O) as (El & Et & Hn & H0). unfold initialize, transition, mtry, mbind_, on_runtime, on_world.
  unfold PosixRuntime.initialize_begin. rewrite El, Et. unfold life_of.
  rewrite RuntimeLifecycle.begin_initialize_spec by lia. destruct (running s) eqn:Er; simpl.
  - eexists. split; [done|]. apply (set_runtime_ok s true); [done|]. split; [done|]. by split.
  - rewrite H0 by done. simpl. rewrite Hstart. unfold RuntimeLifecycle.commit_initialize. simpl.
    rewrite RuntimeLifecycle.guarded_exchange_spec. simpl. eexists. split; [done|].
    apply (set_runtime_ok s true); [done|]. rewrite H0 by done. split; [done|]. split; [done|]. split; [lia|done].
Qed.

Lemma posix_objects_empty s : objects s = ∅ ↔ cells s = ∅.
Proof. apply fmap_empty_iff. Qed.

Lemma posix_shutdown s : ok s → ∃ s',
  shutdown s = Done (if negb (running s) then Err Error.NotInitialized
                     else if decide (objects s = ∅) then Ok () else Err Error.Busy, s') ∧
  ok s' ∧ running s' = (running s && negb (bool_decide (objects s = ∅))) ∧ objects s' = objects s.
Proof.
  intros O. pose proof (proj1 O) as (El & Et & Hn & H0). unfold shutdown, transition, mtry, mbind_, on_runtime, on_world.
  unfold PosixRuntime.shutdown_begin. rewrite El, Et. unfold life_of.
  assert (size (cells s) = 0%nat ↔ objects s = ∅) as Hz by by rewrite posix_objects_empty, map_size_empty_iff.
  assert (0 ≤ Z.of_nat (size (cells s))) as Hs by lia.
  rewrite (RuntimeLifecycle.run_loop_spec _ _ _ _ (RuntimeLifecycle.begin_shutdown_body_spec _ _ Hs)).
  destruct (running s) eqn:Er; simpl.
  - destruct (Z.of_nat (size (cells s)) =? 0) eqn:Ez; bool_to_prop; simpl.
    + assert (size (cells s) = 0%nat) as Es by lia. rewrite decide_True, bool_decide_true by by apply Hz.
      rewrite Hstop. unfold RuntimeLifecycle.commit_shutdown. simpl. rewrite RuntimeLifecycle.guarded_exchange_spec. simpl.
      eexists. split; [done|]. apply (set_runtime_ok s false); [done|]. rewrite Es. split; [done|]. split; [done|]. split; [lia|done].
    + rewrite decide_False, bool_decide_false by (rewrite <- Hz; lia). eexists. split; [done|].
      apply (set_runtime_ok s true); [done|]. split; [done|]. by split.
  - eexists. split; [done|]. apply (set_runtime_ok s false); [done|]. split; [done|]. split; [done|]. split; [done|]. by intros _; apply H0.
Qed.

Lemma posix_state s : ok s →
  runtime_state s = Done (if running s then RuntimeState.Running else RuntimeState.Uninitialized, s).
Proof.
  intros O. pose proof (proj1 O) as (El & _). unfold runtime_state, on_runtime, on_world, PosixRuntime.state, RuntimeLifecycle.state.
  rewrite El. unfold life_of. rewrite RuntimeLifecycle.decode_state_pack by lia. simpl. destruct s as [[? ?] ? ? ?].
  by destruct (running _).
Qed.

(** *** Construction *)

Lemma attributed_plentiful (f : family K) v k : plentiful f → ∃ h k', attributed_new f v k = Done (Ok h, k').
Proof.
  intros [Ha Hs Ho]. unfold attributed_new. destruct (Ha k) as (a & k1 & ->). simpl.
  destruct (Hs a v k1) as (k2 & ->). simpl. destruct (Ho a k2) as (m & k3 & ->). simpl. eauto.
Qed.

(** A native object in a constructor. *)
Lemma or_undo_plentiful {A} (f : family K) v undo (k : Z → M (world (K:=K)) (Result A)) w :
  plentiful f → ∃ h c', or_undo (attributed_new f v) undo k w = k h (mkWorld (runtime w) c').
Proof.
  intros Hf. destruct (attributed_plentiful f v (clib w) Hf) as (h & c' & E). exists h, c'.
  unfold or_undo, mbind_, on_clib. rewrite E. done.
Qed.

Ltac native :=
  unfold mutex_new, condvar_new;
  match goal with
  | |- context [or_undo (attributed_new ?f ?v) ?u ?k ?w] =>
      let h := fresh "h" in let c := fresh "k" in
      destruct (or_undo_plentiful f v u k w) as (h & c & ->); [assumption|]
  end.

Definition body_ok (o : object (T:=Z)) : Prop :=
  match o with
  | OQueue q => ByteQueue.wf (q_buffer q) ∧ q_capacity q = ByteQueue.capacity (q_buffer q) ∧
                q_message_size q = ByteQueue.message_size (q_buffer q)
  | OSemaphore x => CountingSemaphoreState.wf (s_state x) ∧ s_max_count x = CountingSemaphoreState.max_count (s_state x)
  | OMutex m => True
  end.

(** What a constructor does once its parameters are accepted: a lease, then an object. *)
Definition makes (x : Spec.aobj) (m : M (world (K:=K)) (Result object)) : Prop := ∀ w,
  (∀ w', acquire_object w = Done (Err Error.NotInitialized, w') → m w = Done (Err Error.NotInitialized, w')) ∧
  (∀ w', acquire_object w = Done (Ok (), w') →
     ∃ o c', m w = Done (Ok o, mkWorld (runtime w') c') ∧ body_ok o ∧ abstract (mkCell 1 o fresh) = x).

Lemma posix_make s c x : ok s → makes x (construct alloc (constructor_of c)) →
  if running s then Z.of_nat (size (objects s)) < RuntimeLifecycle.MAX_COUNT →
    ∃ r s', new c s = Done (Ok r, s') ∧ ok s' ∧ running s' = true ∧
      objects s !! r = None ∧ objects s' = <[r:=(x, 1%nat)]> (objects s)
  else new c s = Done (Err Error.NotInitialized, s).
Proof.
  intros O Hmk. destruct (Hmk (wld s)) as [Hf Hs]. pose proof (posix_acquire_object _ _ _ (proj1 O)) as A.
  assert (cells s !! next_ref s = None) as Hn.
  { destruct (cells s !! next_ref s) eqn:E; [|done]. destruct (proj2 O _ _ E) as [? _]. lia. }
  unfold new, mtry, mbind_, on_world. destruct (running s) eqn:Er.
  - intros Hlt. unfold objects in Hlt. rewrite map_size_fmap in Hlt. destruct (A Hlt) as (r' & Ea & R').
    destruct (Hs (mkWorld r' (clib (wld s)))) as (o & c' & -> & Ho & Hx); [unfold acquire_object; by rewrite Ea|]. simpl.
    eexists _, _. split; [done|]. assert (running (mkState (mkWorld r' c') (<[next_ref s:=mkCell 1 o fresh]> (cells s)) (next_ref s + 1) (calls s)) = true) as Hr
      by (eapply running_life; apply R').
    split; [split|].
    + rewrite Hr. simpl. by rewrite map_size_insert_None.
    + simpl. intros p d [[<- <-]|[Hne Ed]]%lookup_insert_Some.
      * split; [simpl; lia|]. split; [done|]. simpl. destruct o; try done. by left.
      * destruct (proj2 O _ _ Ed) as [? ?]. split; [simpl; lia|done].
    + split; [done|]. split; [unfold objects; by rewrite lookup_fmap, Hn|]. unfold objects. simpl. rewrite fmap_insert. by rewrite Hx.
  - rewrite (Hf (wld s)); [by destruct s|]. unfold acquire_object. rewrite A. by destruct (wld s).
Qed.

Lemma map_makes {A} (f : A → object (T:=Z)) x (m : M (world (K:=K)) (Result A)) :
  (∀ w, (∀ w', acquire_object w = Done (Err Error.NotInitialized, w') → m w = Done (Err Error.NotInitialized, w')) ∧
        (∀ w', acquire_object w = Done (Ok (), w') →
           ∃ a c', m w = Done (Ok a, mkWorld (runtime w') c') ∧ body_ok (f a) ∧ abstract (mkCell 1 (f a) fresh) = x)) →
  makes x (a <-? m ;; mret_ (Ok (f a))).
Proof.
  intros Hm' w. destruct (Hm' w) as [Hf Hs]. unfold mtry, mbind_. split.
  - intros w' E. by rewrite (Hf w' E).
  - intros w' E. destruct (Hs w' E) as (a & c' & -> & Hb & Hx). by eexists _, _.
Qed.

Lemma makes_semaphore m i : CountingSemaphoreState.new m i = Ok (CountingSemaphoreState.mk m i) →
  CountingSemaphoreState.wf (CountingSemaphoreState.mk m i) →
  makes (Spec.ASemaphore m i) (s <-? semaphore_new m i ;; mret_ (Ok (OSemaphore s))).
Proof.
  intros En Hw. apply map_makes. intros w. unfold semaphore_new. rewrite En. split; intros w' E; unfold mtry, mbind_; rewrite E; simpl; [done|].
  native.
  native. simpl. by eexists _, _.
Qed.

Lemma posix_new s c : ok s →
  match Spec.constructed limits c with
  | None => True
  | Some (Err e) => new c s = Done (Err e, s)
  | Some (Ok x) =>
      if running s then Z.of_nat (size (objects s)) < Spec.max_objects limits →
        ∃ r s', new c s = Done (Ok r, s') ∧ ok s' ∧ running s' = true ∧
          objects s !! r = None ∧ objects s' = <[r:=(x, 1%nat)]> (objects s)
      else new c s = Done (Err Error.NotInitialized, s)
  end.
Proof.
  intros O. destruct c as [c m|m i| |v]; simpl.
  - destruct ((c <? 0) || (m <? 0)) eqn:En; [done|].
    destruct (c =? 0) eqn:Ec; simpl.
    { unfold new, mtry, mbind_, on_world. simpl. unfold queue_new, Validation.validate_queue_capacity. rewrite Ec. by destruct s. }
    destruct (m =? 0) eqn:Em; simpl.
    { unfold new, mtry, mbind_, on_world. simpl. unfold queue_new, Validation.validate_queue_capacity, Validation.validate_queue_message_size.
      rewrite Ec, Em. by destruct s. }
    destruct (c * m <=? uint_max usize_bits) eqn:El; [|done]. bool_to_prop.
    assert (∃ b, ByteQueue.new alloc c m = Ok b ∧ ByteQueue.capacity b = c ∧ ByteQueue.message_size b = m) as (b & Eb & Hcb & Hmb).
    { unfold ByteQueue.new, checked_mul, uint_max in *. rewrite (proj2 (Z.eqb_neq c 0)), (proj2 (Z.eqb_neq m 0)) by lia. simpl.
      rewrite (proj2 (Z.ltb_lt (c * m) (2 ^ usize_bits))) by lia. simpl. eauto. }
    rewrite <- (ByteQueueFacts.abs_new alloc c m b Eb). apply posix_make; [done|]. simpl. apply map_makes. intros w.
    unfold queue_new, Validation.validate_queue_capacity, Validation.validate_queue_message_size.
    rewrite (proj2 (Z.eqb_neq c 0)), (proj2 (Z.eqb_neq m 0)) by lia.
    split; intros w' E; unfold mtry, mbind_; rewrite E; simpl; [done|].
    native.
    native. native.
    unfold or_undo, mbind_, on_clib, mret_. simpl. rewrite Eb. simpl. eexists _, _. split; [done|]. split; [|done].
    split; [by apply (ByteQueue.new_wf alloc c m); [lia..|]|]. by split.
  - destruct (negb _) eqn:En; [done|]. bool_to_prop. destruct (m =? 0) eqn:Em; simpl.
    { unfold new, mtry, mbind_, on_world. simpl. unfold semaphore_new, CountingSemaphoreState.new. rewrite Em. by destruct s. }
    destruct (m <? i) eqn:Ei; simpl.
    { unfold new, mtry, mbind_, on_world. simpl. unfold semaphore_new, CountingSemaphoreState.new. rewrite Em, Ei. by destruct s. }
    apply posix_make; [done|]. apply makes_semaphore; [unfold CountingSemaphoreState.new; by rewrite Em, Ei|].
    bool_to_prop. split; simpl; lia.
  - apply posix_make; [done|]. by apply makes_semaphore; [|split; simpl; lia].
  - apply posix_make; [done|]. simpl. apply map_makes. intros w. unfold mutex_object_new.
    split; intros w' E; unfold mtry, mbind_; rewrite E; simpl; [done|].
    native. simpl. eexists _, _. split; [done|]. split; [done|].
    unfold abstract. simpl. by rewrite Hfresh.
Qed.

(** *** Calls *)

Lemma posix_objects_lookup s r x n : ok s → objects s !! r = Some (x, n) →
  ∃ c, cells s !! r = Some c ∧ cell_ok s r c ∧ x = abstract c ∧ n = strong c.
Proof.
  intros O E. unfold objects in E. rewrite lookup_fmap in E. destruct (cells s !! r) as [c|] eqn:Er; [|done].
  simpl in E. simplify_eq. exists c. split; [done|]. split; [by apply O|done].
Qed.

(** Writing one cell, with any number of calls on the clock. *)
Lemma posix_put_cell s r c c' n : ok s → cells s !! r = Some c → cell_ok s r c' →
  let s' := mkState (wld s) (<[r:=c']> (cells s)) (next_ref s) n in
  ok s' ∧ running s' = running s ∧ objects s' = <[r:=(abstract c', strong c')]> (objects s).
Proof.
  intros [R Hcs] E Hok. split; [|split; [done|unfold objects; simpl; by rewrite fmap_insert]]. split.
  - simpl. rewrite map_size_insert_Some by by rewrite E. exact R.
  - simpl. intros p d [[<- <-]|[Hne Ed]]%lookup_insert_Some; [done|]. by apply Hcs.
Qed.

Lemma posix_same_cell s r c : cells s !! r = Some c → objects s = <[r:=(abstract c, strong c)]> (objects s).
Proof. intros E. symmetry. apply insert_id. unfold objects. by rewrite lookup_fmap, E. Qed.

(** A deadline can always be computed. *)
Lemma deadline_ok i d : Spec.prompt limits (Timeout.After d) = true → ∃ dl, PosixTime.abs_deadline (reading i) d = Ok dl.
Proof.
  intros Hp. simpl in Hp. apply andb_true_iff in Hp as [Hd Hs%Z.leb_le]. apply bool_decide_eq_true in Hd. destruct (Hclock i) as [V Hlt].
  destruct (PosixTime.abs_deadline_spec _ d V Hd) as [(t & E & _)|[_ Ho]]; [eauto|]. exfalso.
  destruct Hd as [Hds Hns], V as [Vs Vn]. unfold PosixTime.TS_MAX, PosixTime.nanos, Duration.as_nanos, PosixTime.NSEC, MAX_WAIT in *.
  unfold Duration.NANOS_PER_SEC, Duration.as_secs in *. lia.
Qed.

(** How a queue operation of the only thread ends. *)
Definition settles (o : PosixQueue.call) (b : ByteQueue.t) (y : PosixQueue.ret) (q' : Fifo.t) : Prop := ∀ n i,
  ∃ b', Solo.run n o (reading i) b = Done (y, b') ∧ ByteQueue.wf b' ∧ ByteQueueFacts.abs b' = q'.

Lemma settled s r c q o y q' : ok s → cells s !! r = Some c → body c = OQueue q → settles o (q_buffer q) y q' →
  Fifo.bound q' = q_capacity q → Fifo.msg_len q' = q_message_size q →
  ∃ s', queue_op r o s = Done (y, s') ∧ ok s' ∧ running s' = running s ∧ objects s' = <[r:=(Spec.AQueue q', strong c)]> (objects s).
Proof.
  intros O E Eb Hs Hcp Hms. destruct (Hs (wakes (calls s)) (calls s)) as (b' & Er & Wb & <-).
  exists (mkState (wld s) (<[r:=mkCell (strong c) (OQueue (with_buffer q b')) (lock c)]> (cells s)) (next_ref s) (S (calls s))). split.
  { unfold queue_op, inner_queue, deref, mbind_, begin_call, mrun, mmodify, mret_, set_cell. rewrite E. simpl. rewrite Eb. simpl. by rewrite Er. }
  destruct (proj2 O _ _ E) as (H1 & H2 & _).
  apply (posix_put_cell s r c (mkCell (strong c) (OQueue (with_buffer q b')) (lock c)) (S (calls s)) O E).
  split; [done|]. split; [done|]. simpl in *. by rewrite <- Hcp, <- Hms.
Qed.

Lemma send_settles b d t r q' : ByteQueue.wf b →
  Spec.queue_step limits (Client.Send d t) (ByteQueueFacts.abs b) = Some (r, q') → settles (PosixQueue.CSend d t) b (r, []) q'.
Proof.
  intros W Es n i. simpl in Es. destruct (ByteQueueFacts.try_send_refines b d W) as (b' & Et & Wb & Eb).
  unfold Fifo.send in Es, Et, Eb. rewrite ByteQueueFacts.abs_full in Es, Et, Eb by done. simpl in Es, Et, Eb.
  assert (∀ x dl ws b1, m_start (PosixQueue.CSend d t) (reading i) b = Done (Return (x, []), dl, b1, ws) → ByteQueue.wf b1 → r = x → ByteQueueFacts.abs b1 = q' →
    ∃ b', Solo.run n (PosixQueue.CSend d t) (reading i) b = Done ((r, []), b') ∧ ByteQueue.wf b' ∧ ByteQueueFacts.abs b' = q') as Hret.
  { intros x dl ws b1 Em W1 -> <-. exists b1. split; [by eapply Solo.run_return|done]. }
  unfold Spec.timed in Es. destruct (Spec.prompt limits t) eqn:Hp; [|by destruct (negb _), (ByteQueue.closed b), (ByteQueue.is_full b)]. simpl in Es.
  simpl in Hret. unfold PosixQueue.send_start, Validation.validate_send_message_size, PosixQueue.send_iter, ByteQueue.is_closed in Hret.
  destruct (negb (Z.of_nat (length d) =? ByteQueue.message_size b)) eqn:Hsz.
  { simpl in Es. injection Es as <- <-. by eapply Hret. }
  destruct (ByteQueue.closed b) eqn:Hcl.
  { simpl in Es. injection Es as <- <-. by eapply Hret. }
  rewrite Et in Hret. destruct (ByteQueue.is_full b) eqn:Hfl; simpl in *.
  - destruct t as [|dur|]; [injection Es as <- <-; by eapply Hret| |done]. injection Es as <- <-.
    destruct (deadline_ok i dur Hp) as [dl Hdl]. exists b. split; [|done]. apply negb_false_iff, Z.eqb_eq in Hsz.
    pose proof (ByteQueueFacts.try_send_full b d W Hsz Hcl Hfl) as Ef.
    apply (Solo.run_timeout n (PosixQueue.CSend d (Timeout.After dur)) (reading i) b PosixQueue.NotFull PosixQueue.NotFull dl [] [] (Err Error.Timeout, [])); [done|..];
      simpl; unfold PosixQueue.send_start, Validation.validate_send_message_size, PosixQueue.send_iter, ByteQueue.is_closed.
    + rewrite (proj2 (Z.eqb_eq _ _) Hsz), Hcl, Hdl. simpl. rewrite Ef. done.
    + rewrite Hcl, Ef. done.
  - injection Es as <- <-. destruct t as [|dur|]; [by eapply Hret| |by eapply Hret].
    destruct (deadline_ok i dur Hp) as [dl Hdl]. rewrite Hdl in Hret. by eapply Hret.
Qed.

Lemma recv_settles b buf t r out q' : ByteQueue.wf b →
  Spec.queue_step limits (Client.Recv buf t) (ByteQueueFacts.abs b) = Some ((r, out), q') → settles (PosixQueue.CRecv buf t) b (r, out) q'.
Proof.
  intros W Es n i. simpl in Es. destruct (ByteQueueFacts.try_recv_refines b buf W) as (b' & out' & Et & Wb & Eb).
  unfold Fifo.recv in Es, Et, Eb. simpl in Es, Et, Eb.
  assert (∀ x dl ws b1, m_start (PosixQueue.CRecv buf t) (reading i) b = Done (Return x, dl, b1, ws) → ByteQueue.wf b1 → (r, out) = x → ByteQueueFacts.abs b1 = q' →
    ∃ b', Solo.run n (PosixQueue.CRecv buf t) (reading i) b = Done ((r, out), b') ∧ ByteQueue.wf b' ∧ ByteQueueFacts.abs b' = q') as Hret.
  { intros x dl ws b1 Em W1 <- <-. exists b1. split; [by eapply Solo.run_return|done]. }
  unfold Spec.timed in Es. destruct (Spec.prompt limits t) eqn:Hp; [|by destruct (negb _); [|destruct (ByteQueue.messages b)]].
  simpl in Hret. unfold PosixQueue.recv_start, Validation.validate_recv_buffer_size, PosixQueue.recv_iter, ByteQueue.is_closed, ByteQueue.is_empty in Hret.
  destruct (negb (Z.of_nat (length buf) =? ByteQueue.message_size b)) eqn:Hsz.
  { simpl in Es. injection Es as <- <- <-. by eapply Hret. }
  rewrite Et in Hret. assert (length (ByteQueue.messages b) = Z.to_nat (ByteQueue.len b)) as Hlen by apply ByteQueue.messages_length.
  pose proof (ByteQueue.wf_len _ W) as Hl.
  destruct (ByteQueue.messages b) as [|m ms] eqn:Hms; simpl in *.
  - assert (ByteQueue.len b = 0) as Hz by lia. rewrite (proj2 (Z.eqb_eq _ _) Hz) in Hret. destruct (ByteQueue.closed b) eqn:Hcl; simpl in *.
    + injection Es as <- <- <-. apply pair_equal_spec in Eb as [Eb ->].
      destruct t as [|dur|]; [by eapply Hret| |]; [|by eapply Hret].
      destruct (deadline_ok i dur Hp) as [dl Hdl]. rewrite Hdl in Hret. by eapply Hret.
    + apply negb_false_iff, Z.eqb_eq in Hsz. pose proof (ByteQueueFacts.try_recv_empty b buf W Hsz Hcl Hz) as Ef.
      destruct t as [|dur|]; [| |done]; injection Es as <- <- <-.
      * apply pair_equal_spec in Eb as [Eb ->]. by eapply Hret.
      * destruct (deadline_ok i dur Hp) as [dl Hdl]. exists b. split; [|done].
        apply (Solo.run_timeout n (PosixQueue.CRecv buf (Timeout.After dur)) (reading i) b PosixQueue.NotEmpty PosixQueue.NotEmpty dl [] [] (Err Error.Timeout, buf)); [done|..];
          simpl; unfold PosixQueue.recv_start, Validation.validate_recv_buffer_size, PosixQueue.recv_iter, ByteQueue.is_closed, ByteQueue.is_empty.
        -- rewrite (proj2 (Z.eqb_eq _ _) Hsz), Hdl, Hz, Hcl. simpl. rewrite Ef. done.
        -- rewrite Hz, Hcl, Ef. done.
  - injection Es as <- <- <-. apply pair_equal_spec in Eb as [Eb ->]. assert ((ByteQueue.len b =? 0) = false) as Hz by (apply Z.eqb_neq; lia).
    rewrite Hz, andb_false_r in Hret. simpl in Hret. destruct t as [|dur|]; [by eapply Hret| |by eapply Hret].
    destruct (deadline_ok i dur Hp) as [dl Hdl]. rewrite Hdl in Hret. by eapply Hret.
Qed.

Lemma close_settles b : ByteQueue.wf b → settles PosixQueue.CClose b (Ok (), []) (Fifo.close (ByteQueueFacts.abs b)).
Proof.
  intros W n i. destruct (ByteQueueFacts.close_refines b W) as [Wc Ec].
  destruct (ByteQueue.closed b) eqn:Hcl.
  - exists b. split; [eapply Solo.run_return; simpl; unfold PosixQueue.close, ByteQueue.is_closed; by rewrite Hcl|].
    split; [done|]. unfold Fifo.close, ByteQueueFacts.abs. simpl. by rewrite Hcl.
  - exists (ByteQueue.close b). split; [eapply Solo.run_return; simpl; unfold PosixQueue.close, ByteQueue.is_closed; by rewrite Hcl|done].
Qed.

Lemma posix_queue R (c : Client.queue_call R) s r q n res q' : ok s → objects s !! r = Some (Spec.AQueue q, n) →
  Spec.queue_step limits c q = Some (res, q') →
  ∃ s', queue_call r c s = Done (res, s') ∧ ok s' ∧ running s' = running s ∧ objects s' = <[r:=(Spec.AQueue q', n)]> (objects s).
Proof.
  intros O Er Es. destruct (posix_objects_lookup s r _ n O Er) as (cl & E & (_ & _ & Hok) & Ha & ->).
  unfold abstract in Ha. destruct (body cl) as [x|qu|m] eqn:Eb; try done. injection Ha as ->. destruct Hok as (W & Hcp & Hms).
  destruct (Suite.queue_step_shape limits c _ _ _ Es) as [Hb Hl]. simpl in Hb, Hl. rewrite <- Hcp in Hb. rewrite <- Hms in Hl.
  pose proof (posix_same_cell s r cl E) as Hsame. unfold abstract in Hsame. rewrite Eb in Hsame.
  assert (inner_queue r s = Done ((cl, qu), s)) as Ei by (unfold inner_queue, deref, mbind_; rewrite E; simpl; by rewrite Eb).
  destruct c as [d t|buf t| | | |].
  - destruct (settled s r cl qu _ _ q' O E Eb (send_settles _ d t _ _ W Es) Hb Hl) as (s' & Eo & Hs'). exists s'. split; [|done].
    simpl. unfold mbind_. by rewrite Eo.
  - destruct res as [rr out]. destruct (settled s r cl qu _ _ q' O E Eb (recv_settles _ buf t _ _ _ W Es) Hb Hl) as (s' & Eo & Hs').
    exists s'. by split.
  - simpl in Es. injection Es as <- <-. destruct (settled s r cl qu _ _ _ O E Eb (close_settles _ W) Hb Hl) as (s' & Eo & Hs'). exists s'.
    split; [|done]. simpl. unfold mbind_. by rewrite Eo.
  - simpl in Es. injection Es as <- <-. exists s. split; [|done]. simpl. unfold mbind_. rewrite Ei. unfold mret_, capacity. simpl. by rewrite Hcp.
  - simpl in Es. injection Es as <- <-. exists s. split; [|done]. simpl. unfold mbind_. rewrite Ei. unfold mret_, msg_size. simpl. by rewrite Hms.
  - simpl in Es. injection Es as <- <-. exists s. split; [|done]. simpl. unfold mbind_. rewrite Ei. unfold mret_, len. simpl.
    rewrite ByteQueue.messages_length. destruct W. by rewrite Z2Nat.id by lia.
Qed.

(** Semaphores. *)
Lemma semaphore_settled s r c x o y st' : ok s → cells s !! r = Some c → body c = OSemaphore x →
  (∀ n i, Solo.run n o (reading i) (s_state x) = Done (y, st')) → CountingSemaphoreState.wf st' →
  CountingSemaphoreState.max_count st' = s_max_count x →
  ∃ s', semaphore_op r o s = Done (y, s') ∧ ok s' ∧ running s' = running s ∧
    objects s' = <[r:=(Spec.ASemaphore (s_max_count x) (CountingSemaphoreState.count st'), strong c)]> (objects s).
Proof.
  intros O E Eb Hr W Hmx.
  exists (mkState (wld s) (<[r:=mkCell (strong c) (OSemaphore (with_state x st')) (lock c)]> (cells s)) (next_ref s) (S (calls s))). split.
  { unfold semaphore_op, inner_semaphore, deref, mbind_, begin_call, mrun, mmodify, mret_, set_cell. rewrite E. simpl. rewrite Eb. simpl. by rewrite Hr. }
  destruct (proj2 O _ _ E) as (H1 & H2 & _). rewrite <- Hmx.
  apply (posix_put_cell s r c (mkCell (strong c) (OSemaphore (with_state x st')) (lock c)) (S (calls s)) O E). split; [done|]. by split.
Qed.

Lemma acquire_settles x t r st' : CountingSemaphoreState.wf x →
  Spec.semaphore_step limits (Client.Acquire t) (CountingSemaphoreState.max_count x) (CountingSemaphoreState.count x) = Some (r, st') →
  ∀ n i, Solo.run n (PosixSemaphore.Acquire t) (reading i) x =
    Done (r, CountingSemaphoreState.mk (CountingSemaphoreState.max_count x) st').
Proof.
  intros W Es n i. simpl in Es. destruct (Spec.prompt limits t) eqn:Hp; [|done]. simpl in Es.
  pose proof (CountingSemaphoreState.try_acquire_spec x W) as Et.
  destruct (0 <? CountingSemaphoreState.count x) eqn:H0; simpl in Es.
  - injection Es as <- <-. eapply Solo.run_return. simpl. unfold PosixSemaphore.acquire_start. rewrite Et. done.
  - assert (CountingSemaphoreState.mk (CountingSemaphoreState.max_count x) (CountingSemaphoreState.count x) = x) as Ex by by destruct x.
    destruct t as [|d|]; [| |done]; injection Es as <- <-; rewrite Ex.
    + eapply Solo.run_return. simpl. unfold PosixSemaphore.acquire_start. rewrite Et. done.
    + destruct (Duration.eqb d Duration.ZERO) eqn:Ez.
      { eapply Solo.run_return. simpl. unfold PosixSemaphore.acquire_start. rewrite Et. simpl. by rewrite Ez. }
      destruct (deadline_ok i d Hp) as [dl Hdl].
      apply (Solo.run_timeout n (PosixSemaphore.Acquire (Timeout.After d)) (reading i) x PosixSemaphore.Available PosixSemaphore.Available dl [] []);
        [done|..]; simpl; unfold PosixSemaphore.acquire_start, PosixSemaphore.acquire_iter; rewrite Et; simpl; [|done].
      by rewrite Ez, Hdl, Et.
Qed.

Lemma release_settles x r st' : CountingSemaphoreState.wf x →
  Spec.semaphore_step limits Client.Release (CountingSemaphoreState.max_count x) (CountingSemaphoreState.count x) = Some (r, st') →
  ∀ n i, Solo.run n PosixSemaphore.Release (reading i) x =
    Done (r, CountingSemaphoreState.mk (CountingSemaphoreState.max_count x) st').
Proof.
  intros W Es n i. simpl in Es. pose proof (CountingSemaphoreState.release_spec x W) as Et.
  destruct (_ <? _) eqn:H0; injection Es as <- <-; eapply Solo.run_return; simpl; unfold PosixSemaphore.release; rewrite Et; simpl; [done|].
  by destruct x.
Qed.

Lemma posix_semaphore R (c : Client.semaphore_call R) s r m i n res i' : ok s → objects s !! r = Some (Spec.ASemaphore m i, n) →
  Spec.semaphore_step limits c m i = Some (res, i') →
  ∃ s', semaphore_call r c s = Done (res, s') ∧ ok s' ∧ running s' = running s ∧ objects s' = <[r:=(Spec.ASemaphore m i', n)]> (objects s).
Proof.
  intros O Er Es. destruct (posix_objects_lookup s r _ n O Er) as (cl & E & (_ & _ & Hok) & Ha & ->).
  unfold abstract in Ha. destruct (body cl) as [x|qu|mu] eqn:Eb; try done. injection Ha as -> ->. destruct Hok as (W & Hmx).
  pose proof (posix_same_cell s r cl E) as Hsame. unfold abstract in Hsame. rewrite Eb in Hsame.
  assert (inner_semaphore r s = Done ((cl, x), s)) as Ei by (unfold inner_semaphore, deref, mbind_; rewrite E; simpl; by rewrite Eb).
  assert (∀ i', 0 ≤ i' ≤ CountingSemaphoreState.max_count (s_state x) →
    CountingSemaphoreState.wf (CountingSemaphoreState.mk (CountingSemaphoreState.max_count (s_state x)) i')) as Hw by (intros; destruct W; split; simpl; lia).
  destruct c as [t| | |]; rewrite <- Hmx.
  - apply (semaphore_settled s r cl x (PosixSemaphore.Acquire t) res (CountingSemaphoreState.mk (CountingSemaphoreState.max_count (s_state x)) i'));
      [done..|by apply acquire_settles| |done]. apply Hw. simpl in Es. destruct W.
    destruct (Spec.prompt limits t); [|done]. simpl in Es. destruct (0 <? _) eqn:Hcmp; [|destruct t; [| |done]]; injection Es as <- <-; bool_to_prop; lia.
  - apply (semaphore_settled s r cl x PosixSemaphore.Release res (CountingSemaphoreState.mk (CountingSemaphoreState.max_count (s_state x)) i'));
      [done..|by apply release_settles| |done]. apply Hw. simpl in Es. destruct W.
    destruct (_ <? _) eqn:Hcmp; injection Es as <- <-; bool_to_prop; lia.
  - simpl in Es. injection Es as <- <-. exists s. split; [|by rewrite Hmx]. simpl. unfold mbind_. rewrite Ei. unfold mret_, max_count. simpl. by rewrite Hmx.
  - simpl in Es. injection Es as <- <-. exists s. split; [|by rewrite Hmx]. simpl. unfold mbind_. by rewrite Ei.
Qed.

(** Mutexes: how often the only thread polls does not matter. *)
Lemma lock_rounds_free k t n : owner n = None → ∃ n', lock_rounds k t n = Done (Ok (), n') ∧ owner n' = Some me.
Proof.
  intros Ho. pose proof (law_lock me n) as L. pose proof (law_trylock_ec me n) as T. rewrite Ho in L, T.
  destruct L as (n1 & El & H1), T as (n2 & Et & H2).
  destruct k; destruct t as [|d|]; simpl; rewrite ?El, ?Et; simpl; try destruct (Duration.eqb d Duration.ZERO); eauto.
Qed.

Lemma lock_rounds_held k t n : owner n = Some me → t ≠ Timeout.Forever →
  lock_rounds k t n = Done (Err (match t with Timeout.NoWait => Error.LockFailed | _ => Error.Timeout end), n).
Proof.
  intros Ho Ht. pose proof (law_trylock_ec me n) as T. rewrite Ho in T. destruct t as [|d|]; [| |done].
  - destruct k; simpl; by rewrite T.
  - induction k as [|k IH]; simpl; rewrite T; simpl; destruct (Duration.eqb d Duration.ZERO); done || by rewrite IH.
Qed.

Lemma lock_call_rounds k i t n : Spec.prompt limits t = true → lock_call k (reading i) t n = lock_rounds k t n.
Proof.
  intros Hp. unfold lock_call. destruct t as [|d|]; try done. destruct (PosixMutexObject.needs_deadline _); [|done].
  destruct (deadline_ok i d Hp) as [dl ->]. done.
Qed.

Lemma put_mutex s r c m v n k : ok s → cells s !! r = Some c → body c = OMutex m → owner n = None ∨ owner n = Some me →
  let s' := mkState (wld s) (<[r:=mkCell (strong c) (OMutex (mkMutex (m_raw m) v)) n]> (cells s)) (next_ref s) k in
  ok s' ∧ running s' = running s ∧ objects s' = <[r:=(Spec.AMutex v (bool_decide (owner n = Some me)), strong c)]> (objects s).
Proof.
  intros O E Eb Ho. destruct (proj2 O _ _ E) as (H1 & H2 & _).
  apply (posix_put_cell s r c (mkCell (strong c) (OMutex (mkMutex (m_raw m) v)) n) k O E). split; [done|]. by split.
Qed.

Lemma posix_mutex R (c : Client.mutex_call R) s r v b n res v' b' : ok s → objects s !! r = Some (Spec.AMutex v b, n) →
  Spec.mutex_step limits c v b = Some (res, v', b') →
  ∃ s', mutex_call r c s = Done (res, s') ∧ ok s' ∧ running s' = running s ∧ objects s' = <[r:=(Spec.AMutex v' b', n)]> (objects s).
Proof.
  intros O Er Es. destruct (posix_objects_lookup s r _ n O Er) as (cl & E & (_ & _ & Hok) & Ha & ->).
  unfold abstract in Ha. destruct (body cl) as [x|qu|mu] eqn:Eb; try done. injection Ha as -> ->.
  pose proof (posix_same_cell s r cl E) as Hsame. unfold abstract in Hsame. rewrite Eb in Hsame.
  assert (inner_mutex r s = Done ((cl, mu), s)) as Ei by (unfold inner_mutex, deref, mbind_; rewrite E; simpl; by rewrite Eb).
  assert (∀ v n k, owner n = None ∨ owner n = Some me → let s' := mkState (wld s) (<[r:=mkCell (strong cl) (OMutex (mkMutex (m_raw mu) v)) n]> (cells s)) (next_ref s) k in
    ok s' ∧ running s' = running s ∧ objects s' = <[r:=(Spec.AMutex v (bool_decide (owner n = Some me)), strong cl)]> (objects s)) as Hput
    by (intros; by apply put_mutex).
  destruct c as [t| |w|]; simpl in Es |- *; unfold mbind_; rewrite Ei; simpl.
  - destruct (Spec.prompt limits t) eqn:Hp; [simpl in Es|done]. unfold mrun. rewrite lock_call_rounds by done.
    case_bool_decide as Ho.
    + assert (t ≠ Timeout.Forever ∧ v' = m_data mu ∧ b' = true ∧ res = Err (match t with Timeout.NoWait => Error.LockFailed | _ => Error.Timeout end)) as (Ht & -> & -> & ->)
        by (destruct t; by simplify_eq).
      rewrite (lock_rounds_held _ t _ Ho Ht). simpl. eexists. split; [done|].
      pose proof (Hput (m_data mu) (lock cl) (S (calls s)) (or_intror Ho)) as Hput'. by rewrite bool_decide_true in Hput'.
    + assert (owner (lock cl) = None) as Hn by by destruct Hok.
      destruct (lock_rounds_free (wakes (calls s)) t _ Hn) as (n' & -> & Ho'). simplify_eq/=. eexists. split; [done|].
      pose proof (Hput (m_data mu) n' (S (calls s)) (or_intror Ho')) as Hput'. by rewrite bool_decide_true in Hput'.
  - case_bool_decide; simplify_eq. by exists s.
  - case_bool_decide as Ho; simplify_eq. eexists. split; [done|].
    pose proof (Hput v' (lock cl) (calls s) (or_intror Ho)) as Hput'. by rewrite bool_decide_true in Hput'.
  - case_bool_decide as Ho; simplify_eq. pose proof (law_unlock me (lock cl)) as L. rewrite decide_True in L by done.
    destruct L as (n' & Eu & Hn). unfold PosixMutexObject.guard_drop. rewrite Eu. simpl. eexists. split; [done|].
    pose proof (Hput (m_data mu) n' (calls s) (or_introl Hn)) as Hput'. rewrite bool_decide_false in Hput'; [done|by rewrite Hn].
Qed.

(** *** Handles *)

Lemma posix_clone s r x n : ok s → objects s !! r = Some (x, n) → Z.of_nat n < Spec.max_handles limits →
  ∃ s', clone r s = Done ((), s') ∧ ok s' ∧ running s' = running s ∧ objects s' = <[r:=(x, S n)]> (objects s).
Proof.
  intros O Er _. destruct (posix_objects_lookup s r x n O Er) as (c & E & (H1 & H2 & H3) & -> & ->).
  unfold clone, deref, mbind_, mmodify, set_cell. rewrite E. simpl. eexists. split; [done|].
  apply (posix_put_cell s r c (mkCell (S (strong c)) (body c) (lock c)) (calls s) O E). split; [done|]. split; [simpl; lia|done].
Qed.

Lemma destroy_leases (o : object (T:=Z)) w n : runtime_ok true (S n) (runtime w) →
  ∃ w', destroy o w = Done ((), w') ∧ runtime_ok true n (runtime w').
Proof.
  intros R. destruct (posix_lease_drop n _ R) as (r' & Ed & R').
  destruct o as [x|q|m]; simpl; unfold semaphore_drop, queue_drop, mutex_object_drop, mutex_drop, condvar_drop, mbind_, on_clib, mmodify, lease_drop;
    simpl; rewrite Ed; by eexists.
Qed.

Lemma posix_drop s r x n : ok s → objects s !! r = Some (x, n) →
  ∃ s', drop r s = Done ((), s') ∧ ok s' ∧ running s' = running s ∧
    objects s' = match n with S (S n) => <[r:=(x, S n)]> (objects s) | _ => delete r (objects s) end.
Proof.
  intros O Er. destruct (posix_objects_lookup s r x n O Er) as (c & E & (H1 & H2 & H3) & -> & ->).
  unfold drop, deref, mbind_. rewrite E. simpl. destruct (strong c) as [|[|k]] eqn:Es; [lia| |].
  - destruct (proj1 O) as (El & Et & Hn & H0).
    assert (running s = true) as Hr.
    { destruct (running s); [done|]. specialize (H0 eq_refl). apply map_size_empty_inv in H0. by rewrite H0, lookup_empty in E. }
    assert (size (cells s) = Datatypes.S (size (delete r (cells s)))) as Hsz.
    { rewrite map_size_delete_Some by done. destruct (size (cells s)) eqn:Hz; [|lia]. apply map_size_empty_inv in Hz. by rewrite Hz, lookup_empty in E. }
    pose proof (proj1 O) as R. rewrite Hr, Hsz in R. destruct (destroy_leases (body c) (wld s) _ R) as (w' & Ed & R').
    unfold mmodify, on_world. simpl. rewrite Ed. simpl. eexists. split; [done|].
    assert (running (mkState w' (delete r (cells s)) (next_ref s) (calls s)) = true) as Hr' by (eapply running_life; apply R').
    split; [split|].
    + by rewrite Hr'.
    + simpl. intros p d [_ Ep]%lookup_delete_Some. by apply O.
    + split; [by rewrite Hr|]. unfold objects. simpl. by rewrite fmap_delete.
  - unfold mmodify, set_cell. eexists. split; [done|].
    apply (posix_put_cell s r c (mkCell (Datatypes.S k) (body c) (lock c)) (calls s) O E). split; [done|]. split; [simpl; lia|done].
Qed.

Definition posix_backend_laws : @BackendLaws state posix_backend.
Proof.
  unshelve refine (Build_BackendLaws state posix_backend (λ _, ok) running objects limits _ _ _ _ _ _ _ _ _ _).
  - done.
  - intros _. exact posix_initialize.
  - intros _. exact posix_shutdown.
  - intros _. exact posix_state.
  - intros _. exact posix_new.
  - intros _. exact posix_queue.
  - intros _. exact posix_semaphore.
  - intros _. exact posix_mutex.
  - intros _. exact posix_clone.
  - intros _ s r x n O E _. by apply posix_drop.
Defined.

Lemma posix_initial (k : K) : ClientRun.initial (BackendLaws0:=posix_backend_laws) (mkState (mkWorld PosixRuntime.new k) ∅ 1 0).
Proof.
  assert (running (mkState (mkWorld PosixRuntime.new k) ∅ 1 0) = false) as Hr by by apply (running_life _ false 0).
  split; [|by split]. split; [|intros r c; simpl; by rewrite lookup_empty].
  pose proof RuntimeLifecycle.zero_le_MAX_COUNT. rewrite Hr. split; [done|]. split; [done|]. split; [simpl; rewrite map_size_empty; lia|done].
Qed.

End PosixClient.
End PosixClient.

(** ** The backends agree *)

Module BackendsAgree.
Import PosixObjects.

Section BackendsAgree.
Context `{Arch} {K N : Type} `{!Pthread K} `{!ErrorCheckMutex N} `{!ErrorCheckLaws N}.
Context (timers_start timers_stop : Result ()) (fresh : N) (reading : nat → timespec) (wakes : nat → nat).

(** A client program on the POSIX backend from the start of the process. *)
Definition on_posix {A} (p : Client.prog A) (k : K) :=
  ClientRun.run_on (Backend0:=PosixClient.posix_backend timers_start timers_stop fresh reading wakes) p
    (ClientRun.mkState (PosixClient.mkState (mkWorld PosixRuntime.new k) ∅ 1 0) ∅ 0).

(** C9: Equivalence: a client program that the specification runs to its end, within
    limits both backends have, gets the same results on the mock backend and on the
    POSIX backend, however the clock runs and however often waits end spuriously;
    neither panics, both end with their runtimes in the same state and as many
    objects, and every handle has the same object behind it.  The creation of native
    objects succeeds, the timer service starts and stops, and the clock stays away
    from its end. *)
Theorem mock_predicts_posix {A} (p : Client.prog A) l r a (k : K) :
  timers_start = Ok () → timers_stop = Ok () → plentiful (K:=K) mutexes → plentiful (K:=K) condvars → owner fresh = None →
  (∀ i, PosixTime.valid (reading i) ∧ PosixTime.tv_sec (reading i) < PosixTime.TIME_MAX - PosixClient.MAX_WAIT) →
  Suite.covers l (MockClient.limits (Spec.max_waits l)) → Suite.covers l (PosixClient.limits (Spec.max_waits l)) →
  Spec.run l p Spec.start = Some (r, a) →
  ∃ s s', MockClient.on_mock p = Done (r, s) ∧ on_posix p k = Done (r, s') ∧
    MockClient.running (ClientRun.backend s) = PosixClient.running (ClientRun.backend s') ∧
    size (MockClient.objects (ClientRun.backend s)) = size (PosixClient.objects (ClientRun.backend s')) ∧
    ∀ h o x n, Spec.handles a !! h = Some o → Spec.objects a !! o = Some (x, n) →
      ∃ rf rf', ClientRun.refs s !! h = Some rf ∧ MockClient.objects (ClientRun.backend s) !! rf = Some (x, n) ∧
        ClientRun.refs s' !! h = Some rf' ∧ PosixClient.objects (ClientRun.backend s') !! rf' = Some (x, n).
Proof.
  intros Hs Ht Hm Hc Hf Hk Cm Cp E.
  exact (Agreement.backends_agree (MockClient.mock_backend_laws (Spec.max_waits l))
    (PosixClient.posix_backend_laws timers_start timers_stop fresh reading wakes (Spec.max_waits l) Hs Ht Hm Hc Hf Hk) p l r a _ _
    Cm Cp (MockClient.mock_initial _) (PosixClient.posix_initial timers_start timers_stop fresh reading wakes (Spec.max_waits l) Hs Ht Hm Hc Hf Hk k) E).
Qed.

End BackendsAgree.
End BackendsAgree.

(** ** Witness: one queue object on both backends, with 64-bit words *)

Module PosixClientWitness.
Import Client PosixObjects.

#[local] Existing Instance arch64.

(** Every creation succeeds with the next address. *)
Definition calm_family : family Z :=
  mkFamily (λ k, (0, k, k + 1)) (λ _ _ k, (0, k)) (λ _ k, k) (λ _ k, (0, k, k + 1)) (λ _ k, k).
#[global] Instance calm_pthread : Pthread Z := {| mutexes := calm_family; condvars := calm_family |}.

Lemma calm_plentiful : plentiful calm_family.
Proof. split; intros; simpl; eauto. Qed.

Definition at_second (i : nat) : timespec := PosixTime.mkTimespec (Z.of_nat (i mod 100)) 0.

Definition small : Spec.limits := Spec.mkLimits 1 2 2 0 0.
Definition sample_end : Spec.world := default Spec.start (snd <$> Spec.run small MockClientWitness.sample Spec.start).

Lemma mock_predicts_posix_witness :
  ∃ s s', MockClient.on_mock MockClientWitness.sample = Done (([Byte.x07], Err Error.Busy), s) ∧
    BackendsAgree.on_posix (K:=Z) (N:=option Z) (Ok ()) (Ok ()) None at_second (λ i, i) MockClientWitness.sample 1 =
      Done (([Byte.x07], Err Error.Busy), s') ∧
    size (PosixClient.objects (ClientRun.backend s')) = 1%nat.
Proof.
  destruct (BackendsAgree.mock_predicts_posix (K:=Z) (N:=option Z) (Ok ()) (Ok ()) None at_second (λ i, i)
    MockClientWitness.sample small ([Byte.x07], Err Error.Busy) sample_end 1) as (s & s' & E & E' & _ & Hs & _).
  - reflexivity.
  - reflexivity.
  - exact calm_plentiful.
  - exact calm_plentiful.
  - reflexivity.
  - intros i. pose proof (Nat.mod_upper_bound i 100 ltac:(lia)). unfold PosixTime.valid, at_second. simpl.
    change PosixTime.TIME_MAX with (2 ^ 63 - 1). unfold PosixClient.MAX_WAIT, PosixTime.NSEC, Duration.NANOS_PER_SEC. lia.
  - split; [|split; [|split; [|split]]]; vm_compute; solve [congruence|lia].
  - split; [|split; [|split; [|split]]]; vm_compute; solve [congruence|lia].
  - vm_compute. reflexivity.
  - exists s, s'. split; [exact E|]. split; [exact E'|]. rewrite <- Hs.
    clear Hs E'. revert E. vm_compute. intros [= <-]. reflexivity.
Defined.

End PosixClientWitness.
