(* ===== verification/FreeRtosClient.v ===== *)
(** * The FreeRTOS backend as an implementation of the object API

    [FreeRtosClient] discharges the laws of [Client] for the FreeRTOS backend on
    the kernel of [Fixture]: the constructors of [FreeRtosSync], the wait engine
    and whole calls of [queue.rs], [semaphore.rs] and [mutex.rs] by one thread.

    Every wait that cannot succeed advances the tick counter, so the number of
    calls that may wait is bounded, unlike on the other backends. *)

From S2P Require Import Prelude Api Buffers Time Runtime Kernel Wait FreeRtosQueue FreeRtosSync FreeRtosRuntime Fixture FixtureWait.
From S2P Require Import MockTime Mock Client Contract MockClient.
Import Duration (as_nanos).

(** ** The backend *)

Module FreeRtosClient.
Import FixtureFacts FixtureWait.
Abbreviation kern := Fixture.t.

Section FreeRtosClient.
Context `{Arch}.

(** The thread, the spurious wake-ups of its waits, and the results of
    [timer_service::initialize] and [shutdown]. *)
Context (me : Z) (wakes : nat → nat) (timers_start timers_stop : Result ()).
#[local] Hint Extern 0 (NativeObjects kern) => exact (Fixture.native_objects me wakes) : typeclass_instances.

Definition alloc : Z → bool := λ _, true.
#[local] Abbreviation probed := (kernel_capabilities (K:=kern)).

Record cell : Type := mkCell { strong : nat; body : Objects.object }.
Record state : Type := mkState {
  runtime : FreeRtosRuntime.t;
  kernel : kern;
  cells : gmap Z cell;
  next_ref : Z;
}.

Definition on_runtime {A} (f : FreeRtosRuntime.t → Run (A * FreeRtosRuntime.t)) : M state A := λ s,
  '(a, r) ← f (runtime s); Done (a, mkState r (kernel s) (cells s) (next_ref s)).
(** Constructors and drops work on the lifecycle word and the kernel. *)
Definition on_both {A} (m : M (Backend.t kern) A) : M state A := λ s,
  '(a, b) ← m (Backend.mk (FreeRtosRuntime.life (runtime s)) (kernel s));
  _ ← Fixture.check_panic (Backend.native b);
  Done (a, mkState (FreeRtosRuntime.set_life (runtime s) (Backend.life b)) (Backend.native b) (cells s) (next_ref s)).
Definition set_cell (r : Z) (c : cell) (s : state) : state := mkState (runtime s) (kernel s) (<[r:=c]> (cells s)) (next_ref s).
Definition deref (r : Z) : M state cell := λ s, c ← expect (cells s !! r) "dangling reference"; Done (c, s).
Definition capabilities : M state (option Sys.Capabilities) := λ s, Done (FreeRtosRuntime.capabilities (runtime s), s).

(** [runtime.rs]: the timer service, then the capabilities, then the commit *)
Fixpoint transition_steps (n : nat) (r : FreeRtosRuntime.t) : Run FreeRtosRuntime.t :=
  match n with
  | O => Done r
  | S n => r ← default (Panic "no transition") (FreeRtosRuntime.transition_step probed 0 r); transition_steps n r
  end.
Definition transition (begin : FreeRtosRuntime.t → Run (Result () * FreeRtosRuntime.t)) (service : Result ()) : M state (Result ()) :=
  _ <-? on_runtime begin ;;
  on_runtime (λ r,
    r ← expect (FreeRtosRuntime.timer_returned 0 service r) "no transition";
    r ← transition_steps (if is_ok service then 2 else 1) r;
    Done (service, r)).
Definition initialize : M state (Result ()) := transition FreeRtosRuntime.initialize_begin timers_start.
Definition shutdown : M state (Result ()) := transition FreeRtosRuntime.shutdown_begin timers_stop.
Definition runtime_state : M state RuntimeState.t := on_runtime (λ r, st ← FreeRtosRuntime.state r; Done (st, r)).

Definition ctor_of (c : Client.constructor) : Objects.ctor :=
  match c with
  | Client.NewQueue c m => Objects.CQueue c m
  | Client.NewSemaphore m i => Objects.CCounting m i
  | Client.NewBinary => Objects.CBinary
  | Client.NewMutex v => Objects.CMutex v
  end.
Definition new (c : Client.constructor) : M state (Result Z) :=
  o <-? on_both (Objects.construct alloc (ctor_of c)) ;;
  λ s, Done (Ok (next_ref s), mkState (runtime s) (kernel s) (<[next_ref s:=mkCell 1 o]> (cells s)) (next_ref s + 1)).

Definition clone (r : Z) : M state () := c <- deref r ;; mmodify (set_cell r (mkCell (S (strong c)) (body c))).
Definition drop (r : Z) : M state () :=
  c <- deref r ;;
  match strong c with
  | S (S n) => mmodify (set_cell r (mkCell (S n) (body c)))
  | _ =>
      mmodify (λ s, mkState (runtime s) (kernel s) (delete r (cells s)) (next_ref s)) ;;;
      on_both (Objects.destroy (body c))
  end.

(** A call on an object in the cell [r]. *)
Definition on_object {B A} (r : Z) (get : Objects.object → option B) (put : B → Objects.object)
    (m : option Sys.Capabilities → M (kern * B) A) : M state A :=
  c <- deref r ;;
  caps <- capabilities ;;
  λ s,
    x ← expect (get (body c)) "an object of another type";
    '(a, (k, x)) ← m caps (kernel s, x);
    _ ← Fixture.check_panic k;
    Done (a, mkState (runtime s) k (<[r:=mkCell (strong c) (put x)]> (cells s)) (next_ref s)).
Definition inner_queue (o : Objects.object) := match o with Objects.OQueue q => Some q | _ => None end.
Definition inner_semaphore (o : Objects.object) := match o with Objects.OSemaphore x => Some x | _ => None end.
Definition inner_mutex (o : Objects.object) := match o with Objects.OMutex m => Some m | _ => None end.

(** A call that only uses the kernel, or only the object. *)
Definition with_kernel {B A} (m : B → M kern A) : M (kern * B) A := λ s, '(a, k) ← m (snd s) (fst s); Done (a, (k, snd s)).
Definition look {B A} (f : B → A) : M (kern * B) A := λ s, Done (f (snd s), s).

Definition queue_call {R} (r : Z) (c : Client.queue_call R) : M state R :=
  on_object r inner_queue Objects.OQueue (λ caps,
    match c in Client.queue_call R return M (kern * FreeRtosQueueNew.QueueInner) R with
    | Client.Send d t => FreeRtosQueueCalls.send caps FUEL d t
    | Client.Recv b t => FreeRtosQueueCalls.recv caps FUEL b t
    | Client.Close => FreeRtosQueueCalls.close caps FUEL
    | Client.Capacity => look FreeRtosQueueNew.capacity
    | Client.MsgSize => look FreeRtosQueueNew.message_size
    | Client.Len => FreeRtosQueueCalls.queue_len caps FUEL
    end).
Definition semaphore_call {R} (r : Z) (c : Client.semaphore_call R) : M state R :=
  on_object r inner_semaphore Objects.OSemaphore (λ caps,
    match c in Client.semaphore_call R return M (kern * FreeRtosSemaphore.inner) R with
    | Client.Acquire t => with_kernel (λ x, FreeRtosSemaphore.acquire caps FUEL x t)
    | Client.Release => with_kernel FreeRtosSemaphore.release
    | Client.MaxCount => look FreeRtosSemaphore.max_count
    | Client.Count => with_kernel FreeRtosSemaphore.count
    end).
Definition mutex_call {R} (r : Z) (c : Client.mutex_call R) : M state R :=
  on_object r inner_mutex Objects.OMutex (λ caps,
    match c in Client.mutex_call R return M (kern * FreeRtosMutex.inner) R with
    | Client.Lock t => FreeRtosMutex.lock caps FUEL t
    | Client.GuardRead => look FreeRtosMutex.deref
    | Client.GuardWrite v => λ s, Done ((), (fst s, FreeRtosMutex.deref_mut (snd s) (λ _, v)))
    | Client.GuardDrop => FreeRtosMutex.guard_drop
    end).

Definition freertos_backend : Backend state := {|
  b_initialize := initialize;
  b_shutdown := shutdown;
  b_state := runtime_state;
  b_new := new;
  b_queue := @queue_call;
  b_semaphore := @semaphore_call;
  b_mutex := @mutex_call;
  b_clone := clone;
  b_drop := drop;
|}.

(** ** The abstract view *)

Definition abstract (k : kern) (o : Objects.object) : Spec.aobj :=
  match o with
  | Objects.OQueue q => Spec.AQueue (ByteQueueFacts.abs (FreeRtosQueue.buffer (FreeRtosQueueNew.state q)))
  | Objects.OSemaphore x => Spec.ASemaphore (FreeRtosSemaphore.max_count x) (Fixture.semaphore_count (FreeRtosSemaphore.native x) k)
  | Objects.OMutex m => Spec.AMutex (FreeRtosMutex.value m) (FreeRtosMutex.spin_locked m)
  end.
Definition objects (s : state) : gmap Z (Spec.aobj * nat) := (λ c, (abstract (kernel s) (body c), strong c)) <$> cells s.
Definition running (s : state) : bool :=
  match FreeRtosRuntime.state (runtime s) with Done RuntimeState.Running => true | _ => false end.

(** The native handles of an object. *)
Definition ids (o : Objects.object) : list Z :=
  match o with
  | Objects.OQueue q => [FreeRtosQueueNew.state_mutex q; FreeRtosQueueNew.sender_sem q; FreeRtosQueueNew.receiver_sem q]
  | Objects.OSemaphore x => [FreeRtosSemaphore.native x]
  | Objects.OMutex m => [FreeRtosMutex.native m]
  end.

Definition sem_ok (k : kern) (id max : Z) (P : Z → Prop) : Prop :=
  ∃ e, Fixture.semaphores (Fixture.fixture k) !! id = Some e ∧ quiet e ∧ 0 ≤ Fixture.count e ≤ max ∧ Fixture.max_count e = max ∧
    P (Fixture.count e).
Definition mutex_ok (k : kern) (id : Z) (locked : bool) : Prop :=
  ∃ e, Fixture.mutexes (Fixture.fixture k) !! id = Some e ∧ Fixture.m_deleted e = false ∧ Fixture.locked e = locked ∧
    (locked = true → Fixture.owner e = Some me).

Definition idle (q : FreeRtosQueueNew.QueueInner) : Prop :=
  let st := FreeRtosQueueNew.state q in
  st = FreeRtosQueue.initial_state (FreeRtosQueue.buffer st) ∧ ByteQueue.wf (FreeRtosQueue.buffer st) ∧
  FreeRtosQueueNew.capacity q = ByteQueue.capacity (FreeRtosQueue.buffer st) ∧
  FreeRtosQueueNew.message_size q = ByteQueue.message_size (FreeRtosQueue.buffer st).

Definition body_ok (k : kern) (o : Objects.object) : Prop :=
  match o with
  | Objects.OQueue q =>
      idle q ∧ mutex_ok k (FreeRtosQueueNew.state_mutex q) false ∧
      sem_ok k (FreeRtosQueueNew.sender_sem q) (uint_max 32) (λ n, n = 0) ∧
      sem_ok k (FreeRtosQueueNew.receiver_sem q) (uint_max 32) (λ n, n = 0)
  | Objects.OSemaphore x =>
      0 < FreeRtosSemaphore.max_count x < 2 ^ 32 ∧ sem_ok k (FreeRtosSemaphore.native x) (FreeRtosSemaphore.max_count x) (λ _, True)
  | Objects.OMutex m => mutex_ok k (FreeRtosMutex.native m) (FreeRtosMutex.spin_locked m)
  end.

(** The kernel at tick [x], with room for [n] more waits. *)
Record kern_ok (n : nat) (k : kern) : Prop := {
  ko_ticks : Fixture.ticks k = ticks_of (Fixture.monotonic_virtual_ticks k);
  ko_pos : 0 ≤ Fixture.monotonic_virtual_ticks k;
  ko_room : Fixture.monotonic_virtual_ticks k + (Z.of_nat n + 1) * COST < LIFE;
  ko_settings : Fixture.settings k = Fixture.default_settings;
  ko_blocked : in_uint 64 (Fixture.blocked_count k);
  ko_alive : Fixture.panicked k = false;
}.

Definition cell_ok (s : state) (r : Z) (c : cell) : Prop :=
  r < next_ref s ∧ (1 ≤ strong c)%nat ∧ body_ok (kernel s) (body c) ∧
  Forall (λ id, id < Fixture.next_id (Fixture.fixture (kernel s))) (ids (body c)).

(** Handles belong to one object. *)
Definition separate (s : state) : Prop := ∀ r r' c c' id, cells s !! r = Some c → cells s !! r' = Some c' →
  id ∈ ids (body c) → id ∈ ids (body c') → r = r'.

Definition life_of (b : bool) (n : nat) : Z :=
  RuntimeLifecycle.pack (if b then RuntimeState.Running else RuntimeState.Uninitialized) (Z.of_nat n).
Definition runtime_ok (b : bool) (n : nat) (r : FreeRtosRuntime.t) : Prop :=
  FreeRtosRuntime.life r = life_of b n ∧ FreeRtosRuntime.transitions r = [] ∧
  FreeRtosRuntime.caps r = (if b then Some probed else None) ∧
  Z.of_nat n ≤ RuntimeLifecycle.MAX_COUNT ∧ (b = false → n = 0%nat).

Record ok (n : nat) (s : state) : Prop := {
  o_runtime : runtime_ok (running s) (size (cells s)) (runtime s);
  o_kernel : kern_ok n (kernel s);
  o_cells : ∀ r c, cells s !! r = Some c → cell_ok s r c;
  o_separate : separate s;
}.

(** At most 2^16 calls that may wait. *)
Context (patience : nat).
Definition limits : Spec.limits :=
  Spec.mkLimits RuntimeLifecycle.MAX_COUNT (2 ^ 31) (uint_max usize_bits) (MAX_WAIT - 1) patience.

(** ** Frames *)

(** [k'] after [k]: [c] waits later at most, and of the native objects that were
    there only those in [own] differ. *)
Record frame (c : nat) (own : list Z) (k k' : kern) : Prop := {
  fr_settings : Fixture.settings k' = Fixture.settings k;
  fr_blocked : Fixture.blocked_count k' = Fixture.blocked_count k;
  fr_alive : Fixture.panicked k' = Fixture.panicked k;
  fr_next : Fixture.next_id (Fixture.fixture k) ≤ Fixture.next_id (Fixture.fixture k');
  fr_same : ∀ id, id < Fixture.next_id (Fixture.fixture k) → id ∉ own →
    Fixture.mutexes (Fixture.fixture k') !! id = Fixture.mutexes (Fixture.fixture k) !! id ∧
    Fixture.semaphores (Fixture.fixture k') !! id = Fixture.semaphores (Fixture.fixture k) !! id;
  fr_ticks : ∃ y, Fixture.ticks k' = ticks_of y ∧
    Fixture.monotonic_virtual_ticks k ≤ y ≤ Fixture.monotonic_virtual_ticks k + Z.of_nat c * COST;
}.

Lemma frame_trans c c' own k k1 k2 : frame c own k k1 → frame c' own k1 k2 → frame (c + c') own k k2.
Proof.
  intros [S1 B1 P1 N1 M1 (y1 & T1 & L1)] [S2 B2 P2 N2 M2 (y2 & T2 & L2)]. rewrite (ticks_mono_eq _ _ T1) in L2. split.
  - congruence.
  - congruence.
  - congruence.
  - lia.
  - intros id Hi Ho. destruct (M1 id Hi Ho), (M2 id ltac:(lia) Ho). split; congruence.
  - exists y2. split; [done|]. unfold COST in *. lia.
Qed.

(** Ticks and map entries change, nothing else. *)
Lemma frame_entries own k k' : Fixture.settings k' = Fixture.settings k → Fixture.blocked_count k' = Fixture.blocked_count k →
  Fixture.panicked k' = Fixture.panicked k →
  Fixture.next_id (Fixture.fixture k) ≤ Fixture.next_id (Fixture.fixture k') → Fixture.ticks k' = Fixture.ticks k →
  Fixture.ticks k = ticks_of (Fixture.monotonic_virtual_ticks k) →
  (∀ id, id < Fixture.next_id (Fixture.fixture k) → id ∉ own →
    Fixture.mutexes (Fixture.fixture k') !! id = Fixture.mutexes (Fixture.fixture k) !! id ∧
    Fixture.semaphores (Fixture.fixture k') !! id = Fixture.semaphores (Fixture.fixture k) !! id) → frame 0 own k k'.
Proof. intros E1 E2 E0 E3 E4 E5 E6. split; try done. exists (Fixture.monotonic_virtual_ticks k). split; [congruence|lia]. Qed.

Lemma frame_like c own k y k' : like k y k' → Fixture.monotonic_virtual_ticks k ≤ y ≤ Fixture.monotonic_virtual_ticks k + Z.of_nat c * COST →
  frame c own k k'.
Proof.
  intros (Et & Hy & Er) Hc. apply erase_fields in Er as (Em & Es & En & Ec & Eb & Ep). split; try done; [lia| |by exists y].
  intros id _ _. by rewrite Em, Es.
Qed.

Lemma kern_frame c own n k k' : frame c own k k' → kern_ok (c + n) k → kern_ok n k'.
Proof.
  intros [S1 B1 P1 N1 M1 (y & T1 & L1)] [T0 P0 R0 S0 B0 A0]. pose proof (ticks_mono_eq _ _ T1) as E. split.
  - by rewrite E.
  - lia.
  - rewrite E. unfold COST in *. lia.
  - congruence.
  - by rewrite B1.
  - by rewrite P1.
Qed.

Lemma kern_check n k : kern_ok n k → Fixture.check_panic k = Done ().
Proof. intros []. unfold Fixture.check_panic. by rewrite ko_alive0. Qed.
Lemma frame_check c own n k k' : frame c own k k' → kern_ok n k → Fixture.check_panic k' = Done ().
Proof. intros [] []. unfold Fixture.check_panic. by rewrite fr_alive0, ko_alive0. Qed.

Lemma kern_less c n k : kern_ok (c + n) k → kern_ok n k.
Proof. intros [T0 P0 R0 S0 B0 A0]. split; try done. unfold COST in *. lia. Qed.

Lemma kern_like n k : kern_ok n k → like k (Fixture.monotonic_virtual_ticks k) k.
Proof. intros []. by split. Qed.

Lemma frame_refl n own k : kern_ok n k → frame 0 own k k.
Proof. intros []. by apply frame_entries. Qed.

(** Other objects stay as they are. *)
Lemma sem_ok_frame c own k k' id max P : frame c own k k' → id < Fixture.next_id (Fixture.fixture k) → id ∉ own →
  sem_ok k id max P → sem_ok k' id max P ∧ Fixture.semaphore_count id k' = Fixture.semaphore_count id k.
Proof.
  intros F Hi Ho (e & E & He). destruct (fr_same _ _ _ _ F id Hi Ho) as [_ Es]. split; [exists e; by rewrite Es|].
  unfold Fixture.semaphore_count. by rewrite Es.
Qed.
Lemma mutex_ok_frame c own k k' id b : frame c own k k' → id < Fixture.next_id (Fixture.fixture k) → id ∉ own →
  mutex_ok k id b → mutex_ok k' id b.
Proof. intros F Hi Ho (e & E & He). destruct (fr_same _ _ _ _ F id Hi Ho) as [Em _]. exists e. by rewrite Em. Qed.

Lemma body_frame c own k k' o : frame c own k k' → Forall (λ id, id < Fixture.next_id (Fixture.fixture k)) (ids o) →
  Forall (λ id, id ∉ own) (ids o) → body_ok k o → body_ok k' o ∧ abstract k' o = abstract k o.
Proof.
  intros F Hl Ho B. destruct o as [x|m|q]; simpl in *; rewrite !Forall_cons in Hl, Ho.
  - destruct B as [Hx Bs]. destruct (sem_ok_frame _ _ _ _ _ _ _ F (proj1 Hl) (proj1 Ho) Bs) as [B' ->]. by split.
  - split; [|done]. by eapply mutex_ok_frame; [done|apply Hl|apply Ho|].
  - destruct B as (Hq & Bm & Bs & Br), Hl as (H1 & H2 & H3 & _), Ho as (O1 & O2 & O3 & _). split; [|done].
    split; [done|]. split; [by eapply mutex_ok_frame|]. split; by eapply sem_ok_frame.
Qed.

(** ** The runtime *)

(** What is assumed: the timer service starts and stops, and waits wake up spuriously
    at most so often. *)
Context (Hstart : timers_start = Ok ()) (Hstop : timers_stop = Ok ()).
Context (Hwakes : ∀ i, Z.of_nat (wakes i) ≤ WAKES) (Hpatience : Z.of_nat patience ≤ 2 ^ 16).

Lemma fr_running_life s b n : FreeRtosRuntime.life (runtime s) = life_of b n → running s = b.
Proof.
  intros E. unfold running, FreeRtosRuntime.state, RuntimeLifecycle.state. rewrite E. unfold life_of.
  rewrite RuntimeLifecycle.decode_state_pack by lia. by destruct b.
Qed.

#[local] Arguments RuntimeLifecycle.run_loop : simpl never.

(** The runtime changes, the objects stay. *)
Lemma fr_set_runtime n s b r : ok n s → runtime_ok b (size (cells s)) r →
  let s' := mkState r (kernel s) (cells s) (next_ref s) in ok n s' ∧ running s' = b ∧ objects s' = objects s.
Proof.
  intros [R K C P] R'. assert (running (mkState r (kernel s) (cells s) (next_ref s)) = b) as Hb by (eapply fr_running_life; apply R').
  split; [|by split]. split; try done. by rewrite Hb.
Qed.

Lemma fr_initialize n s : ok n s → ∃ s',
  initialize s = Done (if running s then Err Error.AlreadyInitialized else Ok (), s') ∧
  ok n s' ∧ running s' = true ∧ objects s' = objects s.
Proof.
  intros O. pose proof (o_runtime _ _ O) as (El & Et & Ec & Hn & H0). unfold initialize, transition, mtry, mbind_, on_runtime.
  unfold FreeRtosRuntime.initialize_begin. rewrite El, Et. unfold life_of.
  rewrite RuntimeLifecycle.begin_initialize_spec by lia. destruct (running s) eqn:Er; simpl.
  - eexists. split; [done|]. apply (fr_set_runtime n s true); [done|]. by split.
  - rewrite H0 by done. rewrite Hstart. simpl. unfold RuntimeLifecycle.commit_initialize. simpl.
    rewrite RuntimeLifecycle.guarded_exchange_spec. simpl. eexists. split; [done|].
    apply (fr_set_runtime n s true); [done|]. rewrite H0 by done. split_and!; try done; lia.
Qed.

Lemma fr_objects_empty s : objects s = ∅ ↔ cells s = ∅.
Proof. apply fmap_empty_iff. Qed.

Lemma fr_shutdown n s : ok n s → ∃ s',
  shutdown s = Done (if negb (running s) then Err Error.NotInitialized
                     else if decide (objects s = ∅) then Ok () else Err Error.Busy, s') ∧
  ok n s' ∧ running s' = (running s && negb (bool_decide (objects s = ∅))) ∧ objects s' = objects s.
Proof.
  intros O. pose proof (o_runtime _ _ O) as (El & Et & Ec & Hn & H0). unfold shutdown, transition, mtry, mbind_, on_runtime.
  unfold FreeRtosRuntime.shutdown_begin. rewrite El, Et. unfold life_of.
  assert (size (cells s) = 0%nat ↔ objects s = ∅) as Hz by by rewrite fr_objects_empty, map_size_empty_iff.
  assert (0 ≤ Z.of_nat (size (cells s))) as Hs by lia.
  rewrite (RuntimeLifecycle.run_loop_spec _ _ _ _ (RuntimeLifecycle.begin_shutdown_body_spec _ _ Hs)).
  destruct (running s) eqn:Er; simpl.
  - destruct (Z.of_nat (size (cells s)) =? 0) eqn:Ez; bool_to_prop; simpl.
    + assert (size (cells s) = 0%nat) as Es by lia. rewrite decide_True, bool_decide_true by by apply Hz.
      rewrite Hstop. simpl. unfold RuntimeLifecycle.commit_shutdown. simpl. rewrite RuntimeLifecycle.guarded_exchange_spec. simpl.
      eexists. split; [done|]. apply (fr_set_runtime n s false); [done|]. rewrite Es. split_and!; try done; lia.
    + rewrite decide_False, bool_decide_false by (rewrite <- Hz; lia). eexists. split; [done|].
      apply (fr_set_runtime n s true); [done|]. by split.
  - eexists. split; [done|]. apply (fr_set_runtime n s false); [done|]. by split_and!.
Qed.

Lemma fr_state n s : ok n s →
  runtime_state s = Done (if running s then RuntimeState.Running else RuntimeState.Uninitialized, s).
Proof.
  intros O. pose proof (o_runtime _ _ O) as (El & _). unfold runtime_state, on_runtime, FreeRtosRuntime.state, RuntimeLifecycle.state.
  rewrite El. unfold life_of. rewrite RuntimeLifecycle.decode_state_pack by lia. simpl. destruct s as [? ? ? ?].
  by destruct (running _).
Qed.

(** ** One object changes *)

Lemma fr_objects_lookup n s r x m : ok n s → objects s !! r = Some (x, m) →
  ∃ c, cells s !! r = Some c ∧ cell_ok s r c ∧ x = abstract (kernel s) (body c) ∧ m = strong c ∧
    FreeRtosRuntime.capabilities (runtime s) = Some probed.
Proof.
  intros O E. unfold objects in E. rewrite lookup_fmap in E. destruct (cells s !! r) as [c|] eqn:Er; [|done].
  simpl in E. simplify_eq. exists c. split; [done|]. split; [by apply (o_cells _ _ O)|]. split; [done|]. split; [done|].
  destruct (o_runtime _ _ O) as (_ & _ & Ec & _ & H0). unfold FreeRtosRuntime.capabilities. rewrite Ec. destruct (running s); [done|].
  specialize (H0 eq_refl). apply map_size_empty_inv in H0. by rewrite H0, lookup_empty in Er.
Qed.

(** The cells of other objects after a call on the one in [r]. *)
Lemma others_ok c n s r cl k' : ok (c + n) s → cells s !! r = Some cl → frame c (ids (body cl)) (kernel s) k' →
  ∀ p d, cells s !! p = Some d → p ≠ r →
    body_ok k' (body d) ∧ abstract k' (body d) = abstract (kernel s) (body d) ∧
    Forall (λ id, id < Fixture.next_id (Fixture.fixture k')) (ids (body d)).
Proof.
  intros O E F p d Ed Hne. destruct (o_cells _ _ O _ _ Ed) as (_ & _ & B & L).
  destruct (body_frame _ _ _ _ (body d) F L) as [B' A']; [|done|].
  - apply Forall_forall. intros id Hi Hj. apply Hne. exact (o_separate _ _ O _ _ _ _ _ Ed E Hi Hj).
  - split; [done|]. split; [done|]. eapply Forall_impl; [exact L|]. simpl. intros id Hid. pose proof (fr_next _ _ _ _ F). lia.
Qed.

Lemma fr_put_cell c n s r cl k' st o : ok (c + n) s → cells s !! r = Some cl → frame c (ids (body cl)) (kernel s) k' →
  ids o = ids (body cl) → body_ok k' o → (1 ≤ st)%nat →
  let s' := mkState (runtime s) k' (<[r:=mkCell st o]> (cells s)) (next_ref s) in
  ok n s' ∧ running s' = running s ∧ objects s' = <[r:=(abstract k' o, st)]> (objects s).
Proof.
  intros O E F Ei B Hst. pose proof (others_ok _ _ _ _ _ _ O E F) as Hoth. destruct (o_cells _ _ O _ _ E) as (Hr & _ & _ & L).
  split; [|split; [done|]].
  - split; simpl.
    + rewrite map_size_insert_Some by by rewrite E. apply O.
    + eapply kern_frame; [done|apply O].
    + intros p d [[<- <-]|[Hne Ed]]%lookup_insert_Some.
      * split; [done|]. split; [done|]. split; [done|]. simpl. rewrite Ei. eapply Forall_impl; [exact L|]. simpl.
        intros id Hid. pose proof (fr_next _ _ _ _ F). lia.
      * destruct (o_cells _ _ O _ _ Ed) as (? & ? & _), (Hoth _ _ Ed ltac:(done)) as (? & _ & ?). by split.
    + intros p p' d d' id Ep Ep' Hi Hi'. simpl in Ep, Ep'.
      assert (∀ p d, <[r:=mkCell st o]> (cells s) !! p = Some d → ∃ d0, cells s !! p = Some d0 ∧ ids (body d0) = ids (body d)) as Hd.
      { intros q e [[<- <-]|[_ Ee]]%lookup_insert_Some; [by exists cl|by exists e]. }
      destruct (Hd _ _ Ep) as (d0 & E0 & I0), (Hd _ _ Ep') as (d1 & E1 & I1). rewrite <- I0 in Hi. rewrite <- I1 in Hi'.
      by eapply (o_separate _ _ O p p' d0 d1 id).
  - unfold objects. simpl. rewrite fmap_insert. simpl. apply map_eq. intros p. destruct (decide (r = p)) as [<-|Hne]; [by rewrite !lookup_insert_eq|].
    rewrite !lookup_insert_ne, !lookup_fmap by done. destruct (cells s !! p) as [d|] eqn:Ed; [|done]. simpl.
    destruct (Hoth _ _ Ed ltac:(done)) as (_ & -> & _). done.
Qed.

(** A call on the object in [r] that ends with [res]. *)
Lemma fr_on_object {B A} c n s r cl (get : Objects.object → option B) put m (x : B) (res : A) k' x' :
  ok (c + n) s → cells s !! r = Some cl → FreeRtosRuntime.capabilities (runtime s) = Some probed → get (body cl) = Some x →
  m (Some probed) (kernel s, x) = Done (res, (k', x')) → frame c (ids (body cl)) (kernel s) k' →
  ids (put x') = ids (body cl) → body_ok k' (put x') →
  ∃ s', on_object r get put m s = Done (res, s') ∧ ok n s' ∧ running s' = running s ∧
    objects s' = <[r:=(abstract k' (put x'), strong cl)]> (objects s).
Proof.
  intros O E Ec Eg Em F Ei Bo. destruct (o_cells _ _ O _ _ E) as (_ & Hst & _).
  exists (mkState (runtime s) k' (<[r:=mkCell (strong cl) (put x')]> (cells s)) (next_ref s)).
  split; [|by eapply (fr_put_cell c n s r cl k')].
  unfold on_object, deref, capabilities, mbind_. rewrite E. simpl. rewrite Ec, Eg. simpl. rewrite Em. simpl.
  by rewrite (frame_check _ _ _ _ _ F (o_kernel _ _ O)).
Qed.

(** ** Waits *)

Lemma frame_mono c c' own own' k k' : (c ≤ c')%nat → own ⊆ own' → frame c own k k' → frame c' own' k k'.
Proof.
  intros Hc Ho [S1 B1 P1 N1 M1 (y & T1 & L1)]. split; try done; [|exists y; split; [done|unfold COST in *; nia]].
  intros id Hi Hn. apply M1; [done|]. by intros ?%Ho.
Qed.

Lemma prompt_after d : Spec.prompt limits (Timeout.After d) = true → Duration.wf d ∧ Duration.as_secs d ≤ MAX_WAIT.
Proof. simpl. intros [Hd Hs%Z.leb_le]%andb_true_iff. apply bool_decide_eq_true in Hd. split; [done|]. unfold MAX_WAIT in *. lia. Qed.

Lemma room_for_wait n k : kern_ok (1 + n) k → Fixture.monotonic_virtual_ticks k + COST < LIFE.
Proof. intros []. unfold COST in *. lia. Qed.

Lemma wait_denied take k n t : stuck take k → kern_ok (Spec.finite t + n) k → Spec.prompt limits t = true → t ≠ Timeout.Forever →
  ∃ k', Wait.wait_native (Some probed) take FUEL t k = Done (Ok Wait.Unavailable, k') ∧ frame (Spec.finite t) [] k k' ∧ erase k' = erase k.
Proof.
  intros St Ko Hp Ht. destruct t as [|d|]; [| |done].
  - pose proof (kern_like _ _ Ko) as Hl. destruct (stuck_now take k _ k St Hl) as (k' & d & E & L & _).
    { destruct Ko. unfold COST in *. lia. }
    exists k'. split; [|split; [eapply frame_like; [exact L|simpl; lia]|apply L]].
    unfold Wait.wait_native, Wait.budget_new, Wait.wait_once, Wait.try_now, mbind_, Wait.call_take. by rewrite E.
  - destruct (prompt_after d Hp) as [Wd Hd].
    destruct (wait_stuck take k _ k d St (ko_settings _ _ Ko) (kern_like _ _ Ko) (room_for_wait _ _ Ko) Wd Hd) as (k' & y & E & L & Hy).
    exists k'. split; [done|]. split; [eapply frame_like; [exact L|simpl; lia]|apply L].
Qed.

Lemma wait_granted take k n t k0 k1 : kern_ok (Spec.finite t + n) k → Spec.prompt limits t = true →
  take 0 k = (Sys.Acquired, k0) → take (2 ^ 32 - 2) k = (Sys.Acquired, k1) →
  Wait.wait_native (Some probed) take FUEL t k = Done (Ok Wait.Acquired, match t with Timeout.Forever => k1 | _ => k0 end).
Proof.
  intros Ko Hp E0 E1. apply wait_ready; [done..|apply Ko|]. intros d ->. destruct (prompt_after d Hp) as [Wd Hd].
  destruct (resolve_stuck k _ k d (kern_like _ _ Ko) (room_for_wait _ _ Ko) Wd Hd) as (dl & E & _). eauto.
Qed.

(** ** Semaphores *)

Lemma put_semaphore_frame n k k1 id e : kern_ok n k → (∃ m, k1 = Fixture.push_take m k) ∨ k1 = Fixture.count_give k ∨ k1 = k →
  frame 0 [id] k (Fixture.put_semaphore id e k1).
Proof.
  intros [] Hk. destruct Hk as [[m ->]|[->| ->]]; (apply frame_entries; try done);
    intros i _ Hi; simpl; (rewrite lookup_insert_ne; [done|]); intros ->; apply Hi; by left.
Qed.

Lemma sem_ok_entry k id e max : Fixture.semaphores (Fixture.fixture k) !! id = Some e → quiet e → 0 ≤ Fixture.count e ≤ max →
  Fixture.max_count e = max → sem_ok k id max (λ _, True) ∧ Fixture.semaphore_count id k = Fixture.count e.
Proof. intros E Q Hc Hm. split; [by exists e|]. unfold Fixture.semaphore_count. by rewrite E. Qed.

(** What a semaphore call does: the kernel afterwards and the count. *)
Definition sem_settles (c : nat) {A} (m : M kern A) (k : kern) (id max : Z) (res : A) (i' : Z) : Prop :=
  ∃ k', m k = Done (res, k') ∧ frame c [id] k k' ∧ sem_ok k' id max (λ _, True) ∧ Fixture.semaphore_count id k' = i'.

Lemma fr_acquire n k x t res i' e : kern_ok (Spec.finite t + n) k →
  Fixture.semaphores (Fixture.fixture k) !! FreeRtosSemaphore.native x = Some e → quiet e → 0 ≤ Fixture.count e ≤ FreeRtosSemaphore.max_count x →
  Fixture.max_count e = FreeRtosSemaphore.max_count x →
  Spec.semaphore_step limits (Client.Acquire t) (FreeRtosSemaphore.max_count x) (Fixture.count e) = Some (res, i') →
  sem_settles (Spec.finite t) (FreeRtosSemaphore.acquire (Some probed) FUEL x t) k (FreeRtosSemaphore.native x) (FreeRtosSemaphore.max_count x) res i'.
Proof.
  intros Ko E Q Hc Hm Es. set (id := FreeRtosSemaphore.native x) in *. simpl in Es.
  destruct (Spec.prompt limits t) eqn:Hp; [|done]. simpl in Es. destruct (0 <? Fixture.count e) eqn:H0; bool_to_prop.
  - injection Es as <- <-.
    assert (∀ m, SysSync.semaphore_take id m k = (Sys.Acquired, Fixture.put_semaphore id (Fixture.take_unit e) (Fixture.push_take m k))) as Et.
    { intros m. apply sys_semaphore_take. apply take_available; try done. by rewrite (ko_settings _ _ Ko). }
    pose proof (wait_granted _ k n t _ _ Ko Hp (Et 0) (Et (2 ^ 32 - 2))) as Ew.
    assert (∃ m, (match t with Timeout.Forever => Fixture.put_semaphore id (Fixture.take_unit e) (Fixture.push_take (2 ^ 32 - 2) k)
      | _ => Fixture.put_semaphore id (Fixture.take_unit e) (Fixture.push_take 0 k) end) =
      Fixture.put_semaphore id (Fixture.take_unit e) (Fixture.push_take m k)) as [m Em] by (destruct t; by eexists).
    rewrite Em in Ew. eexists. split; [unfold FreeRtosSemaphore.acquire; by rewrite (mtry_ok _ _ _ _ _ Ew)|].
    split; [eapply frame_mono; [|done|by eapply put_semaphore_frame; [|left; eexists]]; lia|].
    apply (sem_ok_entry _ _ (Fixture.take_unit e)); try done; [simpl; apply lookup_insert_eq|simpl; lia].
  - assert (t ≠ Timeout.Forever ∧ res = Err Error.Timeout ∧ i' = Fixture.count e) as (Ht & -> & ->) by (destruct t; by simplify_eq).
    assert (stuck (SysSync.semaphore_take id) k) as St by (apply (sem_stuck me wakes Hwakes id e); try done; [lia|apply Ko..]).
    destruct (wait_denied _ k n t St Ko Hp Ht) as (k' & Ew & F & Er). apply erase_fields in Er as (_ & Es' & _).
    exists k'. split; [unfold FreeRtosSemaphore.acquire; by rewrite (mtry_ok _ _ _ _ _ Ew)|].
    split; [by eapply frame_mono; [| |exact F]; [lia|set_solver]|]. apply (sem_ok_entry k' id e); try done. by rewrite Es'.
Qed.

Lemma fr_release n k x res i' e : kern_ok n k →
  Fixture.semaphores (Fixture.fixture k) !! FreeRtosSemaphore.native x = Some e → quiet e → 0 ≤ Fixture.count e ≤ FreeRtosSemaphore.max_count x →
  Fixture.max_count e = FreeRtosSemaphore.max_count x → FreeRtosSemaphore.max_count x < 2 ^ 32 →
  Spec.semaphore_step limits Client.Release (FreeRtosSemaphore.max_count x) (Fixture.count e) = Some (res, i') →
  sem_settles 0 (FreeRtosSemaphore.release x) k (FreeRtosSemaphore.native x) (FreeRtosSemaphore.max_count x) res i'.
Proof.
  intros Ko E Q Hc Hm Hx Es. set (id := FreeRtosSemaphore.native x) in *. simpl in Es. unfold sem_settles, FreeRtosSemaphore.release.
  destruct (Fixture.count e <? FreeRtosSemaphore.max_count x) eqn:H0; bool_to_prop; injection Es as <- <-.
  - pose proof (give_room id k e E Q ltac:(lia) ltac:(lia)) as Eg. apply (sys_semaphore_give me wakes) in Eg.
    eexists. split; [by rewrite (mbind_done _ _ _ _ _ Eg)|]. split; [eapply put_semaphore_frame; [done|by right; left]|].
    apply (sem_ok_entry _ _ (Fixture.mkSemaphore (Fixture.count e + 1) (Fixture.max_count e) (Fixture.s_deleted e) (Fixture.s_waiters e) (Fixture.s_blocked_count e)));
      try done; [simpl; apply lookup_insert_eq|simpl; lia].
  - pose proof (give_full id k e E Q ltac:(lia)) as Eg. apply (sys_semaphore_give me wakes) in Eg.
    eexists. split; [by rewrite (mbind_done _ _ _ _ _ Eg)|]. split; [destruct Ko; by apply frame_entries|].
    by apply (sem_ok_entry _ _ e).
Qed.

Lemma fr_semaphore n R (c : Client.semaphore_call R) s r m i h res i' : ok (Spec.semaphore_cost c + n) s →
  objects s !! r = Some (Spec.ASemaphore m i, h) → Spec.semaphore_step limits c m i = Some (res, i') →
  ∃ s', semaphore_call r c s = Done (res, s') ∧ ok n s' ∧ running s' = running s ∧ objects s' = <[r:=(Spec.ASemaphore m i', h)]> (objects s).
Proof.
  intros O Er Es. destruct (fr_objects_lookup _ s r _ h O Er) as (cl & E & (_ & _ & Hok & _) & Ha & -> & Ec).
  unfold abstract in Ha. destruct (body cl) as [x|mu|qu] eqn:Eb; try done. injection Ha as -> ->.
  destruct Hok as [Hx (e & Ee & Q & Hc & Hm & _)]. pose proof (o_kernel _ _ O) as Ko.
  assert (Fixture.semaphore_count (FreeRtosSemaphore.native x) (kernel s) = Fixture.count e) as Ei by (unfold Fixture.semaphore_count; by rewrite Ee).
  rewrite Ei in Es.
  assert (∀ (f : option Sys.Capabilities → M (kern * FreeRtosSemaphore.inner) R) (g : M kern R),
    (∀ k, f (Some probed) (k, x) = ('(a, k) ← g k; Done (a, (k, x)))) →
    sem_settles (Spec.semaphore_cost c) g (kernel s) (FreeRtosSemaphore.native x) (FreeRtosSemaphore.max_count x) res i' →
    ∃ s', on_object r inner_semaphore Objects.OSemaphore f s = Done (res, s') ∧ ok n s' ∧ running s' = running s ∧
      objects s' = <[r:=(Spec.ASemaphore (FreeRtosSemaphore.max_count x) i', strong cl)]> (objects s)) as Hcall.
  { intros f g Ef (k' & Ek & F & So & Hi). rewrite <- Hi.
    apply (fr_on_object (Spec.semaphore_cost c) n s r cl inner_semaphore Objects.OSemaphore f x res k' x); try done; rewrite ?Eb; try done.
    by rewrite Ef, Ek. }
  destruct c as [t| | |]; simpl in O, Ko, Hcall.
  - eapply Hcall; [intros k; unfold with_kernel; reflexivity|]. by eapply fr_acquire.
  - eapply Hcall; [intros k; unfold with_kernel; reflexivity|]. by eapply fr_release; [..|lia|].
  - apply (Hcall _ (λ k, Done (res, k))); [by intros k; simpl in Es; injection Es as <- <-|].
    simpl in Es. injection Es as _ <-. exists (kernel s). split; [done|]. split; [by eapply frame_refl|]. by apply (sem_ok_entry _ _ e).
  - eapply Hcall; [intros k; unfold with_kernel; reflexivity|]. simpl in Es. injection Es as <- <-. exists (kernel s).
    split; [|split; [by eapply frame_refl|by apply (sem_ok_entry _ _ e)]].
    unfold FreeRtosSemaphore.count, SysSync.semaphore_count, mbind_. simpl. rewrite Ei, Z.mod_small by lia. done.
Qed.

(** ** Mutexes *)

Lemma put_mutex_frame n k k1 id e : kern_ok n k → (∃ m, k1 = Fixture.push_take m k) ∨ k1 = Fixture.count_give k ∨ k1 = k →
  frame 0 [id] k (Fixture.put_mutex id e k1).
Proof.
  intros [] Hk. destruct Hk as [[m ->]|[->| ->]]; (apply frame_entries; try done);
    intros i _ Hi; simpl; (rewrite lookup_insert_ne; [done|]); intros ->; apply Hi; by left.
Qed.

(** A free mutex is taken at once, with any timeout. *)
Lemma mutex_take_now k id n : mutex_ok k id false → ∃ e,
  SysSync.mutex_take id n k = (Sys.Acquired, Fixture.put_mutex id e (Fixture.push_take n k)) ∧
  mutex_ok (Fixture.put_mutex id e (Fixture.push_take n k)) id true.
Proof.
  intros (e & E & Hd & Hl & _). exists (Fixture.mkMutex true (Some me) false (Fixture.m_waiters e) (Fixture.m_blocked_count e)). split.
  - apply sys_mutex_take. by apply mutex_take_free.
  - eexists. split; [simpl; apply lookup_insert_eq|done].
Qed.
Lemma mutex_give_now k id : mutex_ok k id true → ∃ e,
  SysSync.mutex_give id k = Done (Sys.GiveOk, Fixture.put_mutex id e (Fixture.count_give k)) ∧
  mutex_ok (Fixture.put_mutex id e (Fixture.count_give k)) id false.
Proof.
  intros (e & E & Hd & Hl & Ho). exists (Fixture.mkMutex false None false (Fixture.m_waiters e) (Fixture.m_blocked_count e)). split.
  - apply sys_mutex_give. by apply mutex_give_mine; auto.
  - eexists. split; [simpl; apply lookup_insert_eq|done].
Qed.
Lemma mutex_held_stuck k id : mutex_ok k id true → stuck (SysSync.mutex_take id) k.
Proof. intros (e & E & Hd & Hl & Ho). by apply (mutex_stuck me wakes id e); auto. Qed.

Lemma fr_lock_held n k m t : kern_ok (Spec.finite t + n) k → mutex_ok k (FreeRtosMutex.native m) true →
  Spec.prompt limits t = true → t ≠ Timeout.Forever →
  ∃ k', FreeRtosMutex.lock (T:=Z) (Some probed) FUEL t (k, m) =
      Done (Err (match t with Timeout.NoWait => Error.LockFailed | _ => Error.Timeout end), (k', m)) ∧
    frame (Spec.finite t) [FreeRtosMutex.native m] k k' ∧ mutex_ok k' (FreeRtosMutex.native m) true.
Proof.
  intros Ko Mo Hp Ht. destruct (wait_denied _ k n t (mutex_held_stuck _ _ Mo) Ko Hp Ht) as (k' & Ew & F & Er).
  exists k'. split; [unfold FreeRtosMutex.lock; simpl; rewrite Ew; simpl; by destruct t|].
  split; [by eapply frame_mono; [| |exact F]; [lia|set_solver]|]. apply erase_fields in Er as (Em & _).
  destruct Mo as (e & E & He). exists e. by rewrite Em.
Qed.

Lemma fr_lock_free n k m t : kern_ok (Spec.finite t + n) k → mutex_ok k (FreeRtosMutex.native m) false →
  FreeRtosMutex.spin_locked m = false → Spec.prompt limits t = true →
  ∃ k', FreeRtosMutex.lock (T:=Z) (Some probed) FUEL t (k, m) =
      Done (Ok (), (k', FreeRtosMutex.mkInner (FreeRtosMutex.native m) true (FreeRtosMutex.value m))) ∧
    frame (Spec.finite t) [FreeRtosMutex.native m] k k' ∧ mutex_ok k' (FreeRtosMutex.native m) true.
Proof.
  intros Ko Mo Hs Hp. set (id := FreeRtosMutex.native m) in *.
  destruct (mutex_take_now k id 0 Mo) as (e0 & E0 & M0), (mutex_take_now k id (2 ^ 32 - 2) Mo) as (e1 & E1 & M1).
  pose proof (wait_granted _ k n t _ _ Ko Hp E0 E1) as Ew. eexists. split.
  { unfold FreeRtosMutex.lock. simpl. fold id. rewrite Ew. simpl. unfold FreeRtosMutex.take_spin. rewrite Hs. simpl. reflexivity. }
  split; [|by destruct t]. apply (frame_mono 0 _ [id]); [lia|done|].
  destruct t; (eapply put_mutex_frame; [done|left; by eexists]).
Qed.

Lemma fr_guard_drop n k m : kern_ok n k → mutex_ok k (FreeRtosMutex.native m) true →
  ∃ k', FreeRtosMutex.guard_drop (T:=Z) (k, m) = Done ((), (k', FreeRtosMutex.release_spin m)) ∧
    frame 0 [FreeRtosMutex.native m] k k' ∧ mutex_ok k' (FreeRtosMutex.native m) false.
Proof.
  intros Ko Mo. destruct (mutex_give_now _ _ Mo) as (e & E & M'). eexists. split; [unfold FreeRtosMutex.guard_drop; simpl; by rewrite E|].
  split; [|done]. eapply put_mutex_frame; [done|by right; left].
Qed.

Lemma fr_mutex n R (c : Client.mutex_call R) s r v b h res v' b' : ok (Spec.mutex_cost c + n) s →
  objects s !! r = Some (Spec.AMutex v b, h) → Spec.mutex_step limits c v b = Some (res, v', b') →
  ∃ s', mutex_call r c s = Done (res, s') ∧ ok n s' ∧ running s' = running s ∧ objects s' = <[r:=(Spec.AMutex v' b', h)]> (objects s).
Proof.
  intros O Er Es. destruct (fr_objects_lookup _ s r _ h O Er) as (cl & E & (_ & _ & Hok & _) & Ha & -> & Ec).
  unfold abstract in Ha. destruct (body cl) as [x|mu|qu] eqn:Eb; try done. injection Ha as -> ->. simpl in Hok.
  pose proof (o_kernel _ _ O) as Ko.
  assert (∀ (f : option Sys.Capabilities → M (kern * FreeRtosMutex.inner) R) k',
    f (Some probed) (kernel s, mu) = Done (res, (k', FreeRtosMutex.mkInner (FreeRtosMutex.native mu) b' v')) →
    frame (Spec.mutex_cost c) [FreeRtosMutex.native mu] (kernel s) k' → mutex_ok k' (FreeRtosMutex.native mu) b' →
    ∃ s', on_object r inner_mutex Objects.OMutex f s = Done (res, s') ∧ ok n s' ∧ running s' = running s ∧
      objects s' = <[r:=(Spec.AMutex v' b', strong cl)]> (objects s)) as Hcall.
  { intros f k' Ef F Mo. apply (fr_on_object (Spec.mutex_cost c) n s r cl inner_mutex Objects.OMutex f mu res k' (FreeRtosMutex.mkInner (FreeRtosMutex.native mu) b' v'));
      try done; rewrite ?Eb; done. }
  destruct c as [t| |w|]; simpl in O, Ko, Hcall, Es.
  - destruct (Spec.prompt limits t) eqn:Hp; [simpl in Es|done]. destruct (FreeRtosMutex.spin_locked mu) eqn:Hs.
    + assert (t ≠ Timeout.Forever ∧ v' = FreeRtosMutex.value mu ∧ b' = true ∧ res = Err (match t with Timeout.NoWait => Error.LockFailed | _ => Error.Timeout end))
        as (Ht & -> & -> & ->) by (destruct t; by simplify_eq).
      destruct (fr_lock_held n _ mu t Ko Hok Hp Ht) as (k' & El & F & M'). apply (Hcall _ k'); [|done..]. rewrite El. destruct mu. simpl in *. by subst.
    + simplify_eq. destruct (fr_lock_free n _ mu t Ko Hok Hs Hp) as (k' & El & F & M'). by apply (Hcall _ k').
  - destruct (FreeRtosMutex.spin_locked mu) eqn:Hs; simplify_eq. apply (Hcall _ (kernel s)); [|by eapply frame_refl|done].
    destruct mu. simpl in *. by subst.
  - destruct (FreeRtosMutex.spin_locked mu) eqn:Hs; simplify_eq. apply (Hcall _ (kernel s)); [|by eapply frame_refl|done].
    destruct mu. simpl in *. by subst.
  - destruct (FreeRtosMutex.spin_locked mu) eqn:Hs; simplify_eq. destruct (fr_guard_drop n _ mu Ko Hok) as (k' & Ed & F & M'). by apply (Hcall _ k').
Qed.

(** ** Handles *)

Lemma fr_clone n s r x h : ok n s → objects s !! r = Some (x, h) → Z.of_nat h < Spec.max_handles limits →
  ∃ s', clone r s = Done ((), s') ∧ ok n s' ∧ running s' = running s ∧ objects s' = <[r:=(x, S h)]> (objects s).
Proof.
  intros O Er _. destruct (fr_objects_lookup _ s r x h O Er) as (c & E & (H1 & H2 & H3 & H4) & -> & -> & _).
  unfold clone, deref, mbind_, mmodify, set_cell. rewrite E. simpl. eexists. split; [done|].
  apply (fr_put_cell 0 n s r c (kernel s) (S (strong c)) (body c)); try done; [|lia]. eapply frame_refl. apply O.
Qed.

(** The cell of the last handle goes, with its native objects and its lease. *)
Lemma fr_remove_cell n s r cl k' rt : ok n s → cells s !! r = Some cl → frame 0 (ids (body cl)) (kernel s) k' →
  runtime_ok true (size (delete r (cells s))) rt →
  let s' := mkState rt k' (delete r (cells s)) (next_ref s) in
  ok n s' ∧ running s' = true ∧ objects s' = delete r (objects s).
Proof.
  intros O E F R. pose proof (others_ok 0 _ _ _ _ _ O E F) as Hoth.
  assert (running (mkState rt k' (delete r (cells s)) (next_ref s)) = true) as Hr by (eapply fr_running_life; apply R).
  split; [|split; [done|]].
  - split; simpl; [by rewrite Hr|by eapply (kern_frame 0); [done|apply O]|..].
    + intros p d [Hne Ed]%lookup_delete_Some. destruct (o_cells _ _ O _ _ Ed) as (? & ? & _), (Hoth _ _ Ed ltac:(done)) as (? & _ & ?). by split.
    + intros p p' d d' id Ep Ep'. simpl in Ep, Ep'. apply lookup_delete_Some in Ep as [_ Ep], Ep' as [_ Ep']. by apply (o_separate _ _ O p p' d d' id).
  - unfold objects. simpl. rewrite <- fmap_delete. apply map_fmap_ext. intros p d [Hne Ed]%lookup_delete_Some.
    by destruct (Hoth _ _ Ed ltac:(done)) as (_ & -> & _).
Qed.

Lemma semaphore_delete_frame n k id : kern_ok n k → frame 0 [id] k (Fixture.semaphore_delete id k).
Proof.
  intros []. apply frame_entries; try done. intros i _ Hi. simpl. rewrite lookup_delete_ne; [done|]. intros ->. apply Hi. by left.
Qed.
Lemma mutex_delete_now n k id : kern_ok n k → mutex_ok k id false →
  ∃ k', (∀ w, Backend.on_native (SysSync.mutex_delete id) (Backend.mk w k) = Done ((), Backend.mk w k')) ∧ frame 0 [id] k k'.
Proof.
  intros [] (e & E & Hd & Hl & _). eexists. split.
  - intros w. unfold Backend.on_native, SysSync.mutex_delete. simpl. unfold Fixture.or_else, Fixture.mutex_delete. rewrite E. simpl. rewrite Hd, Hl. simpl. reflexivity.
  - apply frame_entries; try done. intros i _ Hi. simpl. rewrite lookup_delete_ne; [done|]. intros ->. apply Hi. by left.
Qed.

(** Dropping the natives of an object no guard borrows. *)
Lemma fr_destroy n o w k : kern_ok n k → body_ok k o → Spec.unlocked (abstract k o) = true →
  ∃ k', Objects.destroy o (Backend.mk w k) = Backend.lease_drop (Backend.mk w k') ∧ frame 0 (ids o) k k'.
Proof.
  intros Ko B Hu. destruct o as [x|m|q]; simpl in *.
  - exists (Fixture.semaphore_delete (FreeRtosSemaphore.native x) k). split; [done|]. by eapply semaphore_delete_frame.
  - apply negb_true_iff in Hu. rewrite Hu in B. destruct (mutex_delete_now _ _ _ Ko B) as (k' & E & F). exists k'. split; [|done].
    unfold FreeRtosMutex.drop. by rewrite (mbind_done _ _ _ _ _ (E w)).
  - destruct B as ((Hst & _) & Bm & _). set (i1 := FreeRtosQueueNew.receiver_sem q) in *. set (i2 := FreeRtosQueueNew.sender_sem q) in *.
    pose proof (semaphore_delete_frame _ k i1 Ko) as F1. set (k1 := Fixture.semaphore_delete i1 k) in *.
    assert (kern_ok n k1) as K1 by by eapply (kern_frame 0).
    pose proof (semaphore_delete_frame _ k1 i2 K1) as F2. set (k2 := Fixture.semaphore_delete i2 k1) in *.
    assert (kern_ok n k2) as K2 by by eapply (kern_frame 0).
    assert (mutex_ok k2 (FreeRtosQueueNew.state_mutex q) false) as Bm2 by exact Bm.
    destruct (mutex_delete_now _ _ _ K2 Bm2) as (k' & E & F3). exists k'. split.
    + unfold FreeRtosQueueNew.drop. assert (FreeRtosQueue.drop_checks (FreeRtosQueueNew.state q) = Done ()) as Ed by by rewrite Hst.
      rewrite (mbind_done _ _ _ () (Backend.mk w k)) by (unfold mrun; by rewrite Ed).
      rewrite (mbind_done _ _ _ () (Backend.mk w k1)), (mbind_done _ _ _ () (Backend.mk w k2)) by done.
      by rewrite (mbind_done _ _ _ _ _ (E w)).
    + apply (frame_trans 0 0 _ k k2); [apply (frame_trans 0 0 _ k k1)|]; (eapply frame_mono; [done| |done]); set_solver.
Qed.

Lemma fr_lease_drop n (k : kern) : Z.of_nat (S n) ≤ RuntimeLifecycle.MAX_COUNT →
  Backend.lease_drop (Backend.mk (life_of true (S n)) k) = Done ((), Backend.mk (life_of true n) k).
Proof.
  intros Hn. apply (Objects.lease_drop_outcome (Z.of_nat n) (Backend.mk _ k)); simpl; [unfold life_of; f_equal; lia|lia].
Qed.

Lemma fr_drop n s r x h : ok n s → objects s !! r = Some (x, h) → Spec.unlocked x = true →
  ∃ s', drop r s = Done ((), s') ∧ ok n s' ∧ running s' = running s ∧
    objects s' = match h with S (S h) => <[r:=(x, S h)]> (objects s) | _ => delete r (objects s) end.
Proof.
  intros O Er Hu. destruct (fr_objects_lookup _ s r x h O Er) as (c & E & (H1 & H2 & H3 & H4) & -> & -> & Ec).
  unfold drop, deref, mbind_. rewrite E. simpl. destruct (strong c) as [|[|j]] eqn:Es; [lia| |].
  - destruct (o_runtime _ _ O) as (El & Et & Eca & Hn & H0).
    assert (running s = true) as Hr.
    { destruct (running s); [done|]. specialize (H0 eq_refl). apply map_size_empty_inv in H0. by rewrite H0, lookup_empty in E. }
    assert (size (cells s) = Datatypes.S (size (delete r (cells s)))) as Hsz.
    { rewrite map_size_delete_Some by done. destruct (size (cells s)) eqn:Hz; [|lia]. apply map_size_empty_inv in Hz. by rewrite Hz, lookup_empty in E. }
    rewrite Hr in *. rewrite Hsz in El, Hn. destruct (fr_destroy n (body c) (FreeRtosRuntime.life (runtime s)) _ (o_kernel _ _ O) H3 Hu) as (k' & Ed & F).
    rewrite El, fr_lease_drop in Ed by done.
    unfold mmodify, on_both. simpl. rewrite El, Ed. simpl. rewrite (frame_check _ _ _ _ _ F (o_kernel _ _ O)).
    eexists. split; [done|].
    apply (fr_remove_cell n s r c k'); try done. split_and!; try done. lia.
  - unfold mmodify, set_cell. eexists. split; [done|].
    apply (fr_put_cell 0 n s r c (kernel s) (Datatypes.S j) (body c)); try done; [|lia]. eapply frame_refl. apply O.
Qed.

(** ** Construction *)

Lemma fr_acquire_object (b : bool) n (k : kern) : Z.of_nat n ≤ RuntimeLifecycle.MAX_COUNT →
  Backend.acquire_object (Backend.mk (life_of b n) k) =
    Done (if b then if Z.of_nat n <? RuntimeLifecycle.MAX_COUNT then (Ok (), Backend.mk (life_of true (S n)) k)
                    else (Err Error.Overflow, Backend.mk (life_of b n) k)
          else (Err Error.NotInitialized, Backend.mk (life_of b n) k)).
Proof.
  intros Hn. rewrite (Objects.acquire_outcome (if b then RuntimeState.Running else RuntimeState.Uninitialized) (Z.of_nat n) (Backend.mk _ k)) by (done || lia).
  destruct b; [|done]. destruct (_ <? _); [|done]. simpl. unfold life_of. by replace (Z.of_nat (S n)) with (Z.of_nat n + 1) by lia.
Qed.

(** What a constructor does once its parameters are accepted: a lease, then an object
    with new native objects. *)
Definition fr_makes (x : Spec.aobj) (m : M (Backend.t kern) (Result Objects.object)) : Prop :=
  (∀ b b', Backend.acquire_object b = Done (Err Error.NotInitialized, b') → m b = Done (Err Error.NotInitialized, b')) ∧
  (∀ n b b', Backend.acquire_object b = Done (Ok (), b') → kern_ok n (Backend.native b') →
     ∃ o k', m b = Done (Ok o, Backend.mk (Backend.life b') k') ∧ frame 0 [] (Backend.native b') k' ∧ body_ok k' o ∧
       abstract k' o = x ∧ Forall (λ id, Fixture.next_id (Fixture.fixture (Backend.native b')) ≤ id < Fixture.next_id (Fixture.fixture k')) (ids o)).

Lemma fr_make n s c x : ok n s → fr_makes x (Objects.construct alloc (ctor_of c)) →
  if running s then Z.of_nat (size (objects s)) < RuntimeLifecycle.MAX_COUNT →
    ∃ r s', new c s = Done (Ok r, s') ∧ ok n s' ∧ running s' = true ∧
      objects s !! r = None ∧ objects s' = <[r:=(x, 1%nat)]> (objects s)
  else new c s = Done (Err Error.NotInitialized, s).
Proof.
  intros O [Hf Hs]. destruct (o_runtime _ _ O) as (El & Et & Ec & Hn & H0).
  pose proof (fr_acquire_object (running s) (size (cells s)) (kernel s) Hn) as A. rewrite <- El in A.
  assert (cells s !! next_ref s = None) as Hnone.
  { destruct (cells s !! next_ref s) eqn:E; [|done]. destruct (o_cells _ _ O _ _ E) as [? _]. lia. }
  unfold new, mtry, mbind_, on_both. destruct (running s) eqn:Er.
  - intros Hlt. unfold objects in Hlt. rewrite map_size_fmap in Hlt. rewrite (proj2 (Z.ltb_lt _ _) Hlt) in A.
    destruct (Hs n _ _ A (o_kernel _ _ O)) as (o & k' & Em & F & Bo & <- & L). rewrite Em. cbn [mbind Run_bind Backend.native].
    rewrite (frame_check _ _ _ _ _ F (o_kernel _ _ O)). simpl in *. eexists _, _. split; [done|].
    set (s' := mkState _ _ _ _). assert (running s' = true) as Hr by by eapply (fr_running_life s' true (S (size (cells s)))).
    assert (∀ p d, cells s !! p = Some d → body_ok k' (body d) ∧ abstract k' (body d) = abstract (kernel s) (body d)) as Hoth.
    { intros p d Ed. destruct (o_cells _ _ O _ _ Ed) as (_ & _ & Bd & Ld). eapply body_frame; [done|done| |done].
      apply Forall_forall. set_solver. }
    split; [|split; [done|split; [unfold objects; by rewrite lookup_fmap, Hnone|]]].
    + split.
      * rewrite Hr. simpl. rewrite map_size_insert_None by done. split_and!; try done; lia.
      * simpl. by eapply (kern_frame 0); [done|apply O].
      * intros p d Ed. simpl in Ed. apply lookup_insert_Some in Ed as [[<- <-]|[Hne Ed]]; simpl.
        -- split; [simpl; lia|]. split; [simpl; lia|]. split; [done|]. simpl. eapply Forall_impl; [exact L|]. simpl. lia.
        -- destruct (o_cells _ _ O _ _ Ed) as (? & ? & _ & Ld), (Hoth _ _ Ed) as [? _]. split; [simpl; lia|]. split; [done|]. split; [done|].
           simpl. eapply Forall_impl; [exact Ld|]. simpl. intros id Hid. pose proof (fr_next _ _ _ _ F). lia.
      * assert (∀ p d id, cells s !! p = Some d → id ∈ ids (body d) → id ∈ ids o → False) as Hnew.
        { intros p d id Ed Hi Ho. destruct (o_cells _ _ O _ _ Ed) as (_ & _ & _ & Ld). rewrite Forall_forall in Ld, L.
          specialize (Ld _ Hi). specialize (L _ Ho). simpl in *. lia. }
        intros p p' d d' id Ep Ep' Hi Hi'. simpl in Ep, Ep'.
        apply lookup_insert_Some in Ep as [[<- <-]|[Hne Ed]], Ep' as [[<- <-]|[Hne' Ed']]; try done; simpl in *.
        -- by destruct (Hnew _ _ _ Ed' Hi' Hi).
        -- by destruct (Hnew _ _ _ Ed Hi Hi').
        -- by apply (o_separate _ _ O p p' d d' id).
    + unfold objects. simpl. rewrite fmap_insert. simpl. f_equal. apply map_fmap_ext. intros p d Ed. by destruct (Hoth _ _ Ed) as [_ ->].
  - rewrite (Hf _ _ A). simpl. rewrite (kern_check _ _ (o_kernel _ _ O)). simpl. destruct s as [[] ? ? ?]. simpl. done.
Qed.

Lemma create_frame k k' : Fixture.settings k' = Fixture.settings k → Fixture.blocked_count k' = Fixture.blocked_count k →
  Fixture.panicked k' = Fixture.panicked k →
  Fixture.ticks k' = Fixture.ticks k → Fixture.ticks k = ticks_of (Fixture.monotonic_virtual_ticks k) →
  Fixture.next_id (Fixture.fixture k') = Fixture.next_id (Fixture.fixture k) + 1 →
  (∀ id, id ≠ Fixture.next_id (Fixture.fixture k) →
    Fixture.mutexes (Fixture.fixture k') !! id = Fixture.mutexes (Fixture.fixture k) !! id ∧
    Fixture.semaphores (Fixture.fixture k') !! id = Fixture.semaphores (Fixture.fixture k) !! id) → frame 0 [] k k'.
Proof. intros E1 E2 E0 E3 E4 E5 E6. apply frame_entries; try done; [lia|]. intros id Hi _. apply E6. lia. Qed.

Lemma mutex_create_now n k : kern_ok n k → ∃ k', SysSync.mutex_create k = Done (Some (Fixture.next_id (Fixture.fixture k)), k') ∧
  frame 0 [] k k' ∧ Fixture.next_id (Fixture.fixture k') = Fixture.next_id (Fixture.fixture k) + 1 ∧
  mutex_ok k' (Fixture.next_id (Fixture.fixture k)) false.
Proof.
  intros Ko. unfold SysSync.mutex_create. simpl. unfold Fixture.or_else, Fixture.mutex_create. rewrite (ko_settings _ _ Ko). simpl.
  eexists. split; [done|]. split; [|split; [done|]].
  - apply create_frame; try done; [apply Ko|]. intros id Hi. simpl. by rewrite lookup_insert_ne.
  - eexists. split; [simpl; apply lookup_insert_eq|done].
Qed.

Lemma semaphore_create_now n k m i : kern_ok n k → 0 ≤ i ≤ m →
  ∃ k', SysSync.counting_semaphore_create m i k = Done (Some (Fixture.next_id (Fixture.fixture k)), k') ∧
    (m = 1 → i = 0 → SysSync.binary_semaphore_create k = Done (Some (Fixture.next_id (Fixture.fixture k)), k')) ∧
    frame 0 [] k k' ∧ Fixture.next_id (Fixture.fixture k') = Fixture.next_id (Fixture.fixture k) + 1 ∧
    sem_ok k' (Fixture.next_id (Fixture.fixture k)) m (λ n, n = i).
Proof.
  intros Ko Hi. unfold SysSync.counting_semaphore_create, SysSync.binary_semaphore_create. simpl.
  unfold Fixture.or_else, Fixture.counting_semaphore_create, Fixture.binary_semaphore_create, Fixture.semaphore_create.
  rewrite (ko_settings _ _ Ko). simpl. eexists. split; [done|]. split; [by intros -> ->|]. split; [|split; [done|]].
  - apply create_frame; try done; [apply Ko|]. intros id Hid. simpl. by rewrite lookup_insert_ne.
  - eexists. split; [simpl; apply lookup_insert_eq|done].
Qed.

Lemma create_or_oom_some {A} (create : M kern (option Z)) undo (f : Z → M (Backend.t kern) (Result A)) w k h k' :
  create k = Done (Some h, k') → create_or_oom create undo f (Backend.mk w k) = f h (Backend.mk w k').
Proof. intros E. unfold create_or_oom, mbind_, Backend.on_native. simpl. by rewrite E. Qed.

(** The lease, then the rest of a constructor. *)
Lemma leased_makes {A} x (body : M (Backend.t kern) (Result A)) (f : A → Objects.object) :
  (∀ n w k, kern_ok n k → ∃ a k', body (Backend.mk w k) = Done (Ok a, Backend.mk w k') ∧ frame 0 [] k k' ∧ body_ok k' (f a) ∧
     abstract k' (f a) = x ∧ Forall (λ id, Fixture.next_id (Fixture.fixture k) ≤ id < Fixture.next_id (Fixture.fixture k')) (ids (f a))) →
  fr_makes x (mtry (λ a, mret_ (Ok (f a))) (mtry (λ _, body) Backend.acquire_object)).
Proof.
  intros Hb. split.
  - intros b b' E. apply mtry_err. by apply mtry_err.
  - intros n b b' E Ko. destruct b' as [w k]. destruct (Hb n w k Ko) as (a & k' & Eb & F & Hx).
    exists (f a), k'. split; [|done]. rewrite (mtry_ok _ _ _ a (Backend.mk w k')); [done|]. by rewrite (mtry_ok _ _ _ _ _ E).
Qed.

Lemma sem_ok_any k id m i : sem_ok k id m (λ n, n = i) → sem_ok k id m (λ _, True) ∧ Fixture.semaphore_count id k = i.
Proof. intros (e & E & Q & Hc & Hm & <-). by apply sem_ok_entry. Qed.

Lemma fr_makes_semaphore m i : 0 < m < 2 ^ 32 → 0 ≤ i ≤ m →
  fr_makes (Spec.ASemaphore m i) (Objects.construct alloc (Objects.CCounting m i)).
Proof.
  intros Hm Hi. simpl. unfold FreeRtosSemaphore.new. rewrite (proj2 (Z.eqb_neq m 0)), (proj2 (Z.ltb_ge m i)) by lia.
  rewrite (proj2 (Z.ltb_ge _ m)) by (unfold SysSync.max_semaphore_count; simpl; unfold uint_max; lia).
  apply leased_makes. intros n w k Ko. destruct (semaphore_create_now n k m i Ko Hi) as (k' & Ec & _ & F & Hn & So).
  rewrite (create_or_oom_some _ _ _ _ _ _ _ Ec). eexists _, k'. split; [done|]. split; [done|].
  destruct (sem_ok_any _ _ _ _ So) as [So' Hc]. split; [done|]. split; [simpl; by rewrite Hc|]. simpl. rewrite Hn. constructor; [lia|done].
Qed.

Lemma fr_makes_binary : fr_makes (Spec.ASemaphore 1 0) (Objects.construct alloc Objects.CBinary).
Proof.
  apply leased_makes. intros n w k Ko. destruct (semaphore_create_now n k 1 0 Ko ltac:(lia)) as (k' & _ & Ec & F & Hn & So).
  rewrite (create_or_oom_some _ _ _ _ _ _ _ (Ec eq_refl eq_refl)). eexists _, k'. split; [done|]. split; [done|].
  destruct (sem_ok_any _ _ _ _ So) as [So' Hc]. split; [done|]. split; [simpl; by rewrite Hc|]. simpl. rewrite Hn. constructor; [lia|done].
Qed.

Lemma fr_makes_mutex v : fr_makes (Spec.AMutex v false) (Objects.construct alloc (Objects.CMutex v)).
Proof.
  apply leased_makes. intros n w k Ko. destruct (mutex_create_now n k Ko) as (k' & Ec & F & Hn & Mo).
  rewrite (create_or_oom_some _ _ _ _ _ _ _ Ec). eexists _, k'. split; [done|]. split; [done|].
  split; [done|]. split; [done|]. simpl. rewrite Hn. constructor; [lia|done].
Qed.

Lemma fr_makes_queue c m b : 0 < c → 0 < m → ByteQueue.new alloc c m = Ok b →
  fr_makes (Spec.AQueue (ByteQueueFacts.abs b)) (Objects.construct alloc (Objects.CQueue c m)).
Proof.
  intros Hc Hm Eb. assert (ByteQueue.capacity b = c ∧ ByteQueue.message_size b = m) as [Hcb Hmb].
  { unfold ByteQueue.new in Eb. destruct (_ || _); [done|]. destruct (checked_mul _ _ _); [|done]. simpl in Eb. by simplify_eq. }
  assert (ByteQueue.wf b) as Wb by (by apply (ByteQueue.new_wf alloc c m); [lia..|]).
  simpl. unfold FreeRtosQueueNew.new, Validation.validate_queue_capacity, Validation.validate_queue_message_size.
  rewrite (proj2 (Z.eqb_neq c 0)), (proj2 (Z.eqb_neq m 0)), Eb by lia.
  apply (leased_makes _ _ Objects.OQueue). intros n w k Ko. destruct (mutex_create_now n k Ko) as (k1 & E1 & F1 & N1 & M1).
  assert (kern_ok n k1) as K1 by by eapply (kern_frame 0).
  destruct (semaphore_create_now n k1 FreeRtosQueueNew.wake_max 0 K1 ltac:(done)) as (k2 & E2 & _ & F2 & N2 & S2).
  assert (kern_ok n k2) as K2 by by eapply (kern_frame 0).
  destruct (semaphore_create_now n k2 FreeRtosQueueNew.wake_max 0 K2 ltac:(done)) as (k3 & E3 & _ & F3 & N3 & S3).
  rewrite (create_or_oom_some _ _ _ _ _ _ _ E1), (create_or_oom_some _ _ _ _ _ _ _ E2), (create_or_oom_some _ _ _ _ _ _ _ E3).
  eexists _, k3. split; [done|].
  assert (frame 0 [] k1 k3) as F13 by by apply (frame_trans 0 0 _ k1 k2). split; [by apply (frame_trans 0 0 _ k k1)|].
  split; [|split; [done|]].
  - split; [by split|]. split; [eapply mutex_ok_frame; [exact F13|simpl; lia|set_solver|done]|].
    split; [|done]. eapply sem_ok_frame; [exact F3|simpl; lia|set_solver|done].
  - simpl. repeat constructor; lia.
Qed.

Lemma fr_new n s c : ok n s →
  match Spec.constructed limits c with
  | None => True
  | Some (Err e) => new c s = Done (Err e, s)
  | Some (Ok x) =>
      if running s then Z.of_nat (size (objects s)) < Spec.max_objects limits →
        ∃ r s', new c s = Done (Ok r, s') ∧ ok n s' ∧ running s' = true ∧
          objects s !! r = None ∧ objects s' = <[r:=(x, 1%nat)]> (objects s)
      else new c s = Done (Err Error.NotInitialized, s)
  end.
Proof.
  intros O.
  assert (∀ e, (∀ b : Backend.t kern, Objects.construct alloc (ctor_of c) b = Done (Err e, b)) → new c s = Done (Err e, s)) as Hbad.
  { intros e E. unfold new, mtry, mbind_, on_both. rewrite E. simpl. rewrite (kern_check _ _ (o_kernel _ _ O)). by destruct s as [[] ? ? ?]. }
  destruct c as [c m|m i| |v]; simpl.
  - destruct ((c <? 0) || (m <? 0)) eqn:En; [done|].
    destruct (c =? 0) eqn:Ec; simpl; [apply Hbad; intros b; simpl; unfold FreeRtosQueueNew.new, Validation.validate_queue_capacity; by rewrite Ec|].
    destruct (m =? 0) eqn:Em; simpl.
    { apply Hbad. intros b. simpl. unfold FreeRtosQueueNew.new, Validation.validate_queue_capacity, Validation.validate_queue_message_size.
      by rewrite Ec, Em. }
    destruct (c * m <=? uint_max usize_bits) eqn:El; [|done]. bool_to_prop.
    assert (∃ b, ByteQueue.new alloc c m = Ok b) as (b & Eb).
    { unfold ByteQueue.new, checked_mul, uint_max in *. rewrite (proj2 (Z.eqb_neq c 0)), (proj2 (Z.eqb_neq m 0)) by lia. simpl.
      rewrite (proj2 (Z.ltb_lt (c * m) (2 ^ usize_bits))) by lia. simpl. eauto. }
    rewrite <- (ByteQueueFacts.abs_new alloc c m b Eb). apply fr_make; [done|]. apply fr_makes_queue; done || lia.
  - destruct (negb _) eqn:En; [done|]. bool_to_prop.
    destruct (m =? 0) eqn:Em; simpl; [apply Hbad; intros b; simpl; unfold FreeRtosSemaphore.new; by rewrite Em|].
    destruct (m <? i) eqn:Ei; simpl; [apply Hbad; intros b; simpl; unfold FreeRtosSemaphore.new; by rewrite Em, Ei|].
    bool_to_prop. apply fr_make; [done|]. apply fr_makes_semaphore; lia.
  - apply fr_make; [done|]. apply fr_makes_binary.
  - apply fr_make; [done|]. apply fr_makes_mutex.
Qed.

(** ** Queues *)

Import FreeRtosQueueNew (QueueInner, state_mutex, sender_sem, receiver_sem).
#[local] Abbreviation sems k := (Fixture.semaphores (Fixture.fixture k)).

(** A step that leaves the semaphores alone. *)
Definition step_at (c : nat) (id : Z) (k k' : kern) (held : bool) : Prop :=
  frame c [id] k k' ∧ mutex_ok k' id held ∧ sems k' = sems k.

Lemma step_at_trans c c' id k k1 k2 b b' : step_at c id k k1 b → step_at c' id k1 k2 b' → step_at (c + c') id k k2 b'.
Proof. intros (F1 & _ & E1) (F2 & M2 & E2). split; [by eapply frame_trans|]. split; [done|congruence]. Qed.

Lemma fr_enter n k (q : QueueInner) : kern_ok n k → mutex_ok k (state_mutex q) false →
  ∃ k', FreeRtosQueueCalls.lock (Some probed) FUEL (k, q) = Done (Ok (), (k', q)) ∧ step_at 0 (state_mutex q) k k' true.
Proof.
  intros Ko Mo. destruct (mutex_take_now k (state_mutex q) 0 Mo) as (e & E & M'). eexists. split.
  - unfold FreeRtosQueueCalls.lock, FreeRtosQueueCalls.on_kernel, FreeRtosQueueNew.lock_state, mbind_, Wait.call_take. simpl fst. simpl snd.
    rewrite E. reflexivity.
  - split; [eapply put_mutex_frame; [done|left; by eexists]|]. by split.
Qed.
Lemma fr_leave n k (q : QueueInner) : kern_ok n k → mutex_ok k (state_mutex q) true →
  ∃ k', FreeRtosQueueCalls.unlock (k, q) = Done ((), (k', q)) ∧ step_at 0 (state_mutex q) k k' false.
Proof.
  intros Ko Mo. destruct (mutex_give_now k (state_mutex q) Mo) as (e & E & M'). eexists. split.
  - unfold FreeRtosQueueCalls.unlock, FreeRtosQueueCalls.on_kernel, FreeRtosQueueNew.unlock_state, mbind_. simpl fst. simpl snd.
    rewrite E. reflexivity.
  - split; [eapply put_mutex_frame; [done|by right; left]|]. by split.
Qed.

(** Two empty critical sections: the clock has not moved. *)
Lemma step_at_clock id k k' b : step_at 0 id k k' b → Fixture.monotonic_virtual_ticks k' = Fixture.monotonic_virtual_ticks k.
Proof. intros ([_ _ _ _ _ (y & Et & Hy)] & _). rewrite (ticks_mono_eq _ _ Et). lia. Qed.
Lemma step_at_kern c n id k k' b : step_at c id k k' b → kern_ok (c + n) k → kern_ok n k'.
Proof. intros [F _]. by apply kern_frame with (own := [id]). Qed.

(** An empty wake semaphore. *)
Lemma empty_stuck n k id : kern_ok n k → sem_ok k id (uint_max 32) (λ n, n = 0) → stuck (SysSync.semaphore_take id) k.
Proof. intros Ko (e & E & Q & _ & _ & Hc). apply (sem_stuck me wakes Hwakes id e); try done; apply Ko. Qed.
Lemma empty_take n k id : kern_ok n k → sem_ok k id (uint_max 32) (λ n, n = 0) →
  SysSync.semaphore_take id 0 k = (Sys.TakeTimeout, Fixture.push_take 0 k).
Proof. intros Ko (e & E & Q & _ & _ & Hc). apply sys_semaphore_take. apply (take_empty_now id _ k e); try done. by rewrite (ko_settings _ _ Ko). Qed.
Lemma sem_ok_sems k k' id m P : sems k' = sems k → sem_ok k id m P → sem_ok k' id m P.
Proof. intros E (e & He). exists e. by rewrite E. Qed.

(** The wait of a blocked call, and its second section. *)
Lemma fr_wait_out n k (q q' : QueueInner) sem reconcile d dl r : kern_ok (1 + n) k → mutex_ok k (state_mutex q) false →
  sem_ok k (sem q) (uint_max 32) (λ n, n = 0) → Duration.wf d → Duration.as_secs d ≤ MAX_WAIT → Duration.eqb d Duration.ZERO = false →
  Duration.wf dl → as_nanos dl = Fixture.monotonic_virtual_ticks k * 1000000 + as_nanos d → state_mutex q' = state_mutex q →
  (∀ k1 k2, SysSync.semaphore_take (sem q) 0 k1 = (Sys.TakeTimeout, k2) → reconcile Wait.Unavailable (k1, q) = Done (Some r, (k2, q'))) →
  ∃ k', FreeRtosQueueCalls.blocked (Some probed) FUEL sem reconcile (Wait.Finite d (Some dl) true) (k, q) = Done (inl r, (k', q')) ∧
    step_at 1 (state_mutex q) k k' false.
Proof.
  intros Ko Mo So Wd Hd Hz Wl Nl Eq Hrec.
  destruct (wait_once_stuck _ k _ k d (Some dl) true (empty_stuck _ _ _ Ko So) (ko_settings _ _ Ko) (kern_like _ _ Ko) (room_for_wait _ _ Ko) Wd Hd Hz (conj Wl Nl))
    as (k1 & y & dl' & Ew & L & Hy).
  assert (step_at 1 (state_mutex q) k k1 false) as S1.
  { pose proof L as (_ & _ & Er). apply erase_fields in Er as (Em & Es & _). split; [eapply frame_like; [exact L|simpl; lia]|]. split; [|done].
    destruct Mo as (e & E & He). exists e. by rewrite Em. }
  pose proof (step_at_kern _ _ _ _ _ _ S1 Ko) as K1. destruct (fr_enter n k1 q K1 (proj1 (proj2 S1))) as (k2 & El & S2).
  pose proof (step_at_kern 0 _ _ _ _ _ S2 K1) as K2.
  assert (sem_ok k2 (sem q) (uint_max 32) (λ n, n = 0)) as So2 by (eapply sem_ok_sems; [|exact So]; destruct S1 as (_ & _ & ?), S2 as (_ & _ & ?); congruence).
  pose proof (Hrec _ _ (empty_take _ _ _ K2 So2)) as Er.
  assert (step_at 0 (state_mutex q) k2 (Fixture.push_take 0 k2) true) as S3 by (split; [destruct K2; by apply frame_entries|split; [apply S2|done]]).
  pose proof (step_at_kern 0 _ _ _ _ _ S3 K2) as K3.
  destruct (fr_leave n (Fixture.push_take 0 k2) q' K3 ltac:(rewrite Eq; apply S3)) as (k4 & Eu & S4). rewrite Eq in S4.
  exists k4. split.
  - unfold FreeRtosQueueCalls.blocked. cbn [fst snd].
    rewrite (mbind_done _ _ _ (Ok Wait.Unavailable, Wait.Finite d dl' true) (k1, q)) by (unfold FreeRtosQueueCalls.on_kernel; cbn [fst snd]; by rewrite Ew).
    cbn [fst snd]. rewrite (mbind_done _ _ _ _ _ El), (mbind_done _ _ _ _ _ Er), (mbind_done _ _ _ _ _ Eu). done.
  - apply (step_at_trans 1 0 _ _ k1 _ false); [done|]. apply (step_at_trans 0 0 _ _ k2 _ true); [done|]. by apply (step_at_trans 0 0 _ _ (Fixture.push_take 0 k2) _ true).
Qed.

(** A critical section that does not use the kernel. *)
Lemma fr_around n k (q q' : QueueInner) : kern_ok n k → mutex_ok k (state_mutex q) false → state_mutex q' = state_mutex q →
  ∃ k1 k2, FreeRtosQueueCalls.lock (Some probed) FUEL (k, q) = Done (Ok (), (k1, q)) ∧
    FreeRtosQueueCalls.unlock (k1, q') = Done ((), (k2, q')) ∧ kern_ok n k1 ∧
    Fixture.monotonic_virtual_ticks k1 = Fixture.monotonic_virtual_ticks k ∧ step_at 0 (state_mutex q) k k2 false.
Proof.
  intros Ko Mo Eq. destruct (fr_enter n k q Ko Mo) as (k1 & El & S1). pose proof (step_at_kern 0 _ _ _ _ _ S1 Ko) as K1.
  destruct (fr_leave n k1 q' K1 ltac:(rewrite Eq; apply S1)) as (k2 & Eu & S2). rewrite Eq in S2. exists k1, k2.
  split; [done|]. split; [done|]. split; [done|]. split; [by eapply step_at_clock|]. by apply (step_at_trans 0 0 _ _ k1 _ true).
Qed.

(** The queue with buffer [b] and no waiters. *)
Definition with_buf (q : QueueInner) (b : ByteQueue.t) : QueueInner := FreeRtosQueueCalls.set_state q (FreeRtosQueue.initial_state b).
#[local] Abbreviation buf q := (FreeRtosQueue.buffer (FreeRtosQueueNew.state q)).

Lemma with_buf_same q : idle q → with_buf q (buf q) = q.
Proof. intros [E _]. unfold with_buf, FreeRtosQueueCalls.set_state. rewrite <- E. by destruct q. Qed.

Definition q_settles (c : nat) {A} (m : M (kern * QueueInner) A) (k : kern) (q : QueueInner) (res : A) (f : Fifo.t) : Prop :=
  ∃ k' b', m (k, q) = Done (res, (k', with_buf q b')) ∧ step_at c (state_mutex q) k k' false ∧ ByteQueue.wf b' ∧ ByteQueueFacts.abs b' = f.

(** *** Sending *)

Lemma send_section_sent q k1 d b b' : idle q → ByteQueue.closed (buf q) = false → ByteQueue.try_send (buf q) d = Done (Ok (), b') →
  FreeRtosQueueCalls.send_section (Some probed) d b (k1, q) = Done (FreeRtosQueue.Return (Ok ()), (k1, with_buf q b')).
Proof.
  intros [Est _] Hcl Et. unfold FreeRtosQueueCalls.send_section. rewrite Est in Hcl, Et |- *. simpl in *. unfold ByteQueue.is_closed. rewrite Hcl, Et. done.
Qed.
Lemma send_section_closed q k1 d b : idle q → ByteQueue.closed (buf q) = true →
  FreeRtosQueueCalls.send_section (Some probed) d b (k1, q) = Done (FreeRtosQueue.Return (Err Error.QueueClosed), (k1, with_buf q (buf q))).
Proof.
  intros I Hcl. rewrite with_buf_same by done. unfold FreeRtosQueueCalls.send_section, ByteQueue.is_closed. by rewrite Hcl.
Qed.
Lemma send_section_full q k1 d b e : idle q → ByteQueue.closed (buf q) = false → ByteQueue.try_send (buf q) d = Done (Err Error.QueueFull, buf q) →
  b = Wait.NoWait ∧ e = Error.QueueFull ∨ b = Wait.Zero ∧ e = Error.Timeout →
  FreeRtosQueueCalls.send_section (Some probed) d b (k1, q) = Done (FreeRtosQueue.Return (Err e), (k1, with_buf q (buf q))).
Proof.
  intros [Est _] Hcl Et Hb. unfold FreeRtosQueueCalls.send_section. rewrite Est in Hcl, Et |- *. simpl in *. unfold ByteQueue.is_closed. rewrite Hcl, Et.
  by destruct Hb as [[-> ->]|[-> ->]].
Qed.

Lemma fr_send_return n k q d b r b' : kern_ok n k → mutex_ok k (state_mutex q) false → ByteQueue.wf b' →
  (∀ k1, FreeRtosQueueCalls.send_section (Some probed) d b (k1, q) = Done (FreeRtosQueue.Return r, (k1, with_buf q b'))) →
  q_settles 0 (FreeRtosQueueCalls.send_loop (Some probed) FUEL FUEL d b) k q r (ByteQueueFacts.abs b').
Proof.
  intros Ko Mo W Hs. destruct (fr_around n k q (with_buf q b') Ko Mo eq_refl) as (k1 & k2 & El & Eu & _ & _ & St). exists k2, b'.
  split; [|done]. unfold FUEL at 2. cbn [FreeRtosQueueCalls.send_loop].
  by rewrite (mtry_ok _ _ _ _ _ El), (mbind_done _ _ _ _ _ (Hs k1)), (mbind_done _ _ _ _ _ Eu).
Qed.

(** A deadline for a call that has to wait. *)
Lemma fr_prepare n k d : kern_ok (1 + n) k → Duration.wf d → Duration.as_secs d ≤ MAX_WAIT →
  ∃ dl, Wait.prepare_blocking (Some probed) (Wait.Finite d None false) k = Done (Ok (Wait.Finite d (Some dl) true), k) ∧
    Duration.wf dl ∧ as_nanos dl = Fixture.monotonic_virtual_ticks k * 1000000 + as_nanos d.
Proof.
  intros Ko Wd Hd. destruct (resolve_stuck k _ k d (kern_like _ _ Ko) (room_for_wait _ _ Ko) Wd Hd) as (dl & E & Wl & Nl).
  exists dl. split; [|done]. unfold Wait.prepare_blocking.
  by rewrite (mtry_ok _ _ _ _ _ (allowed k (ko_settings _ _ Ko))), (mtry_ok _ _ _ _ _ E).
Qed.

(** A queue with one waiter on one side. *)
Definition one_sender (q : QueueInner) : QueueInner :=
  FreeRtosQueueCalls.set_state q (FreeRtosQueue.mkState (buf q) 1 0 0 0).
Definition one_receiver (q : QueueInner) : QueueInner :=
  FreeRtosQueueCalls.set_state q (FreeRtosQueue.mkState (buf q) 0 1 0 0).

Lemma fr_send_wait n k q d x : kern_ok (1 + n) k → idle q → mutex_ok k (state_mutex q) false →
  sem_ok k (sender_sem q) (uint_max 32) (λ n, n = 0) → ByteQueue.closed (buf q) = false →
  ByteQueue.try_send (buf q) d = Done (Err Error.QueueFull, buf q) →
  Duration.wf x → Duration.as_secs x ≤ MAX_WAIT → Duration.eqb x Duration.ZERO = false →
  q_settles 1 (FreeRtosQueueCalls.send_loop (Some probed) FUEL FUEL d (Wait.Finite x None false)) k q (Err Error.Timeout) (ByteQueueFacts.abs (buf q)).
Proof.
  intros Ko I Mo So Hcl Et Wx Hx Hz. pose proof I as (Est & Wb & _).
  destruct (fr_around (1 + n) k q (one_sender q) Ko Mo eq_refl) as (k1 & k2 & El & Eu & K1 & T1 & St).
  destruct (fr_prepare n k1 x K1 Wx Hx) as (dl & Ep & Wl & Nl). pose proof (step_at_kern 0 _ _ _ _ _ St Ko) as K2.
  destruct (fr_wait_out n k2 (one_sender q) (with_buf q (buf q)) sender_sem FreeRtosQueueCalls.send_reconcile_section x dl (Err Error.Timeout) K2)
    as (k3 & Eb & S3); try done.
  - apply St.
  - by eapply sem_ok_sems; [apply St|].
  - by rewrite (step_at_clock _ _ _ _ St), <- T1.
  - intros j1 j2 Ej. unfold FreeRtosQueueCalls.send_reconcile_section, FreeRtosQueue.send_reconcile. simpl in Ej |- *.
    unfold ByteQueue.is_closed. rewrite Ej, Hcl. done.
  - exists k3, (buf q). split; [|split; [by apply (step_at_trans 0 1 _ _ k2 _ false)|done]].
    unfold FUEL at 2. cbn [FreeRtosQueueCalls.send_loop]. rewrite (mtry_ok _ _ _ _ _ El).
    rewrite (mbind_done _ _ _ (FreeRtosQueue.Block (Wait.Finite x (Some dl) true)) (k1, one_sender q)).
    2:{ unfold FreeRtosQueueCalls.send_section, ByteQueue.is_closed. rewrite Hcl, Et. cbn [mbind Run_bind]. unfold FreeRtosQueueCalls.block_or_fail.
        rewrite Est. cbn [FreeRtosQueue.initial_state FreeRtosQueue.sender_waiters]. rewrite (mbind_done _ _ _ _ _ Ep). done. }
    by rewrite (mbind_done _ _ _ _ _ Eu), (mbind_done _ _ _ _ _ Eb).
Qed.

Lemma settles_more {A} c (m : M (kern * QueueInner) A) k q r f : q_settles 0 m k q r f → q_settles c m k q r f.
Proof.
  intros (k' & b' & E & (F & Mo & Es) & H'). exists k', b'. split; [done|]. split; [|done]. split; [|done].
  by eapply frame_mono; [| |exact F]; [lia|].
Qed.

Lemma send_loop_settles n k q d t r f : kern_ok (Spec.finite t + n) k → idle q → mutex_ok k (state_mutex q) false →
  sem_ok k (sender_sem q) (uint_max 32) (λ n, n = 0) → Z.of_nat (length d) = FreeRtosQueueNew.message_size q →
  Spec.queue_step limits (Client.Send d t) (ByteQueueFacts.abs (buf q)) = Some (r, f) →
  q_settles (Spec.finite t) (FreeRtosQueueCalls.send_loop (Some probed) FUEL FUEL d (Wait.budget_new t)) k q r f.
Proof.
  intros Ko I Mo So Hsz Es. pose proof I as (_ & W & _ & Hms). rewrite Hms in Hsz. simpl in Es.
  destruct (ByteQueueFacts.try_send_refines (buf q) d W) as (b' & Et & Wb & Eb).
  unfold Fifo.send in Es, Et, Eb. rewrite ByteQueueFacts.abs_full in Es, Et, Eb by done. simpl in Es, Et, Eb.
  rewrite (proj2 (Z.eqb_eq _ _) Hsz) in Es, Et, Eb. simpl in Es, Et, Eb. unfold Spec.timed in Es.
  destruct (Spec.prompt limits t) eqn:Hp; [|by destruct (ByteQueue.closed (buf q)), (ByteQueue.is_full (buf q))]. simpl in Es.
  destruct (ByteQueue.closed (buf q)) eqn:Hcl.
  { simpl in Es. injection Es as <- <-. apply settles_more, (fr_send_return (Spec.finite t + n)); try done. intros k1. by apply send_section_closed. }
  destruct (ByteQueue.is_full (buf q)) eqn:Hfl; simpl in *.
  - pose proof (ByteQueueFacts.try_send_full (buf q) d W Hsz Hcl Hfl) as Ef.
    destruct t as [|x|]; [| |done]; injection Es as <- <-.
    + apply (fr_send_return n); try done. intros k1. apply send_section_full; try done. by left.
    + destruct (prompt_after x Hp) as [Wx Hx]. unfold Wait.budget_new. destruct (Duration.eqb x Duration.ZERO) eqn:Hz; [|by eapply fr_send_wait].
      apply settles_more, (fr_send_return (1 + n)); try done. intros k1. apply send_section_full; try done. by right.
  - injection Es as <- <-. rewrite <- Eb. apply settles_more, (fr_send_return (Spec.finite t + n)); try done. intros k1. by apply send_section_sent.
Qed.

Lemma fr_send n k q d t r f : kern_ok (Spec.finite t + n) k → idle q → mutex_ok k (state_mutex q) false →
  sem_ok k (sender_sem q) (uint_max 32) (λ n, n = 0) →
  Spec.queue_step limits (Client.Send d t) (ByteQueueFacts.abs (buf q)) = Some (r, f) →
  q_settles (Spec.finite t) (FreeRtosQueueCalls.send (Some probed) FUEL d t) k q r f.
Proof.
  intros Ko I Mo So Es. pose proof I as (_ & W & _ & Hms). unfold q_settles, FreeRtosQueueCalls.send, Validation.validate_send_message_size. simpl snd.
  destruct (negb (Z.of_nat (length d) =? FreeRtosQueueNew.message_size q)) eqn:Hsz.
  - simpl in Es. unfold Fifo.send in Es. simpl in Es. rewrite <- Hms, Hsz in Es. unfold Spec.timed in Es.
    destruct (Spec.prompt limits t); [|done]. simpl in Es. injection Es as <- <-. exists k, (buf q).
    rewrite with_buf_same by done. split; [done|]. split; [|done].
    split; [eapply frame_mono; [| |by eapply frame_refl]; [lia|done]|by split].
  - apply negb_false_iff, Z.eqb_eq in Hsz. destruct (send_loop_settles n k q d t r f Ko I Mo So Hsz Es) as (k' & b' & E & H').
    exists k', b'. split; [|done]. rewrite (mtry_ok _ _ _ () (k, q)) by done. exact E.
Qed.

(** *** Receiving *)

Lemma fr_recv_return n k q out b r out' b' : kern_ok n k → mutex_ok k (state_mutex q) false → ByteQueue.wf b' →
  (∀ k1, FreeRtosQueueCalls.recv_section (Some probed) out b (k1, q) = Done ((FreeRtosQueue.Return r, out'), (k1, with_buf q b'))) →
  q_settles 0 (FreeRtosQueueCalls.recv_loop (Some probed) FUEL FUEL out b) k q (r, out') (ByteQueueFacts.abs b').
Proof.
  intros Ko Mo W Hs. destruct (fr_around n k q (with_buf q b') Ko Mo eq_refl) as (k1 & k2 & El & Eu & _ & _ & St). exists k2, b'.
  split; [|done]. unfold FUEL at 2. cbn [FreeRtosQueueCalls.recv_loop].
  rewrite (mbind_done _ _ _ _ _ El), (mbind_done _ _ _ _ _ (Hs k1)), (mbind_done _ _ _ _ _ Eu). done.
Qed.

(** A section that does not block. *)
Lemma recv_section_return q k1 out b r e out' b' : idle q → ByteQueue.try_recv (buf q) out = Done (r, (b', out')) →
  match r with
  | Ok _ => e = Ok ()
  | Err Error.QueueEmpty => ByteQueue.closed b' = false ∧ (b = Wait.NoWait ∧ e = Err Error.QueueEmpty ∨ b = Wait.Zero ∧ e = Err Error.Timeout)
  | Err x => e = Err x
  end →
  FreeRtosQueueCalls.recv_section (Some probed) out b (k1, q) = Done ((FreeRtosQueue.Return e, out'), (k1, with_buf q b')).
Proof.
  intros [Est _] Et He. unfold FreeRtosQueueCalls.recv_section. rewrite Est in Et |- *. simpl in *. rewrite Et. cbn [mbind Run_bind].
  destruct r as [z|x]; [by subst|]. destruct x; try (by subst). destruct He as [Hcl Hb].
  unfold ByteQueue.is_closed. rewrite Hcl. by destruct Hb as [[-> ->]|[-> ->]].
Qed.

Lemma fr_recv_wait n k q out x : kern_ok (1 + n) k → idle q → mutex_ok k (state_mutex q) false →
  sem_ok k (receiver_sem q) (uint_max 32) (λ n, n = 0) → ByteQueue.closed (buf q) = false →
  ByteQueue.try_recv (buf q) out = Done (Err Error.QueueEmpty, (buf q, out)) →
  Duration.wf x → Duration.as_secs x ≤ MAX_WAIT → Duration.eqb x Duration.ZERO = false →
  q_settles 1 (FreeRtosQueueCalls.recv_loop (Some probed) FUEL FUEL out (Wait.Finite x None false)) k q (Err Error.Timeout, out) (ByteQueueFacts.abs (buf q)).
Proof.
  intros Ko I Mo So Hcl Et Wx Hx Hz. pose proof I as (Est & Wb & _).
  destruct (fr_around (1 + n) k q (one_receiver q) Ko Mo eq_refl) as (k1 & k2 & El & Eu & K1 & T1 & St).
  destruct (fr_prepare n k1 x K1 Wx Hx) as (dl & Ep & Wl & Nl). pose proof (step_at_kern 0 _ _ _ _ _ St Ko) as K2.
  destruct (fr_wait_out n k2 (one_receiver q) (with_buf q (buf q)) receiver_sem FreeRtosQueueCalls.recv_reconcile_section x dl (Err Error.Timeout) K2)
    as (k3 & Eb & S3); try done.
  - apply St.
  - by eapply sem_ok_sems; [apply St|].
  - by rewrite (step_at_clock _ _ _ _ St), <- T1.
  - intros j1 j2 Ej. unfold FreeRtosQueueCalls.recv_reconcile_section, FreeRtosQueue.recv_reconcile. simpl in Ej |- *.
    unfold ByteQueue.is_closed. rewrite Ej, Hcl. done.
  - exists k3, (buf q). split; [|split; [by apply (step_at_trans 0 1 _ _ k2 _ false)|done]].
    unfold FUEL at 2. cbn [FreeRtosQueueCalls.recv_loop]. rewrite (mbind_done _ _ _ _ _ El).
    rewrite (mbind_done _ _ _ (FreeRtosQueue.Block (Wait.Finite x (Some dl) true), out) (k1, one_receiver q)).
    2:{ unfold FreeRtosQueueCalls.recv_section, ByteQueue.is_closed. rewrite Et. cbn [mbind Run_bind]. rewrite Hcl.
        unfold FreeRtosQueueCalls.block_or_fail.
        rewrite Est. cbn [FreeRtosQueue.initial_state FreeRtosQueue.receiver_waiters]. rewrite (mbind_done _ _ _ _ _ Ep). done. }
    cbn [fst snd]. rewrite (mbind_done _ _ _ _ _ Eu), (mbind_done _ _ _ _ _ Eb). done.
Qed.

Lemma recv_loop_settles n k q out t r out' f : kern_ok (Spec.finite t + n) k → idle q → mutex_ok k (state_mutex q) false →
  sem_ok k (receiver_sem q) (uint_max 32) (λ n, n = 0) → Z.of_nat (length out) = FreeRtosQueueNew.message_size q →
  Spec.queue_step limits (Client.Recv out t) (ByteQueueFacts.abs (buf q)) = Some ((r, out'), f) →
  q_settles (Spec.finite t) (FreeRtosQueueCalls.recv_loop (Some probed) FUEL FUEL out (Wait.budget_new t)) k q (r, out') f.
Proof.
  intros Ko I Mo So Hsz Es. pose proof I as (_ & W & _ & Hms). rewrite Hms in Hsz. simpl in Es.
  destruct (ByteQueueFacts.try_recv_refines (buf q) out W) as (b' & out1 & Et & Wb & Eb).
  unfold Fifo.recv in Es, Et, Eb. simpl in Es, Et, Eb.
  rewrite (proj2 (Z.eqb_eq _ _) Hsz) in Es, Et, Eb. simpl in Es, Et, Eb. unfold Spec.timed in Es.
  destruct (Spec.prompt limits t) eqn:Hp; [|by destruct (ByteQueue.messages (buf q))]. simpl in Es.
  assert (length (ByteQueue.messages (buf q)) = Z.to_nat (ByteQueue.len (buf q))) as Hlen by apply ByteQueue.messages_length.
  pose proof (ByteQueue.wf_len _ W) as Hl.
  destruct (ByteQueue.messages (buf q)) as [|m ms] eqn:Hmsg; simpl in *.
  - assert (ByteQueue.len (buf q) = 0) as Hz0 by lia. destruct (ByteQueue.closed (buf q)) eqn:Hcl; simpl in Es.
    + injection Es as <- <- <-. apply pair_equal_spec in Eb as [Eb ->]. rewrite <- Eb.
      apply settles_more, (fr_recv_return (Spec.finite t + n)); try done. intros k1. by eapply recv_section_return.
    + pose proof (ByteQueueFacts.try_recv_empty (buf q) out W Hsz Hcl Hz0) as Ef.
      destruct t as [|x|]; [| |done]; injection Es as <- <- <-.
      * apply (fr_recv_return n); try done. intros k1. eapply recv_section_return; try done. split; [done|]. by left.
      * destruct (prompt_after x Hp) as [Wx Hx]. unfold Wait.budget_new. destruct (Duration.eqb x Duration.ZERO) eqn:Hz; [|by eapply fr_recv_wait].
        apply settles_more, (fr_recv_return (1 + n)); try done. intros k1. eapply recv_section_return; try done. split; [done|]. by right.
  - injection Es as <- <- <-. apply pair_equal_spec in Eb as [Eb ->]. rewrite <- Eb.
    apply settles_more, (fr_recv_return (Spec.finite t + n)); try done. intros k1. by eapply recv_section_return.
Qed.

Lemma fr_recv n k q out t r out' f : kern_ok (Spec.finite t + n) k → idle q → mutex_ok k (state_mutex q) false →
  sem_ok k (receiver_sem q) (uint_max 32) (λ n, n = 0) →
  Spec.queue_step limits (Client.Recv out t) (ByteQueueFacts.abs (buf q)) = Some ((r, out'), f) →
  q_settles (Spec.finite t) (FreeRtosQueueCalls.recv (Some probed) FUEL out t) k q (r, out') f.
Proof.
  intros Ko I Mo So Es. pose proof I as (_ & W & _ & Hms). unfold q_settles, FreeRtosQueueCalls.recv, Validation.validate_recv_buffer_size. simpl snd.
  destruct (negb (Z.of_nat (length out) =? FreeRtosQueueNew.message_size q)) eqn:Hsz.
  - simpl in Es. unfold Fifo.recv in Es. simpl in Es. rewrite <- Hms, Hsz in Es. unfold Spec.timed in Es.
    destruct (Spec.prompt limits t); [|done]. simpl in Es. injection Es as <- <- <-. exists k, (buf q).
    rewrite with_buf_same by done. split; [done|]. split; [|done].
    split; [eapply frame_mono; [| |by eapply frame_refl]; [lia|done]|by split].
  - apply negb_false_iff, Z.eqb_eq in Hsz. destruct (recv_loop_settles n k q out t r out' f Ko I Mo So Hsz Es) as (k' & b' & E & H').
    exists k', b'. by split.
Qed.

(** *** Closing, and the number of messages *)

Lemma fr_close n k q : kern_ok n k → idle q → mutex_ok k (state_mutex q) false →
  q_settles 0 (FreeRtosQueueCalls.close (Some probed) FUEL) k q (Ok ()) (Fifo.close (ByteQueueFacts.abs (buf q))).
Proof.
  intros Ko I Mo. pose proof I as (Est & W & _). destruct (ByteQueueFacts.close_refines (buf q) W) as [Wc Ec].
  set (b' := if ByteQueue.closed (buf q) then buf q else ByteQueue.close (buf q)).
  assert (ByteQueue.wf b' ∧ ByteQueueFacts.abs b' = Fifo.close (ByteQueueFacts.abs (buf q))) as [Wb Eb].
  { unfold b'. destruct (ByteQueue.closed (buf q)) eqn:Hcl; [|done]. split; [done|]. unfold Fifo.close, ByteQueueFacts.abs. simpl. by rewrite Hcl. }
  destruct (fr_around n k q (with_buf q b') Ko Mo eq_refl) as (k1 & k2 & El & Eu & _ & _ & St). exists k2, b'. split; [|done].
  unfold FreeRtosQueueCalls.close. rewrite (mtry_ok _ _ _ _ _ El).
  rewrite (mbind_done _ _ _ (Ok ()) (k1, with_buf q b')); [by rewrite (mbind_done _ _ _ _ _ Eu)|].
  unfold FreeRtosQueueCalls.close_section, ByteQueue.is_closed, b'. destruct (ByteQueue.closed (buf q)) eqn:Hcl; [by rewrite with_buf_same|].
  unfold with_buf. by rewrite Est.
Qed.

Lemma fr_len n k q : kern_ok n k → idle q → mutex_ok k (state_mutex q) false →
  q_settles 0 (FreeRtosQueueCalls.queue_len (Some probed) FUEL) k q (Ok (Z.of_nat (length (ByteQueue.messages (buf q))))) (ByteQueueFacts.abs (buf q)).
Proof.
  intros Ko I Mo. pose proof I as (_ & W & _). destruct (fr_around n k q q Ko Mo eq_refl) as (k1 & k2 & El & Eu & _ & _ & St).
  exists k2, (buf q). rewrite with_buf_same by done. split; [|done]. unfold FreeRtosQueueCalls.queue_len. rewrite (mtry_ok _ _ _ _ _ El).
  rewrite (mbind_done _ _ _ (ByteQueue.len (buf q)) (k1, q)) by done. rewrite (mbind_done _ _ _ _ _ Eu).
  rewrite ByteQueue.messages_length. destruct W. by rewrite Z2Nat.id by lia.
Qed.

Lemma fr_queue n R (c : Client.queue_call R) s r q h res q' : ok (Spec.queue_cost c + n) s → objects s !! r = Some (Spec.AQueue q, h) →
  Spec.queue_step limits c q = Some (res, q') →
  ∃ s', queue_call r c s = Done (res, s') ∧ ok n s' ∧ running s' = running s ∧ objects s' = <[r:=(Spec.AQueue q', h)]> (objects s).
Proof.
  intros O Er Es. destruct (fr_objects_lookup _ s r _ h O Er) as (cl & E & (_ & _ & Hok & _) & Ha & -> & Ec).
  unfold abstract in Ha. destruct (body cl) as [x|mu|qu] eqn:Eb; try done. injection Ha as ->.
  destruct Hok as (I & Mo & So & Ro). pose proof I as (Est & W & Hcp & Hms). pose proof (o_kernel _ _ O) as Ko.
  destruct (Suite.queue_step_shape limits c _ _ _ Es) as [Hb Hl]. simpl in Hb, Hl.
  assert (∀ (f : option Sys.Capabilities → M (kern * QueueInner) R),
    q_settles (Spec.queue_cost c) (f (Some probed)) (kernel s) qu res q' →
    ∃ s', on_object r inner_queue Objects.OQueue f s = Done (res, s') ∧ ok n s' ∧ running s' = running s ∧
      objects s' = <[r:=(Spec.AQueue q', strong cl)]> (objects s)) as Hcall.
  { intros f (k' & b' & Ek & (F & Mo' & Es') & Wb & <-). simpl in Hb, Hl.
    apply (fr_on_object (Spec.queue_cost c) n s r cl inner_queue Objects.OQueue f qu res k' (with_buf qu b')); try done; rewrite ?Eb; try done.
    - eapply frame_mono; [| |exact F]; [lia|]. simpl. intros i. rewrite !elem_of_cons. set_solver.
    - split; [split; [done|]; split; [done|]; simpl; split; congruence|]. split; [done|]. split; by eapply sem_ok_sems. }
  assert (∀ a, (∀ k : kern, FreeRtosClient.look a (k, qu) = Done (res, (k, qu))) → q' = ByteQueueFacts.abs (buf qu) → Spec.queue_cost c = 0%nat →
    q_settles (Spec.queue_cost c) (look a) (kernel s) qu res q') as Hlook.
  { intros a Ea -> Hc. exists (kernel s), (buf qu). rewrite with_buf_same, Hc by done. split; [by rewrite Ea|].
    split; [|done]. split; [by eapply frame_refl|by split]. }
  destruct c as [d t|out t| | | |]; simpl in O, Ko, Hcall, Hlook.
  - apply Hcall. by apply (fr_send n).
  - apply Hcall. destruct res as [rr out']. by apply (fr_recv n).
  - simpl in Es. injection Es as <- <-. apply Hcall. by apply (fr_close n).
  - simpl in Es. injection Es as <- <-. apply Hcall, Hlook; [|done..]. intros k. unfold look. simpl. by rewrite Hcp.
  - simpl in Es. injection Es as <- <-. apply Hcall, Hlook; [|done..]. intros k. unfold look. simpl. by rewrite Hms.
  - simpl in Es. injection Es as <- <-. apply Hcall. by apply (fr_len n).
Qed.

(** ** The laws *)

Lemma fr_less k n s : ok (k + n) s → ok n s.
Proof. intros [R K C S]. split; try done. by eapply kern_less. Qed.

Definition freertos_backend_laws : @BackendLaws state freertos_backend.
Proof.
  unshelve refine (Build_BackendLaws state freertos_backend ok running objects limits _ _ _ _ _ _ _ _ _ _).
  - exact fr_less.
  - exact fr_initialize.
  - exact fr_shutdown.
  - exact fr_state.
  - exact fr_new.
  - exact fr_queue.
  - exact fr_semaphore.
  - exact fr_mutex.
  - exact fr_clone.
  - exact fr_drop.
Defined.

Definition start : state := mkState FreeRtosRuntime.new Fixture.initial ∅ 1.

Lemma fr_initial : ClientRun.initial (BackendLaws0:=freertos_backend_laws) start.
Proof.
  assert (running start = false) as Hr by by apply (fr_running_life _ false 0).
  split; [|by split]. split.
  - rewrite Hr. pose proof RuntimeLifecycle.zero_le_MAX_COUNT. split; [done|]. split; [done|]. split; [done|]. split; [simpl; rewrite map_size_empty; lia|done].
  - change (kern_ok patience Fixture.initial). split; try done.
    change (0 + (Z.of_nat patience + 1) * COST < LIFE). unfold COST, LIFE. lia.
  - intros r c. simpl. by rewrite lookup_empty.
  - intros r r' c c' id. simpl. by rewrite lookup_empty.
Qed.

End FreeRtosClient.
End FreeRtosClient.

(** ** The backends agree *)

Module FreeRtosAgrees.
Section FreeRtosAgrees.
Context `{Arch} (me : Z) (wakes : nat → nat) (timers_start timers_stop : Result ()).

(** A client program on the FreeRTOS backend from the start of the process. *)
Definition on_freertos {A} (p : Client.prog A) :=
  ClientRun.run_on (Backend0:=FreeRtosClient.freertos_backend me wakes timers_start timers_stop) p
    (ClientRun.mkState FreeRtosClient.start ∅ 0).

(** C10: Equivalence: a client program that the specification runs to its end, within
    limits both backends have and with at most 2^16 calls that may wait, of 2^20
    seconds each at most, gets the same results on the mock backend and on the
    FreeRTOS backend over its simulated kernel, whichever thread runs it, as long as
    no take of the simulated kernel wakes up spuriously more than 2^20 times (each
    wake-up passes the full wait on its clock, which panics when it overflows):
    every call returns, neither backend nor the simulated kernel panics, a wait that
    nobody ends runs into its deadline after two rounds, both end with their
    runtimes in the same state and as many objects, and every handle has the same
    object behind it.  The timer service starts and stops. *)
Theorem mock_predicts_freertos {A} (p : Client.prog A) l r a :
  timers_start = Ok () → timers_stop = Ok () → (∀ i, Z.of_nat (wakes i) ≤ FixtureWait.WAKES) → Z.of_nat (Spec.max_waits l) ≤ 2 ^ 16 →
  Suite.covers l (MockClient.limits (Spec.max_waits l)) → Suite.covers l (FreeRtosClient.limits (Spec.max_waits l)) →
  Spec.run l p Spec.start = Some (r, a) →
  ∃ s s', MockClient.on_mock p = Done (r, s) ∧ on_freertos p = Done (r, s') ∧
    MockClient.running (ClientRun.backend s) = FreeRtosClient.running (ClientRun.backend s') ∧
    size (MockClient.objects (ClientRun.backend s)) = size (FreeRtosClient.objects (ClientRun.backend s')) ∧
    ∀ h o x n, Spec.handles a !! h = Some o → Spec.objects a !! o = Some (x, n) →
      ∃ rf rf', ClientRun.refs s !! h = Some rf ∧ MockClient.objects (ClientRun.backend s) !! rf = Some (x, n) ∧
        ClientRun.refs s' !! h = Some rf' ∧ FreeRtosClient.objects (ClientRun.backend s') !! rf' = Some (x, n).
Proof.
  intros Hs Ht Hw Hp Cm Cf E.
  exact (Agreement.backends_agree (MockClient.mock_backend_laws (Spec.max_waits l))
    (FreeRtosClient.freertos_backend_laws me wakes timers_start timers_stop (Spec.max_waits l) Hs Ht Hw Hp) p l r a _ _ Cm Cf
    (MockClient.mock_initial _) (FreeRtosClient.fr_initial me wakes timers_start timers_stop (Spec.max_waits l) Hs Ht Hw Hp) E).
Qed.

End FreeRtosAgrees.
End FreeRtosAgrees.

(** ** Witness: a queue on both backends, with 64-bit words *)

Module FreeRtosClientWitness.
Import Client.
Open Scope prog_scope.
#[local] Existing Instance arch64.

(** A message arrives; the wait for a second one ends after its five milliseconds. *)
Definition waiting : prog (list u8 * Result () * Result ()) :=
  unwrap Initialize ;~
  q <~ unwrap (New (NewQueue 2 1)) ;;
  unwrap (OnQueue q (Send [Byte.x07] Timeout.NoWait)) ;~
  r <~ call (OnQueue q (Recv [Byte.x00] (Timeout.After (Duration.mk 0 5000000)))) ;;
  r' <~ call (OnQueue q (Recv [Byte.x00] (Timeout.After (Duration.mk 0 5000000)))) ;;
  x <~ call Shutdown ;;
  Ret (snd r, fst r', x).
Definition few : Spec.limits := Spec.mkLimits 1 2 2 0 2.

Lemma mock_predicts_freertos_witness :
  ∃ s s', MockClient.on_mock waiting = Done (([Byte.x07], Err Error.Timeout, Err Error.Busy), s) ∧
    FreeRtosAgrees.on_freertos 1 (λ i, i mod 3)%nat (Ok ()) (Ok ()) waiting = Done (([Byte.x07], Err Error.Timeout, Err Error.Busy), s') ∧
    size (FreeRtosClient.objects (ClientRun.backend s')) = 1%nat.
Proof.
  edestruct (FreeRtosAgrees.mock_predicts_freertos 1 (λ i, i mod 3)%nat (Ok ()) (Ok ()) waiting few) as (s & s' & E & E' & _ & Hs & _).
  - reflexivity.
  - reflexivity.
  - intros i. pose proof (Nat.mod_upper_bound i 3 ltac:(lia)). unfold FixtureWait.WAKES. lia.
  - vm_compute. discriminate.
  - split; [|split; [|split; [|split]]]; vm_compute; solve [congruence|lia].
  - split; [|split; [|split; [|split]]]; vm_compute; solve [congruence|lia].
  - vm_compute. reflexivity.
  - exists s, s'. split; [exact E|]. split; [exact E'|]. rewrite <- Hs.
    clear Hs E'. revert E. vm_compute. intros [= <-]. reflexivity.
Defined.

End FreeRtosClientWitness.
