(* ===== verification/Pipeline.v ===== *)
(** * The pipeline application

    [examples/osal-demo/src/pipeline_demo.rs]: two producers, three consumers and
    a monitor share a queue, statistics under a mutex, a semaphore and event bits;
    a supervisor spawns, starts, stops and joins them and checks the result.

    The objects are used through what they promise: the queue is the abstract
    [Fifo] (both backends' queues are linearizable to it), a section under the
    statistics' mutex is atomic.  Between two accesses to shared state anything
    can happen.  The clock, timeouts and failing calls are choices of [luck]. *)

From S2P Require Import Prelude Api Buffers.

(** ** Packets *)

Module Packet.

Definition PACKET_SIZE : Z := 16.

Definition byte_of (z : Z) : u8 := default Byte.x00 (Byte.of_N (Z.to_N (z mod 256))).
Definition to_le_bytes (v : Z) : list u8 := [byte_of v; byte_of (v / 2 ^ 8); byte_of (v / 2 ^ 16); byte_of (v / 2 ^ 24)].
Definition from_le_bytes (a b c d : u8) : Z :=
  let z (x : u8) := Z.of_N (Byte.to_N x) in z a + 2 ^ 8 * z b + 2 ^ 16 * z c + 2 ^ 24 * z d.

(** [[pid][seq][checksum]], padded with zeros *)
Definition build_packet (producer_id sequence_id : Z) : list u8 :=
  let checksum := Z.lxor producer_id sequence_id in
  to_le_bytes producer_id ++ to_le_bytes sequence_id ++ to_le_bytes checksum ++ replicate 4 Byte.x00.

Definition read_u32_le (buf : list u8) (offset : nat) : option Z :=
  a ← buf !! offset; b ← buf !! (offset + 1)%nat; c ← buf !! (offset + 2)%nat; d ← buf !! (offset + 3)%nat;
  Some (from_le_bytes a b c d).

Definition verify_packet (buf : list u8) : bool :=
  match read_u32_le buf 0, read_u32_le buf 4, read_u32_le buf 8 with
  | Some pid, Some seq, Some checksum => checksum =? Z.lxor pid seq
  | _, _, _ => false
  end.

Lemma byte_of_range z : Z.of_N (Byte.to_N (byte_of z)) = z mod 256.
Proof.
  unfold byte_of. pose proof (Z.mod_pos_bound z 256 ltac:(lia)) as Hz.
  destruct (Byte.of_N (Z.to_N (z mod 256))) as [b|] eqn:E; simpl.
  - apply Byte.to_of_N in E. rewrite E, Z2N.id by lia. done.
  - apply Byte.of_N_None_iff in E. lia.
Qed.

Lemma from_to_le v : in_uint 32 v →
  from_le_bytes (byte_of v) (byte_of (v / 2 ^ 8)) (byte_of (v / 2 ^ 16)) (byte_of (v / 2 ^ 24)) = v.
Proof.
  intros Hv. unfold in_uint in Hv. unfold from_le_bytes. rewrite !byte_of_range.
  change (2 ^ 8) with 256. change (2 ^ 16) with 65536. change (2 ^ 24) with 16777216. change (2 ^ 32) with 4294967296 in Hv.
  rewrite (Z.mod_small (v / 16777216)) by (split; [apply Z.div_pos; lia|apply Z.div_lt_upper_bound; lia]).
  pose proof (Z.div_mod v 256 ltac:(lia)). pose proof (Z.div_mod (v / 256) 256 ltac:(lia)) as H1.
  pose proof (Z.div_mod (v / 256 / 256) 256 ltac:(lia)) as H2. rewrite !Z.div_div in H1, H2 by lia.
  rewrite !Z.div_div in H2 by lia. change (256 * 256) with 65536 in *. change (65536 * 256) with 16777216 in *. lia.
Qed.

Lemma lxor_u32 a b : in_uint 32 a → in_uint 32 b → in_uint 32 (Z.lxor a b).
Proof.
  unfold in_uint. intros [Ha Ha'] [Hb Hb']. split; [apply Z.lxor_nonneg; lia|].
  destruct (decide (Z.lxor a b = 0)) as [->|Hne]; [lia|].
  apply Z.log2_lt_pow2; [assert (0 ≤ Z.lxor a b) by (apply Z.lxor_nonneg; lia); lia|].
  pose proof (Z.log2_lxor a b Ha Hb). pose proof (Z.log2_lt_pow2 a 32).  pose proof (Z.log2_lt_pow2 b 32).
  destruct (decide (a = 0)) as [->|]; destruct (decide (b = 0)) as [->|]; simpl in *; lia.
Qed.

Lemma build_packet_length p s : Z.of_nat (length (build_packet p s)) = PACKET_SIZE.
Proof. done. Qed.

Lemma build_packet_fields p s : in_uint 32 p → in_uint 32 s →
  read_u32_le (build_packet p s) 0 = Some p ∧ read_u32_le (build_packet p s) 4 = Some s ∧
  read_u32_le (build_packet p s) 8 = Some (Z.lxor p s).
Proof.
  intros Hp Hs. unfold read_u32_le. simpl. by rewrite !from_to_le by auto using lxor_u32.
Qed.

Lemma verify_built p s : in_uint 32 p → in_uint 32 s → verify_packet (build_packet p s) = true.
Proof.
  intros Hp Hs. unfold verify_packet. destruct (build_packet_fields p s Hp Hs) as (-> & -> & ->). apply Z.eqb_refl.
Qed.

(** Little-endian is injective. *)
Lemma from_le_inj a b c d a' b' c' d' : from_le_bytes a b c d = from_le_bytes a' b' c' d' → a = a' ∧ b = b' ∧ c = c' ∧ d = d'.
Proof.
  intros E. unfold from_le_bytes in E. pose proof (Byte.to_N_bounded a). pose proof (Byte.to_N_bounded b). pose proof (Byte.to_N_bounded c).
  pose proof (Byte.to_N_bounded d). pose proof (Byte.to_N_bounded a'). pose proof (Byte.to_N_bounded b'). pose proof (Byte.to_N_bounded c').
  pose proof (Byte.to_N_bounded d'). change (2 ^ 8) with 256 in E. change (2 ^ 16) with 65536 in E. change (2 ^ 24) with 16777216 in E.
  assert (∀ x y, Byte.to_N x = Byte.to_N y → x = y) as Hinj.
  { intros x y Exy. apply (f_equal Byte.of_N) in Exy. rewrite !Byte.of_to_N in Exy. congruence. }
  split_and!; apply Hinj; lia.
Qed.

(** A field that has one byte replaced has another value. *)
Lemma changed_field v k (b : u8) : in_uint 32 v → to_le_bytes v !! k ≠ Some b → (k < 4)%nat →
  ∃ v', read_u32_le (<[k:=b]> (to_le_bytes v)) 0 = Some v' ∧ v' ≠ v.
Proof.
  intros Hv Hb Hk. unfold read_u32_le. destruct k as [|[|[|[|k]]]]; [..|lia]; simpl in *; eexists; (split; [done|]);
    intros E; rewrite <- (from_to_le v Hv) in E; apply from_le_inj in E; destruct_and!; by subst.
Qed.

Lemma xor_detects_left a a' b : a' ≠ a → (Z.lxor a b =? Z.lxor a' b) = false.
Proof.
  intros Ha. apply Z.eqb_neq. intros E. apply Ha. apply (f_equal (λ x, Z.lxor x b)) in E.
  by rewrite !Z.lxor_assoc, Z.lxor_nilpotent, !Z.lxor_0_r in E.
Qed.

(** C40: Roundtrip: a packet that was built verifies and gives back its fields, and
    replacing any of the twelve bytes of its fields by another one is detected. *)
Theorem packet_checked p s : in_uint 32 p → in_uint 32 s →
  read_u32_le (build_packet p s) 0 = Some p ∧ read_u32_le (build_packet p s) 4 = Some s ∧
  verify_packet (build_packet p s) = true ∧
  ∀ i b, (i < 12)%nat → build_packet p s !! i ≠ Some b → verify_packet (<[i:=b]> (build_packet p s)) = false.
Proof.
  intros Hp Hs. destruct (build_packet_fields p s Hp Hs) as (F0 & F4 & F8). split_and!; [done|done|by apply verify_built|].
  intros i b Hi Hb. pose proof (lxor_u32 p s Hp Hs) as Hx. unfold verify_packet.
  destruct (decide (i < 4)%nat) as [H4|H4]; [|destruct (decide (i < 8)%nat) as [H8|H8]].
  - destruct (changed_field p i b Hp) as (v & Ev & Hv); [by destruct i as [|[|[|[|i]]]]; [..|lia]|done|].
    assert (read_u32_le (<[i:=b]> (build_packet p s)) 0 = Some v ∧ read_u32_le (<[i:=b]> (build_packet p s)) 4 = Some s ∧
            read_u32_le (<[i:=b]> (build_packet p s)) 8 = Some (Z.lxor p s)) as (-> & -> & ->)
      by (destruct i as [|[|[|[|i]]]]; [..|lia]; done).
    by apply xor_detects_left.
  - destruct (changed_field s (i - 4) b Hs) as (v & Ev & Hv); [by do 4 (destruct i as [|i]; [lia|]); destruct i as [|[|[|[|i]]]]; [..|lia]|lia|].
    assert (read_u32_le (<[i:=b]> (build_packet p s)) 0 = Some p ∧ read_u32_le (<[i:=b]> (build_packet p s)) 4 = Some v ∧
            read_u32_le (<[i:=b]> (build_packet p s)) 8 = Some (Z.lxor p s)) as (-> & -> & ->)
      by (do 4 (destruct i as [|i]; [lia|]); destruct i as [|[|[|[|i]]]]; [..|lia]; done).
    rewrite (Z.lxor_comm p s), (Z.lxor_comm p v). by apply xor_detects_left.
  - destruct (changed_field (Z.lxor p s) (i - 8) b Hx) as (v & Ev & Hv); [by do 8 (destruct i as [|i]; [lia|]); destruct i as [|[|[|[|i]]]]; [..|lia]|lia|].
    assert (read_u32_le (<[i:=b]> (build_packet p s)) 0 = Some p ∧ read_u32_le (<[i:=b]> (build_packet p s)) 4 = Some s ∧
            read_u32_le (<[i:=b]> (build_packet p s)) 8 = Some v) as (-> & -> & ->)
      by (do 8 (destruct i as [|i]; [lia|]); destruct i as [|[|[|[|i]]]]; [..|lia]; done).
    by apply Z.eqb_neq.
Qed.

Lemma packet_checked_witness :
  verify_packet (build_packet 1 258) = true ∧ verify_packet (<[5%nat:=Byte.x03]> (build_packet 1 258)) = false.
Proof.
  destruct (packet_checked 1 258) as (_ & _ & Hv & Hc).
  - split; vm_compute; congruence.
  - split; vm_compute; congruence.
  - split; [exact Hv|]. apply Hc; [lia|]. vm_compute. congruence.
Defined.

End Packet.

(** ** The application: shared state *)

Module Pipeline.
Import Packet.

Definition QUEUE_CAPACITY : Z := 128.
Definition PRODUCER_COUNT : nat := 2.
Definition CONSUMER_COUNT : nat := 3.
Definition TOTAL_READY_TASKS : nat := (PRODUCER_COUNT + CONSUMER_COUNT + 1)%nat.

Definition START_BIT : Z := Z.shiftl 1 0.
Definition STOP_BIT : Z := Z.shiftl 1 1.
Definition CONSUMER_GO_BIT : Z := Z.shiftl 1 2.
Definition has (bits b : Z) : bool := negb (Z.land bits b =? 0).

Inductive WorkerError : Type := ReadyRelease | StatsLock | QueueSend | QueueRecv.
Definition code (e : WorkerError) : Z := match e with ReadyRelease => 1 | StatsLock => 2 | QueueSend => 3 | QueueRecv => 4 end.

Record Stats : Type := mkStats { produced : Z; consumed : Z; dropped : Z; checksum_error : Z; queue_timeout : Z }.

Record AppState : Type := mkApp {
  queue : Fifo.t;
  stats : Stats;
  ready_sem : CountingSemaphoreState.t;
  events : Z;
  worker_error : Z;
  monitor_samples : Z;
  timer_fires : Z;
}.

Definition fetch_or (b : Z) (a : AppState) : AppState :=
  mkApp (queue a) (stats a) (ready_sem a) (Z.lor (events a) b) (worker_error a) (monitor_samples a) (timer_fires a).
Definition set_queue (q : Fifo.t) (a : AppState) : AppState :=
  mkApp q (stats a) (ready_sem a) (events a) (worker_error a) (monitor_samples a) (timer_fires a).
Definition set_stats (s : Stats) (a : AppState) : AppState :=
  mkApp (queue a) s (ready_sem a) (events a) (worker_error a) (monitor_samples a) (timer_fires a).
Definition set_ready (s : CountingSemaphoreState.t) (a : AppState) : AppState :=
  mkApp (queue a) (stats a) s (events a) (worker_error a) (monitor_samples a) (timer_fires a).
Definition sampled (a : AppState) : AppState :=
  mkApp (queue a) (stats a) (ready_sem a) (events a) (worker_error a) (wrapping_add 32 (monitor_samples a) 1) (timer_fires a).
(** the heartbeat's callback *)
Definition fired (a : AppState) : AppState :=
  mkApp (queue a) (stats a) (ready_sem a) (events a) (worker_error a) (monitor_samples a) (wrapping_add 32 (timer_fires a) 1).
(** a compare-and-exchange: the first failure wins *)
Definition record_worker_error (e : WorkerError) (a : AppState) : AppState :=
  mkApp (queue a) (stats a) (ready_sem a) (events a) (if worker_error a =? 0 then code e else worker_error a)
        (monitor_samples a) (timer_fires a).

(** ** The workers: one step per access to shared state *)

(** What the clock and the backend decide: nothing special, a deadline that is over,
    or a call that fails. *)
Inductive luck : Type := Smooth | Late | Fails (e : Error.t).

Inductive producer_pc : Type :=
| PReady | PStart
| PHead (seq : Z)                              (* the head start's loop *)
| PSend (head : bool) (seq : Z)
| PCount (head : bool) (seq : Z) (sent : bool)
| PGo (seq : Z) | PLoop (seq : Z).
Inductive consumer_pc : Type :=
| CReady | CWait
| CLoop (packet : list u8) | CRecv (packet : list u8)
| CCount (packet : list u8)                    (* received *)
| CIdle (packet : list u8)                     (* timed out *)
| CClosed.
Inductive monitor_pc : Type :=
| MReady | MStart | MLoop | MFires
| MPoll (previous : Z) | MPollFires (previous : Z)
| MSample | MCount.

Inductive worker : Type :=
| Producer (id : Z) (p : producer_pc)
| Consumer (p : consumer_pc)
| Monitor (p : monitor_pc)
| Failing (e : WorkerError)                    (* about to record its error and return *)
| Exited.

(** A step: [None] while the call blocks. *)
Definition outcome : Type := option (Run (AppState * worker)).
Definition next (a : AppState) (w : worker) : outcome := Some (Done (a, w)).

Definition signal_ready (l : luck) (a : AppState) (w : worker) : outcome :=
  match l with
  | Fails _ => next a (Failing ReadyRelease)
  | _ => Some ('(r, s) ← CountingSemaphoreState.release (ready_sem a);
               Done (set_ready s a, match r with Ok _ => w | Err _ => Failing ReadyRelease end))
  end.

(** one round of the loop *)
Definition wait_for_start (a : AppState) (again go : worker) : outcome :=
  next a (if has (events a) STOP_BIT then Exited else if has (events a) START_BIT then go else again).

Definition unless_stopped (a : AppState) (w : worker) : outcome :=
  next a (if has (events a) STOP_BIT then Exited else w).

(** [state.stats.lock(Timeout::Forever)] and the section under the guard *)
Definition locked (l : luck) (f : Stats → Run Stats) (a : AppState) (w : worker) : outcome :=
  match l with
  | Fails _ => next a (Failing StatsLock)
  | _ => Some (s ← f (stats a); Done (set_stats s a, w))
  end.

Definition count_produced (s : Stats) : Run Stats :=
  n ← uadd 32 (produced s) 1; Done (mkStats n (consumed s) (dropped s) (checksum_error s) (queue_timeout s)).
Definition count_dropped (s : Stats) : Run Stats :=
  n ← uadd 32 (dropped s) 1; Done (mkStats (produced s) (consumed s) n (checksum_error s) (queue_timeout s)).
Definition count_timeout (s : Stats) : Run Stats :=
  n ← uadd 32 (queue_timeout s) 1; Done (mkStats (produced s) (consumed s) (dropped s) (checksum_error s) n).
Definition count_consumed (valid : bool) (s : Stats) : Run Stats :=
  n ← uadd 32 (consumed s) 1;
  e ← (if valid then Done (checksum_error s) else uadd 32 (checksum_error s) 1);
  Done (mkStats (produced s) n (dropped s) e (queue_timeout s)).

(** [produce_once]: the send, and the section that counts it *)
Definition send_packet (id : Z) (head : bool) (seq : Z) (l : luck) (a : AppState) : outcome :=
  match l with
  | Late | Fails Error.Timeout => next a (Producer id (PCount head seq false))
  | Fails _ => next a (Failing QueueSend)
  | Smooth =>
      match Fifo.send (queue a) (build_packet id seq) with
      | (Ok _, q) => next (set_queue q a) (Producer id (PCount head seq true))
      | (Err Error.QueueFull, _) => None
      | (Err _, q) => next (set_queue q a) (Failing QueueSend)
      end
  end.
Definition producer_task (id : Z) (p : producer_pc) (l : luck) (a : AppState) : outcome :=
  match p with
  | PReady => signal_ready l a (Producer id PStart)
  | PStart => wait_for_start a (Producer id PStart) (Producer id (PHead 0))
  | PHead seq =>
      match l with
      | Late => next a (Producer id (PGo seq))
      | _ => unless_stopped a (Producer id (PSend true seq))
      end
  | PGo seq => next (fetch_or CONSUMER_GO_BIT a) (Producer id (PLoop seq))
  | PLoop seq => unless_stopped a (Producer id (PSend false seq))
  | PSend head seq => send_packet id head seq l a
  | PCount head seq sent =>
      let seq' := wrapping_add 32 seq 1 in
      locked l (if sent then count_produced else count_dropped) a (Producer id (if head then PHead seq' else PLoop seq'))
  end.

Definition receive (packet : list u8) (l : luck) (a : AppState) : outcome :=
  match l with
  | Late | Fails Error.Timeout => next a (Consumer (CIdle packet))
  | Fails Error.QueueClosed => next a (Consumer CClosed)
  | Fails _ => next a (Failing QueueRecv)
  | Smooth =>
      match Fifo.recv (queue a) packet with
      | (Ok _, (q, packet)) => next (set_queue q a) (Consumer (CCount packet))
      | (Err Error.QueueEmpty, _) => None
      | (Err Error.QueueClosed, (q, _)) => next (set_queue q a) (Consumer CClosed)
      | (Err _, (q, _)) => next (set_queue q a) (Failing QueueRecv)
      end
  end.
Definition consumer_task (p : consumer_pc) (l : luck) (a : AppState) : outcome :=
  match p with
  | CReady => signal_ready l a (Consumer CWait)
  | CWait =>
      next a (if has (events a) STOP_BIT then Exited
              else if has (events a) START_BIT && has (events a) CONSUMER_GO_BIT
                   then Consumer (CLoop (replicate (Z.to_nat PACKET_SIZE) Byte.x00)) else Consumer CWait)
  | CLoop packet => unless_stopped a (Consumer (CRecv packet))
  | CRecv packet => receive packet l a
  | CCount packet => locked l (count_consumed (verify_packet packet)) a (Consumer (CLoop packet))
  | CIdle packet => locked l count_timeout a (Consumer (CLoop packet))
  | CClosed => next a (if has (events a) STOP_BIT then Exited else Failing QueueRecv)
  end.

Definition monitor_task (p : monitor_pc) (l : luck) (a : AppState) : outcome :=
  match p with
  | MReady => signal_ready l a (Monitor MStart)
  | MStart => wait_for_start a (Monitor MStart) (Monitor MLoop)
  | MLoop => unless_stopped a (Monitor MFires)
  | MFires => next a (Monitor (MPoll (timer_fires a)))
  | MPoll previous => unless_stopped a (Monitor (MPollFires previous))
  | MPollFires previous =>
      next a (Monitor (if negb (timer_fires a =? previous) then MSample
                       else match l with Late => MSample | _ => MPoll previous end))
  | MSample => locked l Done a (Monitor MCount)
  | MCount => next (sampled a) (Monitor MLoop)
  end.

Definition worker_step (w : worker) (l : luck) (a : AppState) : outcome :=
  match w with
  | Producer id p => producer_task id p l a
  | Consumer p => consumer_task p l a
  | Monitor p => monitor_task p l a
  | Failing e => next (record_worker_error e a) Exited
  | Exited => None
  end.

(** ** The supervisor *)

Inductive DemoError : Type :=
| Osal (operation : string) (error : Error.t)
| Check_ (reason : string)
| Worker (code : Z).

(** without the time of a sample *)
Inductive PipelineEvent : Type :=
| Init (queue_capacity packet_size : Z)
| WorkerStarted (name : string)
| Started
| MonitorSample (produced consumed dropped timeout checksum_error : Z)
| Stopping
| Finished (produced consumed dropped : Z).

Record PipelineReport : Type := mkReport {
  r_produced : Z; r_consumed : Z; r_dropped : Z; r_queue_timeout : Z; r_checksum_error : Z;
  r_timer_fires : Z; r_monitor_samples : Z;
}.

Definition pipeline_invariant_failure (s : Stats) (timer_fires monitor_samples worker_error : Z) : option DemoError :=
  if produced s =? 0 then Some (Check_ "pipeline produced no packets")
  else if consumed s =? 0 then Some (Check_ "pipeline consumed no packets")
  else if produced s <? consumed s then Some (Check_ "pipeline consumed more than produced")
  else if negb (checksum_error s =? 0) then Some (Check_ "pipeline payload checksum mismatch")
  else if timer_fires =? 0 then Some (Check_ "pipeline timer never fired")
  else if monitor_samples =? 0 then Some (Check_ "pipeline monitor never sampled stats")
  else if negb (worker_error =? 0) then Some (Worker worker_error)
  else None.

Inductive phase : Type := HeadStart | FirstPhase | SecondPhase.

(** [body_error]: the error that made the supervisor give up, if any. *)
Inductive supervisor_pc : Type :=
| SInitialize | SNewQueue | SNewStats | SNewReady | SNewTimer
| SSpawn (k : nat)
| SAcquire (n : nat)
| SStart | STimerStart
| SPhase (p : phase) | SPoll (p : phase) (reported : Z) | SReport (p : phase) (reported : Z)
| SChangePeriod | SReset
| SStop | STimerStop
| SJoinStop (body_error : option DemoError) | SClose (body_error : option DemoError)
| SJoinTimer (body_error : option DemoError)
| SJoin (body_error : option DemoError) (k : nat) (first_error : option DemoError)
| SRead | SFires (s : Stats) | SSamples (s : Stats) (timer_fires : Z)
| SWorkerError (s : Stats) (timer_fires monitor_samples : Z)
| SLen (s : Stats) (timer_fires monitor_samples worker_error : Z)
| SShutdown (polls : nat) (result : Res DemoError PipelineReport)
| SEnd (result : Res DemoError PipelineReport).

Definition producer_name (id : nat) : string :=
  match id with 0%nat => "producer-0" | 1%nat => "producer-1" | _ => "producer" end.
Definition consumer_name (id : nat) : string :=
  match id with 0%nat => "consumer-0" | 1%nat => "consumer-1" | 2%nat => "consumer-2" | _ => "consumer" end.

(** the [k]-th worker of [spawn_workers]: the closure, the name, the context of an error *)
Definition spawn (k : nat) : worker * string * string :=
  if (k <? PRODUCER_COUNT)%nat then (Producer (Z.of_nat k) PReady, producer_name k, "pipeline.producer.spawn"%string)
  else if (k - PRODUCER_COUNT <? CONSUMER_COUNT)%nat then
    (Consumer CReady, consumer_name (k - PRODUCER_COUNT), "pipeline.consumer.spawn"%string)
  else (Monitor MReady, "monitor"%string, "pipeline.monitor.spawn"%string).

(** Every poll waits 2 ms of the second that [SETTLE_TIMEOUT] gives. *)
Definition SETTLE_POLLS : nat := 500.
Definition fail_body (e : DemoError) : supervisor_pc := SShutdown SETTLE_POLLS (Err e).

Definition after_phase (p : phase) : supervisor_pc :=
  match p with HeadStart => SPhase FirstPhase | FirstPhase => SChangePeriod | SecondPhase => SStop end.

(** the checks at the end of [run_with_reporter] *)
Definition conclude (s : Stats) (timer_fires monitor_samples worker_error final_len : Z) : Res DemoError PipelineReport :=
  match pipeline_invariant_failure s timer_fires monitor_samples worker_error with
  | Some reason => Err reason
  | None =>
      if QUEUE_CAPACITY <? final_len then Err (Check_ "queue exceeded capacity")
      else Ok (mkReport (produced s) (consumed s) (dropped s) (queue_timeout s) (checksum_error s) timer_fires monitor_samples)
  end.

Record config : Type := mkConfig {
  app : AppState;
  workers : list worker;
  heartbeat : bool;               (* the timer was started *)
  supervisor : supervisor_pc;
  trace : list PipelineEvent;
}.

Definition goto (c : config) (s : supervisor_pc) : config := mkConfig (app c) (workers c) (heartbeat c) s (trace c).
Definition report (e : PipelineEvent) (c : config) : config :=
  mkConfig (app c) (workers c) (heartbeat c) (supervisor c) (trace c ++ [e]).
Definition on_app (f : AppState → AppState) (c : config) : config :=
  mkConfig (f (app c)) (workers c) (heartbeat c) (supervisor c) (trace c).
Definition go (c : config) (s : supervisor_pc) : option (Run config) := Some (Done (goto c s)).

(** a call with its [demo_context] and [?]: on a failure [handler] *)
Definition attempt (l : luck) (operation : string) (handler : DemoError → supervisor_pc) (c : config)
  (ok : option (Run config)) : option (Run config) :=
  match l with Fails e => go c (handler (Osal operation e)) | _ => ok end.
(** one with a timeout *)
Definition attempt_timed (l : luck) (operation : string) (handler : DemoError → supervisor_pc) (c : config)
  (ok : option (Run config)) : option (Run config) :=
  match l with Late => go c (handler (Osal operation Error.Timeout)) | _ => attempt l operation handler c ok end.

Definition rollback (e : DemoError) : supervisor_pc := SJoinStop (Some e).

Definition read_stats (l : luck) (handler : DemoError → supervisor_pc) (c : config) (k : Stats → option (Run config)) :
  option (Run config) :=
  attempt_timed l "pipeline.stats.lock" handler c (k (stats (app c))).

(** [delay_reporting]: read the counter, poll it until the end of the phase, report a sample *)
Definition delay_reporting (l : luck) (c : config) : option (Run config) :=
  match supervisor c with
  | SPhase p => go c (SPoll p (monitor_samples (app c)))
  | SPoll p reported =>
      match l with
      | Late => go c (after_phase p)
      | _ => go c (if monitor_samples (app c) =? reported then SPoll p reported else SReport p (monitor_samples (app c)))
      end
  | SReport p reported =>
      read_stats l rollback c (λ s,
        go (report (MonitorSample (produced s) (consumed s) (dropped s) (queue_timeout s) (checksum_error s)) c) (SPoll p reported))
  | _ => None
  end.

(** [supervisor_main] *)
Definition supervisor_main (l : luck) (c : config) : option (Run config) :=
  match supervisor c with
  | SAcquire n =>
      attempt_timed l "pipeline.ready" rollback c
        (match CountingSemaphoreState.try_acquire (ready_sem (app c)) with
         | Done (true, s) => go (on_app (set_ready s) c) (match n with S (S n) => SAcquire (S n) | _ => SStart end)
         | Done (false, _) => None
         | Panic msg => Some (Panic msg)
         | NoFuel => Some NoFuel
         end)
  | SStart => go (on_app (fetch_or START_BIT) c) STimerStart
  | STimerStart =>
      attempt l "pipeline.timer.start" rollback c
        (go (report Started (mkConfig (app c) (workers c) true (supervisor c) (trace c))) (SPhase HeadStart))
  | SChangePeriod => attempt l "pipeline.timer.change_period" rollback c (go c SReset)
  | SReset => attempt l "pipeline.timer.reset" rollback c (go c (SPhase SecondPhase))
  | SStop => go (report Stopping (on_app (fetch_or STOP_BIT) c)) STimerStop
  | STimerStop => attempt l "pipeline.timer.stop" rollback c (go c (SJoinStop None))
  | SPhase _ | SPoll _ _ | SReport _ _ => delay_reporting l c
  | _ => None
  end.

(** [spawn_workers] *)
Definition spawn_workers (l : luck) (c : config) : option (Run config) :=
  match supervisor c with
  | SSpawn k =>
      let '(w, name, context) := spawn k in
      attempt l context rollback c
        (go (report (WorkerStarted name) (mkConfig (app c) (workers c ++ [w]) (heartbeat c) (supervisor c) (trace c)))
            (if (S k =? TOTAL_READY_TASKS)%nat then SAcquire TOTAL_READY_TASKS else SSpawn (S k)))
  | _ => None
  end.

(** [stop_and_join] and what its caller does with the result *)
Definition stop_and_join (l : luck) (c : config) : option (Run config) :=
  match supervisor c with
  | SJoinStop r => go (on_app (fetch_or STOP_BIT) c) (SClose r)
  | SClose r =>   (* [let _ = state.queue.close()]: a failed close is ignored *)
      match l with
      | Fails _ => go c (SJoinTimer r)
      | _ => go (on_app (λ a, set_queue (Fifo.close (queue a)) a) c) (SJoinTimer r)
      end
  | SJoinTimer r => go c (SJoin r 0 None)
  | SJoin r k first =>
      match workers c !! k with
      | None =>
          go c (match r, first with
                | Some e, _ => fail_body e
                | None, Some e => fail_body e
                | None, None => SRead
                end)
      | Some w =>
          let failed e := go c (SJoin r (S k) (Some (default (Osal "pipeline.join" e) first))) in
          match l, w with
          | Fails e, _ => failed e
          | Late, _ => failed Error.Timeout
          | Smooth, Exited => go c (SJoin r (S k) first)
          | Smooth, _ => None
          end
      end
  | _ => None
  end.

(** the body of [run_with_reporter] *)
Definition run_with_reporter (l : luck) (c : config) : option (Run config) :=
  match supervisor c with
  | SNewQueue => attempt l "pipeline.queue.create" fail_body c (go c SNewStats)
  | SNewStats => attempt l "pipeline.stats.create" fail_body c (go c SNewReady)
  | SNewReady => attempt l "pipeline.ready.create" fail_body c (go (report (Init QUEUE_CAPACITY PACKET_SIZE) c) SNewTimer)
  | SNewTimer => attempt l "pipeline.timer.create" fail_body c (go c (SSpawn 0))
  | SSpawn _ => spawn_workers l c
  | SJoinStop _ | SClose _ | SJoinTimer _ | SJoin _ _ _ => stop_and_join l c
  | SRead => read_stats l fail_body c (λ s, go c (SFires s))
  | SFires s => go c (SSamples s (timer_fires (app c)))
  | SSamples s f => go c (SWorkerError s f (monitor_samples (app c)))
  | SWorkerError s f m => go c (SLen s f m (worker_error (app c)))
  | SLen s f m e =>
      attempt l "pipeline.queue.len" fail_body c
        (go (report (Finished (produced s) (consumed s) (dropped s)) c)
            (SShutdown SETTLE_POLLS (conclude s f m e (Z.of_nat (length (Fifo.items (queue (app c))))))))
  | SInitialize | SShutdown _ _ | SEnd _ => None
  | _ => supervisor_main l c
  end.

(** [shutdown_settled]; the error of the body wins *)
Definition shutdown_settled (l : luck) (c : config) : option (Run config) :=
  match supervisor c with
  | SShutdown polls r =>
      let ended res := go c (SEnd (match r with Err e => Err e | Ok v => match res with Ok _ => Ok v | Err e => Err (Osal "runtime.shutdown" e) end end)) in
      match l, polls with
      | Smooth, _ => ended (Ok ())
      | Late, S n => go c (SShutdown n r)
      | Late, O => ended (Err Error.Busy)
      | Fails e, _ => ended (Err e)
      end
  | _ => None
  end.

(** [with_runtime] around the body *)
Definition supervisor_step (l : luck) (c : config) : option (Run config) :=
  match supervisor c with
  | SInitialize => match l with Fails e => go c (SEnd (Err (Osal "runtime.initialize" e))) | _ => go c SNewQueue end
  | SShutdown _ _ => shutdown_settled l c
  | SEnd _ => None
  | _ => run_with_reporter l c
  end.

(** ** The machine *)

Inductive action : Type := Super (l : luck) | Work (i : nat) (l : luck) | Fire.

Definition exec (c : config) (x : action) : option (Run config) :=
  match x with
  | Super l => supervisor_step l c
  | Work i l =>
      w ← workers c !! i;
      r ← worker_step w l (app c);
      Some ('(a, w) ← r; Done (mkConfig a (<[i:=w]> (workers c)) (heartbeat c) (supervisor c) (trace c)))
  | Fire => if heartbeat c then Some (Done (on_app fired c)) else None
  end.

Definition initial : config :=
  mkConfig (mkApp (Fifo.mk QUEUE_CAPACITY PACKET_SIZE [] false) (mkStats 0 0 0 0 0)
                  (CountingSemaphoreState.mk (Z.of_nat TOTAL_READY_TASKS) 0) 0 0 0 0)
           [] false SInitialize [].

(** Whether a call fails: [Late] is a deadline that passes, which is no failure. *)
Definition calm (x : action) : bool :=
  match x with Super (Fails _) | Work _ (Fails _) => false | _ => true end.

(** Reached in [n] steps, with no failing call if [quiet]. *)
Inductive reachable (quiet : bool) : nat → config → Prop :=
| reach_initial : reachable quiet 0 initial
| reach_exec n c x c' : reachable quiet n c → exec c x = Some (Done c') → (quiet → calm x) → reachable quiet (S n) c'.

Fixpoint run (c : config) (xs : list action) : option (Run config) :=
  match xs with
  | [] => Some (Done c)
  | x :: xs => match exec c x with Some (Done c) => run c xs | r => r end
  end.

End Pipeline.

(** ** Invariants *)

Module PipelineFacts.
Import Packet Pipeline.

Abbreviation used a := (Z.of_nat (length (Fifo.items (queue a)))).
Abbreviation shut a := (Fifo.shut (queue a)).
Abbreviation ready_count a := (CountingSemaphoreState.count (ready_sem a)).
Abbreviation stopped a := (has (events a) STOP_BIT).

Lemma has_lor e b' b : has (Z.lor e b') b = has e b || has b' b.
Proof.
  unfold has. rewrite Z.land_lor_distr_l. destruct (Z.land e b =? 0) eqn:E1; bool_to_prop.
  - by rewrite E1, Z.lor_0_l.
  - simpl. apply negb_true_iff, Z.eqb_neq. rewrite Z.lor_eq_0_iff. tauto.
Qed.

Definition packet_ok (m : list u8) : Prop := ∃ id seq, in_uint 32 id ∧ in_uint 32 seq ∧ m = build_packet id seq.

Lemma packet_ok_length m : packet_ok m → Z.of_nat (length m) = PACKET_SIZE.
Proof. intros (id & seq & _ & _ & ->). apply build_packet_length. Qed.
Lemma packet_ok_verify m : packet_ok m → verify_packet m = true.
Proof. intros (id & seq & Hi & Hs & ->). by apply verify_built. Qed.

(** No counter is higher than the number of steps. *)
Record stats_ok (n : nat) (s : Stats) : Prop := {
  st_produced : 0 ≤ produced s ≤ Z.of_nat n;
  st_consumed : 0 ≤ consumed s ≤ Z.of_nat n;
  st_dropped : 0 ≤ dropped s ≤ Z.of_nat n;
  st_timeout : 0 ≤ queue_timeout s ≤ Z.of_nat n;
  st_checksum : checksum_error s = 0;
}.

Record app_ok (n : nat) (a : AppState) : Prop := {
  ao_bound : Fifo.bound (queue a) = QUEUE_CAPACITY;
  ao_msg : Fifo.msg_len (queue a) = PACKET_SIZE;
  ao_len : used a ≤ QUEUE_CAPACITY;
  ao_items : Forall packet_ok (Fifo.items (queue a));
  ao_stats : stats_ok n (stats a);
  ao_sem : CountingSemaphoreState.wf (ready_sem a);
  ao_max : CountingSemaphoreState.max_count (ready_sem a) = Z.of_nat TOTAL_READY_TASKS;
}.

Definition worker_ok (w : worker) : Prop :=
  match w with
  | Producer id p =>
      in_uint 32 id ∧ match p with PHead s | PSend _ s | PCount _ s _ | PGo s | PLoop s => in_uint 32 s | _ => True end
  | Consumer (CLoop m | CRecv m | CIdle m) => Z.of_nat (length m) = PACKET_SIZE
  | Consumer (CCount m) => packet_ok m
  | _ => True
  end.

(** Sent and not yet counted, or received and not yet counted. *)
Definition in_flight (w : worker) : Z :=
  match w with Producer _ (PCount _ _ true) => 1 | Consumer (CCount _) => -1 | _ => 0 end.
Definition unready (w : worker) : Z :=
  match w with Producer _ PReady | Consumer CReady | Monitor MReady => 1 | _ => 0 end.
Definition failing (w : worker) : bool := match w with Failing _ => true | _ => false end.

(** Without failing calls only a send to a closed queue fails. *)
Definition quiet_ok (closed : bool) (w : worker) : Prop :=
  match w with Failing e => e = QueueSend ∧ closed | Consumer CClosed => closed | _ => True end.

(** Accepted by the queue: counted, minus what came out, minus what is still there. *)
Definition flow (a : AppState) : Z := produced (stats a) - consumed (stats a) - used a.

Lemma stats_ok_S n s : stats_ok n s → stats_ok (S n) s.
Proof. intros []. split; lia. Qed.
Lemma app_ok_S n a : app_ok n a → app_ok (S n) a.
Proof. intros []. split; auto using stats_ok_S. Qed.

Lemma seq_ok s : in_uint 32 (wrapping_add 32 s 1).
Proof. unfold in_uint, wrapping_add. apply Z.mod_pos_bound. lia. Qed.

Create HintDb pipeline.
#[local] Hint Resolve seq_ok packet_ok_length app_ok_S stats_ok_S : pipeline.

(** What a step of a worker does. *)
Record effect (n : nat) (quiet : bool) (w : worker) (a a' : AppState) (w' : worker) : Prop := {
  e_app : app_ok (S n) a';
  e_worker : worker_ok w';
  e_flow : failing w' ∨ flow a' + in_flight w' = flow a + in_flight w;
  e_ready : unready w' + ready_count a' ≤ unready w + ready_count a;
  e_stop : stopped a → stopped a';
  e_shut : shut a' = shut a;
  e_error : worker_error a' = match w with Failing e => if worker_error a =? 0 then code e else worker_error a | _ => worker_error a end;
  e_quiet : quiet → quiet_ok (shut a) w';
}.

(** A step that changes none of the counters. *)
Lemma effect_same n (q : bool) w a a' w' : app_ok n a → worker_ok w' →
  queue a' = queue a → stats a' = stats a → ready_sem a' = ready_sem a → (stopped a → stopped a') →
  worker_error a' = worker_error a → failing w = false →
  (failing w' ∨ in_flight w' = in_flight w) → unready w' ≤ unready w → (q → quiet_ok (shut a) w') →
  effect n q w a a' w'.
Proof.
  intros A W Eq Es Er Hev Ee Hw Hf Hu Hq. split; unfold flow; rewrite ?Eq, ?Es, ?Er; try done.
  - apply app_ok_S. destruct A. by split; rewrite ?Eq, ?Es, ?Er.
  - destruct Hf as [?| ->]; auto.
  - lia.
  - destruct w; done || by rewrite Ee.
Qed.

Lemma effect_ready n (q : bool) l w a a' w' g : app_ok n a → unready w + ready_count a ≤ Z.of_nat TOTAL_READY_TASKS →
  unready w = 1 → in_flight w = 0 → failing w = false → worker_ok g → unready g = 0 → in_flight g = 0 → failing g = false → quiet_ok (shut a) g →
  (q → calm (Work 0 l)) → signal_ready l a g = Some (Done (a', w')) → effect n q w a a' w'.
Proof.
  intros A Hr Hw Hf Hn Wg Ug Fg Ng Qg Hq E. unfold signal_ready in E.
  assert (Some ('(r, s) ← CountingSemaphoreState.release (ready_sem a);
               Done (set_ready s a, match r with Ok _ => g | Err _ => Failing ReadyRelease end)) = Some (Done (a', w')) →
          effect n q w a a' w') as Hok.
  { rewrite CountingSemaphoreState.release_spec by apply A. pose proof (ao_max n a A) as Hm.
    rewrite (proj2 (Z.ltb_lt _ _)) by lia. simpl. intros [= <- <-].
    split; simpl; [|done| | |done|done|by destruct w| ].
    - apply app_ok_S. destruct A as [? ? ? ? ? Hs Hx]. split; simpl; auto. unfold CountingSemaphoreState.wf in *. simpl. lia.
    - right. unfold flow. simpl. lia.
    - lia.
    - done. }
  destruct l; [by apply Hok..|]. unfold next in E. simplify_eq. apply effect_same; try done; auto.
  - simpl. lia.
  - intros Hq'. by apply Hq in Hq'.
Qed.

Lemma effect_locked n (q : bool) l f w a a' w' g : app_ok n a → failing w = false → unready w = 0 → unready g = 0 → failing g = false →
  quiet_ok (shut a) g → worker_ok g → (∀ s, f (stats a) = Done s → stats_ok (S n) s ∧ produced s - consumed s + in_flight g = produced (stats a) - consumed (stats a) + in_flight w) →
  (q → calm (Work 0 l)) → locked l f a g = Some (Done (a', w')) → effect n q w a a' w'.
Proof.
  intros A Hn Uw Ug Ng Qg Wg Hs Hq E. unfold locked in E.
  assert (Some (s ← f (stats a); Done (set_stats s a, g)) = Some (Done (a', w')) → effect n q w a a' w') as Hok.
  { destruct (f (stats a)) as [s| |] eqn:Ef; simpl; [|done..]. intros [= <- <-]. destruct (Hs s eq_refl) as [S1 S2].
    split; simpl; [|done| | |done|done|by destruct w| ].
    - destruct A. split; simpl; auto.
    - right. unfold flow. simpl. lia.
    - lia.
    - done. }
  destruct l; [by apply Hok..|]. unfold next in E. simplify_eq. apply effect_same; try done; auto.
  - simpl. lia.
  - intros Hq'. by apply Hq in Hq'.
Qed.

Lemma effect_send n (q : bool) l id head seq a a' w' : app_ok n a → in_uint 32 id → in_uint 32 seq → (q → calm (Work 0 l)) →
  send_packet id head seq l a = Some (Done (a', w')) → effect n q (Producer id (PSend head seq)) a a' w'.
Proof.
  intros A Hi Hs Hq E. destruct l as [| |e]; simpl in E; unfold next in E.
  - destruct (FifoFacts.fifo_send_cases (queue a) (build_packet id seq)) as [(Hsh & Es)|[(Hsh & Hu & Es)|(Hsh & Hu & Es)]].
    + split; [rewrite (ao_bound n a A); apply A|]. rewrite (ao_msg n a A). eapply Forall_impl; [apply A|]. apply packet_ok_length.
    + rewrite (ao_msg n a A). apply build_packet_length.
    + rewrite Es in E. simplify_eq. apply effect_same; simpl; auto; rewrite ?Hsh; done.
    + by rewrite Es in E.
    + rewrite Es in E. simplify_eq. unfold FifoFacts.used in Hu.
      split; simpl; [|done| |done|done|by rewrite Hsh|done|done].
      * destruct A as [B1 B2 B3 B4 B5 B6 B7]. split; simpl; auto with pipeline.
        -- rewrite length_app. simpl. lia.
        -- apply Forall_app. split; [done|]. constructor; [|done]. by exists id, seq.
      * right. unfold flow. simpl. rewrite length_app. simpl. lia.
  - simplify_eq. apply effect_same; simpl; auto; done.
  - destruct e; simplify_eq; (apply effect_same; simpl; auto; solve [done | intros Hq'; by apply Hq in Hq']).
Qed.

Lemma effect_receive n (q : bool) l m a a' w' : app_ok n a → Z.of_nat (length m) = PACKET_SIZE → (q → calm (Work 0 l)) →
  receive m l a = Some (Done (a', w')) → effect n q (Consumer (CRecv m)) a a' w'.
Proof.
  intros A Hm Hq E. destruct l as [| |e]; simpl in E; unfold next in E.
  - destruct (FifoFacts.fifo_recv_cases (queue a) m) as [(Hi & Hsh & Er)|[(Hi & Hsh & Er)|(x & xs & Hi & Er)]].
    + by rewrite (ao_msg n a A).
    + rewrite Er in E. simplify_eq. apply effect_same; simpl; auto; rewrite ?Hsh; done.
    + by rewrite Er in E.
    + rewrite Er in E. simplify_eq. pose proof (ao_items n a A) as Hx. rewrite Hi in Hx. inversion_clear Hx as [|? ? Px Pxs].
      split; simpl; [|done| |done|done|done|done|done].
      * destruct A as [B1 B2 B3 B4 B5 B6 B7]. rewrite Hi in B3. simpl in B3. split; simpl; auto with pipeline. lia.
      * right. unfold flow. simpl. rewrite Hi. simpl. lia.
  - simplify_eq. apply effect_same; simpl; auto; done.
  - destruct e; simplify_eq; (apply effect_same; simpl; auto; solve [done | intros Hq'; by apply Hq in Hq']).
Qed.

(** *** A step of a worker *)

Lemma count_ok n a : app_ok n a → Z.of_nat n < 2 ^ 32 - 1 → ∀ f,
  f ∈ [count_produced; count_dropped; count_timeout; Done; count_consumed true] →
  ∃ s, f (stats a) = Done s ∧ stats_ok (S n) s.
Proof.
  intros A Hn f Hf. destruct (ao_stats n a A).
  set_unfold in Hf. destruct_or!; subst f; unfold count_produced, count_dropped, count_timeout, count_consumed;
    rewrite ?uadd_ok by lia; eexists; (split; [done|]); split; simpl; lia.
Qed.

Lemma worker_step_effect n (q : bool) w l a a' w' : app_ok n a → Z.of_nat n < 2 ^ 32 - 1 → worker_ok w →
  unready w + ready_count a ≤ Z.of_nat TOTAL_READY_TASKS → (shut a → stopped a) → (q → calm (Work 0 l)) →
  (q → quiet_ok (shut a) w) →
  worker_step w l a = Some (Done (a', w')) → effect n q w a a' w'.
Proof.
  intros A Hn W Hr Hst Hq Hf E.
  assert (∀ f s, f ∈ [count_produced; count_dropped; count_timeout; Done; count_consumed true] →
          f (stats a) = Done s → stats_ok (S n) s) as Hc.
  { intros f s Hin Es. destruct (count_ok n a A Hn f Hin) as (s' & Es' & ?). congruence. }
  destruct w as [id p|p|p|e|]; [| | | |done].
  - destruct W as [Wi Ws]. destruct p; simpl in E; unfold wait_for_start, unless_stopped, next in E.
    + eapply (effect_ready _ _ _ _ _ _ _ (Producer id PStart)); [exact A|..|exact E]; done.
    + simplify_eq. repeat case_if; apply effect_same; simpl; auto; done.
    + destruct l; simplify_eq; repeat case_if; apply effect_same; simpl; auto; done.
    + by eapply effect_send.
    + refine (effect_locked _ _ _ _ _ _ _ _ _ A _ _ _ _ _ _ _ Hq E); [done|done|by destruct head|by destruct head|by destruct head|..].
      * split; [done|]. destruct head; apply seq_ok.
      * intros s Es. split; [destruct sent; eapply Hc; eauto; set_solver|]. destruct sent, head; unfold count_produced, count_dropped in Es;
          destruct (ao_stats n a A); rewrite uadd_ok in Es by lia; simpl in Es; simplify_eq; simpl; lia.
    + simplify_eq. apply effect_same; simpl; auto; try done. rewrite has_lor. intros ->%Is_true_true. done.
    + simplify_eq. repeat case_if; apply effect_same; simpl; auto; done.
  - destruct p; simpl in E, W; unfold unless_stopped, next in E.
    + eapply (effect_ready _ _ _ _ _ _ _ (Consumer CWait)); [exact A|..|exact E]; done.
    + simplify_eq. repeat case_if; apply effect_same; simpl; auto; done.
    + simplify_eq. repeat case_if; apply effect_same; simpl; auto; done.
    + by eapply effect_receive.
    + rewrite packet_ok_verify in E by done.
      refine (effect_locked _ _ _ _ _ _ _ _ _ A _ _ _ _ _ _ _ Hq E); [done..|by apply packet_ok_length|].
      intros s Es. split; [eapply Hc; eauto; set_solver|]. unfold count_consumed in Es. destruct (ao_stats n a A).
      rewrite uadd_ok in Es by lia. simpl in *. simplify_eq. simpl. lia.
    + refine (effect_locked _ _ _ _ _ _ _ _ _ A _ _ _ _ _ _ _ Hq E); [done..|]. intros s Es. split; [eapply Hc; eauto; set_solver|].
      unfold count_timeout in Es. destruct (ao_stats n a A). rewrite uadd_ok in Es by lia. simpl in *. simplify_eq. simpl. lia.
    + simplify_eq. case_if; apply effect_same; simpl; auto; try done. intros Hq'%Hf%Hst. done.
  - destruct p; simpl in E, W; unfold wait_for_start, unless_stopped, next in E; simplify_eq.
    + eapply (effect_ready _ _ _ _ _ _ _ (Monitor MStart)); [exact A|..|exact E]; done.
    + repeat case_if; apply effect_same; simpl; auto; done.
    + repeat case_if; apply effect_same; simpl; auto; done.
    + apply effect_same; simpl; auto; done.
    + repeat case_if; apply effect_same; simpl; auto; done.
    + repeat case_match; apply effect_same; simpl; auto; done.
    + refine (effect_locked _ _ _ _ _ _ _ _ _ A _ _ _ _ _ _ _ Hq E); [done..|]. intros s Es. split; [eapply Hc; eauto; set_solver|]. by simplify_eq.
    + apply effect_same; simpl; auto; done.
  - simpl in E. unfold next in E. simplify_eq. split; simpl; auto; try done.
    destruct A. split; simpl; auto with pipeline.
Qed.

(** No step panics while fewer than [2 ^ 32 - 1] steps were made. *)
Lemma worker_step_runs n w l a r : app_ok n a → Z.of_nat n < 2 ^ 32 - 1 → worker_ok w →
  unready w + ready_count a ≤ Z.of_nat TOTAL_READY_TASKS → worker_step w l a = Some r → ∃ x, r = Done x.
Proof.
  intros A Hn W Hr E.
  assert (∀ g, signal_ready l a g = Some r → ∃ x, r = Done x) as Hs.
  { intros g. unfold signal_ready. rewrite CountingSemaphoreState.release_spec by apply A.
    destruct l; repeat case_if; simpl; intros [= <-]; eauto. }
  assert (∀ f g, f ∈ [count_produced; count_dropped; count_timeout; Done; count_consumed true] →
          locked l f a g = Some r → ∃ x, r = Done x) as Hl.
  { intros f g Hf. destruct (count_ok n a A Hn f Hf) as (s & Es & _). unfold locked. rewrite Es. destruct l; simpl; intros [= <-]; eauto. }
  destruct w as [id p|p|p|e|]; [destruct p|destruct p|destruct p| |]; simpl in E;
    try solve [eapply Hs; eauto | unfold wait_for_start, unless_stopped, next in E; simplify_eq; eauto].
  - unfold unless_stopped, next in E. destruct l; simplify_eq; eauto.
  - unfold send_packet, next in E. repeat case_match; simplify_eq; eauto.
  - eapply Hl; [|exact E]. destruct sent; set_solver.
  - unfold receive, next in E. repeat case_match; simplify_eq; eauto.
  - simpl in W. rewrite packet_ok_verify in E by done. eapply Hl; [|exact E]. set_solver.
  - eapply Hl; [|exact E]. set_solver.
  - eapply Hl; [|exact E]. set_solver.
Qed.

(** *** Sums over the workers *)

Fixpoint total (f : worker → Z) (ws : list worker) : Z := match ws with [] => 0 | w :: ws => f w + total f ws end.

Lemma total_insert f ws i w w' : ws !! i = Some w → total f (<[i:=w']> ws) = total f ws - f w + f w'.
Proof.
  revert i. induction ws as [|x ws IH]; intros [|i] E; simplify_eq/=; [lia|]. rewrite IH by done. lia.
Qed.
Lemma total_snoc f ws w : total f (ws ++ [w]) = total f ws + f w.
Proof. induction ws; simpl; lia. Qed.
Lemma total_ge f ws i w : (∀ x, 0 ≤ f x) → ws !! i = Some w → f w ≤ total f ws.
Proof.
  intros Hf. revert i. induction ws as [|x ws IH]; intros [|i] E; simplify_eq/=.
  - assert (∀ l, 0 ≤ total f l) as Hp by (intros l; induction l as [|y l IHl]; simpl; [lia|pose proof (Hf y); lia]). pose proof (Hp ws). lia.
  - pose proof (Hf x). specialize (IH i E). lia.
Qed.
Lemma total_zero f ws : Forall (λ w, f w = 0) ws → total f ws = 0.
Proof. induction 1; simpl; lia. Qed.

Lemma unready_pos w : 0 ≤ unready w.
Proof. destruct w as [? []|[]|[]| |]; simpl; lia. Qed.

(** *** The supervisor *)

Definition is_osal (e : DemoError) : Prop := match e with Osal _ _ => True | _ => False end.
Definition all_exited (c : config) : Prop := Forall (λ w, w = Exited) (workers c).

(** What the code's final checks say, true of every run. *)
Definition result_ok (c : config) (r : Res DemoError PipelineReport) : Prop :=
  match r with
  | Ok v =>
      all_exited c ∧ stopped (app c) ∧ worker_error (app c) = 0 ∧ 0 < r_consumed v ∧ r_checksum_error v = 0 ∧
      r_produced v = r_consumed v + used (app c) ∧ r_timer_fires v ≠ 0 ∧ r_monitor_samples v ≠ 0
  | Err e =>
      is_osal e ∨ (∃ reason, e = Check_ reason ∧
        (reason = "pipeline produced no packets" ∨ reason = "pipeline consumed no packets" ∨
         reason = "pipeline timer never fired" ∨ reason = "pipeline monitor never sampled stats" ∨
         reason = "pipeline consumed more than produced" ∧ worker_error (app c) ≠ 0)%string) ∨
      e = Worker (worker_error (app c)) ∧ worker_error (app c) ≠ 0
  end.

Definition quiesced (c : config) (s : Stats) : Prop := stopped (app c) ∧ all_exited c ∧ s = stats (app c).

Definition supervisor_ok (c : config) : Prop :=
  match supervisor c with
  | SInitialize | SNewQueue | SNewStats | SNewReady | SNewTimer => workers c = []
  | SSpawn k => length (workers c) = k ∧ (k < TOTAL_READY_TASKS)%nat
  | SJoinStop r => from_option is_osal True r
  | SClose r => from_option is_osal True r ∧ stopped (app c)
  | SJoinTimer r => from_option is_osal True r ∧ stopped (app c)
  | SJoin r k first =>
      from_option is_osal True r ∧ from_option is_osal True first ∧ stopped (app c) ∧
      (first = None → ∀ i w, (i < k)%nat → workers c !! i = Some w → w = Exited)
  | SRead => quiesced c (stats (app c))
  | SFires s | SSamples s _ | SWorkerError s _ _ => quiesced c s
  | SLen s _ _ e => quiesced c s ∧ e = worker_error (app c)
  | SShutdown _ r | SEnd r => result_ok c r
  | _ => True
  end.

(** A packet is counted, in the queue or on its way, unless a worker failed. *)
Definition balanced (c : config) : Prop :=
  worker_error (app c) ≠ 0 ∨ Exists failing (workers c) ∨ flow (app c) + total in_flight (workers c) = 0.

Record inv (n : nat) (quiet : bool) (c : config) : Prop := {
  i_app : app_ok n (app c);
  i_workers : Forall worker_ok (workers c);
  i_balanced : balanced c;
  i_ready : total unready (workers c) + ready_count (app c) ≤ Z.of_nat (length (workers c));
  i_length : (length (workers c) ≤ TOTAL_READY_TASKS)%nat;
  i_stop : shut (app c) → stopped (app c);
  i_supervisor : supervisor_ok c;
  i_quiet : quiet → Forall (quiet_ok (shut (app c))) (workers c);
  i_codes : quiet → worker_error (app c) = 0 ∨ worker_error (app c) = code QueueSend ∧ shut (app c);
}.

Lemma worker_unready n q c i w : inv n q c → workers c !! i = Some w →
  unready w + ready_count (app c) ≤ Z.of_nat TOTAL_READY_TASKS.
Proof.
  intros I E. pose proof (i_ready n q c I). pose proof (i_length n q c I). pose proof (total_ge unready _ _ _ unready_pos E). lia.
Qed.

(** A step of a worker: what the supervisor knows stays true. *)
Lemma supervisor_ok_worker n q c i w a' w' : inv n q c → workers c !! i = Some w → w ≠ Exited → effect n q w (app c) a' w' →
  supervisor_ok (mkConfig a' (<[i:=w']> (workers c)) (heartbeat c) (supervisor c) (trace c)).
Proof.
  intros I Ew Hw X. pose proof (i_supervisor n q c I) as HS.
  assert (all_exited c → False) as Hno.
  { unfold all_exited. rewrite Forall_lookup. intros Ha. by apply Hw, (Ha i). }
  assert (worker_error (app c) ≠ 0 → worker_error a' = worker_error (app c)) as He.
  { rewrite (e_error n q w (app c) a' w' X). destruct w; auto. intros He. by rewrite (proj2 (Z.eqb_neq _ _) He). }
  assert (∀ r, result_ok c r → result_ok (mkConfig a' (<[i:=w']> (workers c)) (heartbeat c) (supervisor c) (trace c)) r) as Hr.
  { intros [v|e]; simpl; [tauto|]. intros [He'|[(reason & -> & Hx)|(-> & Hx)]]; [by left|right; left|right; right].
    - exists reason. split; [done|]. destruct_or!; auto. do 4 right. destruct Hx. split; [done|]. by rewrite He.
    - by rewrite He. }
  unfold supervisor_ok in *. simpl. destruct (supervisor c); simpl in *; auto; unfold quiesced in *; simpl.
  all: try (rewrite HS in Ew; done).
  all: try (rewrite length_insert; exact HS).
  all: try tauto.
  1-2: split; [apply HS|]; apply (e_stop n q w (app c) a' w' X), HS.
  - split_and!; [apply HS|apply HS|apply (e_stop n q w (app c) a' w' X), HS|]. intros Hf j w'' Hj E. destruct HS as (_ & _ & _ & HS). apply list_lookup_insert_Some in E as [(<- & _ & _)|(_ & E)].
    + exfalso. by apply Hw, (HS Hf i).
    + by apply (HS Hf j).
Qed.


Lemma exec_worker_inv n q c i w l a' w' : inv n q c → Z.of_nat n < 2 ^ 32 - 1 → (q → calm (Work i l)) → workers c !! i = Some w →
  worker_step w l (app c) = Some (Done (a', w')) →
  inv (S n) q (mkConfig a' (<[i:=w']> (workers c)) (heartbeat c) (supervisor c) (trace c)).
Proof.
  intros I Hn Hq Ew E. pose proof I as [A W B R L St Su Qw Qc].
  assert (w ≠ Exited) as Hw by (intros ->; done).
  assert (effect n q w (app c) a' w') as X.
  { eapply worker_step_effect; eauto; [by eapply Forall_lookup_1|by eapply worker_unready|].
    intros Hq'. by eapply (Forall_lookup_1 _ _ _ _ (Qw Hq')). }
  pose proof (supervisor_ok_worker n q c i w a' w' I Ew Hw X) as Su'.
  destruct X as [X1 X2 X3 X4 X5 X6 X7 X8]. split; simpl; auto.
  - by apply Forall_insert.
  - unfold balanced in *. simpl. rewrite (total_insert _ _ _ _ _ Ew). destruct (failing w) eqn:Fw.
    { left. destruct w; try done. rewrite X7. case_if; bool_to_prop; [by destruct e|done]. }
    destruct B as [B|[B|B]].
    + left. rewrite X7. by destruct w.
    + right. left. apply Exists_exists in B as (x & Hx & Fx). apply list_elem_of_lookup in Hx as (j & Ej). apply Exists_exists. exists x.
      split; [|done]. apply list_elem_of_lookup. exists j. rewrite list_lookup_insert_ne; [done|]. intros ->. simplify_eq. by rewrite Fw in Fx.
    + right. destruct X3 as [Fw'|X3]; [left|right; lia]. apply Exists_exists. exists w'. split; [|done].
      apply list_elem_of_lookup. exists i. apply list_lookup_insert_eq. by eapply lookup_lt_Some.
  - rewrite (total_insert _ _ _ _ _ Ew), length_insert. lia.
  - by rewrite length_insert.
  - rewrite X6. auto.
  - intros Hq'. rewrite X6. apply Forall_insert; auto.
  - intros Hq'. rewrite X6, X7. destruct w; auto. pose proof (Forall_lookup_1 _ _ _ _ (Qw Hq') Ew) as [-> Hs].
    destruct (Qc Hq') as [->|[-> ?]]; simpl; auto.
Qed.

(** Changes of the supervisor that leave the shared state and the workers alone. *)
Lemma inv_goto n q c s t : inv n q c → supervisor_ok (mkConfig (app c) (workers c) (heartbeat c) s t) →
  ∀ h, inv (S n) q (mkConfig (app c) (workers c) h s t).
Proof. intros [A W B R L St Su Qw Qc] Hs h. split; simpl; auto with pipeline. Qed.

(** A change of the shared state by the supervisor or the timer. *)
Lemma inv_on_app n q c a s t h : inv n q c → app_ok (S n) a → stats a = stats (app c) → Fifo.items (queue a) = Fifo.items (queue (app c)) →
  worker_error a = worker_error (app c) → ready_count a ≤ ready_count (app c) → (shut a → stopped a) → (shut (app c) → shut a) →
  supervisor_ok (mkConfig a (workers c) h s t) → inv (S n) q (mkConfig a (workers c) h s t).
Proof.
  intros [A W B R L St Su Qw Qc] Ha Es Ei Ee Er Hst Hsh Hs. split; simpl; auto.
  - unfold balanced, flow in *. simpl. by rewrite Es, Ei, Ee.
  - lia.
  - intros Hq. eapply Forall_impl; [by apply Qw|]. intros [| [] | |e|]; simpl; auto. intros [? ?]. auto.
  - intros Hq. rewrite Ee. destruct (Qc Hq) as [?|[? ?]]; auto.
Qed.

(** Once all workers have ended nothing is on its way. *)
Lemma exited_flow n q c : inv n q c → all_exited c → worker_error (app c) ≠ 0 ∨ flow (app c) = 0.
Proof.
  intros I Ha. destruct (i_balanced n q c I) as [B|[B|B]]; [by left| |right].
  - apply Exists_exists in B as (x & Hx & Fx). unfold all_exited in Ha. rewrite Forall_forall in Ha. by rewrite (Ha x Hx) in Fx.
  - rewrite total_zero in B; [lia|]. eapply Forall_impl; [exact Ha|]. by intros ? ->.
Qed.

Lemma conclude_ok n q c s f m : inv n q c → quiesced c s → result_ok c (conclude s f m (worker_error (app c)) (used (app c))).
Proof.
  intros I (Hsh & Ha & ->). pose proof (exited_flow n q c I Ha) as Hf. pose proof (i_app n q c I) as A. destruct (ao_stats n _ A).
  unfold conclude, pipeline_invariant_failure.
  repeat (case_if; bool_to_prop; [simpl; right; try (left; eexists; split; [done|]; tauto)|]).
  - left. eexists. split; [done|]. do 4 right. split; [done|]. destruct Hf as [?|Hf]; [done|]. unfold flow in Hf. lia.
  - by right.
  - pose proof (ao_len n _ A). lia.
  - simpl. destruct Hf as [?|Hf]; [done|]. unfold flow in Hf. split_and!; auto; lia.
Qed.

Lemma spawned_ok k : (k < TOTAL_READY_TASKS)%nat → let w := (spawn k).1.1 in
  worker_ok w ∧ in_flight w = 0 ∧ unready w = 1 ∧ ∀ b, quiet_ok b w.
Proof.
  intros Hk. do 6 (destruct k as [|k]; [simpl; unfold in_uint; split_and!; done || lia|]). unfold TOTAL_READY_TASKS in Hk. simpl in Hk. lia.
Qed.

Lemma pipe_inv_spawn n q c w s t h : inv n q c → (length (workers c) < TOTAL_READY_TASKS)%nat →
  worker_ok w ∧ in_flight w = 0 ∧ unready w = 1 ∧ (∀ b, quiet_ok b w) →
  supervisor_ok (mkConfig (app c) (workers c ++ [w]) h s t) → inv (S n) q (mkConfig (app c) (workers c ++ [w]) h s t).
Proof.
  intros [A W B R L St Su Qw Qc] Hl (W1 & W2 & W3 & W4) Hs. split; simpl; auto with pipeline.
  - apply Forall_app. auto.
  - unfold balanced in *. simpl. rewrite total_snoc, W2, Z.add_0_r, Exists_app. tauto.
  - rewrite total_snoc, length_app. simpl. lia.
  - rewrite length_app. simpl. lia.
  - intros Hq. apply Forall_app. auto.
Qed.

Lemma app_ok_fetch_or n a b : app_ok n a → app_ok n (fetch_or b a).
Proof. intros []. by split. Qed.

Lemma stopped_fetch_or a : stopped (fetch_or STOP_BIT a).
Proof. unfold fetch_or. cbn [events]. rewrite has_lor. apply orb_True. by right. Qed.

(** The supervisor sets a bit. *)
Lemma inv_fetch_or n q c b s t h : inv n q c → supervisor_ok (mkConfig (fetch_or b (app c)) (workers c) h s t) →
  inv (S n) q (mkConfig (fetch_or b (app c)) (workers c) h s t).
Proof.
  intros I Hs. apply inv_on_app; auto; [apply app_ok_S, app_ok_fetch_or, I|simpl; lia|].
  simpl. intros Hsh. rewrite has_lor. apply orb_True. left. by apply (i_stop n q c I).
Qed.

Ltac inv_goto_solve := apply inv_goto; [done|]; unfold supervisor_ok; simpl; solve [done | by left | tauto].

Lemma supervisor_step_inv n q c l c' : inv n q c → supervisor_step l c = Some (Done c') → inv (S n) q c'.
Proof.
  intros I E. pose proof (i_supervisor n q c I) as Su. pose proof (i_app n q c I) as A.
  unfold supervisor_step, run_with_reporter, supervisor_main, delay_reporting, spawn_workers, stop_and_join, shutdown_settled, supervisor_ok in *. destruct (supervisor c) eqn:Es.
  all: unfold read_stats, attempt_timed, attempt, go, goto, report, on_app in E; simpl in E.
  all: try solve [destruct l; simplify_eq; inv_goto_solve].
  - destruct l; simplify_eq; (apply inv_goto; [done|]; simpl; rewrite ?Su; first [by left | split; [done|unfold TOTAL_READY_TASKS; simpl; lia]]).
  - destruct Su as [El Hk]. pose proof (spawned_ok k Hk) as Hw. destruct (spawn k) as [[w name] context]. simpl in Hw.
    destruct l; simplify_eq; try inv_goto_solve.
    all: apply pipe_inv_spawn; [done|done|done|]; destruct (length (workers c) =? 5)%nat eqn:Ek; unfold supervisor_ok; simpl; [done|];
      rewrite length_app; apply Nat.eqb_neq in Ek; unfold TOTAL_READY_TASKS in *; simpl in *; lia.
  - rewrite CountingSemaphoreState.try_acquire_spec in E by apply A. destruct l as [| |e]; [|simplify_eq; inv_goto_solve..].
    case_if; [|done]. bool_to_prop. simplify_eq. apply inv_on_app; try done; simpl; [|lia|apply I|by destruct n0 as [|[]]].
    apply app_ok_S. destruct A as [B1 B2 B3 B4 B5 B6 B7]. split; simpl; auto. unfold CountingSemaphoreState.wf in *. simpl. lia.
  - simplify_eq. by apply inv_fetch_or.
  - destruct l; simplify_eq; (apply inv_goto; [done|]); [by case_if|by destruct p|by case_if].
  - simplify_eq. by apply inv_fetch_or.
  - simplify_eq. apply inv_fetch_or; [done|]. split; [exact Su|apply stopped_fetch_or].
  - destruct Su. destruct l; simplify_eq; try inv_goto_solve; (apply inv_on_app; try done; apply app_ok_S; destruct A; by split).
  - simplify_eq. destruct Su. apply inv_goto; [done|]. simpl. split_and!; [done..|]. intros. lia.
  - destruct Su as (S1 & S2 & S3 & S4). destruct (workers c !! k) as [w|] eqn:Ew.
    + assert (∀ e, is_osal (default (Osal "pipeline.join" e) first_error)) as Hd by (intros e; by destruct first_error).
      destruct l as [| |e]; [destruct w; [done..|]|..]; simplify_eq; (apply inv_goto; [done|]); unfold supervisor_ok; simpl;
        (split_and!; [done|auto|done|]); intros Hf i w0 Hi Eiw; try done.
      destruct (decide (i = k)) as [->|]; [congruence|]. apply (S4 Hf i w0); [lia|done].
    + simplify_eq. apply inv_goto; [done|]. destruct body_error; [by left|]. destruct first_error; [by left|].
      unfold supervisor_ok, quiesced. simpl. split_and!; [done| |done]. apply Forall_lookup. intros i w Hi. apply (S4 eq_refl i w); [|done].
      apply lookup_ge_None in Ew. apply lookup_lt_Some in Hi. simpl in *. lia.
  - destruct Su as [Hq ->]. destruct l; simplify_eq; try inv_goto_solve.
    all: apply inv_goto; [done|]; by eapply (conclude_ok n q c).
  - destruct l, polls; simplify_eq; (apply inv_goto; [done|]; simpl; destruct result; [..|exact Su]; solve [exact Su|by left]).
Qed.

(** *** Every reachable configuration *)

Lemma inv_initial q : inv 0 q initial.
Proof.
  split; simpl; auto; try done; [|unfold TOTAL_READY_TASKS; lia]. by do 2 right.
Qed.

Lemma pipe_exec_inv n (q : bool) c x c' : inv n q c → Z.of_nat n < 2 ^ 32 - 1 → (q → calm x) → exec c x = Some (Done c') → inv (S n) q c'.
Proof.
  intros I Hn Hq E. destruct x as [l|i l|]; simpl in E.
  - by eapply supervisor_step_inv.
  - destruct (workers c !! i) as [w|] eqn:Ew; [|done]. simpl in E. destruct (worker_step w l (app c)) as [[[a' w']| |]|] eqn:Es; simplify_eq/=.
    by eapply exec_worker_inv.
  - case_if; [|done]. simplify_eq. pose proof (i_app n q c I) as A. apply inv_on_app; try done; [|apply I|].
    + apply app_ok_S. destruct A. by split.
    + apply (i_supervisor n q c I).
Qed.

Lemma exec_runs n q c x r : inv n q c → Z.of_nat n < 2 ^ 32 - 1 → exec c x = Some r → ∃ c', r = Done c'.
Proof.
  intros I Hn E. pose proof (i_app n q c I) as A. destruct x as [l|i l|]; simpl in E.
  - unfold supervisor_step, run_with_reporter, supervisor_main, delay_reporting, spawn_workers, stop_and_join, shutdown_settled, read_stats, attempt_timed, attempt, go in E. rewrite CountingSemaphoreState.try_acquire_spec in E by apply A.
    destruct (supervisor c); simpl in E; try (repeat case_match; simplify_eq; eauto; done).
  - destruct (workers c !! i) as [w|] eqn:Ew; [|done]. simpl in E. destruct (worker_step w l (app c)) as [r'|] eqn:Es; [|done].
    destruct (worker_step_runs n w l (app c) r') as ([a' w'] & ->); auto; [by eapply Forall_lookup_1, Ew; apply I|by eapply worker_unready|].
    simplify_eq/=. eauto.
  - case_if; simplify_eq. eauto.
Qed.

Lemma pipe_reachable_inv q n c : reachable q n c → Z.of_nat n < 2 ^ 32 → inv n q c.
Proof.
  induction 1 as [|n c x c' R IH E Hq]; intros Hn; [apply inv_initial|].
  eapply pipe_exec_inv; eauto; [apply IH|]; lia.
Qed.

(** C13: Safety: fewer than [2 ^ 32 - 1] steps into any run no step panics, every packet in the
    queue verifies, the queue keeps its capacity, no checksum error was counted,
    and unless a worker failed the packets counted as produced or just sent are
    those counted as consumed, just received or still in the queue.  If the
    demo reports success all workers have ended without an error, something was
    consumed and produced minus consumed is what the queue still holds; it never
    fails with a checksum mismatch or an exceeded capacity, and with more
    consumed than produced only if a worker failed.  Without failing calls a
    worker's only possible error is a send to the queue that was closed. *)
Theorem pipeline_safe quiet n c : reachable quiet n c → Z.of_nat n < 2 ^ 32 - 1 →
  (∀ x r, exec c x = Some r → ∃ c', r = Done c') ∧
  Forall (λ m, verify_packet m = true) (Fifo.items (queue (app c))) ∧ used (app c) ≤ QUEUE_CAPACITY ∧
  checksum_error (stats (app c)) = 0 ∧
  (worker_error (app c) = 0 → Forall (λ w, failing w = false) (workers c) →
   produced (stats (app c)) + total in_flight (workers c) = consumed (stats (app c)) + used (app c)) ∧
  (∀ v, supervisor c = SEnd (Ok v) →
   Forall (λ w, w = Exited) (workers c) ∧ worker_error (app c) = 0 ∧ 0 < r_consumed v ∧ r_produced v = r_consumed v + used (app c)) ∧
  (∀ e, supervisor c = SEnd (Err e) →
   e ≠ Check_ "pipeline payload checksum mismatch" ∧ e ≠ Check_ "queue exceeded capacity" ∧
   (e = Check_ "pipeline consumed more than produced" → worker_error (app c) ≠ 0)) ∧
  (quiet → worker_error (app c) = 0 ∨ worker_error (app c) = code QueueSend ∧ shut (app c)).
Proof.
  intros R Hn. pose proof (pipe_reachable_inv quiet n c R ltac:(lia)) as I. pose proof (i_app n quiet c I) as A.
  pose proof (i_supervisor n quiet c I) as Su. unfold supervisor_ok in Su.
  split_and!; [intros x r; by apply (exec_runs n quiet)| |apply A|apply A| | | |apply I].
  - eapply Forall_impl; [apply A|]. apply packet_ok_verify.
  - intros He Hf. destruct (i_balanced n quiet c I) as [?|[B|B]]; [done| |unfold flow in B; lia].
    apply Exists_exists in B as (x & Hx & Fx). rewrite Forall_forall in Hf. by rewrite (Hf x Hx) in Fx.
  - intros v Ev. rewrite Ev in Su. destruct Su as (? & ? & ? & ? & ? & ? & ?). done.
  - intros e Ee. rewrite Ee in Su. destruct Su as [He|[(reason & -> & Hr)|(-> & ?)]]; [by destruct e| |done].
    destruct_or!; destruct_and?; subst; done.
Qed.

(** *** Termination after the stop *)

(** How many more steps a worker can take once [STOP] is set. *)
Definition rank (w : worker) : Z :=
  match w with
  | Producer _ p => match p with PReady => 2 | PStart => 1 | PHead _ => 3 | PSend _ _ => 5 | PCount _ _ _ => 4 | PGo _ => 2 | PLoop _ => 1 end
  | Consumer p => match p with CReady => 2 | CWait => 1 | CLoop _ => 1 | CRecv _ => 3 | CCount _ => 2 | CIdle _ => 2 | CClosed => 1 end
  | Monitor p =>
      match p with MReady => 2 | MStart => 1 | MLoop => 1 | MFires => 2 | MPoll _ => 1 | MPollFires _ => 4 | MSample => 3 | MCount => 2 end
  | Failing _ => 1
  | Exited => 0
  end.

Lemma rank_bounds w : 0 ≤ rank w ≤ 5.
Proof. destruct w as [? []|[]|[]| |]; simpl; lia. Qed.

Lemma worker_step_rank w l a a' w' : stopped a → worker_step w l a = Some (Done (a', w')) → rank w' < rank w.
Proof.
  intros Hs%Is_true_true E. assert (∀ g, rank g ≤ 1 → signal_ready l a g = Some (Done (a', w')) → rank w' < 2) as Hr.
  { intros g Hg Eg. unfold signal_ready, next in Eg.
    destruct l; [destruct (CountingSemaphoreState.release _) as [[[] ?]| |]..|]; simplify_eq/=; lia. }
  assert (∀ f g z, 1 < z → rank g < z → locked l f a g = Some (Done (a', w')) → rank w' < z) as Hl.
  { intros f g z Hz Hg Eg. unfold locked, next in Eg. destruct l; [destruct (f _)..|]; simplify_eq/=; lia. }
  destruct w as [id p|p|p|e|]; [destruct p|destruct p|destruct p| |]; simpl in E;
    unfold wait_for_start, unless_stopped, send_packet, receive, next in E; rewrite ?Hs in E;
    try solve [eapply Hr; [|exact E]; simpl; lia
              | eapply Hl; [..|exact E]; simpl; repeat case_match; simpl; lia
              | repeat case_match; simplify_eq/=; lia].
Qed.

(** A worker waits only in the queue: not once it is closed, and otherwise no longer
    than the timeout of the call. *)
Lemma worker_step_enabled w a : w ≠ Exited →
  (shut a → worker_step w Smooth a ≠ None) ∧ worker_step w Late a ≠ None.
Proof.
  intros Hw. destruct w as [id p|p|p|e|]; [destruct p|destruct p|destruct p| |]; try done; simpl; unfold next.
  - split; [|done]. intros Hs%Is_true_true. unfold Fifo.send. rewrite Hs. by case_if.
  - split; [|done]. intros Hs%Is_true_true. unfold Fifo.recv. rewrite Hs. case_if; [done|]. by destruct (Fifo.items (queue a)).
Qed.

Definition stage (s : supervisor_pc) : Z :=
  match s with
  | SJoinTimer _ => 514
  | SJoin _ k _ => 507 + Z.of_nat (TOTAL_READY_TASKS - k)
  | SRead => 506 | SFires _ => 505 | SSamples _ _ => 504 | SWorkerError _ _ _ => 503 | SLen _ _ _ _ => 502
  | SShutdown polls _ => 1 + Z.of_nat polls
  | SEnd _ => 0
  | _ => 515
  end.
Definition measure (c : config) : Z := stage (supervisor c) + total rank (workers c).
Definition closing (c : config) : Prop := stopped (app c) ∧ stage (supervisor c) ≤ 514.

Definition is_fire (x : action) : bool := match x with Fire => true | _ => false end.

Lemma supervisor_closing n q c l c' : inv n q c → closing c → supervisor_step l c = Some (Done c') →
  app c' = app c ∧ workers c' = workers c ∧ stage (supervisor c') < stage (supervisor c).
Proof.
  intros I (_ & Hst) E. pose proof (i_length n q c I) as Hlen.
  unfold supervisor_step, run_with_reporter, supervisor_main, delay_reporting, spawn_workers, stop_and_join, shutdown_settled, read_stats, attempt_timed, attempt, go, goto, report, fail_body in E.
  destruct (supervisor c) eqn:Es; simpl in Hst; try (exfalso; lia); simpl in E.
  - simplify_eq. cbn [app workers supervisor stage]. split_and!; done || lia.
  - destruct (workers c !! k) as [w|] eqn:Ew.
    + apply lookup_lt_Some in Ew. destruct l; [destruct w; [done..|]|..]; simplify_eq; cbn [app workers supervisor stage]; split_and!; try done; lia.
    + simplify_eq. destruct body_error; [|destruct first_error]; cbn [app workers supervisor stage]; split_and!; try done; unfold SETTLE_POLLS; lia.
  - destruct l; simplify_eq; cbn [app workers supervisor stage]; split_and!; try done; unfold SETTLE_POLLS; lia.
  - simplify_eq. cbn [app workers supervisor stage]. split_and!; done || lia.
  - simplify_eq. cbn [app workers supervisor stage]. split_and!; done || lia.
  - simplify_eq. cbn [app workers supervisor stage]. split_and!; done || lia.
  - destruct l; simplify_eq; cbn [app workers supervisor stage]; split_and!; try done; unfold SETTLE_POLLS; lia.
  - destruct l, polls; simplify_eq; cbn [app workers supervisor stage]; split_and!; try done; lia.
  - done.
Qed.

Lemma exec_closing n (q : bool) c x c' : inv n q c → Z.of_nat n < 2 ^ 32 - 1 → (q → calm x) → closing c → exec c x = Some (Done c') →
  closing c' ∧ if is_fire x then measure c' = measure c else measure c' < measure c.
Proof.
  intros I Hn Hq Hc E. pose proof Hc as (Hs & Hst). destruct x as [l|i l|]; simpl in E; simpl.
  - destruct (supervisor_closing n q c l c' I Hc E) as (Ea & Ew & Hlt). unfold closing, measure. rewrite Ea, Ew. split; [|lia]. split_and!; [done..|lia].
  - destruct (workers c !! i) as [w|] eqn:Ew; [|done]. simpl in E. destruct (worker_step w l (app c)) as [[[a' w']| |]|] eqn:Es; simplify_eq/=.
    pose proof (worker_step_rank w l (app c) a' w' Hs Es). unfold closing, measure. simpl. rewrite (total_insert _ _ _ _ _ Ew). split; [|lia].
    assert (effect n false w (app c) a' w') as [_ _ _ _ Xs Xh _ _].
    { refine (worker_step_effect n false w l _ _ _ (i_app n q c I) Hn _ (worker_unready n q c i w I Ew) (i_stop n q c I) _ _ Es); [|done..].
      by eapply Forall_lookup_1, Ew; apply I. }
    auto.
  - case_if; simplify_eq. done.
Qed.

Lemma work_enabled c i w l : workers c !! i = Some w → worker_step w l (app c) ≠ None → exec c (Work i l) ≠ None.
Proof. intros Ew Hs. simpl. rewrite Ew. simpl. by destruct (worker_step w l (app c)). Qed.

Lemma closing_progress c l : closing c → l = Smooth ∧ shut (app c) ∨ l = Late →
  (∀ i w, workers c !! i = Some w → w ≠ Exited → exec c (Work i l) ≠ None) ∧
  ((∀ r, supervisor c ≠ SEnd r) → exec c (Super Smooth) ≠ None ∨ ∃ i, exec c (Work i l) ≠ None).
Proof.
  intros (Hs & Hst) Hl. assert (∀ i w, workers c !! i = Some w → w ≠ Exited → exec c (Work i l) ≠ None) as Hw.
  { intros i w Ew Hne. apply (work_enabled c i w l Ew). destruct (worker_step_enabled w (app c) Hne) as [H1 H2].
    destruct Hl as [[-> Hsh]| ->]; auto. }
  split; [exact Hw|]. intros Hne. simpl. unfold supervisor_step, run_with_reporter, supervisor_main, delay_reporting, spawn_workers, stop_and_join, shutdown_settled. destruct (supervisor c) eqn:Es; simpl in Hst; try (exfalso; lia); try (by left).
  - destruct (workers c !! k) as [w|] eqn:Ew; [|by left]. assert (w = Exited ∨ w ≠ Exited) as [->|Hn] by (destruct w; auto; by right);
      [by left|right]. exists k. pose proof (Hw k w Ew Hn) as Hx. simpl in Hx. by rewrite Es in Hx.
  - by destruct (Hne result).
Qed.

(** The measure bounds what can still happen in any run. *)
Lemma run_closing (q : bool) xs n c c' : inv n q c → Z.of_nat (n + length xs) < 2 ^ 32 → (q → Forall calm xs) → closing c →
  run c xs = Some (Done c') → closing c' ∧ inv (n + length xs) q c' ∧
  Z.of_nat (length (filter (λ x, is_fire x = false) xs)) + measure c' ≤ measure c.
Proof.
  revert n c. induction xs as [|x xs IH]; intros n c I Hn Hq Hc E; simpl in *.
  - simplify_eq. rewrite Nat.add_0_r. split_and!; done || lia.
  - destruct (exec c x) as [[c1| |]|] eqn:Ex; [|done..]. assert (q → calm x) as Hx by (intros Hq'; by apply Hq, Forall_inv in Hq').
    destruct (exec_closing n q c x c1 I ltac:(lia) Hx Hc Ex) as [Hc1 Hm].
    destruct (IH (S n) c1) as (Hc' & I' & Hm'); auto; [by eapply pipe_exec_inv; eauto; lia|lia|by intros Hq'; eapply Forall_inv_tail, Hq|].
    replace (n + S (length xs))%nat with (S n + length xs)%nat by lia. split_and!; [done..|].
    rewrite filter_cons. destruct (is_fire x) eqn:Ef; simpl; lia.
Qed.

Lemma total_rank ws : 0 ≤ total rank ws ≤ 5 * Z.of_nat (length ws).
Proof. induction ws as [|w ws IH]; simpl; [lia|]. pose proof (rank_bounds w). lia. Qed.

(** C14: Liveness: once [stop_and_join] has set [STOP] and called [close], whatever
    calls fail or time out, the supervisor and the workers make at most 544 more
    steps.  If the close succeeded, a worker that has not ended is never blocked, and
    until the supervisor has returned something can always move; if it failed, the
    same holds once the timeouts of the workers' queue calls have expired: the demo
    ends. *)
Theorem pipeline_stops n c body_error xs c' : reachable false n c → supervisor c = SJoinTimer body_error →
  Z.of_nat (n + length xs) < 2 ^ 32 → run c xs = Some (Done c') →
  Z.of_nat (length (filter (λ x, is_fire x = false) xs)) ≤ 544 ∧
  ∀ l, l = Smooth ∧ shut (app c') ∨ l = Late →
  (∀ i w, workers c' !! i = Some w → w ≠ Exited → exec c' (Work i l) ≠ None) ∧
  ((∀ r, supervisor c' ≠ SEnd r) → exec c' (Super Smooth) ≠ None ∨ ∃ i, exec c' (Work i l) ≠ None).
Proof.
  intros R Es Hn E. pose proof (pipe_reachable_inv false n c R ltac:(lia)) as I. pose proof (i_supervisor n false c I) as Su.
  unfold supervisor_ok in Su. rewrite Es in Su. destruct Su as [_ Hsh].
  assert (closing c) as Hc by (split; [done|by rewrite Es]).
  destruct (run_closing false xs n c c' I Hn ltac:(done) Hc E) as (Hc' & I' & Hm).
  split; [|intros l; by apply closing_progress]. pose proof (i_length n false c I) as Hl. pose proof (total_rank (workers c)) as Ht.
  unfold measure in Hm. rewrite Es in Hm. cbn [stage] in Hm. unfold TOTAL_READY_TASKS in Hl. simpl in Hl.
  assert (0 ≤ stage (supervisor c')) by (destruct (supervisor c'); simpl; lia).
  pose proof (total_rank (workers c')). lia.
Qed.

Lemma run_reachable (q : bool) xs n c c' : reachable q n c → (q → Forall calm xs) → run c xs = Some (Done c') → reachable q (n + length xs) c'.
Proof.
  revert n c. induction xs as [|x xs IH]; intros n c R Hq E; simpl in E; [simplify_eq; by rewrite Nat.add_0_r|].
  destruct (exec c x) as [[c1| |]|] eqn:Ex; [|done..]. replace (n + length (x :: xs))%nat with (S n + length xs)%nat by (simpl; lia).
  apply (IH (S n) c1); [|by intros Hq'; eapply Forall_inv_tail, Hq|done].
  eapply reach_exec; eauto. intros Hq'. by apply Hq, Forall_inv in Hq'.
Qed.

End PipelineFacts.

(** ** Concrete runs *)

Module PipelineRuns.
Import Packet Pipeline PipelineFacts.

Definition smooth (n : nat) : list action := replicate n (Super Smooth).
Definition work (i n : nat) : list action := replicate n (Work i Smooth).
(** Creation, spawning, the ready signals and the start. *)
Definition launch : list action :=
  smooth 11 ++ ((λ i, Work i Smooth) <$> seq 0 6) ++ smooth 8.
(** A producer sends a packet and releases the consumers, one of which takes it; the
    heartbeat fires and the monitor samples. *)
Definition traffic : list action :=
  work 0 4 ++ [Work 0 Late; Work 0 Smooth] ++ work 2 4 ++ work 5 4 ++ [Fire] ++ work 5 3.
(** The phases of the supervisor pass. *)
Definition phases : list action :=
  smooth 1 ++ [Super Late] ++ smooth 1 ++ [Super Late] ++ smooth 3 ++ [Super Late].
(** Stop, close and the end of the workers. *)
Definition stop : list action := smooth 4.
Definition finish : list action := ((λ i, Work i Smooth) <$> seq 0 6) ++ smooth 14.

Definition final (xs : list action) : option supervisor_pc :=
  match run initial xs with Some (Done c) => Some (supervisor c) | _ => None end.

Example good_run :
  final (launch ++ traffic ++ phases ++ stop ++ finish) = Some (SEnd (Ok (mkReport 1 1 0 0 0 1 1))).
Proof. vm_compute. reflexivity. Qed.

(** A producer that looked at the bits before the stop and sends after the queue was
    closed records an error, and the demo fails though no call failed: unlike a
    consumer it does not look at the bits again. *)
Example stop_race :
  Forall calm (launch ++ traffic ++ phases ++ work 0 1 ++ stop ++ work 0 1 ++ finish) ∧
  final (launch ++ traffic ++ phases ++ work 0 1 ++ stop ++ work 0 1 ++ finish) = Some (SEnd (Err (Worker (code QueueSend)))).
Proof. split; [by repeat constructor|]. vm_compute. reflexivity. Qed.

(** The configuration after a list of actions. *)
Definition after (xs : list action) : config := match run initial xs with Some (Done c) => c | _ => initial end.

Lemma pipe_after_reachable (q : bool) xs : (q → Forall calm xs) → match run initial xs with Some (Done _) => True | _ => False end →
  reachable q (length xs) (after xs).
Proof.
  intros Hq H. unfold after. destruct (run initial xs) as [[c| |]|] eqn:E; try done.
  change (length xs) with (0 + length xs)%nat. eapply run_reachable; [constructor|done|done].
Qed.

Definition done_run : list action := launch ++ traffic ++ phases ++ stop ++ finish.

Lemma pipeline_safe_witness : worker_error (app (after done_run)) = 0 ∧ Forall (λ w, w = Exited) (workers (after done_run)).
Proof.
  assert (reachable true (length done_run) (after done_run)) as R by (apply pipe_after_reachable; [intros _; by repeat constructor|by vm_compute]).
  destruct (pipeline_safe true _ _ R) as (_ & _ & _ & _ & _ & H & _); [vm_compute; reflexivity|].
  destruct (H (mkReport 1 1 0 0 0 1 1)) as (? & ? & _); [vm_compute; reflexivity|]. split; assumption.
Defined.

(** The second spawn fails: the first worker is stopped and joined. *)
Definition failed_spawn : list action := smooth 6 ++ [Super (Fails Error.OutOfMemory)] ++ smooth 2.

Definition shutting_down : config := after (failed_spawn ++ work 0 2 ++ smooth 3).

Lemma pipeline_stops_witness : exec shutting_down (Super Smooth) ≠ None ∨ ∃ i, exec shutting_down (Work i Smooth) ≠ None.
Proof.
  assert (reachable false (length failed_spawn) (after failed_spawn)) as R by (apply pipe_after_reachable; [done|by vm_compute]).
  destruct (pipeline_stops _ _ (Some (Osal "pipeline.producer.spawn" Error.OutOfMemory)) (work 0 2 ++ smooth 3) shutting_down R)
    as (_ & H); [vm_compute; reflexivity|vm_compute; reflexivity|vm_compute; reflexivity|].
  apply (H Smooth); [left; split; [reflexivity|vm_compute; exact I]|]. intros r. vm_compute. congruence.
Defined.

End PipelineRuns.
