(* ===== verification/Demo.v ===== *)
(** * Demonstrations and integration cases as client programs

    [Demo]: what [queue.rs], [mutex.rs] and [semaphore.rs] of [examples/osal-demo] do
    with a running runtime (the closures they give to [with_runtime]).
    [QueueCases], [SemaphoreCases], [MutexCases]: the cases of
    [integration/freertos-qemu-mps2/rust/src/cases] that one task runs with the
    object API alone.  [Fallible] has what their bodies share, [Apps] puts them in
    one program; [Portable] runs it on the backends.

    Handles and guards are dropped where Rust drops them, on error returns too. *)

From S2P Require Import Prelude Api Buffers Client Contract Pipeline.
Import Client.
Open Scope prog_scope.

(** ** Results *)

Module Fallible.
Section Fallible.
Context {E : Type}.

(** [p.map_err(fail)?] *)
Definition try_ {R A} (p : prog (Result R)) (fail : Error.t → E) (k : R → prog (Res E A)) : prog (Res E A) :=
  r <~ p ;; match r with Ok x => k x | Err e => Ret (Err (fail e)) end.
(** [p?] where the error stays the same *)
Definition ok_or_return {R A} (p : prog (Res E R)) (k : R → prog (Res E A)) : prog (Res E A) :=
  r <~ p ;; match r with Ok x => k x | Err e => Ret (Err e) end.
(** [match p { Err(want) => {} _ => return Err(e) }] *)
Definition expect_err {R A} (p : prog (Result R)) (want : Error.t) (e : E) (k : prog (Res E A)) : prog (Res E A) :=
  r <~ p ;; match r with Err x => if Error.eqb x want then k else Ret (Err e) | Ok _ => Ret (Err e) end.
(** [if !b { return Err(e) }] *)
Definition check {A} (b : bool) (e : E) (k : prog (Res E A)) : prog (Res E A) := if b then k else Ret (Err e).

(** A constructor that must refuse its parameters. *)
Definition expect_refused {A} (c : constructor) (want : Error.t) (e : E) (k : prog (Res E A)) : prog (Res E A) :=
  r <~ call (New c) ;;
  match r with
  | Err x => if Error.eqb x want then k else Ret (Err e)
  | Ok h => call (DropHandle h) ;~ Ret (Err e)
  end.
(** An object that lives until [body] returns. *)
Definition with_new {A} (c : constructor) (fail : Error.t → E) (body : handle → prog (Res E A)) : prog (Res E A) :=
  try_ (call (New c)) fail (λ h, r <~ body h ;; call (DropHandle h) ;~ Ret r).
(** A guard that lives until [body] returns. *)
Definition with_guard {A} (h : handle) (t : Timeout.t) (fail : Error.t → E) (body : prog (Res E A)) : prog (Res E A) :=
  try_ (call (OnMutex h (Lock t))) fail (λ _, r <~ body ;; call (OnMutex h GuardDrop) ;~ Ret r).
(** [recv] into a buffer *)
Definition recv_into {A} (h : handle) (buffer : list u8) (t : Timeout.t) (fail : Error.t → E) (k : list u8 → prog (Res E A)) : prog (Res E A) :=
  r <~ call (OnQueue h (Recv buffer t)) ;; match fst r with Ok _ => k (snd r) | Err e => Ret (Err (fail e)) end.
Definition expect_recv_err {A} (h : handle) (buffer : list u8) (t : Timeout.t) (want : Error.t) (e : E) (k : list u8 → prog (Res E A)) : prog (Res E A) :=
  r <~ call (OnQueue h (Recv buffer t)) ;;
  match fst r with Err x => if Error.eqb x want then k (snd r) else Ret (Err e) | Ok _ => Ret (Err e) end.

End Fallible.
End Fallible.
Import Fallible.

(** ** [examples/osal-demo] *)

Module Demo.
Import Pipeline Packet.

Abbreviation DemoResult := (Res DemoError).

(** [demo_context] *)
Definition context (operation : string) : Error.t → DemoError := Osal operation.

(** [queue.rs] *)
Record QueueReport : Type := mkQueueReport { sent : Z; received : Z; final_len : Z }.

(** [u32::from_le_bytes] of a buffer of four bytes *)
Definition u32_of (buffer : list u8) : Z :=
  match buffer with a :: b :: c :: d :: _ => from_le_bytes a b c d | _ => 0 end.

Definition queue_body : prog (DemoResult QueueReport) :=
  with_new (NewQueue 4 4) (context "queue.create") (λ queue,
  try_ (call (OnQueue queue (Send (to_le_bytes 1) Timeout.NoWait))) (context "queue.send") (λ _,
  recv_into queue (replicate 4 Byte.x00) Timeout.NoWait (context "queue.recv") (λ buffer,
  check (u32_of buffer =? 1) (Check_ "queue payload mismatch") (
  try_ (call (OnQueue queue Len)) (context "queue.len") (λ final_len,
  check (final_len =? 0) (Check_ "queue not drained after roundtrip") (
  Ret (Ok (mkQueueReport 1 1 final_len)))))))).

(** [mutex.rs] *)
Record MutexReport : Type := mkMutexReport { final_value : Z }.

Definition mutex_body : prog (DemoResult MutexReport) :=
  with_new (NewMutex 0) (context "mutex.create") (λ counter,
  ok_or_return (with_guard counter Timeout.Forever (context "mutex.lock") (
    v <~ call (OnMutex counter GuardRead) ;;
    match uadd 32 v 1 with
    | Done v' => call (OnMutex counter (GuardWrite v')) ;~ Ret (Ok ())
    | _ => Fail "attempt to add with overflow"
    end)) (λ _,
  cloned <~ call (CloneHandle counter) ;;
  r <~ ok_or_return (with_guard cloned Timeout.Forever (context "mutex.clone.lock")
    (v <~ call (OnMutex cloned GuardRead) ;; Ret (Ok v))) (λ value,
    check (value =? 1) (Check_ "mutex clone did not share protected value") (Ret (Ok (mkMutexReport value)))) ;;
  call (DropHandle cloned) ;~ Ret r)).

(** [semaphore.rs] *)
Record SemaphoreReport : Type := mkSemaphoreReport {
  initial_count : Z; after_acquire : Z; after_release : Z; binary_roundtrip : bool;
}.

Definition count_is (pool : handle) (n : Z) (msg : string) : prog (DemoResult Z) :=
  try_ (call (OnSemaphore pool Count)) (context "semaphore.counting.count") (λ c,
  check (c =? n) (Check_ msg) (Ret (Ok c))).
Definition signaled_is (ready : handle) (b : bool) (msg : string) : prog (DemoResult ()) :=
  try_ (is_signaled ready) (context "semaphore.binary.is_signaled") (λ x,
  check (eqb x b) (Check_ msg) (Ret (Ok ()))).

Definition pool_part (pool : handle) : prog (DemoResult (Z * Z * Z)) :=
  ok_or_return (count_is pool 1 "counting semaphore initial count") (λ initial_count,
  try_ (call (OnSemaphore pool (Acquire Timeout.NoWait))) (context "semaphore.counting.acquire") (λ _,
  ok_or_return (count_is pool 0 "counting semaphore acquire did not decrement") (λ after_acquire,
  try_ (call (OnSemaphore pool Release)) (context "semaphore.counting.release") (λ _,
  ok_or_return (count_is pool 1 "counting semaphore release did not restore count") (λ after_release,
  Ret (Ok (initial_count, after_acquire, after_release))))))).
Definition ready_part (ready : handle) : prog (DemoResult ()) :=
  ok_or_return (signaled_is ready false "binary semaphore started signaled") (λ _,
  try_ (call (OnSemaphore ready Release)) (context "semaphore.binary.release") (λ _,
  ok_or_return (signaled_is ready true "binary semaphore release did not signal") (λ _,
  try_ (call (OnSemaphore ready (Acquire Timeout.NoWait))) (context "semaphore.binary.acquire") (λ _,
  signaled_is ready false "binary semaphore acquire did not clear")))).

(** On success [pool] goes first, on an error what was created last. *)
Definition semaphore_body : prog (DemoResult SemaphoreReport) :=
  try_ (call (New (NewSemaphore 2 1))) (context "semaphore.counting.create") (λ pool,
  counts <~ pool_part pool ;;
  match counts with
  | Err e => call (DropHandle pool) ;~ Ret (Err e)
  | Ok (i, a, r) =>
      ready <~ call (New NewBinary) ;;
      match ready with
      | Err e => call (DropHandle pool) ;~ Ret (Err (context "semaphore.binary.create" e))
      | Ok ready =>
          x <~ ready_part ready ;;
          match x with
          | Err e => call (DropHandle ready) ;~ call (DropHandle pool) ;~ Ret (Err e)
          | Ok _ => call (DropHandle pool) ;~ call (DropHandle ready) ;~ Ret (Ok (mkSemaphoreReport i a r true))
          end
      end
  end).

End Demo.

(** ** Integration cases *)

Module QueueCases.

Inductive QueueError : Type :=
| Create | InvalidParamNotRejected | CapacityMismatch | MessageSizeMismatch | LengthMismatch | FifoMismatch
| WrongSizePrecedence | NoWaitMapping | AfterZeroMapping
| TimeoutNotReturned | TimeoutTooEarly | StateChangedOnTimeout
| CloseNotReturned | CloseDrainMismatch
| BlockingNotBusy | BusyStateChanged | BusyHeapChanged | LastDropLeak | SuiteHeapLeak.

Definition M0 : list u8 := [Byte.x10; Byte.x00; Byte.x00; Byte.x00].
Definition M1 : list u8 := [Byte.x21; Byte.x00; Byte.x00; Byte.x01].
Definition M2 : list u8 := [Byte.x32; Byte.x00; Byte.x00; Byte.x02].
Definition payload_eq (a b : list u8) : bool :=
  (Z.of_nat (length a) =? 4) && forallb (λ x, Byte.eqb (fst x) (snd x)) (zip a b).
Definition zeros (n : nat) : list u8 := replicate n Byte.x00.
(** [.map_err(|_| e)] *)
Definition to {E} (e : E) : Error.t → E := λ _, e.

Section Cases.
Abbreviation case := (prog (Res QueueError ())).

Definition send_ok (q : handle) (m : list u8) (e : QueueError) (k : case) : case :=
  try_ (call (OnQueue q (Send m Timeout.NoWait))) (to e) (λ _, k).
Definition send_err (q : handle) (m : list u8) (t : Timeout.t) (want : Error.t) (e : QueueError) (k : case) : case :=
  expect_err (call (OnQueue q (Send m t))) want e k.
Definition close_ok (q : handle) (k : case) : case := try_ (call (OnQueue q Close)) (to CloseNotReturned) (λ _, k).
(** [q.recv(&mut buf, NoWait)] and the comparison with the expected message *)
Definition recv_is (q : handle) (buf m : list u8) (e : QueueError) (k : list u8 → case) : case :=
  recv_into q buf Timeout.NoWait (to e) (λ buf, check (payload_eq buf m) e (k buf)).
Definition len_is (q : handle) (n : Z) (e : QueueError) (k : case) : case :=
  try_ (call (OnQueue q Len)) (to Create) (λ l, check (l =? n) e k).
Definition shape_is (q : handle) (c m : Z) (k : case) : case :=
  x <~ call (OnQueue q Capacity) ;;
  check (x =? c) CapacityMismatch (
  y <~ call (OnQueue q MsgSize) ;;
  check (y =? m) MessageSizeMismatch k).
Definition empty_is (q : handle) (b : bool) (k : case) : case :=
  try_ (is_empty q) (to Create) (λ x, check (eqb x b) LengthMismatch k).
Definition full_is (q : handle) (b : bool) (k : case) : case :=
  try_ (is_full q) (to Create) (λ x, check (eqb x b) LengthMismatch k).

Definition queue_core_fifo : case :=
  expect_refused (NewQueue 0 4) Error.InvalidParameter InvalidParamNotRejected (
  expect_refused (NewQueue 4 0) Error.InvalidParameter InvalidParamNotRejected (
  with_new (NewQueue 3 4) (to Create) (λ q,
  shape_is q 3 4 (len_is q 0 LengthMismatch (empty_is q true (full_is q false (
  send_ok q M0 FifoMismatch (send_ok q M1 FifoMismatch (send_ok q M2 FifoMismatch (
  len_is q 3 LengthMismatch (full_is q true (
  recv_is q (zeros 4) M0 FifoMismatch (λ buf,
  recv_is q buf M1 FifoMismatch (λ buf,
  recv_is q buf M2 FifoMismatch (λ _,
  empty_is q true (Ret (Ok ()))))))))))))))))).

Definition queue_wrong_size_precedence : case :=
  let short := replicate 3 Byte.x01 in
  with_new (NewQueue 2 4) (to Create) (λ q,
  send_err q short Timeout.NoWait Error.InvalidMessageSize WrongSizePrecedence (
  expect_recv_err q (zeros 8) Timeout.NoWait Error.InvalidMessageSize WrongSizePrecedence (λ buf,
  close_ok q (
  send_err q short Timeout.NoWait Error.InvalidMessageSize WrongSizePrecedence (
  expect_recv_err q buf Timeout.NoWait Error.InvalidMessageSize WrongSizePrecedence (λ _, Ret (Ok ()))))))).

Definition queue_nowait_zero : case :=
  let zero := Timeout.After Duration.ZERO in
  with_new (NewQueue 1 4) (to Create) (λ q,
  expect_recv_err q (zeros 4) Timeout.NoWait Error.QueueEmpty NoWaitMapping (λ buf,
  send_ok q M0 FifoMismatch (
  send_err q M1 Timeout.NoWait Error.QueueFull NoWaitMapping (
  send_err q M1 zero Error.Timeout AfterZeroMapping (
  recv_into q buf Timeout.NoWait (to FifoMismatch) (λ buf,
  send_ok q M1 NoWaitMapping (
  recv_into q buf Timeout.NoWait (to FifoMismatch) (λ buf,
  expect_recv_err q buf zero Error.Timeout AfterZeroMapping (λ _, Ret (Ok ())))))))))).

Definition queue_close_drain : case :=
  with_new (NewQueue 2 4) (to Create) (λ q,
  send_ok q M0 FifoMismatch (send_ok q M1 FifoMismatch (
  close_ok q (
  send_err q M2 Timeout.NoWait Error.QueueClosed CloseNotReturned (
  recv_is q (zeros 4) M0 CloseDrainMismatch (λ buf,
  recv_is q buf M1 CloseDrainMismatch (λ buf,
  expect_recv_err q buf Timeout.NoWait Error.QueueClosed CloseDrainMismatch (λ _,
  len_is q 0 CloseDrainMismatch (
  close_ok q (close_ok q (
  shape_is q 2 4 (Ret (Ok ()))))))))))))).

End Cases.
End QueueCases.

Module SemaphoreCases.
Import QueueCases (to).

Inductive SemaphoreError : Type :=
| Create | InvalidParamNotRejected | CountMismatch | MaxMismatch | AcquireNotSucceeded | AcquireFailed
| OverflowNotReturned | OverflowCountChanged | NoWaitNotTimeout | AfterZeroNotTimeout | TimeoutTooEarly
| HelperSpawnFailed | AcquireNotTimeout | BlockingNotAcquired | CompletedBeforeRelease | CountNotZero
| WrongWaiterCount | CloneHeapLeak | LastDropLeak | ShutdownBusyNotReturned | BusyStateChanged | BusyHeapChanged
| ShutdownFailed | ShutdownStateInvalid | ControllerDelayFailed | BinaryNotSignaled | BinaryNotUnsignaled | PermitLeak.

Section Cases.
Abbreviation case := (prog (Res SemaphoreError ())).

Definition acquire_ok (s : handle) (t : Timeout.t) (k : case) : case :=
  try_ (call (OnSemaphore s (Acquire t))) (to AcquireFailed) (λ _, k).
Definition acquire_timeout (s : handle) (t : Timeout.t) (e : SemaphoreError) (k : case) : case :=
  expect_err (call (OnSemaphore s (Acquire t))) Error.Timeout e k.
Definition release_ok (s : handle) (k : case) : case := try_ (call (OnSemaphore s Release)) (to OverflowNotReturned) (λ _, k).
Definition release_overflow (s : handle) (k : case) : case :=
  expect_err (call (OnSemaphore s Release)) Error.Overflow OverflowNotReturned k.
Definition count_is (s : handle) (n : Z) (e : SemaphoreError) (k : case) : case :=
  try_ (call (OnSemaphore s Count)) (to AcquireFailed) (λ c, check (c =? n) e k).
Definition signaled_is (s : handle) (b : bool) (e : SemaphoreError) (k : case) : case :=
  try_ (is_signaled s) (to AcquireFailed) (λ x, check (eqb x b) e k).
Definition zero : Timeout.t := Timeout.After Duration.ZERO.

Definition counting_core : case :=
  expect_refused (NewSemaphore 0 0) Error.InvalidParameter InvalidParamNotRejected (
  expect_refused (NewSemaphore 3 4) Error.InvalidParameter InvalidParamNotRejected (
  with_new (NewSemaphore 3 2) (to Create) (λ s,
  m <~ call (OnSemaphore s MaxCount) ;;
  check (m =? 3) MaxMismatch (
  count_is s 2 CountMismatch (
  acquire_ok s Timeout.NoWait (count_is s 1 CountMismatch (
  release_ok s (count_is s 2 CountMismatch (Ret (Ok ())))))))))).

Definition counting_overflow : case :=
  with_new (NewSemaphore 2 2) (to Create) (λ s,
  release_overflow s (count_is s 2 OverflowCountChanged (Ret (Ok ())))).

Definition counting_nowait_zero : case :=
  with_new (NewSemaphore 2 0) (to Create) (λ s,
  acquire_timeout s Timeout.NoWait NoWaitNotTimeout (
  acquire_timeout s zero AfterZeroNotTimeout (
  with_new (NewSemaphore 2 2) (to Create) (λ s2,
  acquire_ok s2 Timeout.NoWait (acquire_ok s2 zero (
  count_is s2 0 CountMismatch (Ret (Ok ())))))))).

Definition binary_core : case :=
  with_new NewBinary (to Create) (λ s,
  signaled_is s false BinaryNotUnsignaled (
  release_ok s (signaled_is s true BinaryNotSignaled (
  acquire_ok s Timeout.NoWait (signaled_is s false BinaryNotUnsignaled (Ret (Ok ()))))))).

Definition binary_overflow : case :=
  with_new NewBinary (to Create) (λ s,
  release_ok s (release_overflow s (signaled_is s true BinaryNotSignaled (Ret (Ok ()))))).

Definition binary_nowait_zero : case :=
  with_new NewBinary (to Create) (λ s,
  acquire_timeout s Timeout.NoWait NoWaitNotTimeout (
  acquire_timeout s zero AfterZeroNotTimeout (
  release_ok s (acquire_ok s Timeout.NoWait (
  release_ok s (acquire_ok s zero (Ret (Ok ())))))))).

End Cases.
End SemaphoreCases.

Module MutexCases.
Import QueueCases (to).

Inductive MutexError : Type :=
| Create | CloneHeapLeak | FirstLock | SecondLock | ThirdLock | ValueMismatch | LastDropLeak | RelockNotFailed
| RelockAfterDrop | NoWaitNotFailed | AfterZeroNotTimeout | TimeoutNotFailed | ElapsedTooShort
| BlockingNotAcquired | ForeverTimeout | AcquiredBeforeRelease | BlockingValueUnchanged
| ShutdownBusyNotReturned | BusyStateChanged | BusyHeapChanged | ShutdownFailed | ShutdownStateInvalid
| ControllerDelayFailed | HelperSpawnFailed.

(** A second guard would be dropped with the value of the [match]. *)
Definition mutex_non_recursive : prog (Res MutexError ()) :=
  with_new (NewMutex 1) (to Create) (λ m,
  ok_or_return (with_guard m Timeout.NoWait (to FirstLock) (
    r <~ call (OnMutex m (Lock Timeout.NoWait)) ;;
    match r with
    | Err Error.LockFailed => Ret (Ok ())
    | Err _ => Ret (Err RelockNotFailed)
    | Ok _ => call (OnMutex m GuardDrop) ;~ Ret (Err RelockNotFailed)
    end)) (λ _,
  with_guard m Timeout.NoWait (to RelockAfterDrop) (Ret (Ok ())))).

End MutexCases.

(** ** All of them in one program *)

Module Apps.
Import Demo.

(** A program with a runtime of its own. *)
Definition in_runtime {A} (p : prog A) : prog A :=
  unwrap Initialize ;~ r <~ p ;; unwrap Shutdown ;~ Ret r.

(** The demonstrations one after the other, then the cases in a runtime of their own. *)
Definition demos : prog (Res Pipeline.DemoError QueueReport * Res Pipeline.DemoError MutexReport * Res Pipeline.DemoError SemaphoreReport) :=
  a <~ in_runtime queue_body ;;
  b <~ in_runtime mutex_body ;;
  c <~ in_runtime semaphore_body ;;
  Ret (a, b, c).
Definition queue_cases : prog (list (Res QueueCases.QueueError ())) :=
  a <~ QueueCases.queue_core_fifo ;;
  b <~ QueueCases.queue_wrong_size_precedence ;;
  c <~ QueueCases.queue_nowait_zero ;;
  d <~ QueueCases.queue_close_drain ;;
  Ret [a; b; c; d].
Definition semaphore_cases : prog (list (Res SemaphoreCases.SemaphoreError ())) :=
  a <~ SemaphoreCases.counting_core ;;
  b <~ SemaphoreCases.counting_overflow ;;
  c <~ SemaphoreCases.counting_nowait_zero ;;
  d <~ SemaphoreCases.binary_core ;;
  e <~ SemaphoreCases.binary_overflow ;;
  f <~ SemaphoreCases.binary_nowait_zero ;;
  Ret [a; b; c; d; e; f].

Definition apps :=
  d <~ demos ;;
  c <~ in_runtime (
    q <~ queue_cases ;;
    s <~ semaphore_cases ;;
    m <~ MutexCases.mutex_non_recursive ;;
    Ret (q, s, m)) ;;
  Ret (d, c).

(** Two objects, two handles to one, sixteen bytes, eight waits of zero seconds. *)
Definition needs : Spec.limits := Spec.mkLimits 2 2 16 0 8.

(** What the demonstrations report. *)
Definition reports :
    Res Pipeline.DemoError QueueReport * Res Pipeline.DemoError MutexReport * Res Pipeline.DemoError SemaphoreReport :=
  (Ok (mkQueueReport 1 1 0), Ok (mkMutexReport 1), Ok (mkSemaphoreReport 1 0 1 true)).

Lemma spec_apps : ∃ a, Spec.run needs apps Spec.start =
  Some ((reports, (replicate 4 (Ok ()), replicate 6 (Ok ()), Ok ())), a) ∧ Spec.running a = false ∧ Spec.objects a = ∅.
Proof. eexists. split; [vm_compute; reflexivity|done]. Qed.

End Apps.
