(* ===== verification/Portable.v ===== *)
(** * The contract suite, the demonstrations and the cases on the backends

    [crates/osal-testkit/src/contract], [examples/osal-demo] and the integration
    cases, run on the models of the mock, the POSIX and the FreeRTOS backend (over
    its simulated kernel), each from the start of its process. *)

From S2P Require Import Prelude Api Buffers Time Runtime Mock PosixSys PosixTask PosixObjects PosixLock FixtureWait Client Contract MockClient PosixClient FreeRtosClient Demo.

Module Portable.
Import PosixObjects.
Import PosixTime (timespec).

Section Portable.
Context `{Arch} {K N : Type} `{!Pthread K} `{!ErrorCheckMutex N} `{!ErrorCheckLaws N}.
Context (start stop : Result ()) (fresh : N) (reading : nat → timespec) (wakes : nat → nat).
Context (me : Z) (wakes' : nat → nat) (start' stop' : Result ()).

(** A program ends with [r] on all three backends, with the runtime down and no
    object left. *)
Definition ends_everywhere {A} (p : Client.prog A) (r : A) (k : K) : Prop :=
  (∃ s, MockClient.on_mock p = Done (r, s) ∧
     MockClient.running (ClientRun.backend s) = false ∧ MockClient.objects (ClientRun.backend s) = ∅) ∧
  (∃ s, BackendsAgree.on_posix start stop fresh reading wakes p k = Done (r, s) ∧
     PosixClient.running (ClientRun.backend s) = false ∧ PosixClient.objects (ClientRun.backend s) = ∅) ∧
  (∃ s, FreeRtosAgrees.on_freertos me wakes' start' stop' p = Done (r, s) ∧
     FreeRtosClient.running (ClientRun.backend s) = false ∧ FreeRtosClient.objects (ClientRun.backend s) = ∅).

(** What the backends provide is at least what the programs need. *)
Lemma max_count_large : 2 ^ 30 - 1 ≤ RuntimeLifecycle.MAX_COUNT.
Proof.
  unfold RuntimeLifecycle.MAX_COUNT, RuntimeLifecycle.STATE_BITS, uint_max. rewrite Z.shiftr_div_pow2 by lia.
  apply Z.div_le_lower_bound; [lia|]. destruct usize_bits_ok as [-> | ->]; lia.
Qed.
Lemma uint_max_large : 2 ^ 32 - 1 ≤ uint_max usize_bits.
Proof. unfold uint_max. destruct usize_bits_ok as [-> | ->]; lia. Qed.

Lemma covers_all l : Spec.max_objects l ≤ 2 → Spec.max_handles l ≤ 2 → Spec.max_bytes l ≤ 32 → Spec.max_wait l ≤ 0 →
  Suite.covers l (MockClient.limits (Spec.max_waits l)) ∧ Suite.covers l (PosixClient.limits (Spec.max_waits l)) ∧
  Suite.covers l (FreeRtosClient.limits (Spec.max_waits l)).
Proof.
  intros Ho Hh Hb Hw. pose proof max_count_large. pose proof uint_max_large.
  split_and!; (split; [|split; [|split; [|split]]]); cbn [Spec.max_objects Spec.max_handles Spec.max_bytes Spec.max_wait Spec.max_waits MockClient.limits PosixClient.limits FreeRtosClient.limits];
    unfold PosixClient.MAX_WAIT, FixtureWait.MAX_WAIT; try lia.
  unfold uint_max. lia.
Qed.

(** One backend: a program that leaves the specification without objects leaves it
    so too. *)
Lemma ends_on {W} {B : Backend W} (L : @BackendLaws W B) {A} (p : Client.prog A) l r a w :
  Suite.covers l lim → ClientRun.initial (BackendLaws0:=L) w → Spec.run l p Spec.start = Some (r, a) →
  Spec.running a = false → Spec.objects a = ∅ →
  ∃ s, ClientRun.run_on p (ClientRun.mkState w ∅ 0) = Done (r, s) ∧
    up (ClientRun.backend s) = false ∧ view (ClientRun.backend s) = ∅.
Proof.
  intros Hc I E Hr Ho. apply (Suite.run_mono l lim p Hc) in E.
  destruct (ClientRun.sim_run p _ _ _ _ (ClientRun.sim_initial w I) E) as (s & Es & S). exists s.
  split; [done|]. split; [by rewrite (ClientRun.sm_up _ _ S)|]. by apply (ClientRun.sim_empty _ _ S).
Qed.

(** What the environment has to do: the timer services start and stop, native
    objects can be created, the monotonic clock is far from its end, and a take of
    the simulated kernel wakes up spuriously 2^20 times at most. *)
Definition environment : Prop :=
  start = Ok () ∧ stop = Ok () ∧ start' = Ok () ∧ stop' = Ok () ∧
  plentiful (K:=K) mutexes ∧ plentiful (K:=K) condvars ∧ owner fresh = None ∧
  (∀ i, PosixTime.valid (reading i) ∧ PosixTime.tv_sec (reading i) < PosixTime.TIME_MAX - PosixClient.MAX_WAIT) ∧
  (∀ i, Z.of_nat (wakes' i) ≤ FixtureWait.WAKES).

Lemma ends_everywhere_spec {A} (p : Client.prog A) l r a k : environment →
  Spec.max_objects l ≤ 2 → Spec.max_handles l ≤ 2 → Spec.max_bytes l ≤ 32 → Spec.max_wait l ≤ 0 →
  Z.of_nat (Spec.max_waits l) ≤ 2 ^ 16 →
  Spec.run l p Spec.start = Some (r, a) → Spec.running a = false → Spec.objects a = ∅ → ends_everywhere p r k.
Proof.
  intros (Hs & Ht & Hs' & Ht' & Hm & Hc & Hf & Hk & Hw) H1 H2 H3 H4 H5 E Hr Ho.
  destruct (covers_all l H1 H2 H3 H4) as (C1 & C2 & C3). split; [|split].
  - exact (ends_on (MockClient.mock_backend_laws _) p l r a _ C1 (MockClient.mock_initial _) E Hr Ho).
  - exact (ends_on (PosixClient.posix_backend_laws start stop fresh reading wakes _ Hs Ht Hm Hc Hf Hk) p l r a _ C2
      (PosixClient.posix_initial start stop fresh reading wakes _ Hs Ht Hm Hc Hf Hk k) E Hr Ho).
  - exact (ends_on (FreeRtosClient.freertos_backend_laws me wakes' start' stop' _ Hs' Ht' Hw H5) p l r a _ C3
      (FreeRtosClient.fr_initial me wakes' start' stop' _ Hs' Ht' Hw H5) E Hr Ho).
Qed.

(** C8: Functional: on the mock, on the POSIX backend and on the FreeRTOS backend over
    its simulated kernel, on 32- and on 64-bit targets, whatever the monotonic clock
    reads and however often the waits wake up spuriously (on the simulated kernel up
    to 2^20 times per take): every assertion of the contract suite of the runtime,
    queues, handle lifetimes, semaphores and mutexes holds, the queue, mutex and
    semaphore demonstrations return the values they report, and the eleven
    integration cases of the object API pass; no call panics or runs forever, and
    every runtime is left down with no object behind. *)
Theorem contracts_pass_on_backends k : environment →
  ends_everywhere Suite.suite () k ∧
  ends_everywhere Apps.apps (Apps.reports, (replicate 4 (Ok ()), replicate 6 (Ok ()), Ok ())) k.
Proof.
  intros Env. destruct Suite.spec_passes as (a & E & Hr & Ho), Apps.spec_apps as (a' & E' & Hr' & Ho'). split.
  - by apply (ends_everywhere_spec _ Suite.needs _ a).
  - by apply (ends_everywhere_spec _ Apps.needs _ a').
Qed.

End Portable.
End Portable.

(** ** Witness: 64-bit words, a clock that runs, waits that wake up spuriously *)

Module PortableWitness.
Import PosixClientWitness.

#[local] Existing Instance arch64.

Definition some_wakes (i : nat) : nat := (i mod 3)%nat.

Lemma contracts_pass_on_backends_witness :
  (∃ s, MockClient.on_mock Suite.suite = Done ((), s) ∧ MockClient.objects (ClientRun.backend s) = ∅) ∧
  (∃ s, BackendsAgree.on_posix (K:=Z) (N:=option Z) (Ok ()) (Ok ()) None at_second some_wakes Suite.suite 1 = Done ((), s) ∧
     PosixClient.objects (ClientRun.backend s) = ∅) ∧
  (∃ s, FreeRtosAgrees.on_freertos 1 some_wakes (Ok ()) (Ok ()) Suite.suite = Done ((), s) ∧
     FreeRtosClient.objects (ClientRun.backend s) = ∅).
Proof.
  destruct (Portable.contracts_pass_on_backends (K:=Z) (N:=option Z) (Ok ()) (Ok ()) None at_second some_wakes
              1 some_wakes (Ok ()) (Ok ()) 1) as [((s1 & E1 & _ & O1) & (s2 & E2 & _ & O2) & (s3 & E3 & _ & O3)) _].
  - split_and!; try reflexivity; try exact calm_plentiful.
    + intros i. pose proof (Nat.mod_upper_bound i 100 ltac:(lia)). unfold PosixTime.valid, at_second. simpl.
      change PosixTime.TIME_MAX with (2 ^ 63 - 1). unfold PosixClient.MAX_WAIT, PosixTime.NSEC, Duration.NANOS_PER_SEC. lia.
    + intros i. pose proof (Nat.mod_upper_bound i 3 ltac:(lia)). unfold FixtureWait.WAKES, some_wakes. lia.
  - split; [exists s1; by split|]. split; [exists s2; by split|exists s3; by split].
Defined.

End PortableWitness.
